(** * Search orchestration core: a shallow embedding and its properties

  The development follows the layout of [backend/app]:
  - [Text], [Sha256]   : the string and digest primitives the code calls;
  - [CacheUtils]       : [utils/cache_utils.py];
  - [SearchJobs]       : [utils/search_jobs.py];
  - [PayloadScrubber]  : [utils/payload_scrubber.py];
  - [Timeline]         : [utils/timeline.py];
  - [SearchService]    : [core/search_service.py];
  - [SearchEndpoints]  : [api/search_endpoints.py];
  - [SearchServiceStore], [AdminEndpoints] : the catalogue methods of
    [core/search_service.py] and [api/admin_endpoints.py];
  - [CacheAdapters]    : the in-memory adapter of [cache/adapters.py].

  Python [str] values are Rocq strings whose characters are read as the
  code points 0..255; [bytes] values are lists of bytes.  Dictionaries
  indexed by query hash or cache key are [gmap string _]; dictionaries
  that are iterated (payloads) are association lists in insertion
  order. *)

From Stdlib Require Import ZArith List String Ascii Bool Lia.
From Stdlib Require DecimalString DecimalFacts DecimalPos DecimalN.
From Stdlib Require QArith.
From stdpp Require Import base option list gmap strings.

#[local] Open Scope string_scope.
#[local] Open Scope Z_scope.
#[local] Open Scope list_scope.
#[local] Unset Default Proof Using.
Set Warnings "-register-all".

(* ===================================================================== *)
(** ** Text: the [str] methods used by the code *)
(* ===================================================================== *)

Module Text.

Definition code (c : ascii) : Z := Z.of_N (N_of_ascii c).
Definition chr (z : Z) : ascii := ascii_of_N (Z.to_N (z mod 256)).
#[global] Arguments code : simpl never.
#[global] Arguments chr : simpl never.

(** [str.isspace] on one character (also what [\s] matches). *)
Definition is_space (c : ascii) : bool :=
  let n := code c in
  ((9 <=? n) && (n <=? 13)) || ((28 <=? n) && (n <=? 32))
  || (n =? 133) || (n =? 160).

(** [str.lower] on one character. *)
Definition lower_char (c : ascii) : ascii :=
  let n := code c in
  if ((65 <=? n) && (n <=? 90))
     || ((192 <=? n) && (n <=? 222) && negb (n =? 215))
  then chr (n + 32) else c.

Fixpoint lower (s : string) : string :=
  match s with
  | EmptyString => EmptyString
  | String c r => String (lower_char c) (lower r)
  end.

Fixpoint lstrip (s : string) : string :=
  match s with
  | String c r => if is_space c then lstrip r else s
  | EmptyString => EmptyString
  end.

Fixpoint rstrip (s : string) : string :=
  match s with
  | EmptyString => EmptyString
  | String c r =>
      match rstrip r with
      | EmptyString => if is_space c then EmptyString else String c EmptyString
      | r' => String c r'
      end
  end.

(** [s.strip()] *)
Definition strip (s : string) : string := rstrip (lstrip s).

(** [re.sub(r"\s+", " ", s)]: every maximal run of white space becomes
    one space.  [in_run] tells that the previous character was white
    space, already replaced. *)
Fixpoint collapse_from (in_run : bool) (s : string) : string :=
  match s with
  | EmptyString => EmptyString
  | String c r =>
      if is_space c
      then if in_run then collapse_from true r
           else String " "%char (collapse_from true r)
      else String c (collapse_from false r)
  end.

Definition collapse_ws (s : string) : string := collapse_from false s.

(** Truthiness of a [str]. *)
Definition truthy (s : string) : bool :=
  match s with EmptyString => false | _ => true end.

(** [bytes] and the UTF-8 codec on the modelled range of code points. *)
Definition bytes := list Byte.byte.

Definition byte_of_Z (z : Z) : Byte.byte :=
  byte_of_ascii (chr z).
Definition Z_of_byte (b : Byte.byte) : Z := code (ascii_of_byte b).

Fixpoint encode_utf8 (s : string) : bytes :=
  match s with
  | EmptyString => []
  | String c r =>
      let n := code c in
      if n <? 128 then byte_of_Z n :: encode_utf8 r
      else byte_of_Z (192 + n / 64) :: byte_of_Z (128 + n mod 64)
             :: encode_utf8 r
  end.

(** A continuation byte, [10xxxxxx], and the six bits it carries. *)
Definition is_cont (y : Byte.byte) : bool :=
  (128 <=? Z_of_byte y) && (Z_of_byte y <? 192).

Definition cont_bits (y : Byte.byte) : Z := Z_of_byte y - 128.

(** [bytes.decode("utf-8")] as the list of the code points of the text;
    [None] stands for [UnicodeDecodeError].  The decoder is the strict
    one: sequences of one to four bytes, no overlong form, no surrogate
    and nothing above U+10FFFF. *)
Fixpoint decode_utf8 (b : bytes) : option (list Z) :=
  match b with
  | [] => Some []
  | x :: r =>
      let n := Z_of_byte x in
      if n <? 128 then cons n <$> decode_utf8 r
      else if (194 <=? n) && (n <=? 223) then
        match r with
        | y :: r1 =>
            if is_cont y
            then cons ((n - 192) * 64 + cont_bits y) <$> decode_utf8 r1
            else None
        | [] => None
        end
      else if (224 <=? n) && (n <=? 239) then
        match r with
        | y :: z :: r2 =>
            if is_cont y && is_cont z
               && implb (n =? 224) (160 <=? Z_of_byte y)
               && implb (n =? 237) (Z_of_byte y <? 160)
            then cons (((n - 224) * 64 + cont_bits y) * 64 + cont_bits z)
                   <$> decode_utf8 r2
            else None
        | _ => None
        end
      else if (240 <=? n) && (n <=? 244) then
        match r with
        | y :: z :: t :: r3 =>
            if is_cont y && is_cont z && is_cont t
               && implb (n =? 240) (144 <=? Z_of_byte y)
               && implb (n =? 244) (Z_of_byte y <? 144)
            then cons ((((n - 240) * 64 + cont_bits y) * 64 + cont_bits z) * 64
                       + cont_bits t) <$> decode_utf8 r3
            else None
        | _ => None
        end
      else None
  end.

(** The code points of a modelled string. *)
Definition points (s : string) : list Z :=
  List.map code (list_ascii_of_string s).

(** The text of a list of code points when it is one of the modelled
    strings: every code point is below 256. *)
Fixpoint narrow (points : list Z) : option string :=
  match points with
  | [] => Some EmptyString
  | p :: r => if p <? 256 then String (chr p) <$> narrow r else None
  end.

(** [bytes.decode("utf-8")] within the modelled strings: [None] stands
    for [UnicodeDecodeError] and also for a text that holds a code point
    above 255, which no modelled string is. *)
Definition decode_text (b : bytes) : option string :=
  decode_utf8 b ≫= narrow.

(** [str.isspace] on any code point. *)
Definition is_space_point (p : Z) : bool :=
  ((9 <=? p) && (p <=? 13)) || ((28 <=? p) && (p <=? 32))
  || (p =? 133) || (p =? 160) || (p =? 5760)
  || ((8192 <=? p) && (p <=? 8202))
  || (p =? 8232) || (p =? 8233) || (p =? 8239) || (p =? 8287)
  || (p =? 12288).

Fixpoint lstrip_points (points : list Z) : list Z :=
  match points with
  | p :: r => if is_space_point p then lstrip_points r else points
  | [] => []
  end.

Fixpoint rstrip_points (points : list Z) : list Z :=
  match points with
  | [] => []
  | p :: r =>
      match rstrip_points r with
      | [] => if is_space_point p then [] else [p]
      | r' => p :: r'
      end
  end.

(** [s.strip()] on the code points of any text. *)
Definition strip_points (points : list Z) : list Z :=
  rstrip_points (lstrip_points points).

End Text.

(* ===================================================================== *)
(** ** Sha256: [hashlib.sha256(data).hexdigest()] (FIPS 180-4) *)
(* ===================================================================== *)

Module Sha256.

Definition w32 (x : Z) : Z := x mod 2 ^ 32.
Definition add32 (x y : Z) : Z := w32 (x + y).
Definition rotr (n x : Z) : Z :=
  Z.lor (Z.shiftr x n) (w32 (Z.shiftl x (32 - n))).
Definition Ch (x y z : Z) : Z :=
  Z.lxor (Z.land x y) (Z.land (w32 (Z.lnot x)) z).
Definition Maj (x y z : Z) : Z :=
  Z.lxor (Z.lxor (Z.land x y) (Z.land x z)) (Z.land y z).
Definition bsig0 (x : Z) : Z :=
  Z.lxor (Z.lxor (rotr 2 x) (rotr 13 x)) (rotr 22 x).
Definition bsig1 (x : Z) : Z :=
  Z.lxor (Z.lxor (rotr 6 x) (rotr 11 x)) (rotr 25 x).
Definition ssig0 (x : Z) : Z :=
  Z.lxor (Z.lxor (rotr 7 x) (rotr 18 x)) (Z.shiftr x 3).
Definition ssig1 (x : Z) : Z :=
  Z.lxor (Z.lxor (rotr 17 x) (rotr 19 x)) (Z.shiftr x 10).

(** The constants of FIPS 180-4, by their definition: the first 32 bits
    of the fractional parts of the cube roots (round constants) and of
    the square roots (initial hash value) of the first primes. *)
Definition is_prime (n : Z) : bool :=
  (2 <=? n)
  && forallb (fun d => negb (n mod d =? 0))
       (List.map Z.of_nat (seq 2 (Z.to_nat n - 2))).

Definition primes : list Z :=
  List.filter is_prime (List.map Z.of_nat (seq 2 310)).

(** The integer cube root, by bisection between [lo] and [hi]. *)
Fixpoint cube_root_between (fuel : nat) (lo hi n : Z) : Z :=
  match fuel with
  | O => lo
  | S k =>
      if hi - lo <=? 1 then lo
      else
        let mid := (lo + hi) / 2 in
        if mid * mid * mid <=? n then cube_root_between k mid hi n
        else cube_root_between k lo mid n
  end.

Definition cube_root (n : Z) : Z := cube_root_between 64 0 (2 ^ 40) n.

Definition K : list Z :=
  Eval vm_compute in
    List.map (fun p => cube_root (p * 2 ^ 96) mod 2 ^ 32) primes.

Definition H0 : list Z :=
  Eval vm_compute in
    List.map (fun p => Z.sqrt (p * 2 ^ 64) mod 2 ^ 32) (firstn 8 primes).

(** Big-endian bytes of [x], [n] of them. *)
Fixpoint be_bytes (n : nat) (x : Z) : list Z :=
  match n with
  | O => []
  | S k => (Z.shiftr x (8 * Z.of_nat k)) mod 256 :: be_bytes k x
  end.

Definition pad (msg : list Z) : list Z :=
  let len := Z.of_nat (length msg) in
  let zeros := Z.to_nat ((55 - len) mod 64) in
  msg ++ [128] ++ repeat 0 zeros ++ be_bytes 8 (8 * len).

Fixpoint words (fuel : nat) (bs : list Z) : list Z :=
  match fuel, bs with
  | S k, b0 :: b1 :: b2 :: b3 :: r =>
      (b0 * 2 ^ 24 + b1 * 2 ^ 16 + b2 * 2 ^ 8 + b3) :: words k r
  | _, _ => []
  end.

(** The message schedule, newest word first while it is built. *)
Fixpoint schedule (n : nat) (rev_w : list Z) : list Z :=
  match n with
  | O => rev_w
  | S k =>
      let w := add32 (add32 (ssig1 (nth 1 rev_w 0)) (nth 6 rev_w 0))
                     (add32 (ssig0 (nth 14 rev_w 0)) (nth 15 rev_w 0)) in
      schedule k (w :: rev_w)
  end.

Record regs := Regs { ra : Z; rb : Z; rc : Z; rd : Z;
                      re : Z; rf : Z; rg : Z; rh : Z }.

Definition round (s : regs) (kw : Z * Z) : regs :=
  let t1 := add32 (add32 (add32 (rh s) (bsig1 (re s)))
                         (add32 (Ch (re s) (rf s) (rg s)) (fst kw)))
                  (snd kw) in
  let t2 := add32 (bsig0 (ra s)) (Maj (ra s) (rb s) (rc s)) in
  Regs (add32 t1 t2) (ra s) (rb s) (rc s)
       (add32 (rd s) t1) (re s) (rf s) (rg s).

Definition regs_of (h : list Z) : regs :=
  Regs (nth 0 h 0) (nth 1 h 0) (nth 2 h 0) (nth 3 h 0)
       (nth 4 h 0) (nth 5 h 0) (nth 6 h 0) (nth 7 h 0).

Definition list_of (s : regs) : list Z :=
  [ra s; rb s; rc s; rd s; re s; rf s; rg s; rh s].

Definition compress (h : list Z) (block : list Z) : list Z :=
  let w := List.rev (schedule 48 (List.rev (words 16 block))) in
  let s := fold_left round (combine K w) (regs_of h) in
  List.map (fun p => add32 (fst p) (snd p)) (combine h (list_of s)).

Fixpoint blocks (fuel : nat) (h : list Z) (bs : list Z) : list Z :=
  match fuel, bs with
  | S k, _ :: _ => blocks k (compress h (firstn 64 bs)) (skipn 64 bs)
  | _, _ => h
  end.

Definition hex_digit (d : Z) : ascii :=
  if d <? 10 then Text.chr (48 + d) else Text.chr (87 + d).

Fixpoint hex_of_bytes (bs : list Z) : string :=
  match bs with
  | [] => EmptyString
  | b :: r => String (hex_digit (b / 16))
                (String (hex_digit (b mod 16)) (hex_of_bytes r))
  end.

Definition digest (msg : list Z) : list Z :=
  let p := pad msg in
  flat_map (be_bytes 4) (blocks (length p) H0 p).

(** [sha256(data).hexdigest()] *)
Definition hexdigest (data : Text.bytes) : string :=
  hex_of_bytes (digest (List.map Text.Z_of_byte data)).

(** [sha256(s.encode("utf-8")).hexdigest()] *)
Definition sha256_hex (s : string) : string :=
  hexdigest (Text.encode_utf8 s).

End Sha256.

Example sha256_abc : Sha256.sha256_hex "abc" = "ba7816bf8f01cfea414140de5dae2223b00361a396177a9cb410ff61f20015ad".
Proof. vm_compute. reflexivity. Qed.
Example sha256_constants :
  length Sha256.K = 64%nat
  /\ nth 0 Sha256.K 0 = 0x428a2f98 /\ nth 63 Sha256.K 0 = 0xc67178f2
  /\ nth 0 Sha256.H0 0 = 0x6a09e667 /\ nth 7 Sha256.H0 0 = 0x5be0cd19.
Proof. vm_compute. repeat split; reflexivity. Qed.

Example sha256_empty : Sha256.sha256_hex "" = "e3b0c44298fc1c149afbf4c8996fb92427ae41e4649b934ca495991b7852b855".
Proof. vm_compute. reflexivity. Qed.
Example sha256_two_blocks : Sha256.sha256_hex "aaaaaaaaaaaaaaaaaaaaaaaaaaaaaaaaaaaaaaaaaaaaaaaaaaaaaaaaaaaaaaaaaaaaaa" = "6bd5e5034855a11241f0dee8fc72850ffd9955b28347a86428b5fa19119f6ad0".
Proof. vm_compute. reflexivity. Qed.

(* ===================================================================== *)
(** ** PyVal: the Python values that payloads are made of *)
(* ===================================================================== *)

Module PyVal.

(** A [float] is carried as its binary64 bit pattern; the code never
    computes with one, it only stores, compares and prints them. *)
Inductive pyfloat := Float64 (bits : Z).

Definition float_bits (f : pyfloat) : Z := let 'Float64 b := f in b.

(** [math.isfinite]: the exponent field is not all ones. *)
Definition float_finite (f : pyfloat) : bool :=
  negb ((float_bits f / 2 ^ 52) mod 2 ^ 11 =? 2047).

(** [int(f)]: the float truncated towards zero; [None] for an infinity
    ([OverflowError]) and for a NaN ([ValueError]). *)
Definition float_trunc (f : pyfloat) : option Z :=
  let exponent := (float_bits f / 2 ^ 52) mod 2 ^ 11 in
  let fraction := float_bits f mod 2 ^ 52 in
  if exponent =? 2047 then None
  else
    let significand := if exponent =? 0 then fraction else 2 ^ 52 + fraction in
    let shift := if exponent =? 0 then - 1074 else exponent - 1075 in
    let magnitude := if 0 <=? shift then significand * 2 ^ shift
                     else significand / 2 ^ (- shift) in
    Some (if (float_bits f / 2 ^ 63) mod 2 =? 1 then - magnitude else magnitude).

Inductive pyval :=
| PNone
| PBool (b : bool)
| PInt (z : Z)
| PFloat (f : pyfloat)
| PStr (s : string)
| PBytes (b : Text.bytes)
| PList (xs : list pyval)
| PTuple (xs : list pyval)
| PSet (xs : list pyval)
| PFrozenSet (xs : list pyval)
| PDict (items : list (string * pyval)).

(** [d.get(k)] on a dictionary held in insertion order. *)
Fixpoint dict_get {A} (k : string) (d : list (string * A)) : option A :=
  match d with
  | [] => None
  | (k', v) :: r => if String.eqb k k' then Some v else dict_get k r
  end.

(** [d[k] = v]: an existing key keeps its place, a new one goes last. *)
Fixpoint dict_set {A} (k : string) (v : A) (d : list (string * A))
  : list (string * A) :=
  match d with
  | [] => [(k, v)]
  | (k', v') :: r =>
      if String.eqb k k' then (k, v) :: r else (k', v') :: dict_set k v r
  end.

(** [d.pop(k, None)] *)
Fixpoint dict_pop {A} (k : string) (d : list (string * A))
  : list (string * A) :=
  match d with
  | [] => []
  | (k', v') :: r =>
      if String.eqb k k' then r else (k', v') :: dict_pop k r
  end.

(** [dict(pairs)] and [d.update(pairs)] *)
Definition dict_update {A} (d : list (string * A)) (pairs : list (string * A))
  : list (string * A) :=
  fold_left (fun acc kv => dict_set (fst kv) (snd kv) acc) pairs d.

Definition dict_of_pairs {A} (pairs : list (string * A)) : list (string * A) :=
  dict_update [] pairs.

(** Truthiness, as [if v:] and [v or default] read it. *)
Definition truthy (v : pyval) : bool :=
  match v with
  | PNone => false
  | PBool b => b
  | PInt z => negb (z =? 0)
  | PFloat f => negb (float_bits f mod 2 ^ 63 =? 0)
  | PStr s => Text.truthy s
  | PBytes b => match b with [] => false | _ => true end
  | PList xs | PTuple xs | PSet xs | PFrozenSet xs =>
      match xs with [] => false | _ => true end
  | PDict d => match d with [] => false | _ => true end
  end.

(** Structural induction that reaches the values inside containers. *)
Section pyval_induction.
Variable P : pyval -> Prop.
Hypothesis HNone : P PNone.
Hypothesis HBool : forall b, P (PBool b).
Hypothesis HInt : forall z, P (PInt z).
Hypothesis HFloat : forall f, P (PFloat f).
Hypothesis HStr : forall s, P (PStr s).
Hypothesis HBytes : forall b, P (PBytes b).
Hypothesis HList : forall xs, Forall P xs -> P (PList xs).
Hypothesis HTuple : forall xs, Forall P xs -> P (PTuple xs).
Hypothesis HSet : forall xs, Forall P xs -> P (PSet xs).
Hypothesis HFrozenSet : forall xs, Forall P xs -> P (PFrozenSet xs).
Hypothesis HDict :
  forall d, Forall (fun kv => P (snd kv)) d -> P (PDict d).

Fixpoint pyval_nested_ind (v : pyval) : P v :=
  let all := fix all (xs : list pyval) : Forall P xs :=
    match xs with
    | [] => List.Forall_nil P
    | x :: r => List.Forall_cons P x r (pyval_nested_ind x) (all r)
    end in
  match v with
  | PNone => HNone
  | PBool b => HBool b
  | PInt z => HInt z
  | PFloat f => HFloat f
  | PStr s => HStr s
  | PBytes b => HBytes b
  | PList xs => HList xs (all xs)
  | PTuple xs => HTuple xs (all xs)
  | PSet xs => HSet xs (all xs)
  | PFrozenSet xs => HFrozenSet xs (all xs)
  | PDict d =>
      HDict d ((fix alld (d : list (string * pyval))
                  : Forall (fun kv => P (snd kv)) d :=
                  match d with
                  | [] => List.Forall_nil _
                  | kv :: r =>
                      List.Forall_cons _ kv r (pyval_nested_ind (snd kv)) (alld r)
                  end) d)
  end.
End pyval_induction.

(** What the interpreter and its libraries supply and the repository only
    calls: [repr], the printer and the parser of floats, decoding with
    replacement characters, and the gzip container. *)
Class Library := {
  py_repr : pyval -> string;
  float_repr : pyfloat -> string;
  float_of_str : string -> option pyfloat;
  decode_replace : Text.bytes -> string;
  gzip_compress : Text.bytes -> Text.bytes;
  gzip_decompress : Text.bytes -> option Text.bytes;
}.

(** What is known of the gzip container: [decompress] undoes
    [compress], and a member carries a ten-byte header and an eight-byte
    trailer around its data (RFC 1952). *)
Definition gzip_inverts (lib : Library) : Prop :=
  forall d, gzip_decompress (gzip_compress d) = Some d.

Definition gzip_framed (lib : Library) : Prop :=
  forall d, (18 <= length (gzip_compress d))%nat.

End PyVal.

(* ===================================================================== *)
(** ** Json: [json.dumps] and [json.loads] as the code calls them *)
(* ===================================================================== *)

Module Json.
Import PyVal.

Definition is_digit (c : ascii) : bool :=
  (48 <=? Text.code c) && (Text.code c <=? 57).

Fixpoint all_chars (p : ascii -> bool) (s : string) : bool :=
  match s with
  | EmptyString => true
  | String c r => p c && all_chars p r
  end.

(** [str(n)] for a natural number and for an integer. *)
Definition str_of_N (n : N) : string :=
  DecimalString.NilEmpty.string_of_uint (N.to_uint n).

Definition str_of_Z (z : Z) : string :=
  if z <? 0 then String "-"%char (str_of_N (Z.abs_N z))
  else str_of_N (Z.to_N z).

(** A run of decimal digits read as a number; [None] on anything else. *)
Definition N_of_digits (s : string) : option N :=
  match s with
  | EmptyString => None
  | _ => if all_chars is_digit s
         then N.of_uint <$> DecimalString.NilEmpty.uint_of_string s
         else None
  end.

(** [sys.get_int_max_str_digits()]: the interpreter converts no integer
    to or from a decimal text of more digits and raises [ValueError]. *)
Definition int_max_str_digits : Z := 4300.

Definition int_fits (z : Z) : bool :=
  Z.of_nat (String.length (str_of_N (Z.abs_N z))) <=? int_max_str_digits.

Definition quote : ascii := Text.chr 34.
Definition backslash : ascii := Text.chr 92.

Definition hex4 (n : Z) : string :=
  String "0"%char (String "0"%char
    (String (Sha256.hex_digit (n / 16))
       (String (Sha256.hex_digit (n mod 16)) EmptyString))).

(** One character of a string literal, as [json.encoder] escapes it:
    with [ensure_ascii] everything outside the printable ASCII range,
    U+007F included, is written as an escape. *)
Definition escape_char (ensure_ascii : bool) (c : ascii) : string :=
  let n := Text.code c in
  let esc (e : ascii) := String backslash (String e EmptyString) in
  if n =? 34 then esc quote
  else if n =? 92 then esc backslash
  else if n =? 10 then esc "n"%char
  else if n =? 13 then esc "r"%char
  else if n =? 9 then esc "t"%char
  else if n =? 8 then esc "b"%char
  else if n =? 12 then esc "f"%char
  else if (n <? 32) || (ensure_ascii && (126 <? n))
       then String backslash (String "u"%char (hex4 n))
  else String c EmptyString.

Fixpoint escape (ensure_ascii : bool) (s : string) : string :=
  match s with
  | EmptyString => EmptyString
  | String c r => escape_char ensure_ascii c +:+ escape ensure_ascii r
  end.

Definition dumps_str (ensure_ascii : bool) (s : string) : string :=
  String quote (escape ensure_ascii s +:+ String quote EmptyString).

Fixpoint join (sep : string) (xs : list string) : string :=
  match xs with
  | [] => EmptyString
  | x :: r => match r with
              | [] => x
              | _ => x +:+ sep +:+ join sep r
              end
  end.

(** [sorted(items)] on the printed members of a dictionary. *)
Fixpoint insert_sorted (kv : string * string) (l : list (string * string))
  : list (string * string) :=
  match l with
  | [] => [kv]
  | kv' :: r =>
      if String.leb (fst kv) (fst kv') then kv :: l
      else kv' :: insert_sorted kv r
  end.

Definition sort_items (l : list (string * string)) : list (string * string) :=
  fold_right insert_sorted [] l.

Section dumps.
Context {lib : Library}.
Variable ensure_ascii sort_keys : bool.

Definition dumps_float (f : pyfloat) : string :=
  if float_finite f then float_repr f
  else if negb (float_bits f mod 2 ^ 52 =? 0) then "NaN"
  else if float_bits f / 2 ^ 63 =? 0 then "Infinity" else "-Infinity".

Definition dumps_member (kv : string * string) : string :=
  dumps_str ensure_ascii (fst kv) +:+ ":" +:+ snd kv.

(** [json.dumps(v, separators=(",", ":"), ensure_ascii=.., sort_keys=..)];
    [None] stands for the exception it raises: [EncodeError] on a value
    that is not serializable, [ValueError] on an integer of more digits
    than the interpreter converts. *)
Fixpoint dumps (v : pyval) : option string :=
  match v with
  | PNone => Some "null"
  | PBool true => Some "true"
  | PBool false => Some "false"
  | PInt z => if int_fits z then Some (str_of_Z z) else None
  | PFloat f => Some (dumps_float f)
  | PStr s => Some (dumps_str ensure_ascii s)
  | PList xs | PTuple xs =>
      let items := (fix go (xs : list pyval) : option (list string) :=
        match xs with
        | [] => Some []
        | x :: r =>
            match dumps x, go r with
            | Some a, Some b => Some (a :: b)
            | _, _ => None
            end
        end) xs in
      match items with
      | Some l => Some ("[" +:+ join "," l +:+ "]")
      | None => None
      end
  | PDict d =>
      let members := (fix go (d : list (string * pyval))
                        : option (list (string * string)) :=
        match d with
        | [] => Some []
        | (k, x) :: r =>
            match dumps x, go r with
            | Some a, Some b => Some ((k, a) :: b)
            | _, _ => None
            end
        end) d in
      match members with
      | Some l =>
          let l' := if sort_keys then sort_items l else l in
          Some ("{" +:+ join "," (List.map dumps_member l') +:+ "}")
      | None => None
      end
  | PBytes _ | PSet _ | PFrozenSet _ => None
  end.

End dumps.

(** *** The decoder *)

Definition is_json_ws (c : ascii) : bool :=
  let n := Text.code c in (n =? 32) || (n =? 9) || (n =? 10) || (n =? 13).

Fixpoint skip_ws (s : string) : string :=
  match s with
  | String c r => if is_json_ws c then skip_ws r else s
  | EmptyString => EmptyString
  end.

Definition hex_value (c : ascii) : option Z :=
  let n := Text.code c in
  if (48 <=? n) && (n <=? 57) then Some (n - 48)
  else if (97 <=? n) && (n <=? 102) then Some (n - 87)
  else if (65 <=? n) && (n <=? 70) then Some (n - 55)
  else None.

Definition unescape (e : ascii) : option ascii :=
  let n := Text.code e in
  if n =? 34 then Some quote
  else if n =? 92 then Some backslash
  else if n =? 47 then Some "/"%char
  else if n =? 98 then Some (Text.chr 8)
  else if n =? 102 then Some (Text.chr 12)
  else if n =? 110 then Some (Text.chr 10)
  else if n =? 114 then Some (Text.chr 13)
  else if n =? 116 then Some (Text.chr 9)
  else None.

Definition push (c : ascii) (r : option (string * string))
  : option (string * string) :=
  match r with
  | Some (s, rest) => Some (String c s, rest)
  | None => None
  end.

(** The body of a string literal, after its opening quote (strict mode:
    a raw control character is an error).  An escape that names a code
    point above 255 is outside the modelled range and is refused. *)
Fixpoint scan_string (s : string) : option (string * string) :=
  match s with
  | EmptyString => None
  | String c r =>
      let n := Text.code c in
      if n =? 34 then Some (EmptyString, r)
      else if n =? 92 then
        match r with
        | String e r1 =>
            if Text.code e =? 117 then
              match r1 with
              | String h1 (String h2 (String h3 (String h4 r2))) =>
                  match hex_value h1, hex_value h2, hex_value h3, hex_value h4 with
                  | Some a, Some b, Some c', Some d =>
                      if (a =? 0) && (b =? 0)
                      then push (Text.chr (c' * 16 + d)) (scan_string r2)
                      else None
                  | _, _, _, _ => None
                  end
              | _ => None
              end
            else
              match unescape e with
              | Some ch => push ch (scan_string r1)
              | None => None
              end
        | EmptyString => None
        end
      else if n <? 32 then None
      else push c (scan_string r)
  end.

Definition is_num_char (c : ascii) : bool :=
  let n := Text.code c in
  is_digit c || (n =? 43) || (n =? 45) || (n =? 46) || (n =? 101) || (n =? 69).

Fixpoint span (p : ascii -> bool) (s : string) : string * string :=
  match s with
  | String c r =>
      if p c then let '(a, b) := span p r in (String c a, b)
      else (EmptyString, s)
  | EmptyString => (EmptyString, EmptyString)
  end.

(** A digit run with no leading zero, or the single digit zero. *)
Definition nat_literal (tok : string) : option N :=
  match tok with
  | String c r =>
      if (Text.code c =? 48) && Text.truthy r then None else N_of_digits tok
  | EmptyString => None
  end.

(** An integer literal: an optional minus sign and such a digit run. *)
Definition int_literal (tok : string) : option Z :=
  match tok with
  | String c r =>
      if Text.code c =? 45
      then (fun n => - Z.of_N n) <$> nat_literal r
      else Z.of_N <$> nat_literal tok
  | EmptyString => None
  end.

Fixpoint strip_prefix (p s : string) : option string :=
  match p, s with
  | EmptyString, _ => Some s
  | String a p', String b s' =>
      if Ascii.eqb a b then strip_prefix p' s' else None
  | _, _ => None
  end.

Section loads.
Context {lib : Library}.

(** A number token is the longest run of number characters; on every
    text that [json.loads] accepts this is the match of the scanner's
    regular expression.  An integer literal of more digits than the
    interpreter converts is an error ([ValueError] from [int]). *)
Definition parse_number (s : string) : option (pyval * string) :=
  let '(tok, rest) := span is_num_char s in
  match int_literal tok with
  | Some z => if int_fits z then Some (PInt z, rest) else None
  | None =>
      match float_of_str tok with
      | Some f => Some (PFloat f, rest)
      | None => None
      end
  end.

Definition parse_constant (s : string) : option (pyval * string) :=
  match strip_prefix "null" s with Some r => Some (PNone, r) | None =>
  match strip_prefix "true" s with Some r => Some (PBool true, r) | None =>
  match strip_prefix "false" s with Some r => Some (PBool false, r) | None =>
  match strip_prefix "NaN" s with
  | Some r => Some (PFloat (Float64 0x7ff8000000000000), r) | None =>
  match strip_prefix "Infinity" s with
  | Some r => Some (PFloat (Float64 0x7ff0000000000000), r) | None =>
  match strip_prefix "-Infinity" s with
  | Some r => Some (PFloat (Float64 0xfff0000000000000), r) | None =>
  parse_number s
  end end end end end end.

Fixpoint parse_value (fuel : nat) (s : string) : option (pyval * string) :=
  match fuel with
  | O => None
  | S k =>
      match s with
      | EmptyString => None
      | String c r =>
          let n := Text.code c in
          if n =? 34 then
            match scan_string r with
            | Some (str, rest) => Some (PStr str, rest)
            | None => None
            end
          else if n =? 123 then
            match skip_ws r with
            | String c2 r2 =>
                if Text.code c2 =? 125 then Some (PDict [], r2)
                else match parse_members k (skip_ws r) with
                     | Some (ms, rest) => Some (PDict (dict_of_pairs ms), rest)
                     | None => None
                     end
            | EmptyString => None
            end
          else if n =? 91 then
            match skip_ws r with
            | String c2 r2 =>
                if Text.code c2 =? 93 then Some (PList [], r2)
                else match parse_items k (skip_ws r) with
                     | Some (vs, rest) => Some (PList vs, rest)
                     | None => None
                     end
            | EmptyString => None
            end
          else parse_constant s
      end
  end
with parse_items (fuel : nat) (s : string) : option (list pyval * string) :=
  match fuel with
  | O => None
  | S k =>
      match parse_value k s with
      | Some (v, s1) =>
          match skip_ws s1 with
          | String c r =>
              if Text.code c =? 44 then
                match parse_items k (skip_ws r) with
                | Some (vs, s2) => Some (v :: vs, s2)
                | None => None
                end
              else if Text.code c =? 93 then Some ([v], r)
              else None
          | EmptyString => None
          end
      | None => None
      end
  end
with parse_members (fuel : nat) (s : string)
  : option (list (string * pyval) * string) :=
  match fuel with
  | O => None
  | S k =>
      match s with
      | String q r =>
          if Text.code q =? 34 then
            match scan_string r with
            | Some (key, s1) =>
                match skip_ws s1 with
                | String c1 r1 =>
                    if Text.code c1 =? 58 then
                      match parse_value k (skip_ws r1) with
                      | Some (v, s2) =>
                          match skip_ws s2 with
                          | String c2 r2 =>
                              if Text.code c2 =? 44 then
                                match parse_members k (skip_ws r2) with
                                | Some (ms, s3) => Some ((key, v) :: ms, s3)
                                | None => None
                                end
                              else if Text.code c2 =? 125
                                   then Some ([(key, v)], r2)
                              else None
                          | EmptyString => None
                          end
                      | None => None
                      end
                    else None
                | EmptyString => None
                end
            | None => None
            end
          else None
      | EmptyString => None
      end
  end.

(** [json.loads(s)]; [None] stands for the exception it raises
    ([JSONDecodeError], or [ValueError] on an integer literal too long). *)
Definition loads (s : string) : option pyval :=
  match parse_value (S (String.length s)) (skip_ws s) with
  | Some (v, rest) =>
      match skip_ws rest with
      | EmptyString => Some v
      | _ => None
      end
  | None => None
  end.

End loads.

End Json.

Module DecimalFacts.
Import PyVal Json.

Lemma string_of_uint_digits (d : Decimal.uint) :
  all_chars is_digit (DecimalString.NilEmpty.string_of_uint d) = true.
Proof. induction d; cbn; try reflexivity; exact IHd. Qed.

Lemma nzhead_not_D0 (d x : Decimal.uint) : Decimal.nzhead d <> Decimal.D0 x.
Proof. induction d; cbn; try discriminate. exact IHd. Qed.

Lemma to_uint_normal (n : N) : Decimal.unorm (N.to_uint n) = N.to_uint n.
Proof.
  rewrite <- (DecimalN.Unsigned.of_to n) at 2.
  symmetry. apply DecimalN.Unsigned.to_of.
Qed.

Lemma to_uint_nonnil (n : N) : N.to_uint n <> Decimal.Nil.
Proof.
  destruct n; cbn; [discriminate |]. apply DecimalPos.Unsigned.to_uint_nonnil.
Qed.

Lemma to_uint_leading_zero (n : N) (d : Decimal.uint) :
  N.to_uint n = Decimal.D0 d -> d = Decimal.Nil.
Proof.
  intros H. pose proof (to_uint_normal n) as Hn. rewrite H in Hn.
  rewrite DecimalFacts.unorm_D0 in Hn. unfold Decimal.unorm in Hn.
  destruct (Decimal.nzhead d) eqn:E; try discriminate.
  - injection Hn as Hd. symmetry. exact Hd.
  - exfalso. subst. exact (nzhead_not_D0 d _ E).
Qed.

Lemma str_of_N_digits (n : N) : all_chars is_digit (str_of_N n) = true.
Proof. apply string_of_uint_digits. Qed.

Lemma str_of_N_nonempty (n : N) : str_of_N n <> EmptyString.
Proof.
  unfold str_of_N. pose proof (to_uint_nonnil n) as H.
  destruct (N.to_uint n); cbn; congruence.
Qed.

Lemma N_of_digits_str (n : N) : N_of_digits (str_of_N n) = Some n.
Proof.
  unfold N_of_digits. pose proof (str_of_N_nonempty n) as Hne.
  destruct (str_of_N n) eqn:E; [congruence |]. rewrite <- E.
  rewrite str_of_N_digits. unfold str_of_N.
  rewrite DecimalString.NilEmpty.usu. cbn.
  rewrite DecimalN.Unsigned.of_to. reflexivity.
Qed.

Lemma nat_literal_str (n : N) : nat_literal (str_of_N n) = Some n.
Proof.
  unfold nat_literal. pose proof (N_of_digits_str n) as HN.
  pose proof (str_of_N_nonempty n) as Hne.
  unfold str_of_N in *.
  destruct (N.to_uint n) eqn:E; cbn in *; try congruence; try exact HN.
  apply to_uint_leading_zero in E. subst. exact HN.
Qed.

Lemma int_literal_str (z : Z) : int_literal (str_of_Z z) = Some z.
Proof.
  unfold str_of_Z. destruct (z <? 0) eqn:E.
  - cbn. rewrite nat_literal_str. cbn. f_equal. apply Z.ltb_lt in E. lia.
  - apply Z.ltb_ge in E. unfold int_literal.
    pose proof (str_of_N_digits (Z.to_N z)) as Hd.
    pose proof (nat_literal_str (Z.to_N z)) as Hn.
    destruct (str_of_N (Z.to_N z)) as [| c r] eqn:Es.
    + cbn in Hn. discriminate.
    + cbn in Hd. apply andb_true_iff in Hd as [Hc _].
      unfold is_digit in Hc.
      destruct (Text.code c =? 45) eqn:E45.
      * apply Z.eqb_eq in E45. rewrite E45 in Hc. discriminate.
      * rewrite Hn. cbn. f_equal. lia.
Qed.

End DecimalFacts.

(* ===================================================================== *)
(** ** Sample: an instance of the library interface to run the model on *)
(* ===================================================================== *)

Module Sample.
Import PyVal Json.

(** Floats print as the decimal of their bit pattern followed by a
    fraction part; the gzip container holds the data, uncompressed,
    between a ten-byte header and an eight-byte trailer. *)
Definition sample_repr (v : pyval) : string :=
  match v with
  | PNone => "None"
  | PBool true => "True"
  | PBool false => "False"
  | PInt z => str_of_Z z
  | PStr s => "'" +:+ s +:+ "'"
  | _ => "<object>"
  end.

Definition sample_float_repr (f : pyfloat) : string :=
  str_of_Z (float_bits f) +:+ ".0".

Definition is_sign_or_digit (c : ascii) : bool :=
  is_digit c || (Text.code c =? 45).

Definition sample_float_of_str (tok : string) : option pyfloat :=
  let '(a, b) := span is_sign_or_digit tok in
  if String.eqb b ".0" then Float64 <$> int_literal a else None.

Definition sample_decode_replace (b : Text.bytes) : string :=
  match Text.decode_text b with Some s => s | None => "?" end.

Definition gzip_header : Text.bytes :=
  List.map Text.byte_of_Z [31; 139; 8; 0; 0; 0; 0; 0; 2; 255].

Definition gzip_trailer : Text.bytes :=
  List.map Text.byte_of_Z [0; 0; 0; 0; 0; 0; 0; 0].

Definition sample_gzip_compress (d : Text.bytes) : Text.bytes :=
  gzip_header ++ d ++ gzip_trailer.

Definition sample_gzip_decompress (b : Text.bytes) : option Text.bytes :=
  if (length b <? 18)%nat then None
  else if bool_decide (List.map Text.Z_of_byte (firstn 10 b)
                       = List.map Text.Z_of_byte gzip_header)
       then Some (firstn (length b - 18) (skipn 10 b))
       else None.

#[export] Instance sample_library : Library := {|
  py_repr := sample_repr;
  float_repr := sample_float_repr;
  float_of_str := sample_float_of_str;
  decode_replace := sample_decode_replace;
  gzip_compress := sample_gzip_compress;
  gzip_decompress := sample_gzip_decompress;
|}.

End Sample.

(* ===================================================================== *)
(** ** CacheUtils: [backend/app/utils/cache_utils.py] *)
(* ===================================================================== *)

Module CacheUtils.
Import PyVal Json.

Definition canonicalize_query (query : string) : string :=
  let normalized := Text.collapse_ws (Text.strip query) in
  Text.lower normalized.

Section with_library.
Context {lib : Library}.

Definition build_query_fingerprint (query : string)
    (products_k reviews_per_product : Z)
    (extra : option (list (string * pyval))) : option string :=
  let payload := [ ("query", PStr (canonicalize_query query));
                   ("productsK", PInt products_k);
                   ("reviewsPerProduct", PInt reviews_per_product) ] in
  let payload := match extra with
                 | Some (kv :: more) => dict_update payload (kv :: more)
                 | _ => payload
                 end in
  dumps true true (PDict payload).

Definition build_response_cache_key (schema_version : Z) (query : string)
    (products_k reviews_per_product : Z)
    (extra : option (list (string * pyval))) : option string :=
  match build_query_fingerprint query products_k reviews_per_product extra with
  | Some fingerprint =>
      let digest := Sha256.sha256_hex fingerprint in
      Some ("cache:response:v" +:+ str_of_Z schema_version +:+ ":" +:+ digest)
  | None => None
  end.

Definition build_query_hash (query : string)
    (products_k reviews_per_product : Z)
    (extra : option (list (string * pyval))) : option string :=
  match build_query_fingerprint query products_k reviews_per_product extra with
  | Some fingerprint => Some (Sha256.sha256_hex fingerprint)
  | None => None
  end.

Definition serialize_payload (payload : pyval) : option Text.bytes :=
  match dumps false false payload with
  | Some data => Some (gzip_compress (Text.encode_utf8 data))
  | None => None
  end.

(** [None] stands for the exception raised.  A document that holds a
    code point above 255 is outside the modelled strings and is not
    read. *)
Definition deserialize_payload (blob : Text.bytes) : option pyval :=
  match gzip_decompress blob with
  | Some data =>
      match Text.decode_text data with
      | Some text => loads text
      | None => None
      end
  | None => None
  end.

End with_library.

Definition build_precomputed_query_key (query : string) : string :=
  let digest := Sha256.sha256_hex (canonicalize_query query) in
  "guest:precomputed:query:" +:+ digest.

Definition build_precomputed_payload_key (slug : string) : string :=
  "guest:precomputed:" +:+ slug.

(** The code points of that key, for a slug given by its code points. *)
Definition build_precomputed_payload_key_points (slug : list Z) : list Z :=
  Text.points "guest:precomputed:" ++ slug.

Definition build_precomputed_index_key : string := "guest:precomputed:index".

Definition build_canonical_query_key (query : string) : string :=
  let digest := Sha256.sha256_hex (canonicalize_query query) in
  "guest:canonical:query:" +:+ digest.

Definition build_canonical_payload_key (slug : string) : string :=
  "guest:canonical:" +:+ slug.

Definition build_canonical_payload_key_points (slug : list Z) : list Z :=
  Text.points "guest:canonical:" ++ slug.

Definition build_canonical_index_key : string := "guest:canonical:index".

End CacheUtils.

(* ===================================================================== *)
(** ** SearchJobs: [backend/app/utils/search_jobs.py] *)
(* ===================================================================== *)

Module SearchJobs.
Import PyVal.

(** A time stamp is the instant, in microseconds, that the ISO-8601 text
    of [_now_iso()] denotes; the clock reading of a call is an argument
    of the operation. *)
Record JobRecord := {
  query : string;
  status : string;
  created_at : Z;
  updated_at : Z;
  result : option (list (string * pyval));
  error : option string;
  metadata : list (string * pyval);
}.

(** The module-level [_jobs]. *)
Abbreviation registry := (gmap string JobRecord).

Definition mark_pending (now : Z) (query_hash : string) (q : string)
    (md : option (list (string * pyval))) (jobs : registry)
  : registry * JobRecord :=
  let record :=
    match jobs !! query_hash with
    | None =>
        {| query := q; status := "pending";
           created_at := now; updated_at := now;
           result := None; error := None;
           metadata := match md with Some m => m | None => [] end |}
    | Some r =>
        {| query := if Text.truthy q then q else query r;
           status := "pending";
           created_at := created_at r; updated_at := now;
           result := None; error := None;
           metadata := match md with
                       | Some (kv :: more) =>
                           dict_update (metadata r) (kv :: more)
                       | _ => metadata r
                       end |}
    end in
  (<[query_hash := record]> jobs, record).

Definition mark_completed (now : Z) (query_hash : string)
    (res : list (string * pyval)) (jobs : registry) : registry * JobRecord :=
  let r := match jobs !! query_hash with
           | None => {| query := ""; status := "completed";
                        created_at := now; updated_at := now;
                        result := None; error := None; metadata := [] |}
           | Some r => r
           end in
  let record := {| query := query r; status := "completed";
                   created_at := created_at r; updated_at := now;
                   result := Some res; error := None;
                   metadata := metadata r |} in
  (<[query_hash := record]> jobs, record).

Definition mark_failed (now : Z) (query_hash : string) (err : string)
    (jobs : registry) : registry * JobRecord :=
  let r := match jobs !! query_hash with
           | None => {| query := ""; status := "failed";
                        created_at := now; updated_at := now;
                        result := None; error := None; metadata := [] |}
           | Some r => r
           end in
  let record := {| query := query r; status := "failed";
                   created_at := created_at r; updated_at := now;
                   result := result r; error := Some err;
                   metadata := metadata r |} in
  (<[query_hash := record]> jobs, record).

Definition get_job (query_hash : string) (jobs : registry) : option JobRecord :=
  jobs !! query_hash.

Definition clear_job (query_hash : string) (jobs : registry) : registry :=
  delete query_hash jobs.

Definition reset_jobs (jobs : registry) : registry := ∅.

(** *** Sequences of registry operations *)

Inductive op :=
| MarkPending (query_hash q : string) (md : option (list (string * pyval)))
| MarkCompleted (query_hash : string) (res : list (string * pyval))
| MarkFailed (query_hash err : string)
| ClearJob (query_hash : string).

Definition apply_op (now : Z) (o : op) (jobs : registry) : registry :=
  match o with
  | MarkPending h q md => fst (mark_pending now h q md jobs)
  | MarkCompleted h res => fst (mark_completed now h res jobs)
  | MarkFailed h err => fst (mark_failed now h err jobs)
  | ClearJob h => clear_job h jobs
  end.

(** Each operation comes with the clock reading of its call. *)
Fixpoint run (ops : list (Z * op)) (jobs : registry) : registry :=
  match ops with
  | [] => jobs
  | (now, o) :: rest => run rest (apply_op now o jobs)
  end.

(** The clock never runs backwards from one call to the next. *)
Fixpoint clock_monotone (t : Z) (ops : list (Z * op)) : Prop :=
  match ops with
  | [] => True
  | (now, _) :: rest => t <= now /\ clock_monotone now rest
  end.

(** What the status of a record says of its result and error. *)
Definition status_ok (r : JobRecord) : Prop :=
  (status r = "completed" -> result r <> None /\ error r = None)
  /\ (status r = "failed" -> error r <> None).

Definition registry_ok (t : Z) (jobs : registry) : Prop :=
  forall h r, jobs !! h = Some r -> created_at r <= updated_at r <= t.

Lemma registry_ok_empty t : registry_ok t ∅.
Proof. intros h r H. rewrite lookup_empty in H. discriminate. Qed.

(** One operation, whatever the clock reads, leaves every record with a
    status that agrees with its result and error. *)
Lemma jobs_apply_op_status now o jobs :
  (forall h r, jobs !! h = Some r -> status_ok r) ->
  forall h r, apply_op now o jobs !! h = Some r -> status_ok r.
Proof.
  intros Hok h r.
  destruct o as [h0 q md | h0 res | h0 err | h0]; cbn [apply_op];
    unfold mark_pending, mark_completed, mark_failed, clear_job; cbn [fst];
    (destruct (decide (h0 = h)) as [-> | Hne];
     [| rewrite ?lookup_insert_ne, ?lookup_delete_ne by exact Hne; apply Hok]).
  - rewrite lookup_insert_eq. intros [= <-].
    destruct (jobs !! h); split; cbn; discriminate.
  - rewrite lookup_insert_eq. intros [= <-].
    split; cbn; [intros _; split; [discriminate | reflexivity] | discriminate].
  - rewrite lookup_insert_eq. intros [= <-].
    split; cbn; discriminate.
  - rewrite lookup_delete_eq. discriminate.
Qed.

Lemma jobs_run_status ops : forall jobs,
  (forall h r, jobs !! h = Some r -> status_ok r) ->
  forall h r, run ops jobs !! h = Some r -> status_ok r.
Proof.
  induction ops as [| [now o] rest IH]; intros jobs Hok; cbn [run].
  - exact Hok.
  - apply IH. apply jobs_apply_op_status, Hok.
Qed.

(** One operation made when the clock reads [now], not before any
    earlier reading, leaves the two stamps of every record in order. *)
Lemma jobs_apply_op_ok t now o jobs :
  t <= now -> registry_ok t jobs -> registry_ok now (apply_op now o jobs).
Proof.
  intros Ht Hok h r.
  destruct o as [h0 q md | h0 res | h0 err | h0]; cbn [apply_op];
    unfold mark_pending, mark_completed, mark_failed, clear_job; cbn [fst];
    (destruct (decide (h0 = h)) as [-> | Hne];
     [| rewrite ?lookup_insert_ne, ?lookup_delete_ne by exact Hne;
        intros Hr; pose proof (Hok h r Hr); lia]).
  - rewrite lookup_insert_eq. intros [= <-].
    destruct (jobs !! h) as [r0 |] eqn:E; cbn; [pose proof (Hok h r0 E) |]; lia.
  - rewrite lookup_insert_eq. intros [= <-].
    destruct (jobs !! h) as [r0 |] eqn:E; cbn; [pose proof (Hok h r0 E) |]; lia.
  - rewrite lookup_insert_eq. intros [= <-].
    destruct (jobs !! h) as [r0 |] eqn:E; cbn; [pose proof (Hok h r0 E) |]; lia.
  - rewrite lookup_delete_eq. discriminate.
Qed.

Lemma jobs_run_ok ops : forall t jobs,
  clock_monotone t ops -> registry_ok t jobs ->
  exists t', registry_ok t' (run ops jobs).
Proof.
  induction ops as [| [now o] rest IH]; intros t jobs Hmono Hok; cbn.
  - exists t. exact Hok.
  - destruct Hmono as [Hle Hrest].
    apply (IH now); [exact Hrest |].
    apply (jobs_apply_op_ok t); assumption.
Qed.

(** C3 (as amended).  After any sequence of [mark_pending],
    [mark_completed] (with a result), [mark_failed] and [clear_job]
    calls on an empty registry, every stored job record with status
    completed has a result and no error and every record with status
    failed has an error, whatever the clock read; and when the clock
    readings of the calls never decrease, [updated_at >= created_at] in
    every record. *)
Theorem job_registry_invariant (ops : list (Z * op)) :
  (forall h r, run ops ∅ !! h = Some r -> status_ok r)
  /\ (forall t0, clock_monotone t0 ops ->
      forall h r, run ops ∅ !! h = Some r -> created_at r <= updated_at r).
Proof.
  split.
  - apply jobs_run_status. intros h r H. rewrite lookup_empty in H.
    discriminate.
  - intros t0 Hmono h r Hr.
    destruct (jobs_run_ok ops t0 ∅ Hmono (registry_ok_empty t0)) as [t' Hok].
    exact (proj1 (Hok h r Hr)).
Qed.

(** A run of the registry: two submissions, one completion, one failure,
    a clear of an unknown hash and a failure of an unknown hash. *)
Definition registry_ops : list (Z * op) :=
  [ (1, MarkPending "h1" "smart speaker" None);
    (2, MarkPending "h2" "desk lamp" (Some [("guest", PBool true)]));
    (3, MarkCompleted "h1" [("query", PStr "smart speaker")]);
    (5, MarkFailed "h2" "engine unavailable");
    (5, ClearJob "h3");
    (8, MarkFailed "h4" "never submitted") ].

Definition registry_record : JobRecord :=
  {| query := "smart speaker"; status := "completed";
     created_at := 1; updated_at := 3;
     result := Some [("query", PStr "smart speaker")];
     error := None; metadata := [] |}.

Lemma job_registry_invariant_witness :
  clock_monotone 0 registry_ops
  /\ run registry_ops ∅ !! "h1" = Some registry_record
  /\ status_ok registry_record
  /\ created_at registry_record <= updated_at registry_record.
Proof.
  assert (clock_monotone 0 registry_ops) as Hclock by (cbn; lia).
  assert (run registry_ops ∅ !! "h1" = Some registry_record) as Hrun
    by (vm_compute; reflexivity).
  split; [exact Hclock |]. split; [exact Hrun |]. split.
  - exact (proj1 (job_registry_invariant registry_ops) "h1" registry_record
             Hrun).
  - exact (proj2 (job_registry_invariant registry_ops) 0 Hclock "h1"
             registry_record Hrun).
Defined.

(** A clock that steps back between two calls: the job is submitted
    when it reads 5 and completed when it reads 3. *)
Definition stepped_back_ops : list (Z * op) :=
  [ (5, MarkPending "h1" "smart speaker" None);
    (3, MarkCompleted "h1" [("query", PStr "smart speaker")]) ].

(** C3, counterexample: [datetime.now] is the wall clock and may step
    back from one call to the next; the record then has an [updated_at]
    before its [created_at]. *)
Lemma clock_step_back_breaks_order :
  exists r,
    run stepped_back_ops ∅ !! "h1" = Some r
    /\ status r = "completed"
    /\ updated_at r < created_at r.
Proof.
  eexists. split; [vm_compute; reflexivity |]. split; [reflexivity |].
  cbn. lia.
Qed.

End SearchJobs.

(* ===================================================================== *)
(** ** PayloadScrubber: [backend/app/utils/payload_scrubber.py] *)
(* ===================================================================== *)

Module PayloadScrubber.
Import PyVal.

Record ScrubberSettings := {
  redact_fields : gset string;
  truncate_fields : gset string;
  passthrough_fields : gset string;
  max_truncate_length : Z;
  mask : string;
  hash_mask : bool;
  debug_truncation_enabled : bool;
}.

Definition normalized (s : ScrubberSettings) : ScrubberSettings :=
  {| redact_fields := set_map Text.lower (redact_fields s);
     truncate_fields := set_map Text.lower (truncate_fields s);
     passthrough_fields := set_map Text.lower (passthrough_fields s);
     max_truncate_length := max_truncate_length s;
     mask := mask s;
     hash_mask := hash_mask s;
     debug_truncation_enabled := debug_truncation_enabled s |}.

(** [text[:n]] *)
Fixpoint take (n : nat) (s : string) : string :=
  match n, s with
  | S k, String c r => String c (take k r)
  | _, _ => EmptyString
  end.

(** The horizontal ellipsis U+2026 lies outside the modelled code points;
    it is carried as its three UTF-8 bytes. *)
Definition ellipsis : string :=
  String (Text.chr 226) (String (Text.chr 128) (String (Text.chr 166) EmptyString)).

Definition truncate_text (text : string) (max_length : Z) : string :=
  if max_length <=? 0 then EmptyString
  else if Z.of_nat (String.length text) <=? max_length then text
  else take (Z.to_nat max_length) text +:+ ellipsis.

(** [set(cleaned)] and [frozenset(cleaned)]: equal elements are kept
    once.  Elements are compared structurally and stay in the order of
    their first occurrence. *)
Fixpoint pyval_eqb (a b : pyval) : bool :=
  let list_eqb := fix go (xs ys : list pyval) : bool :=
    match xs, ys with
    | [], [] => true
    | x :: xr, y :: yr => pyval_eqb x y && go xr yr
    | _, _ => false
    end in
  match a, b with
  | PNone, PNone => true
  | PBool x, PBool y => Bool.eqb x y
  | PInt x, PInt y => x =? y
  | PFloat x, PFloat y => float_bits x =? float_bits y
  | PStr x, PStr y => String.eqb x y
  | PBytes x, PBytes y =>
      bool_decide (List.map Text.Z_of_byte x = List.map Text.Z_of_byte y)
  | PList xs, PList ys => list_eqb xs ys
  | PTuple xs, PTuple ys => list_eqb xs ys
  | PSet xs, PSet ys => list_eqb xs ys
  | PFrozenSet xs, PFrozenSet ys => list_eqb xs ys
  | PDict xs, PDict ys =>
      (fix go (xs ys : list (string * pyval)) : bool :=
         match xs, ys with
         | [], [] => true
         | (k, x) :: xr, (k', y) :: yr =>
             String.eqb k k' && pyval_eqb x y && go xr yr
         | _, _ => false
         end) xs ys
  | _, _ => false
  end.

Fixpoint py_set (xs : list pyval) : list pyval :=
  match xs with
  | [] => []
  | x :: r => x :: List.filter (fun y => negb (pyval_eqb x y)) (py_set r)
  end.

Section with_library.
Context {lib : Library}.

Definition _hash_value (value : pyval) : string :=
  let stringified := py_repr value in
  let digest := Sha256.sha256_hex stringified in
  "[hash:" +:+ take 16 digest +:+ "]".

Section scrub.
Variable normalised : ScrubberSettings.
Variable allow_truncation : bool.

Definition masking (child : pyval) : pyval :=
  PStr (if hash_mask normalised then _hash_value child else mask normalised).

(** The inner [_scrub].  Its [parent_key] argument is only passed along
    and never read, so it is left out. *)
Fixpoint _scrub (value : pyval) : pyval :=
  match value with
  | PDict items =>
      PDict (List.map (fun kc : string * pyval =>
        let key := fst kc in
        let child := snd kc in
        let lower_key := Text.lower key in
        (key,
         if bool_decide (lower_key ∈ passthrough_fields normalised)
         then _scrub child
         else if bool_decide (lower_key ∈ redact_fields normalised)
         then masking child
         else if bool_decide (lower_key ∈ truncate_fields normalised)
         then match child with
              | PStr text =>
                  if allow_truncation
                  then PStr (truncate_text text (max_truncate_length normalised))
                  else masking child
              | _ => masking child
              end
         else _scrub child)) items)
  | PList xs => PList (List.map _scrub xs)
  | PTuple xs => PTuple (List.map _scrub xs)
  | PSet xs => PSet (py_set (List.map _scrub xs))
  | PFrozenSet xs => PFrozenSet (py_set (List.map _scrub xs))
  | PBytes b =>
      PStr (truncate_text (decode_replace b) (max_truncate_length normalised))
  | other => other
  end.

End scrub.

Definition scrub_payload (payload : pyval) (settings : ScrubberSettings)
    (debug_truncation_override : option bool) : pyval :=
  let normalised := normalized settings in
  let allow_truncation :=
    match debug_truncation_override with
    | None => debug_truncation_enabled normalised
    | Some b => b
    end in
  _scrub normalised allow_truncation payload.

End with_library.

Definition DEFAULT_TIMELINE_SCRUBBER : ScrubberSettings :=
  {| redact_fields := {[ "email"; "user_id"; "access_token"; "refresh_token" ]};
     truncate_fields :=
       {[ "prompt"; "response_fragment"; "llm_input"; "llm_output" ]};
     passthrough_fields := {[ "query"; "asin"; "product_id"; "score"; "step" ]};
     max_truncate_length := 512;
     mask := "[scrubbed]";
     hash_mask := true;
     debug_truncation_enabled := false |}.

(** A field name is sensitive when the mapping branch replaces its value
    instead of scrubbing it. *)
Definition sensitive (s : ScrubberSettings) (key : string) : bool :=
  let n := normalized s in
  let k := Text.lower key in
  negb (bool_decide (k ∈ passthrough_fields n))
  && (bool_decide (k ∈ redact_fields n) || bool_decide (k ∈ truncate_fields n)).

Definition is_list (v : pyval) : bool :=
  match v with PList _ => true | _ => false end.

End PayloadScrubber.

Module PayloadScrubberFacts.
Import PyVal PayloadScrubber.

(** A position inside a payload: dictionary keys and sequence indices. *)
Inductive selector := Key (k : string) | Index (i : nat).

Fixpoint select (path : list selector) (v : pyval) : option pyval :=
  match path with
  | [] => Some v
  | Key k :: rest =>
      match v with
      | PDict d => match dict_get k d with
                   | Some c => select rest c
                   | None => None
                   end
      | _ => None
      end
  | Index i :: rest =>
      match v with
      | PList xs | PTuple xs =>
          match nth_error xs i with
          | Some c => select rest c
          | None => None
          end
      | _ => None
      end
  end.

(** No key on the path is replaced by a mask. *)
Definition clear_path (s : ScrubberSettings) (path : list selector) : bool :=
  forallb (fun sel => match sel with
                      | Key k => negb (sensitive s k)
                      | Index _ => true
                      end) path.

Section facts.
Context {lib : Library}.
Variable settings : ScrubberSettings.
Variable override : option bool.

Let scrub (v : pyval) : pyval := scrub_payload v settings override.

Lemma dict_get_map_items {A B} (g : string * A -> string * B) (k : string)
    (d : list (string * A)) :
  (forall kc, fst (g kc) = fst kc) ->
  dict_get k (List.map g d) = (fun c => snd (g (k, c))) <$> dict_get k d.
Proof.
  intros Hfst.
  induction d as [| [k' c'] r IH]; cbn; [reflexivity |].
  destruct (g (k', c')) as [k2 c2] eqn:Eg.
  pose proof (Hfst (k', c')) as Hk. rewrite Eg in Hk. cbn in Hk. subst k2.
  destruct (String.eqb k k') eqn:E; [| exact IH].
  apply String.eqb_eq in E. subst k'. cbn. rewrite Eg. reflexivity.
Qed.

Lemma scrub_list (xs : list pyval) :
  scrub (PList xs) = PList (List.map scrub xs).
Proof. reflexivity. Qed.

Lemma scrub_tuple (xs : list pyval) :
  scrub (PTuple xs) = PTuple (List.map scrub xs).
Proof. reflexivity. Qed.

Lemma scrub_set (xs : list pyval) :
  scrub (PSet xs) = PSet (py_set (List.map scrub xs)).
Proof. reflexivity. Qed.

Lemma scrub_frozenset (xs : list pyval) :
  scrub (PFrozenSet xs) = PFrozenSet (py_set (List.map scrub xs)).
Proof. reflexivity. Qed.

Lemma scrub_dict_get (k : string) (d : list (string * pyval)) (c : pyval) :
  sensitive settings k = false ->
  dict_get k d = Some c ->
  exists d', scrub (PDict d) = PDict d' /\ dict_get k d' = Some (scrub c).
Proof.
  intros Hk Hget. unfold scrub, scrub_payload. cbn [_scrub].
  eexists. split; [reflexivity |].
  rewrite dict_get_map_items by (intros kc; reflexivity).
  rewrite Hget. cbn.
  f_equal. unfold sensitive in Hk. cbn in Hk.
  match goal with
  | |- context [bool_decide (?x ∈ set_map Text.lower (passthrough_fields settings))] =>
      destruct (bool_decide (x ∈ set_map Text.lower (passthrough_fields settings)))
  end; [reflexivity |].
  cbn in Hk. apply orb_false_iff in Hk as [E2 E3].
  rewrite E2. rewrite E3. reflexivity.
Qed.

Lemma select_scrub (path : list selector) : forall v c,
  clear_path settings path = true ->
  select path v = Some c ->
  select path (scrub v) = Some (scrub c).
Proof.
  induction path as [| [k | i] rest IH]; intros v c Hclear Hsel; cbn in *.
  - injection Hsel as ->. reflexivity.
  - apply andb_true_iff in Hclear as [Hk Hrest].
    apply negb_true_iff in Hk.
    destruct v; try discriminate.
    destruct (dict_get k items) as [c0 |] eqn:E; [| discriminate].
    destruct (scrub_dict_get k items c0 Hk E) as (d' & Hd & Hg).
    rewrite Hd. rewrite Hg. apply IH; assumption.
  - destruct v; try discriminate;
      (destruct (nth_error xs i) as [c0 |] eqn:E; [| discriminate]).
    + rewrite scrub_list. rewrite nth_error_map. rewrite E. cbn.
      apply IH; assumption.
    + rewrite scrub_tuple. rewrite nth_error_map. rewrite E. cbn.
      apply IH; assumption.
Qed.

(** C8 (as amended).  A sequence that sits at a position whose keys are
    neither redacted nor truncated is scrubbed element by element, and the
    result has the container kind of the input: a list stays a list, a
    tuple a tuple, a set a set and a frozenset a frozenset. *)
Theorem scrub_sequence_keeps_kind (payload : pyval) (path : list selector)
    (xs : list pyval) :
  clear_path settings path = true ->
  (select path payload = Some (PList xs) ->
     select path (scrub payload) = Some (PList (List.map scrub xs)))
  /\ (select path payload = Some (PTuple xs) ->
     select path (scrub payload) = Some (PTuple (List.map scrub xs)))
  /\ (select path payload = Some (PSet xs) ->
     select path (scrub payload) = Some (PSet (py_set (List.map scrub xs))))
  /\ (select path payload = Some (PFrozenSet xs) ->
     select path (scrub payload)
       = Some (PFrozenSet (py_set (List.map scrub xs)))).
Proof.
  intros Hclear.
  repeat split; intros Hsel;
    rewrite (select_scrub path payload _ Hclear Hsel);
    [rewrite scrub_list | rewrite scrub_tuple
    | rewrite scrub_set | rewrite scrub_frozenset]; reflexivity.
Qed.

End facts.

Definition tuple_payload : pyval :=
  PDict [("items", PTuple [PInt 1; PBytes []]); ("email", PStr "a@b.c")].

(** C8, counterexample: the tuple under the key [items], which no field
    set names, comes out as a tuple, not as a list. *)
Lemma scrub_tuple_is_not_a_list :
  clear_path DEFAULT_TIMELINE_SCRUBBER [Key "items"] = true
  /\ select [Key "items"] tuple_payload = Some (PTuple [PInt 1; PBytes []])
  /\ select [Key "items"]
       (scrub_payload (lib := Sample.sample_library) tuple_payload
          DEFAULT_TIMELINE_SCRUBBER None)
     = Some (PTuple [PInt 1; PStr ""])
  /\ is_list (PTuple [PInt 1; PStr ""]) = false.
Proof. vm_compute. repeat split; reflexivity. Qed.

Lemma scrub_sequence_keeps_kind_witness :
  select [Key "items"]
    (scrub_payload (lib := Sample.sample_library) tuple_payload
       DEFAULT_TIMELINE_SCRUBBER None)
  = Some (PTuple (List.map
      (fun v => scrub_payload (lib := Sample.sample_library) v
                  DEFAULT_TIMELINE_SCRUBBER None)
      [PInt 1; PBytes []])).
Proof.
  apply (scrub_sequence_keeps_kind (lib := Sample.sample_library)
           DEFAULT_TIMELINE_SCRUBBER None tuple_payload [Key "items"]
           [PInt 1; PBytes []]).
  - vm_compute. reflexivity.
  - vm_compute. reflexivity.
Defined.

End PayloadScrubberFacts.

(* ===================================================================== *)
(** ** Timeline: [backend/app/utils/timeline.py] *)
(* ===================================================================== *)

Module Timeline.
Import PyVal Json PayloadScrubber.

Definition STREAM_PREFIX : string := "timeline:".
Definition DEFAULT_STREAM_MAXLEN : Z := 1000.

(** A [TimelineEvent] dictionary; the keys that [publish] adds later are
    optional fields. *)
Record TimelineEvent := {
  event_id : string;
  query_hash : string;
  step : string;
  timestamp : Z;
  payload : pyval;
  stream_id : option string;
  sequence : option Z;
  stream_timestamp : option Z;
}.

Record ReadOptions := { count : Z; block_ms : option Z }.

Definition default_read_options : ReadOptions :=
  {| count := 100; block_ms := None |}.

(** The module-level [_in_memory_timelines]. *)
Abbreviation timelines := (gmap string (list TimelineEvent)).

Definition _stream_key (query_hash : string) : string :=
  STREAM_PREFIX +:+ query_hash.

(** [int(text)]: white space around, an optional sign, and decimal
    digits that single underscores may separate. *)
Fixpoint drop_underscores (after_digit : bool) (s : string) : option string :=
  match s with
  | EmptyString => Some EmptyString
  | String c r =>
      if Text.code c =? 95 then
        match r with
        | String d _ =>
            if after_digit && is_digit d then drop_underscores false r else None
        | EmptyString => None
        end
      else String c <$> drop_underscores (is_digit c) r
  end.

(** The white space that [int] drops around a literal: of the code
    points below 256, the ASCII white space, U+0085 and U+00A0. *)
Definition is_int_space (c : ascii) : bool :=
  let n := Text.code c in
  ((9 <=? n) && (n <=? 13)) || (n =? 32) || (n =? 133) || (n =? 160).

Fixpoint lstrip_int (s : string) : string :=
  match s with
  | String c r => if is_int_space c then lstrip_int r else s
  | EmptyString => EmptyString
  end.

Fixpoint rstrip_int (s : string) : string :=
  match s with
  | EmptyString => EmptyString
  | String c r =>
      match rstrip_int r with
      | EmptyString => if is_int_space c then EmptyString
                       else String c EmptyString
      | r' => String c r'
      end
  end.

Definition strip_int (s : string) : string := rstrip_int (lstrip_int s).

Definition py_int (text : string) : option Z :=
  let t := strip_int text in
  let '(negative, body) :=
    match t with
    | String c r =>
        if Text.code c =? 45 then (true, r)
        else if Text.code c =? 43 then (false, r)
        else (false, t)
    | EmptyString => (false, t)
    end in
  match drop_underscores false body with
  | Some digits =>
      match N_of_digits digits with
      | Some n => Some (if negative then - Z.of_N n else Z.of_N n)
      | None => None
      end
  | None => None
  end.

(** [text.split("-", 1)] when it yields two parts. *)
Fixpoint split_dash (s : string) : option (string * string) :=
  match s with
  | EmptyString => None
  | String c r =>
      if Text.code c =? 45 then Some (EmptyString, r)
      else match split_dash r with
           | Some (a, b) => Some (String c a, b)
           | None => None
           end
  end.

Definition _parse_stream_id (sid : string) : Z * Z :=
  match split_dash sid with
  | Some (millis, seq_text) =>
      match py_int millis, py_int seq_text with
      | Some m, Some s => (m, s)
      | _, _ => (0, 0)
      end
  | None => (0, 0)
  end.

(** Comparison of the parsed pairs, as Python compares tuples. *)
Definition tuple_ltb (a b : Z * Z) : bool :=
  (fst a <? fst b) || ((fst a =? fst b) && (snd a <? snd b)).

Definition tuple_leb (a b : Z * Z) : bool :=
  (fst a <? fst b) || ((fst a =? fst b) && (snd a <=? snd b)).

Definition format_stream_id (millis seq_no : Z) : string :=
  str_of_Z millis +:+ "-" +:+ str_of_Z seq_no.

(** [_write_in_memory]; [now_millis] is the clock reading it takes. *)
Definition _write_in_memory (now_millis : Z) (event : TimelineEvent)
    (store : timelines) : timelines * TimelineEvent :=
  let events := default [] (store !! query_hash event) in
  let seq_no := Z.of_nat (length events) + 1 in
  let sid := format_stream_id now_millis seq_no in
  let event_with_ids :=
    {| event_id := event_id event; query_hash := query_hash event;
       step := step event; timestamp := timestamp event;
       payload := payload event;
       stream_id := Some (default sid (stream_id event));
       sequence := Some (default seq_no (sequence event));
       stream_timestamp := stream_timestamp event |} in
  (<[query_hash event := events ++ [event_with_ids]]> store, event_with_ids).

(** What the stream backend did with an append, when there is one. *)
Inductive stream_reply :=
| NotRedis
| RedisAppended (entry_id : string)
| RedisFailed.

Section with_library.
Context {lib : Library}.

Definition base_event (uuid : string) (now_iso : Z) (qh stp : string)
    (pl : option pyval) (scrubber : option ScrubberSettings)
    (eid : option string) : TimelineEvent :=
  let scrub_settings := default DEFAULT_TIMELINE_SCRUBBER scrubber in
  let given := match pl with
               | Some p => if truthy p then p else PDict []
               | None => PDict []
               end in
  let safe_payload := scrub_payload given scrub_settings None in
  {| event_id := match eid with
                 | Some e => if Text.truthy e then e else uuid
                 | None => uuid
                 end;
     query_hash := qh; step := stp; timestamp := now_iso;
     payload := safe_payload;
     stream_id := None; sequence := None; stream_timestamp := None |}.

(** [publish_timeline_event]: [reply] is what the stream backend
    answered, [uuid], [now_iso] and [now_millis] what [uuid4] and the
    clock returned. *)
Definition publish_timeline_event (reply : stream_reply) (uuid : string)
    (now_iso now_millis : Z) (qh stp : string) (pl : option pyval)
    (scrubber : option ScrubberSettings) (eid : option string)
    (store : timelines) : timelines * TimelineEvent :=
  let ev := base_event uuid now_iso qh stp pl scrubber eid in
  match reply with
  | RedisAppended entry_id =>
      let '(millis, seq_no) := _parse_stream_id entry_id in
      (store,
       {| event_id := event_id ev; query_hash := qh; step := stp;
          timestamp := now_iso; payload := payload ev;
          stream_id := Some entry_id; sequence := Some seq_no;
          stream_timestamp := Some millis |})
  | NotRedis | RedisFailed => _write_in_memory now_millis ev store
  end.

End with_library.

(** [items[-n:]] *)
Definition last_items {A} (n : Z) (items : list A) : list A :=
  if n =? 0 then items
  else if 0 <? n then skipn (length items - Z.to_nat n) items
  else skipn (Z.to_nat (- n)) items.

Definition event_key (e : TimelineEvent) : Z * Z :=
  _parse_stream_id (default "0-0" (stream_id e)).

(** The in-memory branch of [read_timeline_events]. *)
Definition read_in_memory (qh : string) (last_id : option string)
    (options : option ReadOptions) (store : timelines) : list TimelineEvent :=
  let read_opts := default default_read_options options in
  let events := default [] (store !! qh) in
  match last_id with
  | Some (String c r) =>
      let last_tuple := _parse_stream_id (String c r) in
      let filtered :=
        List.filter (fun e => tuple_ltb last_tuple (event_key e)) events in
      last_items (count read_opts) filtered
  | _ => last_items (count read_opts) events
  end.

(** What the Redis branch of [read_timeline_events] came to: there is
    none when the adapter is no Redis adapter; otherwise it returned the
    events it built from the entries that [xread] answered, or it
    raised. *)
Inductive read_reply :=
| NotRedisRead
| RedisRead (events : list TimelineEvent)
| RedisReadFailed.

(** [read_timeline_events]: the events of the Redis branch when it
    returned, the in-memory store otherwise. *)
Definition read_timeline_events (reply : read_reply) (qh : string)
    (last_id : option string) (options : option ReadOptions)
    (store : timelines) : list TimelineEvent :=
  match reply with
  | RedisRead events => events
  | NotRedisRead | RedisReadFailed => read_in_memory qh last_id options store
  end.

(** The read comes to the in-memory store. *)
Definition reads_memory (reply : read_reply) : bool :=
  match reply with
  | RedisRead _ => false
  | NotRedisRead | RedisReadFailed => true
  end.

Definition clear_in_memory_timelines (qh : option string) (store : timelines)
  : timelines :=
  match qh with
  | None => ∅
  | Some h => delete h store
  end.

(** *** Sequences of timeline operations *)

Record publish_args := {
  a_reply : stream_reply;
  a_uuid : string;
  a_now_iso : Z;
  a_query_hash : string;
  a_step : string;
  a_payload : option pyval;
  a_scrubber : option ScrubberSettings;
  a_event_id : option string;
}.

Inductive op :=
| Publish (a : publish_args)
| Clear (qh : option string).

Section run.
Context {lib : Library}.

Definition apply_op (now_millis : Z) (o : op) (store : timelines) : timelines :=
  match o with
  | Publish a =>
      fst (publish_timeline_event (a_reply a) (a_uuid a) (a_now_iso a)
             now_millis (a_query_hash a) (a_step a) (a_payload a)
             (a_scrubber a) (a_event_id a) store)
  | Clear qh => clear_in_memory_timelines qh store
  end.

(** Each operation comes with the clock reading of its call. *)
Fixpoint run (ops : list (Z * op)) (store : timelines) : timelines :=
  match ops with
  | [] => store
  | (now_millis, o) :: rest => run rest (apply_op now_millis o store)
  end.

End run.

Fixpoint clock_monotone (t : Z) (ops : list (Z * op)) : Prop :=
  match ops with
  | [] => True
  | (now, _) :: rest => t <= now /\ clock_monotone now rest
  end.

(** The number of events that the in-memory store holds for [qh] after
    the operations, when it held [n] before: a publish on [qh] that the
    store takes adds one, a clear of [qh] or of everything leaves
    none. *)
Fixpoint stored_publishes (qh : string) (n : nat) (ops : list (Z * op)) : nat :=
  match ops with
  | [] => n
  | (_, Publish a) :: rest =>
      stored_publishes qh
        (match a_reply a with
         | RedisAppended _ => n
         | NotRedis | RedisFailed =>
             if String.eqb (a_query_hash a) qh then S n else n
         end) rest
  | (_, Clear None) :: rest => stored_publishes qh 0 rest
  | (_, Clear (Some h)) :: rest =>
      stored_publishes qh (if String.eqb h qh then 0%nat else n) rest
  end.

(** The sequence numbers are 1, 2, ..., n. *)
Definition sequences_from_one (events : list TimelineEvent) : Prop :=
  List.map sequence events
  = List.map (fun i => Some (Z.of_nat i)) (seq 1 (length events)).

(** The stream ids never decrease along the list. *)
Definition stream_ids_monotone (events : list TimelineEvent) : Prop :=
  forall (i j : nat) (e1 e2 : TimelineEvent),
    (i <= j)%nat -> events !! i = Some e1 -> events !! j = Some e2 ->
    tuple_leb (event_key e1) (event_key e2) = true.

End Timeline.

Module TimelineFacts.
Import PyVal Json PayloadScrubber Timeline DecimalFacts.

Lemma digit_not_space c : is_digit c = true -> is_int_space c = false.
Proof. unfold is_digit, is_int_space. intros H. lia. Qed.

Lemma lstrip_digits s : all_chars is_digit s = true -> lstrip_int s = s.
Proof.
  destruct s as [| c r]; cbn; [reflexivity |].
  intros H. apply andb_true_iff in H as [Hc _].
  rewrite (digit_not_space c Hc). reflexivity.
Qed.

Lemma rstrip_digits s : all_chars is_digit s = true -> rstrip_int s = s.
Proof.
  induction s as [| c r IH]; cbn; [reflexivity |].
  intros H. apply andb_true_iff in H as [Hc Hr].
  rewrite (IH Hr). rewrite (digit_not_space c Hc).
  destruct r; reflexivity.
Qed.

Lemma strip_digits s : all_chars is_digit s = true -> strip_int s = s.
Proof.
  intros H. unfold strip_int. rewrite (lstrip_digits s H). apply rstrip_digits, H.
Qed.

Lemma drop_underscores_digits s : forall b,
  all_chars is_digit s = true -> drop_underscores b s = Some s.
Proof.
  induction s as [| c r IH]; intros b H; cbn; [reflexivity |].
  cbn in H. apply andb_true_iff in H as [Hc Hr].
  assert ((Text.code c =? 95) = false) as ->.
  { unfold is_digit in Hc. lia. }
  rewrite (IH _ Hr). reflexivity.
Qed.

Lemma py_int_str_of_N (n : N) : py_int (str_of_N n) = Some (Z.of_N n).
Proof.
  unfold py_int. rewrite (strip_digits _ (str_of_N_digits n)).
  pose proof (str_of_N_digits n) as Hd.
  pose proof (N_of_digits_str n) as Hn.
  destruct (str_of_N n) as [| c r] eqn:E.
  - cbn in Hn. discriminate.
  - cbn in Hd. apply andb_true_iff in Hd as [Hc Hr].
    assert ((Text.code c =? 45) = false) as -> by (unfold is_digit in Hc; lia).
    assert ((Text.code c =? 43) = false) as -> by (unfold is_digit in Hc; lia).
    rewrite drop_underscores_digits by (cbn; rewrite Hc, Hr; reflexivity).
    rewrite Hn. reflexivity.
Qed.

Lemma app_cons c r s : String c r +:+ s = String c (r +:+ s).
Proof. reflexivity. Qed.
Lemma app_empty s : EmptyString +:+ s = s.
Proof. reflexivity. Qed.

Lemma split_dash_digits s rest :
  all_chars is_digit s = true ->
  split_dash (s +:+ "-" +:+ rest) = Some (s, rest).
Proof.
  change ("-" +:+ rest) with (String "-"%char rest).
  induction s as [| c r IH]; [reflexivity |].
  cbn [all_chars]. rewrite app_cons. cbn [split_dash].
  intros H. apply andb_true_iff in H as [Hc Hr].
  assert ((Text.code c =? 45) = false) as -> by (unfold is_digit in Hc; lia).
  rewrite (IH Hr). reflexivity.
Qed.

Lemma str_of_Z_nonneg z : 0 <= z -> str_of_Z z = str_of_N (Z.to_N z).
Proof. intros H. unfold str_of_Z. destruct (z <? 0) eqn:E; [lia | reflexivity]. Qed.

Lemma parse_format_nonneg (m s : Z) :
  0 <= m -> 0 <= s -> _parse_stream_id (format_stream_id m s) = (m, s).
Proof.
  intros Hm Hs. unfold _parse_stream_id, format_stream_id.
  rewrite (str_of_Z_nonneg m Hm), (str_of_Z_nonneg s Hs).
  rewrite split_dash_digits by apply str_of_N_digits.
  rewrite !py_int_str_of_N. f_equal; lia.
Qed.

Lemma parse_format_negative (m s : Z) :
  m < 0 -> _parse_stream_id (format_stream_id m s) = (0, 0).
Proof.
  intros Hm. unfold _parse_stream_id, format_stream_id, str_of_Z.
  destruct (m <? 0) eqn:E; [| lia]. reflexivity.
Qed.

Inductive log_ok : Z -> list TimelineEvent -> Prop :=
| log_nil t : log_ok t []
| log_snoc t t' m events e :
    log_ok t events -> t <= m -> m <= t' ->
    sequence e = Some (Z.of_nat (length events) + 1) ->
    stream_id e = Some (format_stream_id m (Z.of_nat (length events) + 1)) ->
    log_ok t' (events ++ [e]).

Lemma log_ok_later t t' events :
  log_ok t events -> t <= t' -> log_ok t' events.
Proof.
  intros H Hle. destruct H as [| t0 t1 m events e H0 H1 H2 H3 H4].
  - constructor.
  - apply (log_snoc t0 t' m); auto. lia.
Qed.

Lemma log_ok_sequences t events : log_ok t events -> sequences_from_one events.
Proof.
  unfold sequences_from_one.
  induction 1 as [| t t' m events e H IH H1 H2 H3 H4]; [reflexivity |].
  rewrite List.map_app, List.length_app. cbn [length List.map].
  rewrite Nat.add_1_r, seq_S, List.map_app. cbn [List.map].
  rewrite IH, H3. do 3 f_equal. lia.
Qed.

Definition key_bounded (t : Z) (n : nat) (e : TimelineEvent) : Prop :=
  event_key e = (0, 0)
  \/ exists m s, event_key e = (m, s) /\ 0 <= m <= t /\ s <= Z.of_nat n.

Lemma event_key_format e m s :
  stream_id e = Some (format_stream_id m s) -> 0 <= s ->
  event_key e = if m <? 0 then (0, 0) else (m, s).
Proof.
  intros H Hs. unfold event_key. rewrite H. cbn [default].
  destruct (m <? 0) eqn:E.
  - apply parse_format_negative. lia.
  - apply parse_format_nonneg; lia.
Qed.

Lemma log_ok_bounded t events :
  log_ok t events ->
  forall i e, events !! i = Some e -> key_bounded t (length events) e.
Proof.
  induction 1 as [| t t' m events e H IH H1 H2 H3 H4]; intros i e0 Hi.
  - rewrite lookup_nil in Hi. discriminate.
  - rewrite List.length_app. cbn [length].
    destruct (decide (i < length events)%nat) as [Hlt | Hge].
    + rewrite lookup_app_l in Hi by exact Hlt.
      destruct (IH i e0 Hi) as [Hz | (m0 & s0 & Hk & Hm & Hs)].
      * left. exact Hz.
      * right. exists m0, s0. repeat split; try lia. exact Hk.
    + rewrite lookup_app_r in Hi by lia.
      destruct (i - length events)%nat eqn:Ei; [| cbn in Hi; discriminate].
      cbn in Hi. injection Hi as Heq. subst e0. unfold key_bounded.
      rewrite (event_key_format e m _ H4) by lia.
      destruct (m <? 0) eqn:E; [left; reflexivity |].
      right. exists m, (Z.of_nat (length events) + 1). repeat split; lia.
Qed.

Lemma tuple_leb_refl k : tuple_leb k k = true.
Proof. unfold tuple_leb. destruct k; cbn. lia. Qed.

Lemma log_ok_monotone t events : log_ok t events -> stream_ids_monotone events.
Proof.
  unfold stream_ids_monotone.
  induction 1 as [| t t' m events e H IH H1 H2 H3 H4]; intros i j e1 e2 Hij Hi Hj.
  - rewrite lookup_nil in Hi. discriminate.
  - destruct (decide (j < length events)%nat) as [Hlt | Hge].
    + rewrite lookup_app_l in Hi by lia. rewrite lookup_app_l in Hj by lia.
      exact (IH i j e1 e2 Hij Hi Hj).
    + rewrite lookup_app_r in Hj by lia.
      destruct (j - length events)%nat eqn:Ej; [| cbn in Hj; discriminate].
      cbn in Hj. injection Hj as Heq. subst e2.
      destruct (decide (i < length events)%nat) as [Hilt | Hige].
      * rewrite lookup_app_l in Hi by lia.
        pose proof (log_ok_bounded t events H i e1 Hi) as Hb.
        rewrite (event_key_format e m _ H4) by lia.
        unfold tuple_leb.
        destruct Hb as [-> | (m0 & s0 & -> & Hm & Hs)];
          destruct (m <? 0) eqn:E; cbn [fst snd]; lia.
      * rewrite lookup_app_r in Hi by lia.
        destruct (i - length events)%nat eqn:Ei; [| cbn in Hi; discriminate].
        cbn in Hi. injection Hi as Heq. subst e1. apply tuple_leb_refl.
Qed.

Section store.
Context {lib : Library}.

Definition store_ok (t : Z) (store : timelines) : Prop :=
  forall h events, store !! h = Some events -> log_ok t events.

Lemma store_ok_later t t' store : t <= t' -> store_ok t store -> store_ok t' store.
Proof. intros Hle H h ev Hev. apply (log_ok_later t); [exact (H h ev Hev) | exact Hle]. Qed.

Lemma write_in_memory_ok t now e store :
  t <= now -> store_ok t store ->
  stream_id e = None -> sequence e = None ->
  store_ok now (fst (_write_in_memory now e store)).
Proof.
  intros Hle Hok Hs Hq h ev. unfold _write_in_memory. cbn [fst].
  destruct (decide (query_hash e = h)) as [<- | Hne].
  - rewrite lookup_insert_eq. intros [= <-].
    apply (log_snoc t now now).
    + destruct (store !! query_hash e) as [ev0 |] eqn:E; cbn [default].
      * exact (Hok _ _ E).
      * constructor.
    + exact Hle.
    + lia.
    + cbn. rewrite Hq. reflexivity.
    + cbn. rewrite Hs. reflexivity.
  - rewrite lookup_insert_ne by exact Hne. intros Hev.
    apply (log_ok_later t); [exact (Hok _ _ Hev) | exact Hle].
Qed.

Lemma timeline_apply_op_ok t now o store :
  t <= now -> store_ok t store -> store_ok now (apply_op now o store).
Proof.
  intros Hle Hok. destruct o as [a | [h |]]; cbn [apply_op].
  - unfold publish_timeline_event.
    destruct (a_reply a) as [| entry |].
    + apply (write_in_memory_ok t); auto.
    + destruct (_parse_stream_id entry). cbn [fst].
      apply (store_ok_later t); auto.
    + apply (write_in_memory_ok t); auto.
  - intros h' ev. unfold clear_in_memory_timelines.
    destruct (decide (h = h')) as [-> | Hne].
    + rewrite lookup_delete_eq. discriminate.
    + rewrite lookup_delete_ne by exact Hne. intros Hev.
      apply (log_ok_later t); [exact (Hok _ _ Hev) | exact Hle].
  - intros h' ev. cbn. rewrite lookup_empty. discriminate.
Qed.

Lemma timeline_run_ok ops : forall t store,
  clock_monotone t ops -> store_ok t store ->
  exists t', store_ok t' (run ops store).
Proof.
  induction ops as [| [now o] rest IH]; intros t store Hmono Hok; cbn.
  - exists t. exact Hok.
  - destruct Hmono as [Hle Hrest].
    apply (IH now); [exact Hrest |]. apply (timeline_apply_op_ok t); assumption.
Qed.

(** *** Without any condition on the clock *)

Lemma sequences_snoc events e :
  sequences_from_one events ->
  sequence e = Some (Z.of_nat (length events) + 1) ->
  sequences_from_one (events ++ [e]).
Proof.
  unfold sequences_from_one. intros IH He.
  rewrite List.map_app, List.length_app. cbn [length List.map].
  rewrite Nat.add_1_r, seq_S, List.map_app. cbn [List.map].
  rewrite IH, He. do 3 f_equal. lia.
Qed.

Definition numbered (store : timelines) : Prop :=
  forall h events, store !! h = Some events -> sequences_from_one events.

Lemma write_in_memory_numbered now e store :
  numbered store -> sequence e = None ->
  numbered (fst (_write_in_memory now e store)).
Proof.
  intros Hok Hq h ev. unfold _write_in_memory. cbn [fst].
  destruct (decide (query_hash e = h)) as [<- | Hne].
  - rewrite lookup_insert_eq. intros [= <-].
    apply sequences_snoc.
    + destruct (store !! query_hash e) as [ev0 |] eqn:E; cbn [default];
        [exact (Hok _ _ E) | reflexivity].
    + cbn. rewrite Hq. reflexivity.
  - rewrite lookup_insert_ne by exact Hne. apply Hok.
Qed.

Lemma apply_op_numbered now o store :
  numbered store -> numbered (apply_op now o store).
Proof.
  intros Hok. destruct o as [a | [h |]]; cbn [apply_op].
  - unfold publish_timeline_event.
    destruct (a_reply a) as [| entry |].
    + apply write_in_memory_numbered; auto.
    + destruct (_parse_stream_id entry). exact Hok.
    + apply write_in_memory_numbered; auto.
  - intros h' ev. unfold clear_in_memory_timelines.
    destruct (decide (h = h')) as [-> | Hne].
    + rewrite lookup_delete_eq. discriminate.
    + rewrite lookup_delete_ne by exact Hne. apply Hok.
  - intros h' ev. cbn. rewrite lookup_empty. discriminate.
Qed.

Lemma run_numbered ops : forall store, numbered store -> numbered (run ops store).
Proof.
  induction ops as [| [now o] rest IH]; intros store Hok; cbn [run].
  - exact Hok.
  - apply IH, apply_op_numbered, Hok.
Qed.

Lemma run_length qh ops : forall store,
  length (default [] (run ops store !! qh))
  = stored_publishes qh (length (default [] (store !! qh))) ops.
Proof.
  induction ops as [| [now o] rest IH]; intros store; [reflexivity |].
  cbn [run]. rewrite IH. clear IH.
  destruct o as [a | [h |]]; cbn [apply_op stored_publishes]; f_equal.
  - unfold publish_timeline_event.
    assert (length
              (default []
                 (fst (_write_in_memory now
                         (base_event (a_uuid a) (a_now_iso a) (a_query_hash a)
                            (a_step a) (a_payload a) (a_scrubber a)
                            (a_event_id a)) store) !! qh))
            = if String.eqb (a_query_hash a) qh
              then S (length (default [] (store !! qh)))
              else length (default [] (store !! qh))) as Hw.
    { unfold _write_in_memory. cbn [fst query_hash base_event].
      destruct (String.eqb_spec (a_query_hash a) qh) as [-> | Hne].
      - rewrite lookup_insert_eq. change (default [] (Some ?l)) with l.
        rewrite length_app. cbn [length]. lia.
      - rewrite lookup_insert_ne by exact Hne. reflexivity. }
    destruct (a_reply a) as [| entry |]; [exact Hw | | exact Hw].
    destruct (_parse_stream_id entry). reflexivity.
  - unfold clear_in_memory_timelines.
    destruct (String.eqb_spec h qh) as [-> | Hne].
    + rewrite lookup_delete_eq. reflexivity.
    + rewrite lookup_delete_ne by exact Hne. reflexivity.
Qed.

(** C5 (as amended).  For every query hash, after any sequence of
    publishes and clears, the in-memory store holds one event for each
    publish on the hash that it took since the hash was last cleared,
    and these n events carry the sequence numbers 1, 2, ..., n in
    order, whatever the clock read; and when the clock readings of the
    calls never decrease, their stream ids never decrease when compared
    as the pairs (millis, seq) that [_parse_stream_id] reads off
    them. *)
Theorem in_memory_sequence_and_order (ops : list (Z * op)) (qh : string) :
  let events := default [] (run ops ∅ !! qh) in
  length events = stored_publishes qh 0 ops
  /\ sequences_from_one events
  /\ (forall t0, clock_monotone t0 ops -> stream_ids_monotone events).
Proof.
  intros events. subst events. split; [| split].
  - rewrite run_length, lookup_empty. reflexivity.
  - destruct (run ops ∅ !! qh) as [events |] eqn:Hev; [| reflexivity].
    apply (run_numbered ops ∅) with (h := qh); [| exact Hev].
    intros h ev H. rewrite lookup_empty in H. discriminate.
  - intros t0 Hmono.
    destruct (run ops ∅ !! qh) as [events |] eqn:Hev.
    + destruct (timeline_run_ok ops t0 ∅ Hmono) as [t' Hok].
      { intros h ev H. rewrite lookup_empty in H. discriminate. }
      exact (log_ok_monotone _ _ (Hok qh events Hev)).
    + intros i j e1 e2 _ Hi. cbn in Hi. rewrite lookup_nil in Hi.
      discriminate.
Qed.
End store.

Definition publish_at (uuid : string) (now_iso : Z) (qh step : string) : op :=
  Publish {| a_reply := NotRedis; a_uuid := uuid; a_now_iso := now_iso;
             a_query_hash := qh; a_step := step;
             a_payload := Some (PDict [("query", PStr "smart speaker");
                                       ("email", PStr "a@b.c")]);
             a_scrubber := None; a_event_id := None |}.

(** Four publishes on two hashes, three of them within one millisecond. *)
Definition timeline_ops : list (Z * op) :=
  [ (1000, publish_at "u1" 1 "h1" "search.cache.miss");
    (1000, publish_at "u2" 2 "h1" "search.engine.started");
    (1000, publish_at "u3" 3 "h2" "search.cache.miss");
    (1250, publish_at "u4" 4 "h1" "response.completed") ].

Definition timeline_events : list TimelineEvent :=
  default [] (run (lib := Sample.sample_library) timeline_ops ∅ !! "h1").

Lemma in_memory_sequence_and_order_witness :
  clock_monotone 0 timeline_ops
  /\ List.map stream_id timeline_events
     = [Some "1000-1"; Some "1000-2"; Some "1250-3"]
  /\ length timeline_events = stored_publishes "h1" 0 timeline_ops
  /\ sequences_from_one timeline_events
  /\ stream_ids_monotone timeline_events.
Proof.
  assert (clock_monotone 0 timeline_ops) as Hclock by (cbn; lia).
  split; [exact Hclock |].
  split; [vm_compute; reflexivity |].
  destruct (in_memory_sequence_and_order (lib := Sample.sample_library)
              timeline_ops "h1") as (Hlen & Hseq & Hmono).
  split; [exact Hlen |]. split; [exact Hseq |]. exact (Hmono 0 Hclock).
Defined.

(** Two publishes on one hash, the clock stepping back in between. *)
Definition stepped_back_publishes : list (Z * op) :=
  [ (2000, publish_at "u1" 1 "h1" "search.cache.miss");
    (1000, publish_at "u2" 2 "h1" "search.engine.started") ].

(** C5, counterexample: [datetime.now] is the wall clock and may step
    back from one publish to the next; the sequence numbers are still 1
    and 2, but the stream id of the second event is below that of the
    first. *)
Lemma clock_step_back_breaks_stream_order :
  let events :=
    default [] (run (lib := Sample.sample_library) stepped_back_publishes ∅
                  !! "h1") in
  List.map sequence events = [Some 1; Some 2]
  /\ List.map stream_id events = [Some "2000-1"; Some "1000-2"]
  /\ ~ stream_ids_monotone events.
Proof.
  intros events.
  split; [vm_compute; reflexivity |]. split; [vm_compute; reflexivity |].
  intros H.
  assert (match events !! 0%nat, events !! 1%nat with
          | Some e1, Some e2 => tuple_leb (event_key e1) (event_key e2) = true
          | _, _ => True
          end) as Hk.
  { destruct (events !! 0%nat) as [e1 |] eqn:E1; [| exact I].
    destruct (events !! 1%nat) as [e2 |] eqn:E2; [| exact I].
    apply (H 0%nat 1%nat e1 e2); [lia | exact E1 | exact E2]. }
  vm_compute in Hk. discriminate Hk.
Qed.

End TimelineFacts.

(* ===================================================================== *)
(** ** Runtime: the process state and the environment the code runs in *)
(* ===================================================================== *)

Module Runtime.
Import PyVal.

(** The exceptions the code meets.  Every handler of the code is
    [except Exception], and of an exception only [str(exc)] is kept:
    [EncodeError] stands for what [json.dumps] raises ([TypeError] on a
    value that is not serializable, [ValueError] on an integer too long
    to print) and [DecodeError] for what reading a stored payload
    raises. *)
Inductive exn :=
| CacheError (operation : string)
| DecodeError
| UnicodeDecodeError
| EncodeError
| TypeError (msg : string)
| ValueError (msg : string)
| OverflowError (msg : string)
| RuntimeError (msg : string)
| UpstreamError (msg : string)
| TimelineError
| HTTPException (status_code : Z) (detail : string).

(** [str(exc)] *)
Definition exn_text (e : exn) : string :=
  match e with
  | CacheError op => "cache " +:+ op +:+ " failed"
  | DecodeError => "invalid payload"
  | UnicodeDecodeError => "invalid utf-8"
  | EncodeError => "not serializable"
  | TypeError msg | ValueError msg | OverflowError msg
  | RuntimeError msg | UpstreamError msg => msg
  | TimelineError => "timeline publish failed"
  | HTTPException _ detail => detail
  end.

Inductive outcome (A : Type) :=
| Return (a : A)
| Raise (e : exn).
Arguments Return {A} a.
Arguments Raise {A} e.

(** The arguments of one scheduled [_execute_search_job]. *)
Record search_task := {
  t_query : string;
  t_query_hash : string;
  t_products_k : Z;
  t_reviews_per_product : Z;
  t_cache_ttl : Z;
  t_cache_scope : string;
  t_fingerprint_extra : list (string * pyval);
  t_bypass_cache : bool;
}.

(** What the outside answers, indexed by the number of the call that
    asks: adapter faults, the stream backend, the clock, [uuid4], the
    embedding service, the warehouse and the analysis pipeline. *)
Record Oracle := {
  adapter_fault : nat -> bool;
  publish_fault : nat -> bool;
  stream : nat -> Timeline.stream_reply;
  clock_iso : nat -> Z;
  clock_millis : nat -> Z;
  uuid4 : nat -> string;
  embedding_fault : nat -> bool;
  warehouse : nat -> option (list pyval);
  pipeline_run : nat -> list pyval * option (list pyval);
}.

(** What happened, newest first; nothing reads it back. *)
Inductive action :=
| Published (query_hash step : string)
| JobPending (query_hash : string)
| JobCompleted (query_hash : string) (res : list (string * pyval))
| JobFailed (query_hash : string) (err : string)
| CacheStored (key : string)
| CacheDeleted (key : string)
| TimelineCleared (query_hash : string)
| TaskScheduled (task : search_task).

(** The state of the process and of the cache behind its adapter.  The
    entries of the cache are kept by their key: [cache_data] holds those
    whose key is a modelled string, [cache_foreign] those whose key
    holds a code point above 255, by the code points of the key.  The
    code builds no such key to write under; it may read under one that
    an entry of the cache names. *)
Record World := {
  oracle : Oracle;
  cache_data : gmap string (Text.bytes * option Z);
  cache_foreign : gmap (list Z) (Text.bytes * option Z);
  jobs : gmap string SearchJobs.JobRecord;
  mem_timelines : gmap string (list Timeline.TimelineEvent);
  background : list search_task;
  tick : nat;
  history : list action;
}.

Definition with_cache (f : gmap string (Text.bytes * option Z)
                           -> gmap string (Text.bytes * option Z))
    (w : World) : World :=
  {| oracle := oracle w; cache_data := f (cache_data w);
     cache_foreign := cache_foreign w; jobs := jobs w;
     mem_timelines := mem_timelines w; background := background w;
     tick := tick w; history := history w |}.

Definition with_jobs (j : gmap string SearchJobs.JobRecord) (w : World) : World :=
  {| oracle := oracle w; cache_data := cache_data w;
     cache_foreign := cache_foreign w; jobs := j;
     mem_timelines := mem_timelines w; background := background w;
     tick := tick w; history := history w |}.

Definition with_timelines (t : gmap string (list Timeline.TimelineEvent))
    (w : World) : World :=
  {| oracle := oracle w; cache_data := cache_data w;
     cache_foreign := cache_foreign w; jobs := jobs w;
     mem_timelines := t; background := background w;
     tick := tick w; history := history w |}.

Definition with_background (b : list search_task) (w : World) : World :=
  {| oracle := oracle w; cache_data := cache_data w;
     cache_foreign := cache_foreign w; jobs := jobs w;
     mem_timelines := mem_timelines w; background := b;
     tick := tick w; history := history w |}.

Definition with_tick (n : nat) (w : World) : World :=
  {| oracle := oracle w; cache_data := cache_data w;
     cache_foreign := cache_foreign w; jobs := jobs w;
     mem_timelines := mem_timelines w; background := background w;
     tick := n; history := history w |}.

Definition with_history (h : list action) (w : World) : World :=
  {| oracle := oracle w; cache_data := cache_data w;
     cache_foreign := cache_foreign w; jobs := jobs w;
     mem_timelines := mem_timelines w; background := background w;
     tick := tick w; history := h |}.

(** A computation: it reads and changes the world and returns or raises. *)
Definition M (A : Type) : Type := World -> outcome A * World.

Definition ret {A} (a : A) : M A := fun w => (Return a, w).

Definition raise {A} (e : exn) : M A := fun w => (Raise e, w).

Definition bind {A B} (m : M A) (k : A -> M B) : M B :=
  fun w => match m w with
           | (Return a, w') => k a w'
           | (Raise e, w') => (Raise e, w')
           end.

(** [try: m except Exception as exc: handler(exc)] *)
Definition catch {A} (m : M A) (handler : exn -> M A) : M A :=
  fun w => match m w with
           | (Return a, w') => (Return a, w')
           | (Raise e, w') => handler e w'
           end.

Declare Scope run_scope.
Delimit Scope run_scope with run.
Notation "x <- m ;; k" := (bind m (fun x => k))
  (at level 100, m at next level, right associativity) : run_scope.
Notation "m ;; k" := (bind m (fun _ => k))
  (at level 100, right associativity) : run_scope.
#[local] Open Scope run_scope.

(** The primitive steps: read a part of the state, change the state,
    note an action, and ask the outside (which counts the call). *)
Definition gets {A} (f : World -> A) : M A := fun w => (Return (f w), w).

Definition modify (f : World -> World) : M unit := fun w => (Return tt, f w).

Definition log (a : action) : M unit :=
  modify (fun w => with_history (a :: history w) w).

Definition ask {A} (f : Oracle -> nat -> A) : M A :=
  fun w => (Return (f (oracle w) (tick w)), with_tick (S (tick w)) w).

Definition of_option {A} (o : option A) (e : exn) : M A :=
  match o with
  | Some a => ret a
  | None => raise e
  end.

(** *** The cache adapter held by the process *)

Definition adapter_call (operation : string) : M unit :=
  fault <- ask adapter_fault ;;
  if fault : bool then raise (CacheError operation) else ret tt.

Definition adapter_get (key : string) : M (option Text.bytes) :=
  adapter_call "get" ;;
  data <- gets cache_data ;;
  ret (fst <$> data !! key).

(** A read under a key that holds a code point above 255. *)
Definition adapter_get_foreign (key : list Z) : M (option Text.bytes) :=
  adapter_call "get" ;;
  data <- gets cache_foreign ;;
  ret (fst <$> data !! key).

Definition adapter_set (key : string) (value : Text.bytes) (ttl_seconds : Z)
  : M unit :=
  adapter_call "set" ;;
  modify (with_cache (insert key (value, Some (Z.max ttl_seconds 1)))) ;;
  log (CacheStored key).

Definition adapter_set_persistent (key : string) (value : Text.bytes) : M unit :=
  adapter_call "set" ;;
  modify (with_cache (insert key (value, None))) ;;
  log (CacheStored key).

Definition adapter_delete (key : string) : M unit :=
  adapter_call "delete" ;;
  modify (with_cache (delete key)) ;;
  log (CacheDeleted key).

(** *** The job registry *)

Definition mark_pending (query_hash q : string)
    (md : option (list (string * pyval))) : M SearchJobs.JobRecord :=
  now <- ask clock_iso ;;
  registry <- gets jobs ;;
  let '(j, record) := SearchJobs.mark_pending now query_hash q md registry in
  modify (with_jobs j) ;;
  log (JobPending query_hash) ;;
  ret record.

Definition mark_completed (query_hash : string) (res : list (string * pyval))
  : M SearchJobs.JobRecord :=
  now <- ask clock_iso ;;
  registry <- gets jobs ;;
  let '(j, record) := SearchJobs.mark_completed now query_hash res registry in
  modify (with_jobs j) ;;
  log (JobCompleted query_hash res) ;;
  ret record.

Definition mark_failed (query_hash err : string) : M SearchJobs.JobRecord :=
  now <- ask clock_iso ;;
  registry <- gets jobs ;;
  let '(j, record) := SearchJobs.mark_failed now query_hash err registry in
  modify (with_jobs j) ;;
  log (JobFailed query_hash err) ;;
  ret record.

Definition get_job (query_hash : string) : M (option SearchJobs.JobRecord) :=
  registry <- gets jobs ;;
  ret (SearchJobs.get_job query_hash registry).

(** *** The timeline *)

(** What one publish call meets outside: whether it raises before it
    writes anything, what the stream backend answers, and the values of
    [uuid4] and of the clock. *)
Record publish_inputs := {
  p_fault : bool;
  p_stream : Timeline.stream_reply;
  p_uuid : string;
  p_now_iso : Z;
  p_now_millis : Z;
}.

Definition publish_oracle (o : Oracle) (n : nat) : publish_inputs :=
  {| p_fault := publish_fault o n; p_stream := stream o n;
     p_uuid := uuid4 o n; p_now_iso := clock_iso o n;
     p_now_millis := clock_millis o n |}.

Section with_library.
Context {lib : Library}.

(** [publish_timeline_event(adapter, ...)]: the stream backend answers
    when the adapter is one, and the in-memory store takes what it
    refused. *)
Definition publish_timeline_event (is_redis : bool) (query_hash step : string)
    (pl : option pyval) : M Timeline.TimelineEvent :=
  i <- ask publish_oracle ;;
  if p_fault i then raise TimelineError
  else
    let reply := if is_redis then p_stream i else Timeline.NotRedis in
    store <- gets mem_timelines ;;
    let '(store', ev) :=
      Timeline.publish_timeline_event reply (p_uuid i) (p_now_iso i)
        (p_now_millis i) query_hash step pl None None store in
    modify (with_timelines store') ;;
    log (Published query_hash step) ;;
    ret ev.

(** [clear_timeline(adapter, query_hash)]: a failing stream backend is
    only logged. *)
Definition clear_timeline (query_hash : string) : M unit :=
  modify (fun w => with_timelines
                     (Timeline.clear_in_memory_timelines (Some query_hash)
                        (mem_timelines w)) w) ;;
  log (TimelineCleared query_hash).

End with_library.

Definition add_task (task : search_task) : M unit :=
  modify (fun w => with_background (background w ++ [task]) w) ;;
  log (TaskScheduled task).

(** *** The collaborators *)

Definition ask_embedding : M unit :=
  fault <- ask embedding_fault ;;
  if fault : bool then raise (UpstreamError "embedding generation failed")
  else ret tt.

Definition ask_warehouse : M (list pyval) :=
  rows <- ask warehouse ;;
  of_option rows (UpstreamError "warehouse query failed").

Definition ask_analysis : M (list pyval * option (list pyval)) :=
  ask pipeline_run.

End Runtime.

(* ===================================================================== *)
(** ** Schemas: [backend/app/schemas/search.py] *)
(* ===================================================================== *)

Module Schemas.
Import PyVal.

Record ProductReview := {
  content : string;
  rating : option Z;
  verified_purchase : option bool;
  user_id : option string;
  review_timestamp : option string;
  review_similarity : option pyfloat;
  has_rating : option Z;
}.

(** [analysis] holds a [ProductAnalysis] as its JSON dump; that schema is
    declared outside the files at hand. *)
Record ProductSearchResult := {
  asin : string;
  product_title : string;
  cleaned_item_description : string;
  product_categories : string;
  similarity : option pyfloat;
  avg_rating : option pyfloat;
  rating_count : option Z;
  displayed_rating : option string;
  combined_score : option pyfloat;
  reviews : list ProductReview;
  analysis : option pyval;
}.

Record SearchResponse := {
  query : string;
  count : Z;
  results : list ProductSearchResult;
}.

Definition opt {A} (f : A -> pyval) (o : option A) : pyval :=
  match o with Some a => f a | None => PNone end.

Definition dump_review (r : ProductReview) : pyval :=
  PDict [ ("content", PStr (content r));
          ("rating", opt PInt (rating r));
          ("verified_purchase", opt PBool (verified_purchase r));
          ("user_id", opt PStr (user_id r));
          ("timestamp", opt PStr (review_timestamp r));
          ("similarity", opt PFloat (review_similarity r));
          ("has_rating", opt PInt (has_rating r)) ].

Definition dump_result (p : ProductSearchResult) : pyval :=
  PDict [ ("asin", PStr (asin p));
          ("product_title", PStr (product_title p));
          ("cleaned_item_description", PStr (cleaned_item_description p));
          ("product_categories", PStr (product_categories p));
          ("similarity", opt PFloat (similarity p));
          ("avg_rating", opt PFloat (avg_rating p));
          ("rating_count", opt PInt (rating_count p));
          ("displayed_rating", opt PStr (displayed_rating p));
          ("combined_score", opt PFloat (combined_score p));
          ("reviews", PList (List.map dump_review (reviews p)));
          ("analysis", opt (fun a => a) (analysis p)) ].

(** [response.model_dump(mode="json")] *)
Definition model_dump (r : SearchResponse) : list (string * pyval) :=
  [ ("query", PStr (query r));
    ("count", PInt (count r));
    ("results", PList (List.map dump_result (results r))) ].

(** Validation by the schema library: the [SearchResponse] constructor
    applied to the keys of a mapping, with [None] for its
    [ValidationError]. *)
Class Validation := {
  validate_response : list (string * pyval) -> option SearchResponse;
}.

(** The constructor applied to what a payload decodes to. *)
Definition parse_response {V : Validation} (data : pyval)
  : option SearchResponse :=
  match data with
  | PDict d => validate_response d
  | _ => None
  end.

Record SearchRequest := {
  req_query : string;
  req_query_hash : option string;
  req_products_k : Z;
  req_reviews_per_product : Z;
  req_bypass_cache : bool;
}.

Record SearchAcceptedResponse := {
  acc_query_hash : string;
  acc_result_url : string;
  acc_timeline_url : string;
  acc_status : string;
}.

Record SearchResultEnvelope := {
  env_query_hash : string;
  env_status : string;
  env_result : option SearchResponse;
  env_error : option string;
  env_updated_at : option Z;
}.

End Schemas.

(* ===================================================================== *)
(** ** Config: the options of [backend/app/config.py] that the core reads *)
(* ===================================================================== *)

Module Config.

Record Config := {
  ENABLE_CACHE : bool;
  CACHE_TTL_DEFAULT : Z;
  GUEST_CACHE_TTL : Z;
  ENABLE_GUEST_HASHED_QUERIES : bool;
  CACHE_FAIL_OPEN : bool;
  CACHE_SCHEMA_VERSION : Z;
  CACHE_MAX_PAYLOAD_BYTES : Z;
}.

(** The values taken when the environment sets none of them. *)
Definition defaults : Config :=
  {| ENABLE_CACHE := false;
     CACHE_TTL_DEFAULT := 60 * 60;
     GUEST_CACHE_TTL := 60 * 60 * 24;
     ENABLE_GUEST_HASHED_QUERIES := false;
     CACHE_FAIL_OPEN := true;
     CACHE_SCHEMA_VERSION := 1;
     CACHE_MAX_PAYLOAD_BYTES := 1048576 |}.

End Config.

(* ===================================================================== *)
(** ** SearchEngine: the emissions of [core/search_engine.py] *)
(* ===================================================================== *)

Module SearchEngine.
Import PyVal Runtime.
#[local] Open Scope run_scope.

Definition emitter := string -> option pyval -> M unit.

(** [hybrid_search]: the embedding service and the warehouse are asked
    through the oracle; [warehouse] yields the rows as
    [_structure_results] arranges them. *)
Definition hybrid_search (query : string) (products_k reviews_per_product : Z)
    (timeline_emit : option emitter) : M (list (list (string * pyval))) :=
  let emit (step : string) (pl : option pyval) : M unit :=
    match timeline_emit with
    | Some f => f step pl
    | None => ret tt
    end in
  if negb (Text.truthy (Text.strip query))
  then raise (ValueError "Query cannot be empty")
  else
    ask_embedding ;;
    let product_candidate_k := Z.min (Z.max (products_k * 4) products_k) 60 in
    let review_candidate_k :=
      Z.min (Z.max (products_k * reviews_per_product * 6) reviews_per_product)
            300 in
    let review_partition_cap :=
      Z.max (reviews_per_product * 3) reviews_per_product in
    emit "search.bq.started"
      (Some (PDict [ ("product_candidate_k", PInt product_candidate_k);
                     ("review_candidate_k", PInt review_candidate_k);
                     ("review_partition_cap", PInt review_partition_cap) ])) ;;
    structured <- ask_warehouse ;;
    emit "search.bq.completed"
      (Some (PDict [ ("product_count",
                      PInt (Z.of_nat (length structured))) ])) ;;
    emit "search.reviews.selected"
      (Some (PDict [ ("product_count",
                      PInt (Z.of_nat (length structured))) ])) ;;
    ret (List.map (fun row => match row with
                              | PDict d => d
                              | _ => []
                              end) structured).

End SearchEngine.

(* ===================================================================== *)
(** ** RagPipeline: the analysis stage, which the files at hand only call *)
(* ===================================================================== *)

Module RagPipeline.
Import PyVal Runtime.
#[local] Open Scope run_scope.

Record RAGPipeline := {
  batching_enabled : bool;
  default_chunk_size : Z;
}.

Fixpoint for_each {A} (f : A -> M unit) (l : list A) : M unit :=
  match l with
  | [] => ret tt
  | x :: r => f x ;; for_each f r
  end.

(** Modelled from the spec: [RAGPipeline.generate_batch_explanations] is
    not among the files; the spec has it emit [rag.product.analysis]
    events through the callback and return the analyses (each a mapping
    with an [asin]) or raise.  The oracle gives the payloads of the
    events it emits and how it ends. *)
Definition generate_batch_explanations (query : string)
    (products : list (list (string * pyval)))
    (timeline_emit : SearchEngine.emitter)
  : M (list (list (string * pyval))) :=
  answer <- ask_analysis ;;
  let '(events, ending) := answer in
  for_each (fun pl => timeline_emit "rag.product.analysis" (Some pl)) events ;;
  analyses <- of_option ending (UpstreamError "analysis failed") ;;
  ret (List.map (fun a => match a with
                          | PDict d => d
                          | _ => []
                          end) analyses).

End RagPipeline.

(* ===================================================================== *)
(** ** SearchService: [backend/app/core/search_service.py] *)
(* ===================================================================== *)

Module SearchService.
Import PyVal Json Runtime Schemas Config.
#[local] Open Scope run_scope.

Inductive adapter_kind := InMemoryAdapter | VercelKVAdapter | RedisAdapter.

Record SearchService := {
  rag_pipeline : option RagPipeline.RAGPipeline;
  cache : option adapter_kind;
  timeline_adapter : adapter_kind;
  cache_enabled : bool;
  default_ttl : Z;
  schema_version : Z;
  max_payload_bytes : Z;
  fail_open : bool;
}.

(** [SearchService.__init__] *)
Definition new_service (config : Config)
    (pipeline : option RagPipeline.RAGPipeline)
    (cache_arg : option adapter_kind) : SearchService :=
  let held := if ENABLE_CACHE config then cache_arg else None in
  {| rag_pipeline := pipeline;
     cache := held;
     timeline_adapter := default InMemoryAdapter cache_arg;
     cache_enabled := match held with Some _ => true | None => false end;
     default_ttl := Z.max (CACHE_TTL_DEFAULT config) 1;
     schema_version := Z.max (CACHE_SCHEMA_VERSION config) 1;
     max_payload_bytes := Z.max (CACHE_MAX_PAYLOAD_BYTES config) 1;
     fail_open := CACHE_FAIL_OPEN config |}.

Definition is_redis (self : SearchService) : bool :=
  match timeline_adapter self with RedisAdapter => true | _ => false end.

Definition has_cache (self : SearchService) : bool :=
  match cache self with Some _ => true | None => false end.

Section with_library.
Context {lib : Library} {val : Validation}.
Variable self : SearchService.

Definition _emit_timeline_event (query_hash : option string) (step : string)
    (pl : option pyval) : M unit :=
  match query_hash with
  | Some (String c r) =>
      catch
        (publish_timeline_event (is_redis self) (String c r) step
           (Some (match pl with
                  | Some p => if truthy p then p else PDict []
                  | None => PDict []
                  end)) ;;
         ret tt)
        (fun _ => ret tt)
  | _ => ret tt
  end.

Definition _require_pipeline : M RagPipeline.RAGPipeline :=
  of_option (rag_pipeline self)
    (RuntimeError "RAG pipeline is not configured for SearchService").

Definition _dump_response (response : SearchResponse) : list (string * pyval) :=
  model_dump response.

(** [try: return await self.cache.get(key) except ...] with the
    fail-open policy. *)
Definition _cache_get_bytes (key operation : string) : M (option Text.bytes) :=
  if negb (has_cache self) then ret None
  else catch (adapter_get key)
         (fun exc => if fail_open self then ret None else raise exc).

Definition decode_response (blob : Text.bytes) : option SearchResponse :=
  match CacheUtils.deserialize_payload blob with
  | Some data => parse_response data
  | None => None
  end.

Definition _get_cached_response (cache_key scope : string)
  : M (option SearchResponse) :=
  if negb (has_cache self) then ret None
  else
    fetched <- catch (blob <- adapter_get cache_key ;; ret (Some blob))
                 (fun exc => if fail_open self then ret None else raise exc) ;;
    match fetched with
    | None => ret None
    | Some None => ret None
    | Some (Some blob) =>
        match decode_response blob with
        | Some response => ret (Some response)
        | None => if fail_open self then ret None else raise DecodeError
        end
    end.

Definition _store_cached_response (cache_key : string)
    (response : SearchResponse) (ttl_seconds : Z) (scope : string) : M bool :=
  if negb (has_cache self) then ret false
  else
    let payload := _dump_response response in
    blob <- of_option (CacheUtils.serialize_payload (PDict payload)) EncodeError ;;
    if max_payload_bytes self <? Z.of_nat (length blob) then ret false
    else
      catch (adapter_set cache_key blob ttl_seconds ;; ret true)
        (fun exc => if negb (fail_open self) then raise exc else ret false).

(** The arguments the model constructors are called with; building the
    models is validation of these. *)
Definition get_or (k : string) (dflt : pyval) (d : list (string * pyval))
  : pyval :=
  default dflt (dict_get k d).

Definition review_fields (review : pyval) : pyval :=
  let d := match review with PDict d => d | _ => [] end in
  PDict [ ("content", get_or "content" (PStr "") d);
          ("rating", get_or "rating" PNone d);
          ("verified_purchase", get_or "verified_purchase" PNone d);
          ("user_id", get_or "user_id" PNone d);
          ("timestamp", get_or "timestamp" PNone d);
          ("similarity", get_or "similarity" PNone d);
          ("has_rating", get_or "has_rating" PNone d) ].

Definition asin_of (product : list (string * pyval)) : pyval :=
  match dict_get "asin" product with
  | Some v => if truthy v then v else PStr "unknown"
  | None => PStr "unknown"
  end.

Definition analysis_map (analyses : list (list (string * pyval)))
  : list (pyval * pyval) :=
  List.map (fun a => (get_or "asin" PNone a, PDict a))
    (List.filter (fun a => truthy (get_or "asin" PNone a)) analyses).

(** [analysis_map.get(asin)]: the last analysis stored under the key. *)
Definition find_analysis (key : pyval) (m : list (pyval * pyval)) : pyval :=
  fold_left (fun acc kv =>
               if PayloadScrubber.pyval_eqb (fst kv) key then snd kv else acc)
    m PNone.

Definition product_fields (m : list (pyval * pyval))
    (product : list (string * pyval)) : pyval :=
  let reviews := match get_or "reviews" (PList []) product with
                 | PList l | PTuple l => l
                 | _ => []
                 end in
  PDict [ ("asin", asin_of product);
          ("product_title", get_or "product_title" (PStr "") product);
          ("cleaned_item_description",
           get_or "cleaned_item_description" (PStr "") product);
          ("product_categories", get_or "product_categories" (PStr "") product);
          ("similarity", get_or "similarity" PNone product);
          ("avg_rating", get_or "avg_rating" PNone product);
          ("rating_count", get_or "rating_count" PNone product);
          ("displayed_rating", get_or "displayed_rating" PNone product);
          ("combined_score", get_or "combined_score" PNone product);
          ("reviews", PList (List.map review_fields reviews));
          ("analysis", find_analysis (asin_of product) m) ].

Definition _build_response (query : string)
    (search_results : list (list (string * pyval)))
    (analyses : list (list (string * pyval))) : option SearchResponse :=
  let m := analysis_map analyses in
  let response_items := List.map (product_fields m) search_results in
  validate_response
    [ ("query", PStr query);
      ("count", PInt (Z.of_nat (length response_items)));
      ("results", PList response_items) ].

Definition _summarize_candidates (results : list (list (string * pyval)))
  : list pyval :=
  List.map (fun product =>
    PDict [ ("asin", get_or "asin" PNone product);
            ("title", get_or "product_title" PNone product);
            ("similarity", get_or "similarity" PNone product);
            ("combined_score", get_or "combined_score" PNone product);
            ("avg_rating", get_or "avg_rating" PNone product);
            ("rating_count", get_or "rating_count" PNone product);
            ("review_count",
             PInt (match get_or "reviews" (PList []) product with
                   | PList l | PTuple l => Z.of_nat (length l)
                   | _ => 0
                   end)) ])
    (firstn 5 results).

Definition _summarize_response (response : SearchResponse)
    (source cache_scope cache_key : string) : pyval :=
  let top := firstn 5 (results response) in
  PDict [ ("source", PStr source);
          ("cache_scope", PStr cache_scope);
          ("cache_key", PStr cache_key);
          ("result_count", PInt (count response));
          ("top_results",
           PList (List.map (fun item =>
             PDict [ ("asin", PStr (asin item));
                     ("title", PStr (product_title item));
                     ("combined_score", opt PFloat (combined_score item));
                     ("similarity", opt PFloat (similarity item)) ]) top));
          ("response",
           PDict [ ("count", PInt (count response));
                   ("results",
                    PList (List.map (fun item =>
                      PDict [ ("asin", PStr (asin item));
                              ("analysis_present",
                               PBool (match analysis item with
                                      | Some _ => true
                                      | None => false
                                      end)) ]) top)) ]);
          ("response_hash",
           PStr (match dumps true true (PDict (_dump_response response)) with
                 | Some serialized => Sha256.sha256_hex serialized
                 | None => "unknown"
                 end)) ].

Definition hook := SearchResponse -> pyval -> M unit.

Definition call_hook (on_before_response_completed : option hook)
    (response : SearchResponse) (summary : pyval) : M unit :=
  match on_before_response_completed with
  | Some f => f response summary
  | None => ret tt
  end.

Definition search_products (query : string) (query_hash : option string)
    (products_k reviews_per_product : Z) (cache_ttl : option Z)
    (fingerprint_extra : option (list (string * pyval)))
    (cache_scope : string) (bypass_cache : bool)
    (on_before_response_completed : option hook)
    (emit_response_completed : bool) : M SearchResponse :=
  pipeline <- _require_pipeline ;;
  let emit (step : string) (pl : option pyval) : M unit :=
    _emit_timeline_event query_hash step pl in
  cache_key <- of_option
    (CacheUtils.build_response_cache_key (schema_version self) query
       products_k reviews_per_product fingerprint_extra) EncodeError ;;
  let cache_event_payload :=
    [ ("cache_key", PStr cache_key);
      ("scope", PStr cache_scope);
      ("bypass_cache", PBool bypass_cache);
      ("cache_enabled", PBool (cache_enabled self)) ] in
  cached <-
    (if cache_enabled self && negb bypass_cache
     then _get_cached_response cache_key cache_scope
     else ret None) ;;
  let cache_step := match cached with
                    | Some _ => "search.cache.hit"
                    | None => "search.cache.miss"
                    end in
  let miss_reason :=
    if cache_enabled self && negb bypass_cache then
      match cached with
      | Some _ => None
      | None => Some "not_found"
      end
    else Some (if bypass_cache then "bypass" else "disabled") in
  let cache_event_payload :=
    match miss_reason with
    | Some reason => dict_set "reason" (PStr reason) cache_event_payload
    | None => cache_event_payload
    end in
  emit cache_step (Some (PDict cache_event_payload)) ;;
  match (if cache_enabled self && negb bypass_cache then cached else None) with
  | Some hit =>
      let summary := _summarize_response hit "cache" cache_scope cache_key in
      call_hook on_before_response_completed hit summary ;;
      (if emit_response_completed
       then emit "response.completed" (Some summary) else ret tt) ;;
      ret hit
  | None =>
      emit "search.engine.started"
        (Some (PDict [ ("query", PStr query);
                       ("products_k", PInt products_k);
                       ("reviews_per_product", PInt reviews_per_product);
                       ("fingerprint_extra",
                        PDict (default [] fingerprint_extra));
                       ("cache_scope", PStr cache_scope) ])) ;;
      search_results <-
        SearchEngine.hybrid_search query products_k reviews_per_product
          (Some emit) ;;
      emit "search.engine.candidates"
        (Some (PDict [ ("result_count",
                        PInt (Z.of_nat (length search_results)));
                       ("top_candidates",
                        PList (_summarize_candidates search_results)) ])) ;;
      emit "rag.pipeline.started"
        (Some (PDict [ ("product_count",
                        PInt (Z.of_nat (length search_results)));
                       ("batching_enabled",
                        PBool (RagPipeline.batching_enabled pipeline));
                       ("default_chunk_size",
                        PInt (RagPipeline.default_chunk_size pipeline)) ])) ;;
      analyses <-
        RagPipeline.generate_batch_explanations query search_results emit ;;
      emit "rag.pipeline.completed"
        (Some (PDict [ ("analysis_count", PInt (Z.of_nat (length analyses)));
                       ("product_count",
                        PInt (Z.of_nat (length search_results))) ])) ;;
      response <- of_option (_build_response query search_results analyses)
                    (ValueError "validation error") ;;
      let ttl := match cache_ttl with
                 | Some t => if 0 <? t then t else default_ttl self
                 | None => default_ttl self
                 end in
      cached_stored <- _store_cached_response cache_key response ttl cache_scope ;;
      (if cached_stored : bool
       then emit "response.cached"
              (Some (PDict [ ("cache_key", PStr cache_key);
                             ("ttl_seconds", PInt ttl);
                             ("scope", PStr cache_scope) ]))
       else ret tt) ;;
      let summary := _summarize_response response "search" cache_scope cache_key in
      call_hook on_before_response_completed response summary ;;
      (if emit_response_completed
       then emit "response.completed" (Some summary) else ret tt) ;;
      ret response
  end.

(** The slug a stored blob names: [blob.decode("utf-8").strip()], with
    [None] for [UnicodeDecodeError].  A slug that holds a code point
    above 255 is no modelled string: it is [Foreign], with its code
    points. *)
Inductive slug :=
| Slug (s : string)
| Foreign (points : list Z).

Definition slug_of (blob : Text.bytes) : option slug :=
  match Text.decode_utf8 blob with
  | Some points =>
      let stripped := Text.strip_points points in
      Some (match Text.narrow stripped with
            | Some s => Slug s
            | None => Foreign stripped
            end)
  | None => None
  end.

Definition slug_truthy (s : slug) : bool :=
  match s with
  | Slug text => Text.truthy text
  | Foreign points => match points with [] => false | _ => true end
  end.

(** [self._cache_get_bytes(build_key(slug), operation)], the key being
    built from the text of the slug or from its code points. *)
Definition _cache_get_payload (build_key : string -> string)
    (build_key_points : list Z -> list Z) (s : slug) (operation : string)
  : M (option Text.bytes) :=
  match s with
  | Slug text => _cache_get_bytes (build_key text) operation
  | Foreign points =>
      if negb (has_cache self) then ret None
      else catch (adapter_get_foreign (build_key_points points))
             (fun exc => if fail_open self then ret None else raise exc)
  end.

Definition nonempty_blob (b : option Text.bytes) : option Text.bytes :=
  match b with
  | Some (x :: r) => Some (x :: r)
  | _ => None
  end.

Definition get_precomputed_response (query : string)
  : M (option SearchResponse) :=
  if negb (has_cache self) then ret None
  else
    let canonical_query := CacheUtils.canonicalize_query query in
    let canonical_slug_key :=
      CacheUtils.build_canonical_query_key canonical_query in
    canonical_slug_blob <- _cache_get_bytes canonical_slug_key "canonical-index" ;;
    found <-
      match nonempty_blob canonical_slug_blob with
      | Some blob =>
          canonical_slug <-
            match slug_of blob with
            | Some s => ret s
            | None => if fail_open self then ret (Slug EmptyString)
                      else raise UnicodeDecodeError
            end ;;
          if slug_truthy canonical_slug then
            canonical_payload_blob <-
              _cache_get_payload CacheUtils.build_canonical_payload_key
                CacheUtils.build_canonical_payload_key_points
                canonical_slug "canonical-fetch" ;;
            match nonempty_blob canonical_payload_blob with
            | Some payload_blob =>
                match decode_response payload_blob with
                | Some canonical_response => ret (Some canonical_response)
                | None => if negb (fail_open self) then raise DecodeError
                          else ret None
                end
            | None => ret None
            end
          else ret None
      | None => ret None
      end ;;
    match found with
    | Some canonical_response => ret (Some canonical_response)
    | None =>
        let slug_key := CacheUtils.build_precomputed_query_key query in
        slug_blob <- _cache_get_bytes slug_key "precomputed-index" ;;
        match nonempty_blob slug_blob with
        | None => ret None
        | Some blob =>
            slug <- of_option (slug_of blob) UnicodeDecodeError ;;
            if negb (slug_truthy slug) then ret None
            else
              payload_blob <-
                _cache_get_payload CacheUtils.build_precomputed_payload_key
                  CacheUtils.build_precomputed_payload_key_points
                  slug "precomputed-fetch" ;;
              match nonempty_blob payload_blob with
              | None => ret None
              | Some pblob =>
                  match decode_response pblob with
                  | Some response => ret (Some response)
                  | None => if fail_open self then ret None
                            else raise DecodeError
                  end
              end
        end
    end.

End with_library.

End SearchService.

(* ===================================================================== *)
(** ** SearchEndpoints: [backend/app/api/search_endpoints.py] *)
(* ===================================================================== *)

Module SearchEndpoints.
Import PyVal Json Runtime Schemas Config SearchService.
#[local] Open Scope run_scope.

Record AuthContext := {
  subject : option string;
  role : string;
}.

Inductive body :=
| InitBody (query_hash canonical_query : string)
    (products_k reviews_per_product : Z)
| AcceptedBody (a : SearchAcceptedResponse)
| EnvelopeBody (e : SearchResultEnvelope)
| DetailBody (detail : string).

(** A [JSONResponse]: the status code and the content. *)
Definition response := (Z * body)%type.

(** What the framework answers for a handler: an [HTTPException]
    becomes its status code and detail. *)
Definition serve (handler : M response) : M response :=
  catch handler
    (fun exc => match exc with
                | HTTPException code detail => ret (code, DetailBody detail)
                | _ => raise exc
                end).

Definition truthy_subject (s : option string) : option string :=
  match s with
  | Some (String c r) => Some (String c r)
  | _ => None
  end.

Definition identity_extra (is_guest : bool) (subj : option string)
  : list (string * pyval) :=
  match truthy_subject subj with
  | Some s => [ ("guest", PBool is_guest); ("subject", PStr s) ]
  | None => [ ("guest", PBool is_guest) ]
  end.

(** [int(text)] with the limit of the interpreter on the digits of a
    literal. *)
Definition int_text (text : string) : option Z :=
  if Z.of_nat (length (List.filter is_digit (list_ascii_of_string text)))
     <=? int_max_str_digits
  then Timeline.py_int text
  else None.

(** [int(b)] on [bytes]: the bytes are read as an ASCII literal. *)
Definition int_bytes (b : Text.bytes) : option Z :=
  if forallb (fun x => Text.Z_of_byte x <? 128) b
  then int_text (string_of_list_ascii (List.map ascii_of_byte b))
  else None.

(** [int(v)]: an integer is itself, a boolean is 0 or 1, a float is
    truncated towards zero, a text is read as a decimal literal; the
    other values are no argument of [int]. *)
Definition int_of (v : pyval) : exn + Z :=
  match v with
  | PInt z => inr z
  | PBool b => inr (if b then 1 else 0)
  | PFloat f =>
      match float_trunc f with
      | Some z => inr z
      | None =>
          if float_bits f mod 2 ^ 52 =? 0
          then inl (OverflowError "cannot convert float infinity to integer")
          else inl (ValueError "cannot convert float NaN to integer")
      end
  | PStr s =>
      match int_text s with
      | Some z => inr z
      | None => inl (ValueError "invalid literal for int()")
      end
  | PBytes b =>
      match int_bytes b with
      | Some z => inr z
      | None => inl (ValueError "invalid literal for int()")
      end
  | _ => inl (TypeError "int() argument must be a string or a number")
  end.

Definition of_sum {A} (r : exn + A) : M A :=
  match r with
  | inr a => ret a
  | inl e => raise e
  end.

Section with_library.
Context {lib : Library} {val : Validation}.
Variable config : Config.

(** [_load_cached_response]: [cache_adapter] tells whether the endpoint
    was given an adapter. *)
Definition _load_cached_response (cache_adapter : bool) (query : string)
    (metadata : list (string * pyval)) : M (option SearchResponse) :=
  if negb cache_adapter || negb (Text.truthy query) then ret None
  else
    let or_three (v : option pyval) : pyval :=
      match v with
      | Some x => if truthy x then x else PInt 3
      | None => PInt 3
      end in
    products_k <- of_sum (int_of (or_three (dict_get "products_k" metadata))) ;;
    reviews_per_product <-
      of_sum (int_of (or_three (dict_get "reviews_per_product" metadata))) ;;
    let fingerprint_extra :=
      dict_pop "reviews_per_product" (dict_pop "products_k" metadata) in
    cache_key <- of_option
      (CacheUtils.build_response_cache_key
         (Z.max (CACHE_SCHEMA_VERSION config) 1) query products_k
         reviews_per_product
         (match fingerprint_extra with
          | [] => None
          | _ => Some fingerprint_extra
          end)) EncodeError ;;
    fetched <- catch (blob <- adapter_get cache_key ;; ret (Some blob))
                 (fun _ => ret None) ;;
    match fetched with
    | Some (Some (x :: r)) => ret (decode_response (x :: r))
    | _ => ret None
    end.

Definition initialize_search (payload : SearchRequest) (auth_context : AuthContext)
  : M response :=
  let is_guest := String.eqb (Text.lower (role auth_context)) "guest" in
  if is_guest && negb (ENABLE_GUEST_HASHED_QUERIES config)
  then raise (HTTPException 403 "Guest queries must use precomputed catalogue")
  else
    let fingerprint_extra := identity_extra is_guest (subject auth_context) in
    query_hash <- of_option
      (CacheUtils.build_query_hash (req_query payload) (req_products_k payload)
         (req_reviews_per_product payload) (Some fingerprint_extra)) EncodeError ;;
    ret (200, InitBody query_hash
                (CacheUtils.canonicalize_query (req_query payload))
                (req_products_k payload) (req_reviews_per_product payload)).

Definition submit_search (base_url : string) (payload : SearchRequest)
    (search_service : SearchService) (cache_adapter : option adapter_kind)
    (auth_context : AuthContext) : M response :=
  let is_guest := String.eqb (Text.lower (role auth_context)) "guest" in
  if is_guest && negb (ENABLE_GUEST_HASHED_QUERIES config)
  then raise (HTTPException 403 "Guest queries must use precomputed catalogue")
  else
    let subj := truthy_subject (subject auth_context) in
    let fingerprint_extra := identity_extra is_guest (subject auth_context) in
    computed_hash <- of_option
      (CacheUtils.build_query_hash (req_query payload) (req_products_k payload)
         (req_reviews_per_product payload) (Some fingerprint_extra)) EncodeError ;;
    let given := match req_query_hash payload with
                 | Some (String c r) => Some (String c r)
                 | _ => None
                 end in
    match given with
    | Some h =>
        if negb (String.eqb h computed_hash)
        then raise (HTTPException 400
                      "query_hash does not match canonical fingerprint")
        else ret tt
    | None => ret tt
    end ;;
    let query_hash := default computed_hash given in
    let cache_scope := if is_guest then "guest" else "response" in
    let cache_ttl := if is_guest then GUEST_CACHE_TTL config
                     else CACHE_TTL_DEFAULT config in
    mark_pending query_hash (req_query payload)
      (Some [ ("products_k", PInt (req_products_k payload));
              ("reviews_per_product", PInt (req_reviews_per_product payload));
              ("guest", PBool is_guest);
              ("subject", opt PStr (subject auth_context)) ]) ;;
    clear_timeline query_hash ;;
    add_task {| t_query := req_query payload;
                t_query_hash := query_hash;
                t_products_k := req_products_k payload;
                t_reviews_per_product := req_reviews_per_product payload;
                t_cache_ttl := cache_ttl;
                t_cache_scope := cache_scope;
                t_fingerprint_extra := fingerprint_extra;
                t_bypass_cache := req_bypass_cache payload |} ;;
    ret (202, AcceptedBody
                {| acc_query_hash := query_hash;
                   acc_result_url := base_url +:+ "/search/result/" +:+ query_hash;
                   acc_timeline_url := base_url +:+ "/timeline/" +:+ query_hash;
                   acc_status := "pending" |}).

Definition envelope (query_hash status : string)
    (res : option SearchResponse) (err : option string) (updated : Z) : body :=
  EnvelopeBody {| env_query_hash := query_hash; env_status := status;
                  env_result := res; env_error := err;
                  env_updated_at := Some updated |}.

Definition get_search_result (query_hash : string) (cache_adapter : bool)
  : M response :=
  found <- get_job query_hash ;;
  match found with
  | None => raise (HTTPException 404 "query_hash not found")
  | Some job =>
      let status := SearchJobs.status job in
      let updated_at := SearchJobs.updated_at job in
      if String.eqb status "pending" then
        ret (202, envelope query_hash "pending" None None updated_at)
      else if String.eqb status "failed" then
        ret (200, envelope query_hash "failed" None (SearchJobs.error job)
                    updated_at)
      else
        let response_model :=
          match SearchJobs.result job with
          | Some (kv :: more) => validate_response (kv :: more)
          | _ => None
          end in
        response_model <-
          match response_model with
          | Some r => ret (Some r)
          | None => _load_cached_response cache_adapter (SearchJobs.query job)
                      (SearchJobs.metadata job)
          end ;;
        match response_model with
        | None =>
            ret (500, envelope query_hash "failed" None
                        (Some "Result unavailable") updated_at)
        | Some r =>
            ret (200, envelope query_hash "completed" (Some r) None updated_at)
        end
  end.

Definition finalize (query_hash : string) : hook :=
  fun result _ =>
    let payload := _dump_response result in
    mark_completed query_hash payload ;; ret tt.

Definition _execute_search_job (search_service : SearchService)
    (task : search_task) : M unit :=
  let query := t_query task in
  let query_hash := t_query_hash task in
  let products_k := t_products_k task in
  let reviews_per_product := t_reviews_per_product task in
  let fingerprint_extra := t_fingerprint_extra task in
  catch
    (precomputed <- get_precomputed_response search_service query ;;
     match (if negb (t_bypass_cache task) then precomputed else None) with
     | Some found =>
         _emit_timeline_event search_service (Some query_hash)
           "response.cached"
           (Some (PDict [ ("source", PStr "precomputed");
                          ("query", PStr query);
                          ("products_k", PInt products_k);
                          ("reviews_per_product",
                           PInt reviews_per_product) ])) ;;
         let result_payload := _dump_response found in
         mark_completed query_hash result_payload ;;
         cache_key <- of_option
           (CacheUtils.build_response_cache_key
              (schema_version search_service) query products_k
              reviews_per_product
              (match fingerprint_extra with
               | [] => None
               | _ => Some fingerprint_extra
               end)) EncodeError ;;
         let summary :=
           _summarize_response found "precomputed"
             (t_cache_scope task) cache_key in
         _emit_timeline_event search_service (Some query_hash)
           "response.completed" (Some summary) ;;
         ret tt
     | None =>
         search_products search_service query (Some query_hash) products_k
           reviews_per_product (Some (t_cache_ttl task))
           (Some fingerprint_extra) (t_cache_scope task)
           (t_bypass_cache task) (Some (finalize query_hash)) true ;;
         ret tt
     end)
    (fun exc => mark_failed query_hash (exn_text exc) ;; ret tt).

End with_library.

End SearchEndpoints.

(* ===================================================================== *)
(** ** SearchServiceStore: the catalogue methods of
       [backend/app/core/search_service.py] *)
(* ===================================================================== *)

Module SearchServiceStore.
Import PyVal Json Runtime Schemas Config SearchService.
#[local] Open Scope run_scope.

(** An entry of a catalogue index, [{"query": .., "hash": ..}], and an
    index, a dictionary from slugs to entries in insertion order. *)
Record index_entry := {
  entry_query : string;
  entry_hash : string;
}.

Abbreviation index := (list (string * index_entry)).

Definition entry_value (e : index_entry) : pyval :=
  PDict [ ("query", PStr (entry_query e)); ("hash", PStr (entry_hash e)) ].

Definition index_value (i : index) : pyval :=
  PDict (List.map (fun se => (fst se, entry_value (snd se))) i).

Section with_library.
Context {lib : Library} {val : Validation}.
Variable config : Config.
Variable self : SearchService.

(** [str(v)]: a string is itself, every other decoded value prints as
    its [repr]. *)
Definition py_str (v : pyval) : string :=
  match v with
  | PStr s => s
  | _ => py_repr v
  end.

(** The loop of the two index loaders over the decoded mapping. *)
Definition index_of_payload (items : list (string * pyval)) : index :=
  fold_left
    (fun (result : index) (se : string * pyval) =>
       match snd se with
       | PDict entry =>
           let query := py_str (get_or "query" (PStr "") entry) in
           let hash_key := py_str (get_or "hash" (PStr "") entry) in
           if Text.truthy query
           then dict_set (fst se)
                  {| entry_query := query; entry_hash := hash_key |} result
           else result
       | _ => result
       end)
    items [].

(** The body that [_load_precomputed_index] and [_load_canonical_index]
    share; they differ in the key and in the name they report. *)
Definition _load_index (index_key operation : string) : M index :=
  raw <- _cache_get_bytes self index_key operation ;;
  match nonempty_blob raw with
  | None => ret []
  | Some blob =>
      match CacheUtils.deserialize_payload blob with
      | Some (PDict items) => ret (index_of_payload items)
      | Some _ => ret []
      | None => if negb (fail_open self) then raise DecodeError else ret []
      end
  end.

Definition _load_precomputed_index : M index :=
  _load_index CacheUtils.build_precomputed_index_key "precomputed-index-load".

Definition _load_canonical_index : M index :=
  _load_index CacheUtils.build_canonical_index_key "canonical-index-load".

(** [try: await self.cache.<call> except Exception: if not
    self.fail_open: raise] *)
Definition shielded (call : M unit) : M unit :=
  catch call (fun exc => if negb (fail_open self) then raise exc else ret tt).

Definition _write_precomputed_index (i : index) (ttl : Z) : M unit :=
  if negb (has_cache self) then ret tt
  else
    let ttl_value := if 0 <? ttl then ttl else GUEST_CACHE_TTL config in
    payload <- of_option (CacheUtils.serialize_payload (index_value i))
                 EncodeError ;;
    adapter_set CacheUtils.build_precomputed_index_key payload ttl_value.

Definition _write_canonical_index (i : index) : M unit :=
  if negb (has_cache self) then ret tt
  else
    payload <- of_option (CacheUtils.serialize_payload (index_value i))
                 EncodeError ;;
    shielded (adapter_set_persistent CacheUtils.build_canonical_index_key payload).

Definition store_precomputed_response (slug query : string)
    (response : SearchResponse) (ttl_seconds : option Z) : M unit :=
  if negb (has_cache self)
  then raise (RuntimeError
    "Cache adapter is not configured for storing precomputed responses")
  else
    let ttl := match ttl_seconds with
               | Some t => if 0 <? t then t else GUEST_CACHE_TTL config
               | None => GUEST_CACHE_TTL config
               end in
    payload <- of_option
      (CacheUtils.serialize_payload (PDict (_dump_response response)))
      EncodeError ;;
    let payload_key := CacheUtils.build_precomputed_payload_key slug in
    adapter_set payload_key payload ttl ;;
    let canonical_query := CacheUtils.canonicalize_query query in
    let slug_key := CacheUtils.build_precomputed_query_key canonical_query in
    adapter_set slug_key (Text.encode_utf8 slug) ttl ;;
    i <- _load_precomputed_index ;;
    _write_precomputed_index
      (dict_set slug {| entry_query := canonical_query;
                        entry_hash := slug_key |} i) ttl.

Definition store_canonical_response (slug query : string)
    (response : SearchResponse) : M unit :=
  if negb (has_cache self)
  then raise (RuntimeError
    "Cache adapter is not configured for storing canonical responses")
  else
    let canonical_query := CacheUtils.canonicalize_query query in
    let canonical_payload_key := CacheUtils.build_canonical_payload_key slug in
    payload <- of_option
      (CacheUtils.serialize_payload (PDict (_dump_response response)))
      EncodeError ;;
    shielded (adapter_set_persistent canonical_payload_key payload) ;;
    let canonical_slug_key :=
      CacheUtils.build_canonical_query_key canonical_query in
    shielded (adapter_set_persistent canonical_slug_key (Text.encode_utf8 slug)) ;;
    i <- _load_canonical_index ;;
    _write_canonical_index
      (dict_set slug {| entry_query := canonical_query;
                        entry_hash := canonical_slug_key |} i).

Definition delete_precomputed_response (slug : string) (query : option string)
  : M bool :=
  if negb (has_cache self) then ret false
  else
    i <- _load_precomputed_index ;;
    canonical_index <- _load_canonical_index ;;
    let entry := dict_get slug i in
    let canonical_entry := dict_get slug canonical_index in
    let canonical_query : option string :=
      match query with
      | Some (String c r) => Some (CacheUtils.canonicalize_query (String c r))
      | _ =>
          match canonical_entry with
          | Some e => Some (entry_query e)
          | None => entry_query <$> entry
          end
      end in
    let payload_key := CacheUtils.build_precomputed_payload_key slug in
    shielded (adapter_delete payload_key) ;;
    match canonical_query with
    | Some (String c r) =>
        let slug_key := CacheUtils.build_precomputed_query_key (String c r) in
        shielded (adapter_delete slug_key) ;;
        let canonical_slug_key :=
          CacheUtils.build_canonical_query_key (String c r) in
        shielded (adapter_delete canonical_slug_key)
    | _ => ret tt
    end ;;
    let canonical_payload_key := CacheUtils.build_canonical_payload_key slug in
    shielded (adapter_delete canonical_payload_key) ;;
    (if bool_decide (is_Some (dict_get slug i))
     then _write_precomputed_index (dict_pop slug i) (GUEST_CACHE_TTL config)
     else ret tt) ;;
    (if bool_decide (is_Some (dict_get slug canonical_index))
     then _write_canonical_index (dict_pop slug canonical_index)
     else ret tt) ;;
    ret true.

Definition list_precomputed_responses : M index :=
  if negb (has_cache self) then ret []
  else
    ttl_index <- _load_precomputed_index ;;
    canonical_index <- _load_canonical_index ;;
    ret (dict_update ttl_index canonical_index).

End with_library.

End SearchServiceStore.

(* ===================================================================== *)
(** ** AdminEndpoints: [backend/app/api/admin_endpoints.py] *)
(* ===================================================================== *)

Module AdminEndpoints.
Import PyVal Json Runtime Schemas Config SearchService SearchServiceStore.
#[local] Open Scope run_scope.

(** [schemas/cache.py] *)
Record PrecomputedUpsertRequest := {
  up_slug : string;
  up_query : string;
  up_response : SearchResponse;
  up_ttl_seconds : option Z;
}.

Record PrecomputedDeleteResponse := {
  del_slug : string;
  del_removed : bool;
  del_query : option string;
}.

Section with_library.
Context {lib : Library} {val : Validation}.
Variable config : Config.

Definition _ensure_cache_enabled (service : SearchService) : M unit :=
  if negb (cache_enabled service)
  then raise (HTTPException 503 "Response cache is disabled")
  else ret tt.

Definition upsert_precomputed_cache (payload : PrecomputedUpsertRequest)
    (service : SearchService) : M unit :=
  _ensure_cache_enabled service ;;
  store_precomputed_response config service (up_slug payload)
    (up_query payload) (up_response payload) (up_ttl_seconds payload) ;;
  store_canonical_response service (up_slug payload) (up_query payload)
    (up_response payload).

Definition delete_precomputed_cache (slug : string) (query : option string)
    (service : SearchService) : M PrecomputedDeleteResponse :=
  _ensure_cache_enabled service ;;
  i <- list_precomputed_responses service ;;
  let entry := dict_get slug i in
  let canonical_query :=
    match query with
    | Some (String c r) => Some (CacheUtils.canonicalize_query (String c r))
    | _ => entry_query <$> entry
    end in
  removed <- delete_precomputed_response config service slug canonical_query ;;
  ret {| del_slug := slug; del_removed := removed;
         del_query := canonical_query |}.

End with_library.

End AdminEndpoints.

(* ===================================================================== *)
(** ** CacheAdapters: [InMemoryCacheAdapter] of
       [backend/app/cache/adapters.py] *)
(* ===================================================================== *)

Module CacheAdapters.
Import QArith_base.

(** A reading of [time.time()], in seconds, as an exact number; the
    rounding of floating-point addition is left out. *)
Abbreviation time := Q.

(** [CacheValue]; no [expires_at] stands for [float("inf")]. *)
Record CacheValue := {
  payload : Text.bytes;
  expires_at : option time;
}.

(** The [_data] of an adapter. *)
Abbreviation data := (gmap string CacheValue).

(** [time.time() >= entry.expires_at] *)
Definition expired (now : time) (entry : CacheValue) : bool :=
  match expires_at entry with
  | Some t => Qle_bool t now
  | None => false
  end.

(** Each method takes the clock reading of its call, where it reads the
    clock, and returns its result with the data it leaves. *)
Definition get (now : time) (key : string) (d : data)
  : option Text.bytes * data :=
  match d !! key with
  | None => (None, d)
  | Some entry =>
      if expired now entry then (None, delete key d)
      else (Some (payload entry), d)
  end.

Definition set (now : time) (key : string) (value : Text.bytes)
    (ttl_seconds : Z) (d : data) : data :=
  let expires := Qplus now (inject_Z (Z.max ttl_seconds 1)) in
  <[key := {| payload := value; expires_at := Some expires |}]> d.

Definition set_persistent (key : string) (value : Text.bytes) (d : data)
  : data :=
  <[key := {| payload := value; expires_at := None |}]> d.

Definition delete (key : string) (d : data) : data := base.delete key d.

Definition exists_ (now : time) (key : string) (d : data) : bool * data :=
  match d !! key with
  | None => (false, d)
  | Some entry =>
      if expired now entry then (false, base.delete key d)
      else (true, d)
  end.

End CacheAdapters.

(* ===================================================================== *)
(** ** SampleWorld: a validator, an oracle and a world to run the model on *)
(* ===================================================================== *)

Module SampleWorld.
Import PyVal Json Runtime Schemas Config SearchService.

Definition as_str (v : pyval) : option string :=
  match v with PStr s => Some s | _ => None end.

Definition as_int (v : pyval) : option Z :=
  match v with PInt z => Some z | _ => None end.

Definition as_bool (v : pyval) : option bool :=
  match v with PBool b => Some b | _ => None end.

Definition as_float (v : pyval) : option pyfloat :=
  match v with PFloat f => Some f | _ => None end.

Definition field {A} (f : pyval -> option A) (k : string)
    (d : list (string * pyval)) : option A :=
  dict_get k d ≫= f.

(** An optional field: absent and [None] both give no value. *)
Definition optional {A} (f : pyval -> option A) (k : string)
    (d : list (string * pyval)) : option (option A) :=
  match dict_get k d with
  | None | Some PNone => Some None
  | Some v => Some <$> f v
  end.

Fixpoint all_some {A} (l : list (option A)) : option (list A) :=
  match l with
  | [] => Some []
  | Some a :: r => cons a <$> all_some r
  | None :: _ => None
  end.

Definition sample_review (v : pyval) : option ProductReview :=
  match v with
  | PDict d =>
      c ← field as_str "content" d;
      r ← optional as_int "rating" d;
      vp ← optional as_bool "verified_purchase" d;
      u ← optional as_str "user_id" d;
      t ← optional as_str "timestamp" d;
      s ← optional as_float "similarity" d;
      h ← optional as_int "has_rating" d;
      Some {| content := c; rating := r; verified_purchase := vp;
              user_id := u; review_timestamp := t;
              review_similarity := s; has_rating := h |}
  | _ => None
  end.

Definition sample_result (v : pyval) : option ProductSearchResult :=
  match v with
  | PDict d =>
      a ← field as_str "asin" d;
      t ← field as_str "product_title" d;
      ds ← field as_str "cleaned_item_description" d;
      cs ← field as_str "product_categories" d;
      s ← optional as_float "similarity" d;
      ar ← optional as_float "avg_rating" d;
      rc ← optional as_int "rating_count" d;
      dr ← optional as_str "displayed_rating" d;
      sc ← optional as_float "combined_score" d;
      rs ← match dict_get "reviews" d with
           | Some (PList l) => all_some (List.map sample_review l)
           | None => Some []
           | _ => None
           end;
      an ← optional (fun x => Some x) "analysis" d;
      Some {| asin := a; product_title := t;
              cleaned_item_description := ds; product_categories := cs;
              similarity := s; avg_rating := ar; rating_count := rc;
              displayed_rating := dr; combined_score := sc;
              reviews := rs; analysis := an |}
  | _ => None
  end.

Definition sample_validate (d : list (string * pyval)) : option SearchResponse :=
  q ← field as_str "query" d;
  c ← field as_int "count" d;
  rs ← match dict_get "results" d with
       | Some (PList l) => all_some (List.map sample_result l)
       | _ => None
       end;
  Some {| query := q; count := c; results := rs |}.

#[export] Instance sample_validation : Validation :=
  {| validate_response := sample_validate |}.

(** An outside that never fails: the clock reads the call number, the
    warehouse returns one product and the pipeline one analysis. *)
Definition speaker : pyval :=
  PDict [ ("asin", PStr "ASIN-1");
          ("product_title", PStr "Smart Speaker");
          ("cleaned_item_description", PStr "A speaker");
          ("product_categories", PStr "Electronics");
          ("reviews", PList [ PDict [ ("content", PStr "Great");
                                      ("rating", PInt 5) ] ]) ].

Definition calm : Oracle :=
  {| adapter_fault := fun _ => false;
     publish_fault := fun _ => false;
     stream := fun _ => Timeline.NotRedis;
     clock_iso := fun n => Z.of_nat n * 1000000;
     clock_millis := fun n => Z.of_nat n * 1000;
     uuid4 := fun n => "uuid-" +:+ str_of_N (N.of_nat n);
     embedding_fault := fun _ => false;
     warehouse := fun _ => Some [speaker];
     pipeline_run := fun _ =>
       ([PDict [("asin", PStr "ASIN-1")]],
        Some [PDict [("asin", PStr "ASIN-1"); ("summary", PStr "Good")]]) |}.

Definition world_of (o : Oracle)
    (data : list (string * (Text.bytes * option Z))) : World :=
  {| oracle := o; cache_data := list_to_map data; cache_foreign := ∅;
     jobs := ∅;
     mem_timelines := ∅; background := []; tick := 0; history := [] |}.

Definition empty_world : World := world_of calm [].

Definition pipeline : RagPipeline.RAGPipeline :=
  {| RagPipeline.batching_enabled := true;
     RagPipeline.default_chunk_size := 3 |}.

Definition empty_response : SearchResponse :=
  {| query := "smart speaker"; count := 0; results := [] |}.

Definition speaker_response : SearchResponse :=
  {| query := "smart speaker"; count := 1;
     results :=
       [ {| asin := "ASIN-1"; product_title := "Smart Speaker";
            cleaned_item_description := "A speaker";
            product_categories := "Electronics";
            similarity := None; avg_rating := None; rating_count := None;
            displayed_rating := None; combined_score := None;
            reviews := [ {| content := "Great"; rating := Some 5;
                            verified_purchase := None; user_id := None;
                            review_timestamp := None;
                            review_similarity := None;
                            has_rating := None |} ];
            analysis := None |} ] |}.

End SampleWorld.

(* ===================================================================== *)
(** ** Scenario: a service, a task and callers to run the model on *)
(* ===================================================================== *)

Module Scenario.
Import PyVal Json Runtime Schemas Config SearchService SearchEndpoints
  Sample SampleWorld.
#[local] Open Scope run_scope.

Definition caching : Config :=
  {| ENABLE_CACHE := true; CACHE_TTL_DEFAULT := 3600; GUEST_CACHE_TTL := 86400;
     ENABLE_GUEST_HASHED_QUERIES := true; CACHE_FAIL_OPEN := true;
     CACHE_SCHEMA_VERSION := 1; CACHE_MAX_PAYLOAD_BYTES := 1048576 |}.

Definition service : SearchService :=
  new_service caching (Some pipeline) (Some InMemoryAdapter).

Definition speaker_task : search_task :=
  {| t_query := "Smart  Speaker"; t_query_hash := "h1"; t_products_k := 3;
     t_reviews_per_product := 3; t_cache_ttl := 3600;
     t_cache_scope := "response";
     t_fingerprint_extra := [("guest", PBool false); ("subject", PStr "user-200")];
     t_bypass_cache := false |}.

Definition user : AuthContext := {| subject := Some "user-200"; role := "user" |}.
Definition guest : AuthContext := {| subject := None; role := "Guest" |}.

Definition request (given : option string) : SearchRequest :=
  {| req_query := "Smart  Speaker"; req_query_hash := given;
     req_products_k := 3; req_reviews_per_product := 3;
     req_bypass_cache := false |}.



(** The stored form of [speaker_response]. *)
Definition speaker_blob : Text.bytes :=
  default [] (CacheUtils.serialize_payload
                (PDict (_dump_response speaker_response))).

(** A precomputed catalogue that answers the query [smart speaker]. *)
Definition catalogue : list (string * (Text.bytes * option Z)) :=
  [ (CacheUtils.build_precomputed_query_key "smart speaker",
     (Text.encode_utf8 "speaker", Some 86400));
    (CacheUtils.build_precomputed_payload_key "speaker",
     (speaker_blob, Some 86400)) ].


(** An outside whose cache adapter fails every call. *)
Definition stormy : Oracle :=
  {| adapter_fault := fun _ => true;
     publish_fault := publish_fault calm;
     stream := stream calm;
     clock_iso := clock_iso calm;
     clock_millis := clock_millis calm;
     uuid4 := uuid4 calm;
     embedding_fault := embedding_fault calm;
     warehouse := warehouse calm;
     pipeline_run := pipeline_run calm |}.

(** An outside whose timeline fails every publish. *)
Definition mute : Oracle :=
  {| adapter_fault := adapter_fault calm;
     publish_fault := fun _ => true;
     stream := stream calm;
     clock_iso := clock_iso calm;
     clock_millis := clock_millis calm;
     uuid4 := uuid4 calm;
     embedding_fault := embedding_fault calm;
     warehouse := warehouse calm;
     pipeline_run := pipeline_run calm |}.

(** The limit set to [n] bytes, with the cache on or off. *)
Definition limit_at (n : Z) (enabled : bool) : Config :=
  {| ENABLE_CACHE := enabled; CACHE_TTL_DEFAULT := 3600;
     GUEST_CACHE_TTL := 86400; ENABLE_GUEST_HASHED_QUERIES := true;
     CACHE_FAIL_OPEN := true; CACHE_SCHEMA_VERSION := 1;
     CACHE_MAX_PAYLOAD_BYTES := n |}.

Definition blob_size : Z := Z.of_nat (length speaker_blob).

(** A registry that lost the result of a completed job. *)
Definition lost_job : SearchJobs.JobRecord :=
  {| SearchJobs.query := "Smart  Speaker";
     SearchJobs.status := "completed";
     SearchJobs.created_at := 1; SearchJobs.updated_at := 5;
     SearchJobs.result := None; SearchJobs.error := None;
     SearchJobs.metadata :=
       [ ("products_k", PInt 3); ("reviews_per_product", PInt 3);
         ("guest", PBool false); ("subject", PStr "user-200") ] |}.

(** The world after the search of [speaker_task] has run, with the
    result then lost from the registry; and the same registry over an
    empty cache. *)
Definition lost_world : World :=
  with_jobs {[ "h1" := lost_job ]}
    (snd (_execute_search_job service speaker_task empty_world)).

Definition bare_world : World := with_jobs {[ "h1" := lost_job ]} empty_world.

(** The search of [speaker_task], as the background job calls it. *)
Definition speaker_search : M SearchResponse :=
  search_products service "Smart  Speaker" (Some "h1") 3 3 (Some 3600)
    (Some [("guest", PBool false); ("subject", PStr "user-200")])
    "response" false (Some (finalize "h1")) true.

(** What an action is, without its arguments. *)
Definition label (a : action) : string :=
  match a with
  | Published _ step => "publish " +:+ step
  | JobPending _ => "job pending"
  | JobCompleted _ _ => "job completed"
  | JobFailed _ _ => "job failed"
  | CacheStored _ => "cache store"
  | CacheDeleted _ => "cache delete"
  | TimelineCleared _ => "timeline clear"
  | TaskScheduled _ => "task"
  end.

(** The actions of a run, oldest first. *)
Definition trace {A} (m : M A) (w : World) : list string :=
  rev (List.map label (history (snd (m w)))).

End Scenario.

(* ===================================================================== *)
(** ** Facts on text: the canonical query is canonical *)
(* ===================================================================== *)

Module TextFacts.
Import Text.

Ltac char_cases c :=
  destruct c as [[] [] [] [] [] [] [] []]; vm_compute; reflexivity.

Lemma is_space_lower_char c : is_space (lower_char c) = is_space c.
Proof. char_cases c. Qed.

Lemma lower_char_twice c : lower_char (lower_char c) = lower_char c.
Proof. char_cases c. Qed.

Lemma lower_twice s : lower (lower s) = lower s.
Proof.
  induction s as [| c r IH]; [reflexivity |].
  cbn [lower]. rewrite lower_char_twice, IH. reflexivity.
Qed.

Lemma lstrip_lower s : lstrip (lower s) = lower (lstrip s).
Proof.
  induction s as [| c r IH]; [reflexivity |].
  cbn [lower lstrip]. rewrite is_space_lower_char.
  destruct (is_space c); [exact IH | reflexivity].
Qed.

Lemma rstrip_lower s : rstrip (lower s) = lower (rstrip s).
Proof.
  induction s as [| c r IH]; [reflexivity |].
  cbn [lower rstrip]. rewrite IH, is_space_lower_char.
  destruct (rstrip r) as [| c' r']; cbn [lower].
  - destruct (is_space c); reflexivity.
  - reflexivity.
Qed.

Lemma collapse_lower s : forall b,
  collapse_from b (lower s) = lower (collapse_from b s).
Proof.
  induction s as [| c r IH]; intros b; [reflexivity |].
  cbn [lower collapse_from]. rewrite is_space_lower_char.
  destruct (is_space c); [destruct b |]; cbn [lower]; rewrite ?IH; reflexivity.
Qed.

(** A string of white space only. *)
Fixpoint blank (s : string) : bool :=
  match s with
  | EmptyString => true
  | String c r => is_space c && blank r
  end.

Lemma rstrip_empty s : rstrip s = EmptyString -> blank s = true.
Proof.
  induction s as [| c r IH]; [reflexivity |].
  cbn [rstrip blank]. destruct (rstrip r) as [| c' r'].
  - destruct (is_space c); [intros _; apply IH; reflexivity | discriminate].
  - discriminate.
Qed.

Lemma blank_rstrip s : blank s = true -> rstrip s = EmptyString.
Proof.
  induction s as [| c r IH]; [reflexivity |].
  cbn [rstrip blank]. intros [Hc Hr]%andb_prop.
  rewrite (IH Hr), Hc. reflexivity.
Qed.

Lemma rstrip_not_blank s c r : rstrip s = String c r -> blank (String c r) = false.
Proof.
  revert c r. induction s as [| x t IH]; intros c r; [discriminate |].
  cbn [rstrip]. destruct (rstrip t) as [| c' r'] eqn:E.
  - destruct (is_space x) eqn:Hx; [discriminate |].
    intros H. injection H as <- <-. cbn. rewrite Hx. reflexivity.
  - intros H. injection H as <- <-.
    change (is_space x && blank (String c' r') = false).
    rewrite (IH c' r' eq_refl). apply andb_false_r.
Qed.

Lemma collapse_run_empty s : collapse_from true s = EmptyString -> blank s = true.
Proof.
  induction s as [| c r IH]; [reflexivity |].
  cbn [collapse_from blank]. destruct (is_space c); [exact IH | discriminate].
Qed.

Lemma collapse_word_empty s : collapse_from false s = EmptyString -> s = EmptyString.
Proof. destruct s as [| c r]; [reflexivity |]. cbn. destruct (is_space c); discriminate. Qed.

Lemma rstrip_collapse s : forall b,
  rstrip (collapse_from b s) = collapse_from b (rstrip s).
Proof.
  induction s as [| c r IH]; intros b; [reflexivity |].
  cbn [collapse_from rstrip].
  destruct (is_space c) eqn:Hc; [destruct b |].
  - rewrite IH. destruct (rstrip r); [reflexivity |].
    cbn [collapse_from]. rewrite Hc. reflexivity.
  - cbn [rstrip]. rewrite IH.
    destruct (rstrip r) as [| c' r'] eqn:E; [reflexivity |].
    pose proof (rstrip_not_blank _ _ _ E) as Hnb.
    set (t := String c' r') in *.
    cbn [collapse_from]. rewrite Hc.
    destruct (collapse_from true t) eqn:E'; [| reflexivity].
    apply collapse_run_empty in E'. congruence.
  - cbn [rstrip]. rewrite IH.
    destruct (rstrip r) as [| c' r'] eqn:E.
    + cbn [collapse_from]. rewrite Hc. reflexivity.
    + assert (String c' r' <> EmptyString) as Hne by discriminate.
      set (t := String c' r') in *.
      cbn [collapse_from]. rewrite Hc.
      destruct (collapse_from false t) eqn:E'; [| reflexivity].
      apply collapse_word_empty in E'. contradiction.
Qed.

Lemma rstrip_twice s : rstrip (rstrip s) = rstrip s.
Proof.
  induction s as [| c r IH]; [reflexivity |].
  cbn [rstrip]. destruct (rstrip r) as [| c' r'] eqn:E.
  - destruct (is_space c) eqn:Hc; [reflexivity |]. cbn. rewrite Hc. reflexivity.
  - cbn [rstrip] in *. rewrite IH. reflexivity.
Qed.

(** No white space in front. *)
Definition clean_start (s : string) : bool :=
  match s with
  | EmptyString => true
  | String c _ => negb (is_space c)
  end.

Lemma clean_start_lstrip s : clean_start (lstrip s) = true.
Proof.
  induction s as [| c r IH]; [reflexivity |].
  cbn [lstrip]. destruct (is_space c) eqn:Hc; [exact IH |]. cbn. rewrite Hc. reflexivity.
Qed.

Lemma clean_start_rstrip s : clean_start s = true -> clean_start (rstrip s) = true.
Proof.
  destruct s as [| c r]; [reflexivity |]. cbn [clean_start rstrip].
  intros Hc. destruct (rstrip r); [| exact Hc].
  destruct (is_space c) eqn:E; [reflexivity |]. cbn. rewrite E. reflexivity.
Qed.

Lemma clean_start_collapse s :
  clean_start s = true -> clean_start (collapse_from false s) = true.
Proof.
  destruct s as [| c r]; [reflexivity |]. cbn [clean_start collapse_from].
  destruct (is_space c) eqn:Hc; [discriminate | intros _; cbn [clean_start]].
  rewrite Hc. reflexivity.
Qed.

Lemma lstrip_clean s : clean_start s = true -> lstrip s = s.
Proof.
  destruct s as [| c r]; [reflexivity |]. cbn [clean_start lstrip].
  destruct (is_space c); [discriminate | reflexivity].
Qed.

Lemma collapse_twice s : forall b b',
  (b' = true -> b = true) ->
  collapse_from b' (collapse_from b s) = collapse_from b s.
Proof.
  induction s as [| c r IH]; intros b b' Hb; [reflexivity |].
  cbn [collapse_from]. destruct (is_space c) eqn:Hc.
  - destruct b.
    + apply IH. reflexivity.
    + destruct b'; [discriminate (Hb eq_refl) |].
      cbn [collapse_from]. change (is_space " "%char) with true. cbn match.
      rewrite IH; reflexivity.
  - cbn [collapse_from]. rewrite Hc, IH; [reflexivity | discriminate].
Qed.

Lemma strip_lower s : strip (lower s) = lower (strip s).
Proof. unfold strip. rewrite lstrip_lower, rstrip_lower. reflexivity. Qed.

Lemma strip_collapse_strip s :
  strip (collapse_ws (strip s)) = collapse_ws (strip s).
Proof.
  unfold strip at 1, collapse_ws.
  rewrite lstrip_clean.
  - unfold strip. rewrite rstrip_collapse, rstrip_twice. reflexivity.
  - apply clean_start_collapse. unfold strip.
    apply clean_start_rstrip, clean_start_lstrip.
Qed.

End TextFacts.

Module CacheUtilsFacts.
Import Text TextFacts CacheUtils.

Lemma canonicalize_query_idempotent q :
  canonicalize_query (canonicalize_query q) = canonicalize_query q.
Proof.
  unfold canonicalize_query.
  rewrite strip_lower. unfold collapse_ws at 1. rewrite collapse_lower.
  rewrite lower_twice. fold (collapse_ws (strip (collapse_ws (strip q)))).
  rewrite strip_collapse_strip. unfold collapse_ws.
  rewrite collapse_twice; [reflexivity | discriminate].
Qed.

Lemma canonical_key_of_canonical q :
  build_canonical_query_key (canonicalize_query q)
  = "guest:canonical:query:" +:+ Sha256.sha256_hex (canonicalize_query q).
Proof.
  unfold build_canonical_query_key. rewrite canonicalize_query_idempotent.
  reflexivity.
Qed.

End CacheUtilsFacts.

(* ===================================================================== *)
(** ** Facts on the JSON printer and parser *)
(* ===================================================================== *)

Module JsonFacts.
Import PyVal Json.

Ltac each_char c :=
  destruct c as [[] [] [] [] [] [] [] []].

Lemma append_cons (x : ascii) (a b : string) :
  String x a +:+ b = String x (a +:+ b).
Proof. reflexivity. Qed.

Lemma append_empty (b : string) : EmptyString +:+ b = b.
Proof. reflexivity. Qed.

Lemma append_assoc (a b c : string) : (a +:+ b) +:+ c = a +:+ (b +:+ c).
Proof.
  induction a as [| x a IH]; [reflexivity |].
  rewrite !append_cons, IH. reflexivity.
Qed.

Lemma append_nil (a : string) : a +:+ EmptyString = a.
Proof.
  induction a as [| x a IH]; [reflexivity |].
  rewrite append_cons, IH. reflexivity.
Qed.

Lemma append_length (a b : string) :
  String.length (a +:+ b) = (String.length a + String.length b)%nat.
Proof.
  induction a as [| x a IH]; [reflexivity |].
  rewrite append_cons. cbn [String.length]. rewrite IH. reflexivity.
Qed.

(** *** String literals *)

Lemma scan_escape_char (c : ascii) (tail : string) :
  scan_string (escape_char false c +:+ tail) = push c (scan_string tail).
Proof. each_char c; reflexivity. Qed.

Lemma scan_escape (s tail : string) :
  scan_string (escape false s +:+ String quote tail) = Some (s, tail).
Proof.
  induction s as [| c r IH].
  - reflexivity.
  - cbn [escape]. rewrite append_assoc, scan_escape_char, IH. reflexivity.
Qed.

Lemma scan_dumps_str (s rest : string) :
  exists body,
    dumps_str false s +:+ rest = String quote body
    /\ scan_string body = Some (s, rest).
Proof.
  exists (escape false s +:+ String quote rest). split.
  - unfold dumps_str. rewrite append_cons, append_assoc. reflexivity.
  - apply scan_escape.
Qed.

(** *** UTF-8 *)

#[local] Abbreviation points := Text.points.

Lemma decode_encode_char (c : ascii) (s : string) :
  Text.decode_utf8 (Text.encode_utf8 (String c s))
  = cons (Text.code c) <$> Text.decode_utf8 (Text.encode_utf8 s).
Proof. each_char c; reflexivity. Qed.

Lemma decode_encode_points (s : string) :
  Text.decode_utf8 (Text.encode_utf8 s) = Some (points s).
Proof.
  induction s as [| c r IH]; [reflexivity |].
  rewrite decode_encode_char, IH. reflexivity.
Qed.

Lemma narrow_points (s : string) : Text.narrow (points s) = Some s.
Proof.
  induction s as [| c r IH]; [reflexivity |].
  change (points (String c r)) with (Text.code c :: points r).
  cbn [Text.narrow]. rewrite IH. each_char c; reflexivity.
Qed.

Lemma decode_encode_utf8 (s : string) :
  Text.decode_text (Text.encode_utf8 s) = Some s.
Proof.
  unfold Text.decode_text. rewrite decode_encode_points. apply narrow_points.
Qed.

(** On the modelled strings the two [strip] agree. *)
Lemma is_space_point_code (c : ascii) :
  Text.is_space_point (Text.code c) = Text.is_space c.
Proof. each_char c; reflexivity. Qed.

Lemma lstrip_points_points (s : string) :
  Text.lstrip_points (points s) = points (Text.lstrip s).
Proof.
  induction s as [| c r IH]; [reflexivity |].
  change (points (String c r)) with (Text.code c :: points r).
  cbn [Text.lstrip_points Text.lstrip]. rewrite is_space_point_code.
  destruct (Text.is_space c); [exact IH | reflexivity].
Qed.

Lemma rstrip_points_points (s : string) :
  Text.rstrip_points (points s) = points (Text.rstrip s).
Proof.
  induction s as [| c r IH]; [reflexivity |].
  change (points (String c r)) with (Text.code c :: points r).
  cbn [Text.rstrip_points Text.rstrip]. rewrite IH, is_space_point_code.
  destruct (Text.rstrip r); [destruct (Text.is_space c) |]; reflexivity.
Qed.

Lemma strip_points_points (s : string) :
  Text.strip_points (points s) = points (Text.strip s).
Proof.
  unfold Text.strip_points, Text.strip.
  rewrite lstrip_points_points. apply rstrip_points_points.
Qed.

(** *** Number tokens *)

(** What can follow a value in a printed document: nothing, a comma or a
    closing bracket. *)
Definition closes (rest : string) : bool :=
  match rest with
  | EmptyString => true
  | String c _ =>
      (Text.code c =? 44) || (Text.code c =? 93) || (Text.code c =? 125)
  end.

Lemma closes_not_num (c : ascii) (r : string) :
  closes (String c r) = true -> is_num_char c = false.
Proof. each_char c; intros H; vm_compute in H; try discriminate H; reflexivity. Qed.

Lemma span_token (tok rest : string) :
  all_chars is_num_char tok = true ->
  closes rest = true ->
  span is_num_char (tok +:+ rest) = (tok, rest).
Proof.
  intros Htok Hrest. induction tok as [| c t IH].
  - rewrite append_empty. destruct rest as [| c r]; [reflexivity |].
    cbn [span]. rewrite (closes_not_num c r Hrest). reflexivity.
  - cbn [all_chars] in Htok. apply andb_prop in Htok as [Hc Ht].
    rewrite append_cons. cbn [span]. rewrite Hc, (IH Ht). reflexivity.
Qed.

Lemma not_infinity (t rest : string) :
  all_chars is_num_char t = true ->
  closes rest = true ->
  strip_prefix "Infinity" (t +:+ rest) = None.
Proof.
  intros Ht Hrest. destruct t as [| c t'].
  - rewrite append_empty. destruct rest as [| c r]; [reflexivity |].
    revert Hrest. each_char c; intros H; vm_compute in H; try discriminate H;
      reflexivity.
  - cbn [all_chars] in Ht. apply andb_prop in Ht as [Hc _].
    rewrite append_cons. revert Hc.
    each_char c; intros H; vm_compute in H; try discriminate H; reflexivity.
Qed.

Section numbers.
Context {lib : Library}.

Lemma number_dispatch (k : nat) (c : ascii) (t rest : string) :
  is_num_char c = true ->
  all_chars is_num_char t = true ->
  closes rest = true ->
  parse_value (S k) (String c t +:+ rest) = parse_number (String c t +:+ rest).
Proof.
  intros Hc Ht Hrest. rewrite append_cons.
  pose proof (not_infinity t rest Ht Hrest) as Hinf. revert Hc.
  each_char c; intros H; vm_compute in H; try discriminate H; clear H;
    try reflexivity.
  change (match strip_prefix "Infinity" (t +:+ rest) with
          | Some r => Some (PFloat (Float64 0xfff0000000000000), r)
          | None => parse_number (String "-" (t +:+ rest))
          end = parse_number (String "-" (t +:+ rest))).
  rewrite Hinf. reflexivity.
Qed.

Lemma parse_token (k : nat) (tok rest : string) (v : pyval) :
  tok <> EmptyString ->
  all_chars is_num_char tok = true ->
  closes rest = true ->
  match int_literal tok with
  | Some z => if int_fits z then Some (PInt z) else None
  | None => PFloat <$> float_of_str tok
  end = Some v ->
  parse_value (S k) (tok +:+ rest) = Some (v, rest).
Proof.
  intros Hne Htok Hrest Hv. destruct tok as [| c t]; [contradiction |].
  pose proof Htok as Hall.
  cbn [all_chars] in Htok. apply andb_prop in Htok as [Hc Ht].
  rewrite (number_dispatch k c t rest Hc Ht Hrest).
  unfold parse_number. rewrite (span_token _ _ Hall Hrest).
  destruct (int_literal (String c t)) as [z |].
  - destruct (int_fits z); [| discriminate].
    injection Hv as <-. reflexivity.
  - destruct (float_of_str (String c t)) as [f |]; [| discriminate].
    injection Hv as <-. reflexivity.
Qed.

End numbers.

Lemma digits_are_num_chars (s : string) :
  all_chars is_digit s = true -> all_chars is_num_char s = true.
Proof.
  induction s as [| c r IH]; [reflexivity |]. cbn [all_chars].
  intros [Hc Hr]%andb_prop. rewrite (IH Hr). unfold is_num_char. rewrite Hc.
  reflexivity.
Qed.

Lemma str_of_Z_num_chars (z : Z) : all_chars is_num_char (str_of_Z z) = true.
Proof.
  unfold str_of_Z. destruct (z <? 0).
  - cbn [all_chars]. rewrite digits_are_num_chars by apply DecimalFacts.str_of_N_digits.
    reflexivity.
  - apply digits_are_num_chars, DecimalFacts.str_of_N_digits.
Qed.

Lemma str_of_Z_nonempty (z : Z) : str_of_Z z <> EmptyString.
Proof.
  unfold str_of_Z. destruct (z <? 0); [discriminate |].
  apply DecimalFacts.str_of_N_nonempty.
Qed.

(** *** Values that JSON holds *)

Fixpoint distinct (keys : list string) : bool :=
  match keys with
  | [] => true
  | k :: r => negb (existsb (String.eqb k) r) && distinct r
  end.

(** The values of the JSON data model that the interpreter prints: no
    tuple, set or bytes, no infinity and no NaN, no integer of more
    digits than it converts, and mappings with one entry per key. *)
Fixpoint json_value (v : pyval) : bool :=
  match v with
  | PNone | PBool _ | PStr _ => true
  | PInt z => int_fits z
  | PFloat f => float_finite f
  | PList xs => forallb json_value xs
  | PDict d =>
      distinct (List.map fst d)
      && (fix all (d : list (string * pyval)) : bool :=
            match d with
            | [] => true
            | kv :: r => json_value (snd kv) && all r
            end) d
  | PBytes _ | PTuple _ | PSet _ | PFrozenSet _ => false
  end.

(** What is known of the printer and the parser of floats: a finite
    float prints as a number token that is not an integer literal and
    that reads back as the same float. *)
Definition float_round_trip (lib : Library) : Prop :=
  forall f, float_finite f = true ->
    float_repr f <> EmptyString
    /\ all_chars is_num_char (float_repr f) = true
    /\ int_literal (float_repr f) = None
    /\ float_of_str (float_repr f) = Some f.

Lemma dict_set_fresh {A} (k : string) (v : A) (d : list (string * A)) :
  existsb (String.eqb k) (List.map fst d) = false ->
  dict_set k v d = d ++ [(k, v)].
Proof.
  induction d as [| [k' v'] r IH]; [reflexivity |].
  cbn [List.map fst existsb dict_set]. intros [Hk Hr]%orb_false_elim.
  rewrite Hk, (IH Hr). reflexivity.
Qed.

Lemma dict_update_distinct {A} (pairs d : list (string * A)) :
  distinct (List.map fst (d ++ pairs)) = true ->
  dict_update d pairs = d ++ pairs.
Proof.
  unfold dict_update. revert d.
  induction pairs as [| [k v] r IH]; intros d H.
  - rewrite app_nil_r. reflexivity.
  - cbn [fold_left fst snd].
    assert (existsb (String.eqb k) (List.map fst d) = false) as Hfresh.
    { clear IH. induction d as [| [k' v'] d IHd]; [reflexivity |].
      cbn [List.map fst app distinct] in H. apply andb_prop in H as [Hk' Hd].
      cbn [List.map fst existsb]. rewrite (IHd Hd), orb_false_r.
      rewrite List.map_app, existsb_app in Hk'. cbn in Hk'.
      apply negb_true_iff, orb_false_elim in Hk' as [_ Hk'].
      apply orb_false_elim in Hk' as [Hk' _].
      rewrite String.eqb_sym. exact Hk'. }
    rewrite (dict_set_fresh k v d Hfresh).
    rewrite IH; rewrite <- app_assoc; [reflexivity | exact H].
Qed.

Lemma dict_of_pairs_distinct {A} (pairs : list (string * A)) :
  distinct (List.map fst pairs) = true -> dict_of_pairs pairs = pairs.
Proof. intros H. apply (dict_update_distinct pairs []). exact H. Qed.

(** *** The printed document read back *)

(** The first character of a printed value: no white space and no
    closing bracket. *)
Definition opens (s : string) : bool :=
  match s with
  | EmptyString => false
  | String c _ => negb (is_json_ws c) && negb (Text.code c =? 93)
  end.

Lemma opens_skip_ws (s tail : string) :
  opens s = true -> skip_ws (s +:+ tail) = s +:+ tail.
Proof.
  destruct s as [| c r]; [discriminate |]. cbn [opens].
  intros [Hws _]%andb_prop. rewrite append_cons. cbn [skip_ws].
  apply negb_true_iff in Hws. rewrite Hws. reflexivity.
Qed.

Lemma opens_not_closing (s tail : string) :
  opens s = true ->
  exists c r, s +:+ tail = String c r /\ (Text.code c =? 93) = false.
Proof.
  destruct s as [| c r]; [discriminate |]. cbn [opens].
  intros [_ Hc]%andb_prop. exists c, (r +:+ tail).
  split; [reflexivity | apply negb_true_iff, Hc].
Qed.

Lemma num_char_opens (c : ascii) (r : string) :
  is_num_char c = true -> opens (String c r) = true.
Proof. each_char c; intros H; vm_compute in H; try discriminate H; reflexivity. Qed.

Lemma token_opens (tok : string) :
  tok <> EmptyString -> all_chars is_num_char tok = true -> opens tok = true.
Proof.
  destruct tok as [| c r]; [contradiction |]. intros _.
  cbn [all_chars]. intros [Hc _]%andb_prop. apply num_char_opens, Hc.
Qed.

Lemma join_cons (sep a b : string) (l : list string) :
  join sep (a :: b :: l) = a +:+ sep +:+ join sep (b :: l).
Proof. reflexivity. Qed.

Lemma join_opens (a : string) (l : list string) :
  opens a = true -> opens (join "," (a :: l)) = true.
Proof.
  destruct l as [| b l]; [intros H; exact H |].
  rewrite join_cons. destruct a as [| c r]; [discriminate |].
  intros H. exact H.
Qed.

Section round_trip.
Context {lib : Library}.
Hypothesis float_law : float_round_trip lib.

Fixpoint dumps_items (xs : list pyval) : option (list string) :=
  match xs with
  | [] => Some []
  | x :: r =>
      match dumps false false x, dumps_items r with
      | Some a, Some b => Some (a :: b)
      | _, _ => None
      end
  end.

Fixpoint dumps_members (d : list (string * pyval))
  : option (list (string * string)) :=
  match d with
  | [] => Some []
  | (k, x) :: r =>
      match dumps false false x, dumps_members r with
      | Some a, Some b => Some ((k, a) :: b)
      | _, _ => None
      end
  end.

Lemma dumps_list (xs : list pyval) :
  dumps false false (PList xs)
  = match dumps_items xs with
    | Some l => Some ("[" +:+ join "," l +:+ "]")
    | None => None
    end.
Proof. reflexivity. Qed.

Lemma dumps_dict (d : list (string * pyval)) :
  dumps false false (PDict d)
  = match dumps_members d with
    | Some l => Some ("{" +:+ join "," (List.map (dumps_member false) l) +:+ "}")
    | None => None
    end.
Proof. reflexivity. Qed.

(** What the induction carries for one value. *)
Definition reads_back (v : pyval) : Prop :=
  json_value v = true ->
  forall s, dumps false false v = Some s ->
    opens s = true
    /\ forall rest fuel,
         closes rest = true ->
         (String.length s <= fuel)%nat ->
         parse_value fuel (s +:+ rest) = Some (v, rest).

Lemma items_read_back (xs : list pyval) :
  Forall reads_back xs ->
  forallb json_value xs = true ->
  forall l, dumps_items xs = Some l ->
  xs <> [] ->
  opens (join "," l) = true
  /\ forall rest fuel,
       (String.length (join "," l) + 1 <= fuel)%nat ->
       parse_items fuel (join "," l +:+ String "]" rest) = Some (xs, rest).
Proof.
  induction 1 as [| x r Hx Hr IH]; intros Hjson l Hdump Hne; [contradiction |].
  cbn [forallb] in Hjson. apply andb_prop in Hjson as [Hjx Hjr].
  cbn [dumps_items] in Hdump.
  destruct (dumps false false x) as [a |] eqn:Ea; [| discriminate].
  destruct (dumps_items r) as [b |] eqn:Eb; [| discriminate].
  injection Hdump as <-.
  destruct (Hx Hjx a Ea) as [Hopen Hparse].
  split; [apply join_opens, Hopen |].
  intros rest fuel Hfuel. destruct fuel as [| k]; [lia |].
  destruct r as [| y r'].
  - cbn in Eb. injection Eb as <-. cbn [join] in *.
    cbn [parse_items]. rewrite Hparse; [| reflexivity | lia].
    reflexivity.
  - destruct (IH Hjr b eq_refl) as [Hopen' Hrest]; [discriminate |].
    destruct b as [| b1 b']; [cbn in Eb; destruct (dumps false false y), (dumps_items r'); discriminate |].
    rewrite join_cons in *. rewrite !append_assoc.
    rewrite append_length in Hfuel. rewrite append_length in Hfuel.
    cbn [parse_items]. rewrite Hparse; [| reflexivity | lia].
    change ("," +:+ join "," (b1 :: b') +:+ String "]" rest)
      with (String "," (join "," (b1 :: b') +:+ String "]" rest)).
    cbn [skip_ws]. change (is_json_ws ",") with false. cbn match.
    change (Text.code "," =? 44) with true. cbn match.
    rewrite (opens_skip_ws _ _ Hopen').
    rewrite Hrest; [reflexivity |].
    cbn [String.length] in Hfuel. lia.
Qed.

Lemma member_cons (k a tail : string) :
  exists body,
    dumps_member false (k, a) +:+ tail = String quote body
    /\ scan_string body = Some (k, String ":" (a +:+ tail)).
Proof.
  unfold dumps_member. cbn [fst snd]. rewrite !append_assoc.
  apply (scan_dumps_str k (":" +:+ a +:+ tail)).
Qed.

Lemma member_length (k a : string) :
  (String.length a + 3 <= String.length (dumps_member false (k, a)))%nat.
Proof.
  unfold dumps_member, dumps_str. cbn [fst snd].
  rewrite append_cons. cbn [String.length]. rewrite !append_length.
  cbn [String.length]. lia.
Qed.

Lemma member_opens (k a : string) : opens (dumps_member false (k, a)) = true.
Proof. reflexivity. Qed.

Lemma members_read_back (d : list (string * pyval)) :
  Forall (fun kv => reads_back (snd kv)) d ->
  (fix all (d : list (string * pyval)) : bool :=
     match d with
     | [] => true
     | kv :: r => json_value (snd kv) && all r
     end) d = true ->
  forall l, dumps_members d = Some l ->
  d <> [] ->
  forall rest fuel,
    (String.length (join "," (List.map (dumps_member false) l)) + 1 <= fuel)%nat ->
    parse_members fuel
      (join "," (List.map (dumps_member false) l) +:+ String "}" rest)
    = Some (d, rest).
Proof.
  induction 1 as [| [k x] r Hx Hr IH]; intros Hjson l Hdump Hne; [contradiction |].
  apply andb_prop in Hjson as [Hjx Hjr]. cbn [snd] in *.
  cbn [dumps_members] in Hdump.
  destruct (dumps false false x) as [a |] eqn:Ea; [| discriminate].
  destruct (dumps_members r) as [b |] eqn:Eb; [| discriminate].
  injection Hdump as <-.
  destruct (Hx Hjx a Ea) as [Hopen Hparse].
  intros rest fuel Hfuel. destruct fuel as [| n]; [lia |].
  cbn [List.map] in *.
  pose proof (member_length k a) as Hlen.
  destruct r as [| [k' y] r'].
  - cbn in Eb. injection Eb as <-. cbn [List.map join] in *.
    destruct (member_cons k a (String "}" rest)) as (body & -> & Hscan).
    cbn [parse_members]. change (Text.code quote =? 34) with true. cbn match.
    rewrite Hscan. cbn [skip_ws]. change (is_json_ws ":") with false. cbn match.
    change (Text.code ":" =? 58) with true. cbn match.
    rewrite (opens_skip_ws _ _ Hopen).
    rewrite Hparse; [| reflexivity | lia].
    reflexivity.
  - assert (exists b1 b', b = b1 :: b') as (b1 & b' & ->).
    { cbn in Eb. destruct (dumps false false y), (dumps_members r');
        try discriminate. injection Eb as <-. eauto. }
    cbn [List.map] in *. rewrite join_cons in *.
    rewrite !append_length in Hfuel. cbn [String.length] in Hfuel.
    rewrite !append_assoc.
    destruct (member_cons k a
                ("," +:+ join "," (dumps_member false b1
                                   :: List.map (dumps_member false) b')
                 +:+ String "}" rest)) as (body & -> & Hscan).
    cbn [parse_members]. change (Text.code quote =? 34) with true. cbn match.
    rewrite Hscan. cbn [skip_ws]. change (is_json_ws ":") with false. cbn match.
    change (Text.code ":" =? 58) with true. cbn match.
    rewrite (opens_skip_ws _ _ Hopen).
    rewrite Hparse; [| reflexivity | lia].
    rewrite append_cons, append_empty.
    cbn [skip_ws]. change (is_json_ws ",") with false. cbn match.
    change (Text.code "," =? 44) with true. cbn match.
    rewrite opens_skip_ws
      by (apply join_opens; destruct b1; apply member_opens).
    rewrite (IH Hjr _ eq_refl); [reflexivity | discriminate |].
    cbn [List.map]. lia.
Qed.

Lemma value_reads_back (v : pyval) : reads_back v.
Proof.
  induction v using pyval_nested_ind; intros Hjson out Hdump;
    try discriminate Hjson.
  - injection Hdump as <-. split; [reflexivity |].
    intros rest [| k] _ Hfuel; [cbn in Hfuel; lia | reflexivity].
  - destruct b; injection Hdump as <-; (split; [reflexivity |]);
      intros rest [| k] _ Hfuel; try (cbn in Hfuel; lia); reflexivity.
  - cbn [json_value] in Hjson. cbn [dumps] in Hdump. rewrite Hjson in Hdump.
    injection Hdump as <-.
    split; [apply token_opens;
            [apply str_of_Z_nonempty | apply str_of_Z_num_chars] |].
    intros rest [| k] Hrest Hfuel.
    + pose proof (str_of_Z_nonempty z). destruct (str_of_Z z); [congruence |].
      cbn in Hfuel. lia.
    + apply parse_token;
        [apply str_of_Z_nonempty | apply str_of_Z_num_chars | exact Hrest |].
      rewrite DecimalFacts.int_literal_str, Hjson. reflexivity.
  - cbn [json_value] in Hjson.
    destruct (float_law f Hjson) as (Hne & Hchars & Hint & Hback).
    cbn [dumps] in Hdump. unfold dumps_float in Hdump. rewrite Hjson in Hdump.
    injection Hdump as <-.
    split; [apply token_opens; assumption |].
    intros rest [| k] Hrest Hfuel.
    + destruct (float_repr f); [congruence |]. cbn in Hfuel. lia.
    + apply parse_token; try assumption. rewrite Hint, Hback. reflexivity.
  - injection Hdump as <-. split; [reflexivity |].
    intros rest [| k] _ Hfuel; [cbn in Hfuel; lia |].
    destruct (scan_dumps_str s rest) as (body & -> & Hscan).
    cbn [parse_value]. change (Text.code quote =? 34) with true. cbn match.
    rewrite Hscan. reflexivity.
  - rewrite dumps_list in Hdump. cbn [json_value] in Hjson.
    destruct (dumps_items xs) as [l |] eqn:El; [| discriminate].
    injection Hdump as <-. split; [reflexivity |].
    change (String.length ("[" +:+ join "," l +:+ "]"))
      with (S (String.length (join "," l +:+ "]"))).
    intros rest [| k] _ Hfuel; [lia |].
    change (("[" +:+ join "," l +:+ "]") +:+ rest)
      with (String "[" ((join "," l +:+ "]") +:+ rest)).
    rewrite append_assoc.
    rewrite append_length in Hfuel. cbn [String.length] in Hfuel.
    destruct xs as [| x r].
    + cbn in El. injection El as <-. reflexivity.
    + destruct (items_read_back (x :: r) H Hjson l El) as [Hopen Hparse];
        [discriminate |].
      destruct (opens_not_closing _ (String "]" rest) Hopen)
        as (c & t & Hhead & Hc).
      cbn [parse_value]. change (Text.code "[" =? 34) with false.
      change (Text.code "[" =? 123) with false.
      change (Text.code "[" =? 91) with true. cbn match.
      change ("]" +:+ rest) with (String "]" rest).
      rewrite (opens_skip_ws _ _ Hopen). rewrite Hhead at 1. rewrite Hc.
      rewrite Hparse by lia. reflexivity.
  - rewrite dumps_dict in Hdump. cbn [json_value] in Hjson.
    apply andb_prop in Hjson as [Hkeys Hvals].
    destruct (dumps_members d) as [l |] eqn:El; [| discriminate].
    injection Hdump as <-. split; [reflexivity |].
    set (body := join "," (List.map (dumps_member false) l)).
    change (String.length ("{" +:+ body +:+ "}"))
      with (S (String.length (body +:+ "}"))).
    intros rest [| k] _ Hfuel; [lia |].
    change (("{" +:+ body +:+ "}") +:+ rest)
      with (String "{" ((body +:+ "}") +:+ rest)).
    rewrite append_assoc.
    rewrite append_length in Hfuel. cbn [String.length] in Hfuel.
    change ("}" +:+ rest) with (String "}" rest). subst body.
    destruct d as [| [key x] r].
    + cbn in El. injection El as <-. reflexivity.
    + pose proof (members_read_back ((key, x) :: r) H Hvals l El) as Hparse.
      assert (exists m l', l = m :: l') as (m & l' & ->).
      { cbn in El. destruct (dumps false false x), (dumps_members r);
          try discriminate. injection El as <-. eauto. }
      assert (opens (join "," (List.map (dumps_member false) (m :: l'))) = true)
        as Hopen by (apply join_opens; destruct m; apply member_opens).
      assert (exists t, join "," (List.map (dumps_member false) (m :: l'))
                        +:+ String "}" rest = String quote t) as [t Hhead].
      { destruct m as [mk ma]. cbn [List.map].
        destruct (List.map (dumps_member false) l') as [| b bs].
        - cbn [join]. destruct (member_cons mk ma (String "}" rest))
            as (body & -> & _). eauto.
        - rewrite join_cons, !append_assoc.
          destruct (member_cons mk ma ("," +:+ join "," (b :: bs)
                                       +:+ String "}" rest))
            as (body & -> & _). eauto. }
      cbn [parse_value]. change (Text.code "{" =? 34) with false.
      change (Text.code "{" =? 123) with true. cbn match.
      rewrite (opens_skip_ws _ _ Hopen). rewrite Hhead at 1.
      change (Text.code quote =? 125) with false. cbn match.
      rewrite Hparse; [| discriminate | lia].
      rewrite (dict_of_pairs_distinct _ Hkeys). reflexivity.
Qed.

(** [json.loads] reads back what [json.dumps] printed. *)
Lemma loads_dumps (v : pyval) (s : string) :
  json_value v = true ->
  dumps false false v = Some s ->
  loads s = Some v.
Proof.
  intros Hjson Hdump.
  destruct (value_reads_back v Hjson s Hdump) as [Hopen Hparse].
  unfold loads. rewrite <- (append_nil s) at 2.
  rewrite (opens_skip_ws _ _ Hopen), append_nil.
  rewrite <- (append_nil s) at 2.
  rewrite Hparse; [reflexivity | reflexivity | lia].
Qed.

(** A JSON value always prints. *)
Lemma dumps_total (v : pyval) :
  json_value v = true -> exists s, dumps false false v = Some s.
Proof.
  induction v using pyval_nested_ind; intros Hjson;
    try discriminate Hjson; try (eexists; reflexivity).
  - destruct b; eexists; reflexivity.
  - cbn [json_value] in Hjson. cbn [dumps]. rewrite Hjson. eauto.
  - rewrite dumps_list. cbn [json_value] in Hjson.
    assert (exists l, dumps_items xs = Some l) as [l ->]; [| eauto].
    induction H as [| x r Hx Hr IH]; [eexists; reflexivity |].
    cbn [forallb] in Hjson. apply andb_prop in Hjson as [Hjx Hjr].
    cbn [dumps_items]. destruct (Hx Hjx) as [a ->].
    destruct (IH Hjr) as [b ->]. eauto.
  - rewrite dumps_dict. cbn [json_value] in Hjson.
    apply andb_prop in Hjson as [_ Hvals].
    assert (exists l, dumps_members d = Some l) as [l ->]; [| eauto].
    induction H as [| [k x] r Hx Hr IH]; [eexists; reflexivity |].
    apply andb_prop in Hvals as [Hjx Hjr]. cbn [snd] in *.
    cbn [dumps_members]. destruct (Hx Hjx) as [a ->].
    destruct (IH Hjr) as [b ->]. eauto.
Qed.

End round_trip.

End JsonFacts.

(* ===================================================================== *)
(** ** The cached payload survives the round trip *)
(* ===================================================================== *)

Module PayloadRoundTrip.
Import PyVal Json JsonFacts CacheUtils.


(** The sample library keeps the laws. *)
Lemma sample_gzip_inverts : gzip_inverts Sample.sample_library.
Proof.
  intros d. cbn [gzip_decompress gzip_compress Sample.sample_library].
  unfold Sample.sample_gzip_decompress, Sample.sample_gzip_compress.
  assert (length (Sample.gzip_header ++ d ++ Sample.gzip_trailer)
          = (length d + 18)%nat) as Hlen.
  { rewrite !length_app. cbn. lia. }
  rewrite Hlen.
  destruct (Nat.ltb_spec (length d + 18) 18) as [Hlt | _]; [lia |].
  change (firstn 10 (Sample.gzip_header ++ d ++ Sample.gzip_trailer))
    with Sample.gzip_header.
  rewrite bool_decide_eq_true_2 by reflexivity.
  change (skipn 10 (Sample.gzip_header ++ d ++ Sample.gzip_trailer))
    with (d ++ Sample.gzip_trailer).
  replace (length d + 18 - 18)%nat with (length d) by lia.
  rewrite firstn_app, Nat.sub_diag, firstn_all. cbn. rewrite app_nil_r.
  reflexivity.
Qed.

Lemma all_chars_app (p : ascii -> bool) (a b : string) :
  all_chars p (a +:+ b) = all_chars p a && all_chars p b.
Proof.
  induction a as [| c r IH]; [reflexivity |].
  rewrite append_cons. cbn [all_chars]. rewrite IH, andb_assoc. reflexivity.
Qed.

Lemma span_app (p : ascii -> bool) (a : string) (c : ascii) (b : string) :
  all_chars p a = true -> p c = false ->
  span p (a +:+ String c b) = (a, String c b).
Proof.
  intros Ha Hc. induction a as [| x r IH].
  - rewrite append_empty. cbn [span]. rewrite Hc. reflexivity.
  - cbn [all_chars] in Ha. apply andb_prop in Ha as [Hx Hr].
    rewrite append_cons. cbn [span]. rewrite Hx, (IH Hr). reflexivity.
Qed.

Lemma str_of_Z_signed (z : Z) :
  all_chars Sample.is_sign_or_digit (str_of_Z z) = true.
Proof.
  assert (forall s, all_chars is_digit s = true ->
                    all_chars Sample.is_sign_or_digit s = true) as Hd.
  { induction s as [| c r IH]; [reflexivity |]. cbn [all_chars].
    intros [Hc Hr]%andb_prop. rewrite (IH Hr).
    unfold Sample.is_sign_or_digit. rewrite Hc. reflexivity. }
  unfold str_of_Z. destruct (z <? 0).
  - cbn [all_chars]. rewrite Hd by apply DecimalFacts.str_of_N_digits. reflexivity.
  - apply Hd, DecimalFacts.str_of_N_digits.
Qed.

Lemma fraction_not_int (s : string) : int_literal (s +:+ ".0") = None.
Proof.
  assert (forall t, N_of_digits (t +:+ ".0") = None) as Hn.
  { intros t. unfold N_of_digits.
    destruct (t +:+ ".0") eqn:E; [reflexivity |]. rewrite <- E.
    rewrite all_chars_app. cbn. rewrite andb_false_r. reflexivity. }
  assert (forall t, nat_literal (t +:+ ".0") = None) as Hl.
  { intros t. unfold nat_literal. destruct (t +:+ ".0") eqn:E; [reflexivity |].
    rewrite <- E, Hn. destruct (_ && _); reflexivity. }
  unfold int_literal. destruct s as [| c r].
  - reflexivity.
  - rewrite append_cons. destruct (Text.code c =? 45).
    + rewrite Hl. reflexivity.
    + rewrite <- append_cons, Hl. reflexivity.
Qed.

Lemma sample_float_round_trip : float_round_trip Sample.sample_library.
Proof.
  intros [bits] _.
  cbn [float_repr float_of_str Sample.sample_library].
  unfold Sample.sample_float_repr, Sample.sample_float_of_str.
  cbn [float_bits]. repeat split.
  - pose proof (str_of_Z_nonempty bits). destruct (str_of_Z bits);
      [congruence | discriminate].
  - rewrite all_chars_app, str_of_Z_num_chars. reflexivity.
  - apply fraction_not_int.
  - rewrite (span_app _ _ _ _ (str_of_Z_signed bits)) by reflexivity.
    cbn [String.eqb Ascii.eqb Bool.eqb].
    rewrite DecimalFacts.int_literal_str. reflexivity.
Qed.

(** A payload with every kind of JSON value in it. *)
Definition mixed_payload : pyval :=
  PDict [ ("query", PStr "smart \speaker/ caf\233");
          ("count", PInt (-12));
          ("score", PFloat (Float64 4607182418800017408));
          ("cached", PBool true);
          ("next", PNone);
          ("results",
           PList [ PDict [("asin", PStr "ASIN-1"); ("tags", PList [])];
                   PDict [];
                   PList [PInt 0; PStr EmptyString] ]) ].




(** The same, by running the model. *)
Example mixed_payload_round_trip :
  (serialize_payload (lib := Sample.sample_library) mixed_payload
   ≫= deserialize_payload (lib := Sample.sample_library))
  = Some mixed_payload.
Proof. vm_compute. reflexivity. Qed.

End PayloadRoundTrip.

(* ===================================================================== *)
(** ** Facts on runs *)
(* ===================================================================== *)

Module RuntimeFacts.
Import Runtime.
#[local] Open Scope run_scope.

Lemma bind_return {A B} (m : M A) (k : A -> M B) w a w' :
  m w = (Return a, w') -> bind m k w = k a w'.
Proof. intros E. unfold bind. rewrite E. reflexivity. Qed.

Lemma bind_raise {A B} (m : M A) (k : A -> M B) w e w' :
  m w = (Raise e, w') -> bind m k w = (Raise e, w').
Proof. intros E. unfold bind. rewrite E. reflexivity. Qed.

Lemma fst_bind_return {A B} (m : M A) (k : A -> M B) w a w' :
  m w = (Return a, w') -> fst (bind m k w) = fst (k a w').
Proof. intros E. rewrite (bind_return m k w a w' E). reflexivity. Qed.

Lemma fst_bind_assoc {A B C} (m : M A) (j : A -> M B) (k : B -> M C) w :
  fst (bind (bind m j) k w) = fst (bind m (fun a => bind (j a) k) w).
Proof. unfold bind. destruct (m w) as [[a | e] w1]; reflexivity. Qed.

Lemma mark_completed_run q res w :
  exists record w',
    mark_completed q res w = (Return record, w')
    /\ history w' = JobCompleted q res :: history w.
Proof.
  unfold mark_completed, bind, ask, gets, modify, log, ret. cbn.
  eexists _, _. split; reflexivity.
Qed.

End RuntimeFacts.

(* ===================================================================== *)
(** ** Order of the registry update and the completion event *)
(* ===================================================================== *)

Module CompletionOrder.
Import PyVal Json Runtime RuntimeFacts Schemas Config SearchService SearchEndpoints.
#[local] Open Scope run_scope.

(** [response.completed] published for the hash [h]. *)
Definition is_completion (h : string) (a : action) : bool :=
  match a with
  | Published q s => String.eqb q h && String.eqb s "response.completed"
  | _ => false
  end.

Definition quiet (h : string) (hist : list action) : bool :=
  forallb (fun a => negb (is_completion h a)) hist.

(** The actions a computation adds satisfy [ok], whatever its outcome. *)
Definition effect {A} (ok : list action -> bool) (m : M A) : Prop :=
  forall w, exists new,
    history (snd (m w)) = new ++ history w /\ ok new = true.

(** The conditions on added actions that the rules compose. *)
Class Composable (ok : list action -> bool) : Prop := {
  ok_nil : ok [] = true;
  ok_app : forall a b, ok a = true -> ok b = true -> ok (a ++ b) = true;
}.

Section effect_rules.
Context (ok : list action -> bool) {composable : Composable ok}.

Lemma effect_ret {A} (a : A) : effect ok (ret a).
Proof. intros w. exists []. split; [reflexivity | exact ok_nil]. Qed.

Lemma effect_raise {A} (e : exn) : effect ok (@raise A e).
Proof. intros w. exists []. split; [reflexivity | exact ok_nil]. Qed.

Lemma effect_gets {A} (f : World -> A) : effect ok (gets f).
Proof. intros w. exists []. split; [reflexivity | exact ok_nil]. Qed.

Lemma effect_ask {A} (f : Oracle -> nat -> A) : effect ok (ask f).
Proof. intros w. exists []. split; [reflexivity | exact ok_nil]. Qed.

Lemma effect_modify (f : World -> World) :
  (forall w, history (f w) = history w) -> effect ok (modify f).
Proof. intros H w. exists []. split; [apply H | exact ok_nil]. Qed.

Lemma effect_log (a : action) : ok [a] = true -> effect ok (log a).
Proof. intros H w. exists [a]. split; [reflexivity | exact H]. Qed.

Lemma effect_bind {A B} (m : M A) (k : A -> M B) :
  effect ok m -> (forall a, effect ok (k a)) -> effect ok (bind m k).
Proof.
  intros Hm Hk w. unfold bind.
  destruct (Hm w) as (n1 & H1 & O1).
  destruct (m w) as [[a | e] w1]; cbn in H1.
  - destruct (Hk a w1) as (n2 & H2 & O2).
    exists (n2 ++ n1). split; [| apply ok_app; assumption].
    rewrite H2, H1. apply List.app_assoc.
  - exists n1. split; assumption.
Qed.

Lemma effect_catch {A} (m : M A) (h : exn -> M A) :
  effect ok m -> (forall e, effect ok (h e)) -> effect ok (catch m h).
Proof.
  intros Hm Hh w. unfold catch.
  destruct (Hm w) as (n1 & H1 & O1).
  destruct (m w) as [[a | e] w1]; cbn in H1.
  - exists n1. split; assumption.
  - destruct (Hh e w1) as (n2 & H2 & O2).
    exists (n2 ++ n1). split; [| apply ok_app; assumption].
    rewrite H2, H1. apply List.app_assoc.
Qed.

Lemma effect_of_option {A} (o : option A) (e : exn) : effect ok (of_option o e).
Proof. destruct o; [apply effect_ret | apply effect_raise]. Qed.

End effect_rules.

Lemma effect_weaken {A} (ok1 ok2 : list action -> bool) (m : M A) :
  (forall l, ok1 l = true -> ok2 l = true) -> effect ok1 m -> effect ok2 m.
Proof.
  intros H Hm w. destruct (Hm w) as (n & Hn & Ho). exists n. split; auto.
Qed.

Lemma quiet_app h a b : quiet h a = true -> quiet h b = true -> quiet h (a ++ b) = true.
Proof. unfold quiet. intros Ha Hb. rewrite forallb_app, Ha, Hb. reflexivity. Qed.

#[export] Instance quiet_composable h : Composable (quiet h).
Proof. split; [reflexivity | apply quiet_app]. Qed.

Ltac effect_step :=
  lazymatch goal with
  | |- effect _ (bind _ _) =>
      apply effect_bind; [typeclasses eauto | | intros ?]
  | |- effect _ (catch _ _) =>
      apply effect_catch; [typeclasses eauto | | intros ?]
  | |- effect _ (ret _) => apply effect_ret; typeclasses eauto
  | |- effect _ (raise _) => apply effect_raise; typeclasses eauto
  | |- effect _ (gets _) => apply effect_gets; typeclasses eauto
  | |- effect _ (ask _) => apply effect_ask; typeclasses eauto
  | |- effect _ (of_option _ _) => apply effect_of_option; typeclasses eauto
  | |- effect _ (modify _) =>
      apply effect_modify; [typeclasses eauto | intros ?; reflexivity]
  | |- effect _ (log _) => apply effect_log; reflexivity
  | |- effect _ (if ?b then _ else _) => destruct b
  | |- effect _ (match ?x with _ => _ end) => destruct x
  end.

Section quiet_effects.
Context {lib : Library} {val : Validation}.
Variable h : string.


Lemma quiet_adapter_call op : effect (quiet h) (adapter_call op).
Proof. unfold adapter_call. repeat effect_step. Qed.

Lemma quiet_adapter_get key : effect (quiet h) (adapter_get key).
Proof. unfold adapter_get. effect_step; [apply quiet_adapter_call |]. repeat effect_step. Qed.

Lemma quiet_adapter_set key v ttl : effect (quiet h) (adapter_set key v ttl).
Proof. unfold adapter_set. effect_step; [apply quiet_adapter_call |]. repeat effect_step. Qed.

Lemma quiet_mark_completed q res : effect (quiet h) (mark_completed q res).
Proof.
  unfold mark_completed. repeat effect_step.
Qed.

Lemma quiet_mark_failed q err : effect (quiet h) (mark_failed q err).
Proof.
  unfold mark_failed. repeat effect_step.
Qed.

Lemma quiet_publish is_r q step pl :
  is_completion h (Published q step) = false ->
  effect (quiet h) (publish_timeline_event is_r q step pl).
Proof.
  intros Hs. unfold publish_timeline_event.
  assert (effect (quiet h) (log (Published q step))) as Hlog.
  { apply effect_log. cbn [quiet forallb]. rewrite Hs. reflexivity. }
  repeat (first [exact Hlog | effect_step]).
Qed.

Variable self : SearchService.

Lemma quiet_emit qh step pl :
  String.eqb step "response.completed" = false ->
  effect (quiet h) (_emit_timeline_event self qh step pl).
Proof.
  intros Hs. unfold _emit_timeline_event.
  assert (forall is_r q pl',
            effect (quiet h) (publish_timeline_event is_r q step pl')) as Hp.
  { intros. apply quiet_publish. cbn. rewrite Hs. apply andb_false_r. }
  destruct qh as [[| c r] |]; repeat (first [apply Hp | effect_step]).
Qed.

Lemma quiet_cache_get_bytes key op : effect (quiet h) (_cache_get_bytes self key op).
Proof.
  unfold _cache_get_bytes.
  repeat (first [apply quiet_adapter_get | effect_step]).
Qed.

Lemma quiet_cache_get_payload build build_points s op :
  effect (quiet h) (_cache_get_payload self build build_points s op).
Proof.
  unfold _cache_get_payload, adapter_get_foreign.
  repeat (first [apply quiet_cache_get_bytes | apply quiet_adapter_call
                | effect_step]).
Qed.

Lemma quiet_get_cached key scope : effect (quiet h) (_get_cached_response self key scope).
Proof.
  unfold _get_cached_response.
  repeat (first [apply quiet_adapter_get | effect_step]).
Qed.

Lemma quiet_store_cached key r ttl scope :
  effect (quiet h) (_store_cached_response self key r ttl scope).
Proof.
  unfold _store_cached_response.
  repeat (first [apply quiet_adapter_set | effect_step]).
Qed.

Lemma quiet_get_precomputed q : effect (quiet h) (get_precomputed_response self q).
Proof.
  unfold get_precomputed_response.
  repeat (first [apply quiet_cache_get_bytes | apply quiet_cache_get_payload
                | effect_step]).
Qed.

Lemma quiet_engine q k r f :
  (forall step pl, String.eqb step "response.completed" = false ->
                   effect (quiet h) (f step pl)) ->
  effect (quiet h) (SearchEngine.hybrid_search q k r (Some f)).
Proof.
  intros Hf. unfold SearchEngine.hybrid_search, ask_embedding, ask_warehouse.
  repeat (first [apply Hf; reflexivity | effect_step]).
Qed.

Lemma quiet_for_each {A} (f : A -> M unit) l :
  (forall x, effect (quiet h) (f x)) -> effect (quiet h) (RagPipeline.for_each f l).
Proof.
  intros Hf. induction l as [| x r IH]; cbn [RagPipeline.for_each].
  - effect_step.
  - effect_step; [apply Hf | exact IH].
Qed.

Lemma quiet_pipeline q ps f :
  (forall step pl, String.eqb step "response.completed" = false ->
                   effect (quiet h) (f step pl)) ->
  effect (quiet h) (RagPipeline.generate_batch_explanations q ps f).
Proof.
  intros Hf. unfold RagPipeline.generate_batch_explanations, ask_analysis.
  effect_step; [effect_step |].
  destruct a as [events ending].
  effect_step.
  - apply quiet_for_each. intros x. apply Hf. reflexivity.
  - repeat effect_step.
Qed.

End quiet_effects.

(** The actions added from [w] to [w'] hold no completion event of
    [h]. *)
Definition quiet_since (h : string) (w w' : World) : Prop :=
  exists new, history w' = new ++ history w /\ quiet h new = true.

Lemma quiet_since_refl h w : quiet_since h w w.
Proof. exists []. split; reflexivity. Qed.

Lemma quiet_since_step {A} h (m : M A) w0 w :
  effect (quiet h) m -> quiet_since h w0 w -> quiet_since h w0 (snd (m w)).
Proof.
  intros Hm (n0 & H0 & Q0). destruct (Hm w) as (n1 & H1 & Q1).
  exists (n1 ++ n0). split; [| apply quiet_app; assumption].
  rewrite H1, H0. apply List.app_assoc.
Qed.

(** The registry holds [h] as completed, with the dump of [response] as
    its result. *)
Definition holds_result (h : string) (response : SearchResponse) (w : World)
  : Prop :=
  exists record,
    jobs w !! h = Some record
    /\ SearchJobs.status record = "completed"
    /\ SearchJobs.result record = Some (_dump_response response)
    /\ SearchJobs.error record = None.

Section completion.
Context {lib : Library} {val : Validation}.
Variable self : SearchService.
Variable h : string.

(** How a run from [w] to [w'] came to its end: up to some world no
    completion event of [h] had been published; there the hook was
    awaited with [response] and returned, leaving the world [w2]; and
    there [response.completed] was emitted. *)
Definition awaited_then_published (on_before : hook) (response : SearchResponse)
    (w w2 w' : World) : Prop :=
  exists summary w1,
    quiet_since h w w1
    /\ on_before response summary w1 = (Return tt, w2)
    /\ _emit_timeline_event self (Some h) "response.completed" (Some summary) w2
       = (Return tt, w').

Lemma emit_run qh step pl w :
  exists w', _emit_timeline_event self qh step pl w = (Return tt, w').
Proof.
  unfold _emit_timeline_event.
  destruct qh as [[| c r] |]; try (eexists; reflexivity).
  unfold catch, bind, publish_timeline_event, ask, gets, modify, log, ret, raise. cbn.
  destruct (publish_fault (oracle w) (tick w)); cbn.
  - eexists; reflexivity.
  - destruct (Timeline.publish_timeline_event _ _ _ _ _ _ _ _ _ _) as [store ev]. cbn.
    eexists; reflexivity.
Qed.

Lemma finalize_run (response : SearchResponse) (summary : pyval) w :
  exists w',
    finalize h response summary w = (Return tt, w')
    /\ holds_result h response w'
    /\ history w' = JobCompleted h (_dump_response response) :: history w.
Proof.
  unfold finalize, mark_completed, bind, ask, gets, modify, log, ret. cbn.
  eexists. split; [reflexivity |]. split; [| reflexivity].
  eexists. cbn. split; [apply lookup_insert_eq |]. cbn. auto.
Qed.

Variable w0 : World.

(** Started after a past without completion event, [m] returns in a
    world that [good] accepts or raises in one that [bad] accepts. *)
Definition settles {A} (good : A -> World -> Prop) (bad : World -> Prop)
    (m : M A) : Prop :=
  forall w, quiet_since h w0 w ->
    match m w with
    | (Return a, w') => good a w'
    | (Raise _, w') => bad w'
    end.

Lemma settles_bind {A B} (good : B -> World -> Prop) (bad : World -> Prop)
    (m : M A) (k : A -> M B) :
  (forall w, quiet_since h w0 w -> bad w) ->
  effect (quiet h) m ->
  (forall a, settles good bad (k a)) ->
  settles good bad (bind m k).
Proof.
  intros Hbad Hm Hk w Hq. unfold bind.
  pose proof (quiet_since_step h m w0 w Hm Hq) as H1.
  destruct (m w) as [[a | e] w1]; cbn [snd] in H1.
  - apply (Hk a w1 H1).
  - apply Hbad, H1.
Qed.

Lemma settles_then_ret {A} (good : A -> World -> Prop)
    (good' : unit -> World -> Prop) (bad : World -> Prop) (m : M A) :
  (forall a w', good a w' -> good' tt w') ->
  settles good bad m ->
  settles good' bad (m ;; ret tt).
Proof.
  intros Hg Hm w Hq. specialize (Hm w Hq). unfold bind.
  destruct (m w) as [[a | e] w1]; [apply (Hg a), Hm | exact Hm].
Qed.

(** The end of a search: the hook is awaited with the response, the
    completion event follows, the response is returned. *)
Lemma settles_end (bad : World -> Prop) (on_before : hook)
    (response : SearchResponse) (summary : pyval) :
  (forall w1 e w2, quiet_since h w0 w1 ->
                   on_before response summary w1 = (Raise e, w2) -> bad w2) ->
  settles (fun a w' => exists w2, awaited_then_published on_before a w0 w2 w')
    bad
    (call_hook (Some on_before) response summary ;;
     _emit_timeline_event self (Some h) "response.completed" (Some summary) ;;
     ret response).
Proof.
  intros Hraise w Hq. cbn [call_hook]. unfold bind at 1.
  destruct (on_before response summary w) as [[[] | e] w2] eqn:E.
  - destruct (emit_run (Some h) "response.completed" (Some summary) w2)
      as (w3 & E3).
    unfold bind. rewrite E3. cbn [ret].
    exists w2, summary, w. auto.
  - exact (Hraise w e w2 Hq E).
Qed.

Ltac quiet_solve :=
  repeat first
    [ apply quiet_emit;
      solve [ reflexivity
            | match goal with
              | |- context [match ?x with _ => _ end] => destruct x; reflexivity
              end ]
    | apply quiet_get_cached
    | apply quiet_store_cached
    | apply quiet_get_precomputed
    | apply quiet_mark_completed
    | apply quiet_mark_failed
    | apply quiet_engine; intros; apply quiet_emit; assumption
    | apply quiet_pipeline; intros; apply quiet_emit; assumption
    | effect_step ].

Lemma search_products_settles (bad : World -> Prop) (on_before : hook)
    query products_k reviews_per_product cache_ttl fingerprint_extra
    cache_scope bypass_cache :
  (forall w, quiet_since h w0 w -> bad w) ->
  (forall response summary w1 e w2,
     quiet_since h w0 w1 ->
     on_before response summary w1 = (Raise e, w2) -> bad w2) ->
  settles (fun a w' => exists w2, awaited_then_published on_before a w0 w2 w')
    bad
    (search_products self query (Some h) products_k reviews_per_product
       cache_ttl fingerprint_extra cache_scope bypass_cache
       (Some on_before) true).
Proof.
  intros Hbad Hraise. unfold search_products, _require_pipeline.
  cbv beta iota zeta.
  repeat lazymatch goal with
         | |- settles _ _ (bind (call_hook _ _ _) _) =>
             apply settles_end; apply Hraise
         | |- settles _ _ (bind _ _) =>
             apply settles_bind; [exact Hbad | quiet_solve | intros ?]
         | |- settles _ _ (match ?x with _ => _ end) => destruct x
         end.
Qed.

(** The end of a precomputed hit: the job is marked with the response
    found, the completion event follows. *)
Lemma settles_marked (found : SearchResponse) (key : option string)
    (summarize : string -> pyval) :
  settles
    (fun _ w' => exists response w2,
        awaited_then_published (finalize h) response w0 w2 w'
        /\ holds_result h response w2)
    (quiet_since h w0)
    (mark_completed h (_dump_response found) ;;
     cache_key <- of_option key EncodeError ;;
     _emit_timeline_event self (Some h) "response.completed"
       (Some (summarize cache_key)) ;;
     ret tt).
Proof.
  intros w Hq.
  pose proof (quiet_since_step h (mark_completed h (_dump_response found))
                w0 w (quiet_mark_completed h h _) Hq) as Hq1.
  destruct key as [k |]; cbn [of_option].
  - destruct (finalize_run found (summarize k) w) as (w2 & E2 & Hh & _).
    destruct (emit_run (Some h) "response.completed" (Some (summarize k)) w2)
      as (w3 & E3).
    assert (mark_completed h (_dump_response found) w
            = (Return (snd (SearchJobs.mark_completed
                              (clock_iso (oracle w) (tick w)) h
                              (_dump_response found) (jobs w))), w2)) as E1.
    { revert E2. unfold finalize, mark_completed, bind, ask, gets, modify,
        log, ret. cbn. intros [= <-]. reflexivity. }
    rewrite (bind_return _ _ _ _ _ E1).
    rewrite (bind_return _ _ w2 k w2) by reflexivity.
    rewrite (bind_return _ _ _ _ _ E3). cbn [ret].
    exists found, w2. split; [| exact Hh].
    exists (summarize k), w. auto.
  - unfold bind at 1.
    destruct (mark_completed h (_dump_response found) w) as [[rec | e] w1];
      exact Hq1.
Qed.

End completion.

Section job.
Context {lib : Library} {val : Validation}.

(** C1. A search run that reaches completion awaits the
    before-completion hook before it publishes [response.completed].
    First, for every hook: when [search_products], called with a hook
    and a query hash, returns a response (after a fresh engine run or a
    hit of the per-request cache), then up to some point of the run no
    [response.completed] had been published for the hash, at that point
    the hook was awaited with the very response that is returned, and
    when the hook had returned the completion event was emitted.
    Second, for the background job, whose hook [finalize] marks the job
    completed: every run returns, and either it ended in that way (on
    the precomputed and canonical path with the direct [mark_completed]
    in the place of the hook), the registry holding the hash as
    completed with the final response as its result when the event was
    emitted, or it ended in [mark_failed] without any completion event
    published. *)
Theorem job_marked_before_completion :
  (forall (self : SearchService) (h : string) (on_before : hook)
          (query : string) (products_k reviews_per_product : Z)
          (cache_ttl : option Z)
          (fingerprint_extra : option (list (string * pyval)))
          (cache_scope : string) (bypass_cache : bool)
          (w w' : World) (response : SearchResponse),
     search_products self query (Some h) products_k reviews_per_product
       cache_ttl fingerprint_extra cache_scope bypass_cache
       (Some on_before) true w = (Return response, w') ->
     exists w2, awaited_then_published self h on_before response w w2 w')
  /\ (forall (self : SearchService) (task : search_task) (w : World),
        let h := t_query_hash task in
        let w' := snd (_execute_search_job self task w) in
        fst (_execute_search_job self task w) = Return tt
        /\ ((exists response w2,
               awaited_then_published self h (finalize h) response w w2 w'
               /\ holds_result h response w2)
            \/ (exists e record w1,
                  quiet_since h w w1
                  /\ mark_failed h (exn_text e) w1 = (Return record, w')))).
Proof.
  split.
  - intros self h on_before query products_k reviews_per_product cache_ttl
      fingerprint_extra cache_scope bypass_cache w w' response Hrun.
    pose proof (search_products_settles self h w (fun _ => True) on_before
                  query products_k reviews_per_product cache_ttl
                  fingerprint_extra cache_scope bypass_cache
                  (fun _ _ => I) (fun _ _ _ _ _ _ _ => I)
                  w (quiet_since_refl h w)) as H.
    rewrite Hrun in H. exact H.
  - intros self task w h w'. subst w'. unfold _execute_search_job. fold h.
    unfold catch.
    match goal with
    | |- context [match ?body w with _ => _ end] =>
        assert (settles h w
                  (fun _ w' => exists response w2,
                      awaited_then_published self h (finalize h) response w w2 w'
                      /\ holds_result h response w2)
                  (quiet_since h w) body) as Hbody
    end.
    { apply settles_bind; [auto | apply quiet_get_precomputed | intros precomputed].
      destruct (if negb (t_bypass_cache task) then precomputed else None)
        as [found |].
      - apply settles_bind; [auto | apply quiet_emit; reflexivity | intros _].
        apply (settles_marked self h w found _
                 (fun cache_key => _summarize_response found "precomputed"
                                     (t_cache_scope task) cache_key)).
      - apply (settles_then_ret h w
                 (fun a w' => exists w2,
                     awaited_then_published self h (finalize h) a w w2 w')).
        + intros a w1 (w2 & summary & wq & Hq & Hf & He).
          exists a, w2. split; [exists summary, wq; auto |].
          destruct (finalize_run h a summary wq) as (w2' & Hf' & Hh & _).
          rewrite Hf in Hf'. injection Hf' as <-. exact Hh.
        + apply search_products_settles; [auto |].
          intros response summary w1 e w2 _ Hf.
          destruct (finalize_run h response summary w1) as (w2' & Hf' & _).
          rewrite Hf in Hf'. discriminate. }
    specialize (Hbody w (quiet_since_refl h w)).
    match goal with
    | H : match ?body w with _ => _ end |- _ =>
        destruct (body w) as [[[] | e] w1]
    end.
    + split; [reflexivity | left; exact Hbody].
    + unfold mark_failed, bind, ask, gets, modify, log, ret. cbn.
      split; [reflexivity | right].
      exists e. eexists. exists w1. split; [exact Hbody | reflexivity].
Qed.

End job.

Import Sample SampleWorld Scenario.

(** The three ways to completion, run on the sample world: a fresh run,
    the same task again (a hit of the per-request cache), and a task
    answered by the precomputed catalogue. *)
Example fresh_run_trace :
  trace (_execute_search_job service speaker_task) empty_world
  = [ "publish search.cache.miss"; "publish search.engine.started";
      "publish search.bq.started"; "publish search.bq.completed";
      "publish search.reviews.selected"; "publish search.engine.candidates";
      "publish rag.pipeline.started"; "publish rag.product.analysis";
      "publish rag.pipeline.completed"; "cache store";
      "publish response.cached"; "job completed";
      "publish response.completed" ].
Proof. vm_compute. reflexivity. Qed.

Example cache_hit_trace :
  trace (_execute_search_job service speaker_task)
    (with_history [] (snd (_execute_search_job service speaker_task empty_world)))
  = [ "publish search.cache.hit"; "job completed";
      "publish response.completed" ].
Proof. vm_compute. reflexivity. Qed.

Example precomputed_hit_trace :
  trace (_execute_search_job service speaker_task) (world_of calm catalogue)
  = [ "publish response.cached"; "job completed";
      "publish response.completed" ].
Proof. vm_compute. reflexivity. Qed.

(** The response that the search of [speaker_task] returns on the sample
    world. *)
Definition found_response : SearchResponse :=
  match fst (speaker_search empty_world) with
  | Return response => response
  | Raise _ => empty_response
  end.

Lemma job_marked_before_completion_witness :
  (exists w2,
     awaited_then_published service "h1" (finalize "h1") found_response
       empty_world w2 (snd (speaker_search empty_world)))
  /\ fst (_execute_search_job service speaker_task empty_world) = Return tt.
Proof.
  split.
  - apply (proj1 job_marked_before_completion service "h1" (finalize "h1")
             "Smart  Speaker" 3 3 (Some 3600)
             (Some [("guest", PBool false); ("subject", PStr "user-200")])
             "response" false empty_world (snd (speaker_search empty_world))
             found_response).
    vm_compute. reflexivity.
  - apply (proj2 job_marked_before_completion service speaker_task empty_world).
Defined.

End CompletionOrder.

(* ===================================================================== *)
(** ** Precedence of the precomputed lookup *)
(* ===================================================================== *)

Module PrecomputedLookup.
Import PyVal Json Runtime RuntimeFacts Schemas Config SearchService.
#[local] Open Scope run_scope.

Section lookup.
Context {lib : Library} {val : Validation}.

(** The entry stored under [key], when it is there and not empty. *)
Definition stored (data : gmap string (Text.bytes * option Z)) (key : string)
  : option Text.bytes :=
  nonempty_blob (fst <$> data !! key).





Lemma cache_get_bytes_run (self : SearchService) key operation w :
  has_cache self = true ->
  adapter_fault (oracle w) (tick w) = false ->
  _cache_get_bytes self key operation w
  = (Return (fst <$> cache_data w !! key), with_tick (S (tick w)) w).
Proof.
  intros Hc Hf. unfold _cache_get_bytes. rewrite Hc. cbn [negb].
  unfold catch, adapter_get, adapter_call, bind, ask, gets, ret. cbn.
  rewrite Hf. reflexivity.
Qed.




End lookup.

Import Sample SampleWorld Scenario.




End PrecomputedLookup.

(* ===================================================================== *)
(** ** Submitting a search with a foreign hash *)
(* ===================================================================== *)

Module SubmitSearch.
Import PyVal Json Runtime Schemas Config SearchService SearchEndpoints SampleWorld.
#[local] Open Scope run_scope.

Section submit.
Context {lib : Library} {val : Validation}.
Variable config : Config.

(** The caller is a guest and guests may not submit hashed queries. *)
Definition guest_blocked (auth_context : AuthContext) : bool :=
  String.eqb (Text.lower (role auth_context)) "guest"
  && negb (ENABLE_GUEST_HASHED_QUERIES config).

(** The hash the server computes for a request. *)
Definition computed_hash (payload : SearchRequest) (auth_context : AuthContext)
  : option string :=
  CacheUtils.build_query_hash (req_query payload) (req_products_k payload)
    (req_reviews_per_product payload)
    (Some (identity_extra
             (String.eqb (Text.lower (role auth_context)) "guest")
             (subject auth_context))).

(** C4 (as amended).  A [POST /search] whose body carries a non-empty
    [query_hash] that differs from the hash computed from the query,
    [products_k], [reviews_per_product] and the identity extra is
    answered 400, or 403 when the caller is a guest and guest hashed
    queries are disabled (that test comes first), and the world is left
    as it was: no job record is created or reset, the timeline is not
    cleared and no background task is scheduled. *)
Theorem hash_mismatch_rejected (base_url : string) (payload : SearchRequest)
    (search_service : SearchService) (cache_adapter : option adapter_kind)
    (auth_context : AuthContext) (given computed : string) (w : World) :
  req_query_hash payload = Some given ->
  given <> EmptyString ->
  computed_hash payload auth_context = Some computed ->
  given <> computed ->
  serve (submit_search config base_url payload search_service cache_adapter
           auth_context) w
  = (Return (if guest_blocked auth_context
             then (403, DetailBody "Guest queries must use precomputed catalogue")
             else (400, DetailBody "query_hash does not match canonical fingerprint")),
     w).
Proof.
  intros Hgiven Hne Hcomputed Hdiff.
  unfold serve, submit_search, guest_blocked, computed_hash in *.
  destruct (String.eqb (Text.lower (role auth_context)) "guest"
            && negb (ENABLE_GUEST_HASHED_QUERIES config)); [reflexivity |].
  rewrite Hcomputed, Hgiven.
  destruct given as [| c r]; [contradiction |].
  apply String.eqb_neq in Hdiff.
  unfold catch, bind. cbn [of_option ret]. rewrite Hdiff. reflexivity.
Qed.

End submit.

Import Sample Scenario.

(** C4, counterexample: an empty [query_hash] is not null and differs
    from the computed hash, yet the request is accepted and the job, the timeline reset
    and the background task all happen; a blocked guest is answered 403
    before any hash is compared. *)
Lemma mismatch_not_always_400 :
  (req_query_hash (request (Some EmptyString)) <> None
   /\ req_query_hash (request (Some EmptyString))
      <> computed_hash (request (Some EmptyString)) user
   /\ exists accepted w',
        serve (submit_search caching "http://host" (request (Some EmptyString))
                 service (Some InMemoryAdapter) user) empty_world
        = (Return (202, AcceptedBody accepted), w')
        /\ is_Some (jobs w' !! acc_query_hash accepted)
        /\ length (background w') = 1%nat
        /\ In (TimelineCleared (acc_query_hash accepted)) (history w'))
  /\ (req_query_hash (request (Some "0000")) <> None
      /\ req_query_hash (request (Some "0000"))
         <> computed_hash (request (Some "0000")) guest
      /\ fst (serve (submit_search defaults "http://host" (request (Some "0000"))
                       service (Some InMemoryAdapter) guest) empty_world)
         = Return (403, DetailBody "Guest queries must use precomputed catalogue")).
Proof.
  split; (split; [discriminate |]); (split; [vm_compute; discriminate |]).
  - eexists _, _. split; [vm_compute; reflexivity |].
    split; [vm_compute; eexists; reflexivity |].
    split; [vm_compute; reflexivity |].
    vm_compute. tauto.
  - vm_compute. reflexivity.
Qed.

Lemma hash_mismatch_rejected_witness :
  serve (submit_search caching "http://host" (request (Some "0000")) service
           (Some InMemoryAdapter) user) empty_world
  = (Return (400, DetailBody "query_hash does not match canonical fingerprint"),
     empty_world).
Proof.
  apply (hash_mismatch_rejected caching "http://host" (request (Some "0000"))
           service (Some InMemoryAdapter) user "0000"
           (default EmptyString (computed_hash (request (Some "0000")) user))
           empty_world).
  - reflexivity.
  - discriminate.
  - vm_compute. reflexivity.
  - apply String.eqb_neq. vm_compute. reflexivity.
Defined.

End SubmitSearch.

(* ===================================================================== *)
(** ** The payload limit of the response cache *)
(* ===================================================================== *)

Module StoreLimit.
Import PyVal Json Runtime Schemas Config SearchService SearchEndpoints.
#[local] Open Scope run_scope.

Ltac run_step :=
  unfold bind, catch, ret, raise, gets, modify, ask, of_option, log; cbn.

Section store.
Context {lib : Library} {val : Validation}.

(** C6 (as amended).  For a response whose serialized blob has exactly
    [CACHE_MAX_PAYLOAD_BYTES] bytes, [_store_cached_response] of a
    service that holds a cache, when the adapter accepts the write,
    stores the blob under the key and returns true; for a blob of more
    bytes than [CACHE_MAX_PAYLOAD_BYTES] it returns false and changes
    nothing. *)
Theorem store_respects_payload_limit (config : Config)
    (pipeline : option RagPipeline.RAGPipeline) (kind : option adapter_kind)
    (key : string) (response : SearchResponse) (ttl : Z) (scope : string)
    (blob : Text.bytes) (w : World) :
  let self := new_service config pipeline kind in
  gzip_framed lib ->
  CacheUtils.serialize_payload (PDict (_dump_response response)) = Some blob ->
  (Z.of_nat (length blob) = CACHE_MAX_PAYLOAD_BYTES config ->
   has_cache self = true ->
   adapter_fault (oracle w) (tick w) = false ->
   exists w',
     _store_cached_response self key response ttl scope w = (Return true, w')
     /\ cache_data w' !! key = Some (blob, Some (Z.max ttl 1)))
  /\ (CACHE_MAX_PAYLOAD_BYTES config < Z.of_nat (length blob) ->
      _store_cached_response self key response ttl scope w = (Return false, w)).
Proof.
  intros self Hframe Hser.
  assert (18 <= Z.of_nat (length blob)) as Hlen.
  { unfold CacheUtils.serialize_payload in Hser.
    destruct (dumps false false (PDict (_dump_response response))); [| discriminate].
    injection Hser as <-. pose proof (Hframe (Text.encode_utf8 s)). lia. }
  split.
  - intros Heq Hcache Hfault. unfold _store_cached_response.
    rewrite Hcache. cbn [negb]. rewrite Hser. 
    unfold bind at 1. cbn [of_option ret].
    assert ((max_payload_bytes self <? Z.of_nat (length blob)) = false) as ->.
    { subst self. cbn. lia. }
    unfold adapter_set, adapter_call. run_step. rewrite Hfault. cbn.
    eexists. split; [reflexivity |]. cbn. apply lookup_insert_eq.
  - intros Hlt. unfold _store_cached_response.
    destruct (has_cache self); cbn [negb]; [| reflexivity].
    rewrite Hser. unfold bind at 1. cbn [of_option ret].
    assert ((max_payload_bytes self <? Z.of_nat (length blob)) = true) as ->.
    { subst self. cbn. lia. }
    reflexivity.
Qed.
End store.

Import Sample SampleWorld Scenario.

Lemma sample_gzip_framed : gzip_framed sample_library.
Proof.
  intros d. cbn [gzip_compress sample_library].
  unfold sample_gzip_compress. rewrite !length_app. cbn. lia.
Qed.

(** C6, counterexample: the blob has exactly [CACHE_MAX_PAYLOAD_BYTES]
    bytes, yet a service whose cache is switched off stores nothing and
    returns false, and so does a caching service whose adapter refuses
    the write. *)
Lemma exact_limit_blob_not_stored :
  CacheUtils.serialize_payload (PDict (_dump_response speaker_response))
  = Some speaker_blob
  /\ Z.of_nat (length speaker_blob) = CACHE_MAX_PAYLOAD_BYTES (limit_at blob_size false)
  /\ _store_cached_response
       (new_service (limit_at blob_size false) (Some pipeline)
          (Some InMemoryAdapter))
       "cache:response:v1:k" speaker_response 3600 "response" empty_world
     = (Return false, empty_world)
  /\ fst (_store_cached_response
            (new_service (limit_at blob_size true) (Some pipeline)
               (Some InMemoryAdapter))
            "cache:response:v1:k" speaker_response 3600 "response"
            (world_of stormy []))
     = Return false.
Proof. repeat split; vm_compute; reflexivity. Qed.

Lemma store_respects_payload_limit_witness :
  (exists w',
     _store_cached_response
       (new_service (limit_at blob_size true) (Some pipeline)
          (Some InMemoryAdapter))
       "cache:response:v1:k" speaker_response 3600 "response" empty_world
     = (Return true, w')
     /\ cache_data w' !! "cache:response:v1:k" = Some (speaker_blob, Some 3600))
  /\ _store_cached_response
       (new_service (limit_at (blob_size - 1) true) (Some pipeline)
          (Some InMemoryAdapter))
       "cache:response:v1:k" speaker_response 3600 "response" empty_world
     = (Return false, empty_world).
Proof.
  assert (CacheUtils.serialize_payload (PDict (_dump_response speaker_response))
          = Some speaker_blob) as Hblob by (vm_compute; reflexivity).
  split.
  - apply (proj1 (store_respects_payload_limit (limit_at blob_size true)
                    (Some pipeline) (Some InMemoryAdapter)
                    "cache:response:v1:k" speaker_response 3600 "response"
                    speaker_blob empty_world sample_gzip_framed Hblob));
      reflexivity.
  - apply (proj2 (store_respects_payload_limit (limit_at (blob_size - 1) true)
                    (Some pipeline) (Some InMemoryAdapter)
                    "cache:response:v1:k" speaker_response 3600 "response"
                    speaker_blob empty_world sample_gzip_framed Hblob)).
    vm_compute. reflexivity.
Defined.

End StoreLimit.

(* ===================================================================== *)
(** ** The result endpoint falls back to the cache *)
(* ===================================================================== *)

Module ResultFallback.
Import PyVal Json Runtime Schemas Config SearchService SearchEndpoints SampleWorld.
#[local] Open Scope run_scope.

Section fallback.
Context {lib : Library} {val : Validation}.
Variable config : Config.

(** The stored result of a job is absent (or an empty mapping) or is
    refused by the response model. *)
Definition result_unusable (job : SearchJobs.JobRecord) : Prop :=
  match SearchJobs.result job with
  | None | Some [] => True
  | Some (kv :: more) => validate_response (kv :: more) = None
  end.

(** The answer once the fallback has been tried. *)
Definition answer (query_hash : string) (job : SearchJobs.JobRecord)
    (rebuilt : option SearchResponse) : response :=
  match rebuilt with
  | Some r =>
      (200, envelope query_hash "completed" (Some r) None
              (SearchJobs.updated_at job))
  | None =>
      (500, envelope query_hash "failed" None (Some "Result unavailable")
              (SearchJobs.updated_at job))
  end.

(** C9. When the job is recorded as completed and its stored result
    is absent or refused by the response model,
    [GET /search/result/{hash}] runs [_load_cached_response] on the
    query and the metadata of the job and answers from what it returns:
    200 with status completed and the rebuilt response, and 500 with
    the error [Result unavailable] when the cache gave nothing. *)
Theorem completed_job_falls_back_to_cache (query_hash : string)
    (cache_adapter : bool) (job : SearchJobs.JobRecord) (w : World) :
  jobs w !! query_hash = Some job ->
  SearchJobs.status job = "completed" ->
  result_unusable job ->
  get_search_result config query_hash cache_adapter w
  = (rebuilt <- _load_cached_response config cache_adapter
                  (SearchJobs.query job) (SearchJobs.metadata job) ;;
     ret (answer query_hash job rebuilt)) w.
Proof.
  intros Hjob Hstatus Hresult.
  unfold get_search_result, get_job, SearchJobs.get_job.
  unfold bind at 1. unfold bind at 1. cbn [gets ret]. rewrite Hjob, Hstatus.
  cbn [String.eqb Ascii.eqb Bool.eqb].
  assert (match SearchJobs.result job with
          | Some (kv :: more) => validate_response (kv :: more)
          | _ => None
          end = None) as ->.
  { unfold result_unusable in Hresult.
    destruct (SearchJobs.result job) as [[| kv more] |]; auto. }
  unfold bind.
  destruct (_load_cached_response config cache_adapter (SearchJobs.query job)
              (SearchJobs.metadata job) w) as [[[r |] | e] w']; reflexivity.
Qed.

End fallback.

Import Sample SampleWorld Scenario.

Lemma completed_job_falls_back_to_cache_witness :
  (exists rebuilt w',
     get_search_result caching "h1" true lost_world
     = (Return (200, envelope "h1" "completed" (Some rebuilt) None 5), w'))
  /\ get_search_result caching "h1" true bare_world
     = (Return (500, envelope "h1" "failed" None (Some "Result unavailable") 5),
        with_tick 1 bare_world).
Proof.
  split.
  - rewrite (completed_job_falls_back_to_cache caching "h1" true lost_job
               lost_world); [| vm_compute; reflexivity | reflexivity | exact I].
    eexists _, _. vm_compute. reflexivity.
  - rewrite (completed_job_falls_back_to_cache caching "h1" true lost_job
               bare_world); [| vm_compute; reflexivity | reflexivity | exact I].
    vm_compute. reflexivity.
Defined.

End ResultFallback.

(* ===================================================================== *)
(** ** Timeline failures never reach the search *)
(* ===================================================================== *)

Module TimelineIsolation.
Import PyVal Json Runtime Schemas Config SearchService SearchEndpoints.
#[local] Open Scope run_scope.

(** Two outsides that differ at most in how the timeline behaves. *)
Definition same_inputs (o1 o2 : Oracle) : Prop :=
  (forall n, adapter_fault o1 n = adapter_fault o2 n)
  /\ (forall n, clock_iso o1 n = clock_iso o2 n)
  /\ (forall n, embedding_fault o1 n = embedding_fault o2 n)
  /\ (forall n, warehouse o1 n = warehouse o2 n)
  /\ (forall n, pipeline_run o1 n = pipeline_run o2 n).

(** Two worlds that differ at most in the timeline: its faults, its
    stream backend, its stored events and the record of what was
    published. *)
Definition agree (w1 w2 : World) : Prop :=
  same_inputs (oracle w1) (oracle w2)
  /\ cache_data w1 = cache_data w2
  /\ jobs w1 = jobs w2
  /\ background w1 = background w2
  /\ tick w1 = tick w2.

(** A computation whose outcome and whose effect outside the timeline
    do not depend on the timeline. *)
Definition blind {A} (m : M A) : Prop :=
  forall w1 w2, agree w1 w2 ->
    fst (m w1) = fst (m w2) /\ agree (snd (m w1)) (snd (m w2)).

Lemma blind_ret {A} (a : A) : blind (ret a).
Proof. intros w1 w2 H. split; [reflexivity | exact H]. Qed.

Lemma blind_raise {A} (e : exn) : blind (@raise A e).
Proof. intros w1 w2 H. split; [reflexivity | exact H]. Qed.

Lemma blind_bind {A B} (m : M A) (k : A -> M B) :
  blind m -> (forall a, blind (k a)) -> blind (bind m k).
Proof.
  intros Hm Hk w1 w2 H. unfold bind.
  destruct (Hm w1 w2 H) as [Hr Hw].
  destruct (m w1) as [[a1 | e1] v1], (m w2) as [[a2 | e2] v2];
    cbn in Hr, Hw; try discriminate.
  - injection Hr as ->. apply Hk. exact Hw.
  - injection Hr as ->. split; [reflexivity | exact Hw].
Qed.

Lemma blind_catch {A} (m : M A) (h : exn -> M A) :
  blind m -> (forall e, blind (h e)) -> blind (catch m h).
Proof.
  intros Hm Hh w1 w2 H. unfold catch.
  destruct (Hm w1 w2 H) as [Hr Hw].
  destruct (m w1) as [[a1 | e1] v1], (m w2) as [[a2 | e2] v2];
    cbn in Hr, Hw; try discriminate.
  - injection Hr as ->. split; [reflexivity | exact Hw].
  - injection Hr as ->. apply Hh. exact Hw.
Qed.

Lemma blind_of_option {A} (o : option A) (e : exn) : blind (of_option o e).
Proof. destruct o; [apply blind_ret | apply blind_raise]. Qed.

Lemma blind_log (a : action) : blind (log a).
Proof. intros w1 w2 H. split; [reflexivity | exact H]. Qed.

Lemma agree_tick w1 w2 : agree w1 w2 ->
  agree (with_tick (S (tick w1)) w1) (with_tick (S (tick w2)) w2).
Proof.
  intros (Ho & Hc & Hj & Hb & Ht). repeat split; cbn; try tauto; try apply Ho.
  rewrite Ht. reflexivity.
Qed.

Lemma blind_ask {A} (f : Oracle -> nat -> A) :
  (forall o1 o2 n, same_inputs o1 o2 -> f o1 n = f o2 n) -> blind (ask f).
Proof.
  intros Hf w1 w2 H. unfold ask. cbn. split.
  - destruct H as (Ho & _ & _ & _ & Ht). rewrite Ht. f_equal. apply Hf, Ho.
  - apply agree_tick, H.
Qed.

Lemma blind_gets_cache : blind (gets cache_data).
Proof. intros w1 w2 H. cbn. split; [f_equal; apply H | exact H]. Qed.

Lemma blind_gets_jobs : blind (gets jobs).
Proof. intros w1 w2 H. cbn. split; [f_equal; apply H | exact H]. Qed.

Lemma blind_with_cache f : blind (modify (with_cache f)).
Proof.
  intros w1 w2 (Ho & Hc & Hj & Hb & Ht). split; [reflexivity |].
  repeat split; cbn; try tauto; try apply Ho. rewrite Hc. reflexivity.
Qed.

Lemma blind_with_jobs j : blind (modify (with_jobs j)).
Proof.
  intros w1 w2 (Ho & Hc & Hj & Hb & Ht). split; [reflexivity |].
  repeat split; cbn; try tauto; apply Ho.
Qed.

Ltac blind_step :=
  lazymatch goal with
  | |- blind (bind _ _) => apply blind_bind; [| intros ?]
  | |- blind (catch _ _) => apply blind_catch; [| intros ?]
  | |- blind (ret _) => apply blind_ret
  | |- blind (raise _) => apply blind_raise
  | |- blind (of_option _ _) => apply blind_of_option
  | |- blind (log _) => apply blind_log
  | |- blind (gets cache_data) => apply blind_gets_cache
  | |- blind (gets jobs) => apply blind_gets_jobs
  | |- blind (modify (with_cache _)) => apply blind_with_cache
  | |- blind (modify (with_jobs _)) => apply blind_with_jobs
  | |- blind (ask _) => apply blind_ask; intros ? ? ? Hsame; apply Hsame
  | |- blind (if ?b then _ else _) => destruct b
  | |- blind (match ?x with _ => _ end) => destruct x
  end.

Section blind_ops.
Context {lib : Library} {val : Validation}.

Lemma blind_adapter_get key : blind (adapter_get key).
Proof. unfold adapter_get, adapter_call. repeat blind_step. Qed.

Lemma blind_adapter_set key v ttl : blind (adapter_set key v ttl).
Proof. unfold adapter_set, adapter_call. repeat blind_step. Qed.

Lemma blind_mark_completed q res : blind (mark_completed q res).
Proof. unfold mark_completed. repeat blind_step. Qed.

Variable self : SearchService.

(** The emission: always returns, and leaves no trace outside the
    timeline but the count of the call. *)
Lemma blind_emit qh step pl : blind (_emit_timeline_event self qh step pl).
Proof.
  intros w1 w2 H. unfold _emit_timeline_event.
  destruct qh as [[| c r] |]; try (split; [reflexivity | exact H]).
  unfold catch, bind, publish_timeline_event, ask, gets, modify, log, ret, raise.
  cbn.
  destruct (publish_fault (oracle w1) (tick w1)),
           (publish_fault (oracle w2) (tick w2)); cbn;
    repeat match goal with
           | |- context [Timeline.publish_timeline_event ?a ?b ?c ?d ?e ?f ?g ?h ?i ?j] =>
               destruct (Timeline.publish_timeline_event a b c d e f g h i j)
           end; cbn;
    (split; [reflexivity |]);
    destruct H as (Ho & Hc & Hj & Hb & Ht);
    repeat split; cbn; try tauto; try apply Ho; rewrite Ht; reflexivity.
Qed.

Lemma blind_engine q k r f :
  (forall step pl, blind (f step pl)) ->
  blind (SearchEngine.hybrid_search q k r (Some f)).
Proof.
  intros Hf. unfold SearchEngine.hybrid_search, ask_embedding, ask_warehouse.
  repeat (first [apply Hf | blind_step]).
Qed.

Lemma blind_for_each {A} (f : A -> M unit) l :
  (forall x, blind (f x)) -> blind (RagPipeline.for_each f l).
Proof.
  intros Hf. induction l as [| x r IH]; cbn [RagPipeline.for_each].
  - blind_step.
  - blind_step; [apply Hf | exact IH].
Qed.

Lemma blind_pipeline q ps f :
  (forall step pl, blind (f step pl)) ->
  blind (RagPipeline.generate_batch_explanations q ps f).
Proof.
  intros Hf. unfold RagPipeline.generate_batch_explanations, ask_analysis.
  blind_step; [blind_step |].
  destruct a as [events ending].
  blind_step; [apply blind_for_each; intros; apply Hf | repeat blind_step].
Qed.

Lemma blind_get_cached key scope : blind (_get_cached_response self key scope).
Proof.
  unfold _get_cached_response.
  repeat (first [apply blind_adapter_get | blind_step]).
Qed.

Lemma blind_store_cached key r ttl scope :
  blind (_store_cached_response self key r ttl scope).
Proof.
  unfold _store_cached_response.
  repeat (first [apply blind_adapter_set | blind_step]).
Qed.

Ltac blind_op :=
  first [ apply blind_emit
        | apply blind_get_cached
        | apply blind_store_cached
        | apply blind_engine; intros; apply blind_emit
        | apply blind_pipeline; intros; apply blind_emit
        | blind_step
        | match goal with
          | |- context [match ?x with _ => _ end] => is_var x; destruct x
          end ].

Lemma blind_search_products query qh products_k reviews_per_product cache_ttl
    fingerprint_extra cache_scope bypass_cache (on_before : option hook) flag :
  (forall f r s, on_before = Some f -> blind (f r s)) ->
  blind (search_products self query qh products_k reviews_per_product
           cache_ttl fingerprint_extra cache_scope bypass_cache on_before flag).
Proof.
  intros Hhook.
  assert (forall r s, blind (call_hook on_before r s)) as Hcall.
  { intros r s. destruct on_before as [f |]; cbn [call_hook];
      [apply (Hhook f); reflexivity | apply blind_ret]. }
  unfold search_products, _require_pipeline.
  repeat (first [apply Hcall | blind_op]).
Qed.

End blind_ops.

(** A computation that never ends in a timeline failure. *)
Definition contained {A} (m : M A) : Prop :=
  forall w, fst (m w) <> Raise TimelineError.

Lemma contained_ret {A} (a : A) : contained (ret a).
Proof. intros w. discriminate. Qed.

Lemma contained_raise {A} (e : exn) : e <> TimelineError -> contained (@raise A e).
Proof. intros H w. cbn. congruence. Qed.

Lemma contained_bind {A B} (m : M A) (k : A -> M B) :
  contained m -> (forall a, contained (k a)) -> contained (bind m k).
Proof.
  intros Hm Hk w. unfold bind. pose proof (Hm w) as H.
  destruct (m w) as [[a | e] w1]; cbn in *; [apply Hk | congruence].
Qed.

Lemma contained_catch {A} (m : M A) (h : exn -> M A) :
  contained m -> (forall e, e <> TimelineError -> contained (h e)) ->
  contained (catch m h).
Proof.
  intros Hm Hh w. unfold catch. pose proof (Hm w) as H.
  destruct (m w) as [[a | e] w1]; cbn in *; [discriminate |].
  apply Hh. congruence.
Qed.

Lemma contained_of_option {A} (o : option A) (e : exn) :
  e <> TimelineError -> contained (of_option o e).
Proof. intros H. destruct o; [apply contained_ret | apply contained_raise, H]. Qed.

Lemma contained_total {A} (m : M A) :
  (forall w, exists a, fst (m w) = Return a) -> contained m.
Proof. intros H w. destruct (H w) as [a ->]. discriminate. Qed.

Ltac contained_step :=
  lazymatch goal with
  | |- contained (bind _ _) => apply contained_bind; [| intros ?]
  | |- contained (catch _ _) => apply contained_catch; [| intros ? ?]
  | |- contained (ret _) => apply contained_ret
  | |- contained (raise _) => apply contained_raise; first [assumption | discriminate]
  | |- contained (of_option _ _) => apply contained_of_option; discriminate
  | |- contained (log _) => apply contained_total; intros ?; eexists; reflexivity
  | |- contained (gets _) => apply contained_total; intros ?; eexists; reflexivity
  | |- contained (modify _) => apply contained_total; intros ?; eexists; reflexivity
  | |- contained (ask _) => apply contained_total; intros ?; eexists; reflexivity
  | |- contained (if ?b then _ else _) => destruct b
  | |- contained (match ?x with _ => _ end) => destruct x
  end.

Section contained_ops.
Context {lib : Library} {val : Validation}.
Variable self : SearchService.

Lemma emit_returns qh step pl w :
  fst (_emit_timeline_event self qh step pl w) = Return tt.
Proof.
  unfold _emit_timeline_event.
  destruct qh as [[| c r] |]; try reflexivity.
  unfold catch, bind, publish_timeline_event, ask, gets, modify, log, ret, raise.
  cbn. destruct (publish_fault (oracle w) (tick w)); cbn; [reflexivity |].
  destruct (Timeline.publish_timeline_event _ _ _ _ _ _ _ _ _ _). reflexivity.
Qed.

Lemma contained_emit qh step pl : contained (_emit_timeline_event self qh step pl).
Proof. intros w. rewrite emit_returns. discriminate. Qed.

Lemma contained_adapter_get key : contained (adapter_get key).
Proof. unfold adapter_get, adapter_call. repeat contained_step. Qed.

Lemma contained_adapter_set key v ttl : contained (adapter_set key v ttl).
Proof. unfold adapter_set, adapter_call. repeat contained_step. Qed.

Lemma contained_get_cached key scope :
  contained (_get_cached_response self key scope).
Proof.
  unfold _get_cached_response.
  repeat (first [apply contained_adapter_get | contained_step]).
Qed.

Lemma contained_store_cached key r ttl scope :
  contained (_store_cached_response self key r ttl scope).
Proof.
  unfold _store_cached_response.
  repeat (first [apply contained_adapter_set | contained_step]).
Qed.

Lemma contained_engine q k r f :
  (forall step pl, contained (f step pl)) ->
  contained (SearchEngine.hybrid_search q k r (Some f)).
Proof.
  intros Hf. unfold SearchEngine.hybrid_search, ask_embedding, ask_warehouse.
  repeat (first [apply Hf | contained_step]).
Qed.

Lemma contained_for_each {A} (f : A -> M unit) l :
  (forall x, contained (f x)) -> contained (RagPipeline.for_each f l).
Proof.
  intros Hf. induction l as [| x r IH]; cbn [RagPipeline.for_each].
  - contained_step.
  - contained_step; [apply Hf | exact IH].
Qed.

Lemma contained_pipeline q ps f :
  (forall step pl, contained (f step pl)) ->
  contained (RagPipeline.generate_batch_explanations q ps f).
Proof.
  intros Hf. unfold RagPipeline.generate_batch_explanations, ask_analysis.
  contained_step; [contained_step |].
  destruct a as [events ending].
  contained_step; [apply contained_for_each; intros; apply Hf | repeat contained_step].
Qed.

Ltac contained_op :=
  first [ apply contained_emit
        | apply contained_get_cached
        | apply contained_store_cached
        | apply contained_engine; intros; apply contained_emit
        | apply contained_pipeline; intros; apply contained_emit
        | contained_step
        | match goal with
          | |- context [match ?x with _ => _ end] => is_var x; destruct x
          end ].

Lemma contained_search_products query qh products_k reviews_per_product
    cache_ttl fingerprint_extra cache_scope bypass_cache
    (on_before : option hook) flag :
  (forall f r s, on_before = Some f -> contained (f r s)) ->
  contained (search_products self query qh products_k reviews_per_product
               cache_ttl fingerprint_extra cache_scope bypass_cache
               on_before flag).
Proof.
  intros Hhook.
  assert (forall r s, contained (call_hook on_before r s)) as Hcall.
  { intros r s. destruct on_before as [f |]; cbn [call_hook];
      [apply (Hhook f); reflexivity | apply contained_ret]. }
  unfold search_products, _require_pipeline.
  repeat (first [apply Hcall | contained_op]).
Qed.

Lemma emit_without_hash step pl w :
  _emit_timeline_event self None step pl w = (Return tt, w)
  /\ _emit_timeline_event self (Some EmptyString) step pl w = (Return tt, w).
Proof. split; reflexivity. Qed.

(** C10. Timeline emission is best effort.  With no query hash, or an
    empty one, [_emit_timeline_event] publishes nothing and leaves the
    world as it was; whatever the publish does, the emission returns
    normally; the outcome of [search_products] is the same in two
    worlds that differ only in the timeline (its faults, its backend,
    its stored events); and [search_products] never ends in a timeline
    failure.  The before-completion hook is taken not to depend on the
    timeline itself. *)
Theorem timeline_is_best_effort query qh products_k reviews_per_product
    cache_ttl fingerprint_extra cache_scope bypass_cache
    (on_before : option hook) flag :
  (forall f r s, on_before = Some f -> blind (f r s) /\ contained (f r s)) ->
  (forall step pl w,
     _emit_timeline_event self None step pl w = (Return tt, w)
     /\ _emit_timeline_event self (Some EmptyString) step pl w = (Return tt, w))
  /\ (forall h step pl w,
        fst (_emit_timeline_event self h step pl w) = Return tt)
  /\ (forall w1 w2, agree w1 w2 ->
        fst (search_products self query qh products_k reviews_per_product
               cache_ttl fingerprint_extra cache_scope bypass_cache
               on_before flag w1)
        = fst (search_products self query qh products_k reviews_per_product
                 cache_ttl fingerprint_extra cache_scope bypass_cache
                 on_before flag w2))
  /\ (forall w,
        fst (search_products self query qh products_k reviews_per_product
               cache_ttl fingerprint_extra cache_scope bypass_cache
               on_before flag w)
        <> Raise TimelineError).
Proof.
  intros Hhook. split; [| split; [| split]].
  - intros. apply emit_without_hash.
  - intros. apply emit_returns.
  - intros w1 w2 H.
    apply (blind_search_products self); [| exact H].
    intros f r s Hf. apply (Hhook f r s Hf).
  - apply contained_search_products.
    intros f r s Hf. apply (Hhook f r s Hf).
Qed.

End contained_ops.

Import Sample SampleWorld Scenario.

Lemma blind_finalize {lib : Library} h r s : blind (finalize h r s).
Proof.
  unfold finalize. apply blind_bind; [apply blind_mark_completed |].
  intros _. apply blind_ret.
Qed.

Lemma contained_finalize {lib : Library} h r s : contained (finalize h r s).
Proof.
  unfold finalize. apply contained_bind; [| intros; apply contained_ret].
  apply contained_total. intros w.
  destruct (RuntimeFacts.mark_completed_run h (_dump_response r) w)
    as (record & w' & E & _).
  exists record. rewrite E. reflexivity.
Qed.

Lemma agree_calm_mute : agree empty_world (world_of mute []).
Proof. repeat split. Qed.

Lemma timeline_is_best_effort_witness :
  fst (speaker_search empty_world) = fst (speaker_search (world_of mute []))
  /\ (exists response,
        fst (speaker_search (world_of mute [])) = Return response)
  /\ List.filter
       (fun a => match a with Published _ _ => true | _ => false end)
       (history (snd (speaker_search (world_of mute [])))) = [].
Proof.
  split; [| split].
  - assert (forall f r s, Some (finalize "h1") = Some f ->
                          blind (f r s) /\ contained (f r s)) as Hhook.
    { intros f r s Hf. injection Hf as <-.
      split; [apply blind_finalize | apply contained_finalize]. }
    destruct (timeline_is_best_effort service "Smart  Speaker" (Some "h1") 3 3
                (Some 3600)
                (Some [("guest", PBool false); ("subject", PStr "user-200")])
                "response" false (Some (finalize "h1")) true Hhook)
      as (_ & _ & Hsame & _).
    exact (Hsame empty_world (world_of mute []) agree_calm_mute).
  - eexists. vm_compute. reflexivity.
  - vm_compute. reflexivity.
Defined.

End TimelineIsolation.

(* ===================================================================== *)
(** ** Facts on dictionaries and on the job registry *)
(* ===================================================================== *)

Module DictFacts.
Import PyVal Json JsonFacts.

Lemma dict_get_set {A} (k k' : string) (v : A) (d : list (string * A)) :
  dict_get k (dict_set k' v d)
  = if String.eqb k k' then Some v else dict_get k d.
Proof.
  induction d as [| [k2 v2] r IH]; cbn.
  - destruct (String.eqb k k'); reflexivity.
  - destruct (String.eqb k' k2) eqn:E2; cbn.
    + apply String.eqb_eq in E2. subst k2.
      destruct (String.eqb k k'); reflexivity.
    + destruct (String.eqb k k2) eqn:E; [| exact IH].
      apply String.eqb_eq in E. subst k2.
      rewrite String.eqb_sym, E2. reflexivity.
Qed.

Lemma dict_update_keeps_keys {A} (k : string) (pairs : list (string * A)) :
  forall d, is_Some (dict_get k d) -> is_Some (dict_get k (dict_update d pairs)).
Proof.
  unfold dict_update.
  induction pairs as [| [k1 v1] rest IH]; intros d Hk; [exact Hk |].
  cbn [fold_left fst snd]. apply IH. rewrite dict_get_set.
  destruct (String.eqb k k1); [eexists; reflexivity | exact Hk].
Qed.

Lemma dict_get_absent {A} (k : string) (d : list (string * A)) :
  existsb (String.eqb k) (List.map fst d) = false -> dict_get k d = None.
Proof.
  induction d as [| [k2 v2] r IH]; [reflexivity |].
  cbn [List.map fst existsb dict_get]. intros [Hk Hr]%orb_false_elim.
  rewrite Hk. exact (IH Hr).
Qed.

(** [d.update(pairs)] read back, for pairs with distinct keys. *)
Lemma dict_get_update {A} (k : string) (pairs : list (string * A)) :
  distinct (List.map fst pairs) = true ->
  forall d, dict_get k (dict_update d pairs)
            = match dict_get k pairs with
              | Some v => Some v
              | None => dict_get k d
              end.
Proof.
  unfold dict_update.
  induction pairs as [| [k1 v1] rest IH]; intros Hd d; [reflexivity |].
  cbn [List.map fst distinct] in Hd. apply andb_prop in Hd as [Hfresh Hd].
  apply negb_true_iff in Hfresh.
  cbn [fold_left fst snd dict_get]. rewrite (IH Hd), dict_get_set.
  destruct (String.eqb k k1) eqn:E; [| reflexivity].
  apply String.eqb_eq in E. subst k1.
  rewrite (dict_get_absent k rest Hfresh). reflexivity.
Qed.

End DictFacts.

Module SearchJobsFacts.
Import PyVal Json JsonFacts DictFacts SearchJobs.

(** The hash an operation is called with. *)
Definition target (o : op) : string :=
  match o with
  | MarkPending h _ _ | MarkCompleted h _ | MarkFailed h _ | ClearJob h => h
  end.

Definition targets (h : string) (p : Z * op) : bool :=
  String.eqb (target (snd p)) h.

Lemma apply_op_elsewhere now o jobs h :
  target o <> h -> apply_op now o jobs !! h = jobs !! h.
Proof.
  intros Hne. destruct o; cbn in *;
    first [apply lookup_insert_ne | apply lookup_delete_ne]; exact Hne.
Qed.

Lemma apply_op_local now o jobs1 jobs2 :
  jobs1 !! target o = jobs2 !! target o ->
  apply_op now o jobs1 !! target o = apply_op now o jobs2 !! target o.
Proof.
  intros E. destruct o; cbn in *;
    unfold mark_pending, mark_completed, mark_failed, clear_job; cbn [fst];
    rewrite ?lookup_insert_eq, ?lookup_delete_eq, ?E; reflexivity.
Qed.

Lemma run_projection ops h : forall jobs1 jobs2,
  jobs1 !! h = jobs2 !! h ->
  run ops jobs1 !! h = run (List.filter (targets h) ops) jobs2 !! h.
Proof.
  induction ops as [| [now o] rest IH]; intros jobs1 jobs2 E; [exact E |].
  cbn [run List.filter]. unfold targets at 1. cbn [snd].
  destruct (String.eqb_spec (target o) h) as [Ht | Hne].
  - cbn [run]. apply IH. subst h. apply apply_op_local, E.
  - apply IH. rewrite (apply_op_elsewhere now o jobs1 h Hne). exact E.
Qed.

(** X6. The record of a hash depends on the calls made with that hash
    only: after any sequence of [mark_pending], [mark_completed],
    [mark_failed] and [clear_job] calls, what [get_job] returns for a
    hash is what it returns when the calls on the other hashes are left
    out. *)
Theorem job_follows_its_own_calls (ops : list (Z * op)) (jobs : registry)
    (h : string) :
  get_job h (run ops jobs) = get_job h (run (List.filter (targets h) ops) jobs).
Proof. unfold get_job. apply run_projection. reflexivity. Qed.

Definition clears_job (h : string) (o : op) : bool :=
  match o with
  | ClearJob h' => String.eqb h' h
  | _ => false
  end.

Lemma apply_op_keeps now o jobs h r :
  clears_job h o = false -> jobs !! h = Some r ->
  exists r', apply_op now o jobs !! h = Some r'
             /\ created_at r' = created_at r
             /\ (forall k, is_Some (dict_get k (metadata r)) ->
                           is_Some (dict_get k (metadata r'))).
Proof.
  intros Hc Hr.
  destruct (decide (target o = h)) as [Ht | Hne].
  - destruct o as [h0 q md | h0 res | h0 err | h0]; cbn in Ht; subst h0;
      cbn [apply_op]; unfold mark_pending, mark_completed, mark_failed;
      cbn [fst]; rewrite ?lookup_insert_eq, ?Hr.
    + eexists. split; [reflexivity |]. split; [reflexivity |].
      cbn [metadata]. intros k Hk. destruct md as [[| kv more] |]; try exact Hk.
      apply dict_update_keeps_keys, Hk.
    + eexists. split; [reflexivity |]. split; [reflexivity |]. auto.
    + eexists. split; [reflexivity |]. split; [reflexivity |]. auto.
    + cbn in Hc. rewrite String.eqb_refl in Hc. discriminate.
  - rewrite (apply_op_elsewhere now o jobs h Hne). exists r. auto.
Qed.

(** X7. A record lives until [clear_job]: after any calls none of
    which is a [clear_job] of the hash, a record that was in the
    registry is still there, with the [created_at] it had (a repeated
    [mark_pending] does not restart it) and with every metadata key it
    had. *)
Theorem record_lives_until_cleared (ops : list (Z * op)) (jobs : registry)
    (h : string) (r : JobRecord) :
  forallb (fun p => negb (clears_job h (snd p))) ops = true ->
  get_job h jobs = Some r ->
  exists r', get_job h (run ops jobs) = Some r'
             /\ created_at r' = created_at r
             /\ (forall k, is_Some (dict_get k (metadata r)) ->
                           is_Some (dict_get k (metadata r'))).
Proof.
  unfold get_job. revert jobs r.
  induction ops as [| [now o] rest IH]; intros jobs r Hall Hr.
  - exists r. auto.
  - cbn [forallb snd] in Hall. apply andb_true_iff in Hall as [Ho Hrest].
    apply negb_true_iff in Ho.
    destruct (apply_op_keeps now o jobs h r Ho Hr) as (r1 & H1 & C1 & M1).
    destruct (IH _ r1 Hrest H1) as (r2 & H2 & C2 & M2).
    exists r2. cbn [run]. split; [exact H2 |]. split; [congruence | auto].
Qed.

Lemma run_app ops1 ops2 jobs : run (ops1 ++ ops2) jobs = run ops2 (run ops1 jobs).
Proof.
  revert jobs. induction ops1 as [| [now o] rest IH]; intros jobs; [reflexivity |].
  cbn. apply IH.
Qed.

(** X8. The last call on a hash decides what [get_job] shows: after
    [mark_pending] the record is pending with no result and no error,
    after [mark_completed] it is completed with the given result and no
    error, after [mark_failed] it is failed with the given error and
    still holds the result it had before, if any, and after [clear_job]
    there is no record; [updated_at] is the time of that call. *)
Theorem last_call_decides (ops : list (Z * op)) (now : Z) (o : op)
    (jobs : registry) :
  let before := get_job (target o) (run ops jobs) in
  let after := get_job (target o) (run (ops ++ [(now, o)]) jobs) in
  match o with
  | MarkPending _ _ _ =>
      exists r, after = Some r /\ status r = "pending" /\ result r = None
                /\ error r = None /\ updated_at r = now
  | MarkCompleted _ res =>
      exists r, after = Some r /\ status r = "completed"
                /\ result r = Some res /\ error r = None /\ updated_at r = now
  | MarkFailed _ err =>
      exists r, after = Some r /\ status r = "failed" /\ error r = Some err
                /\ result r = before ≫= result /\ updated_at r = now
  | ClearJob _ => after = None
  end.
Proof.
  intros before after. subst before after. unfold get_job.
  rewrite run_app. cbn [run]. generalize (run ops jobs). intros j.
  destruct o as [h q md | h res | h err | h]; cbn [target apply_op];
    unfold mark_pending, mark_completed, mark_failed, clear_job; cbn [fst].
  - rewrite lookup_insert_eq. eexists. split; [reflexivity |].
    destruct (j !! h); cbn; auto.
  - rewrite lookup_insert_eq. eexists. split; [reflexivity |]. cbn.
    destruct (j !! h); cbn; auto.
  - rewrite lookup_insert_eq. eexists. split; [reflexivity |]. cbn.
    destruct (j !! h); cbn; auto.
  - apply lookup_delete_eq.
Qed.

(** X9. Submitting a hash again: [mark_pending] on a hash that has a
    record resets it to pending without a result or an error, keeps its
    [created_at], keeps its query when the new one is empty, and merges
    the new metadata into the old: a key of the new metadata takes the
    new value, every other key keeps its value. *)
Theorem resubmission_merges (now : Z) (h q : string)
    (md : list (string * pyval)) (jobs : registry) (r : JobRecord) :
  distinct (List.map fst md) = true ->
  get_job h jobs = Some r ->
  let r' := snd (mark_pending now h q (Some md) jobs) in
  get_job h (fst (mark_pending now h q (Some md) jobs)) = Some r'
  /\ status r' = "pending" /\ result r' = None /\ error r' = None
  /\ created_at r' = created_at r /\ updated_at r' = now
  /\ query r' = (if Text.truthy q then q else query r)
  /\ forall k, dict_get k (metadata r')
               = match dict_get k md with
                 | Some v => Some v
                 | None => dict_get k (metadata r)
                 end.
Proof.
  intros Hnd Hr. unfold get_job in *. cbv zeta. unfold mark_pending.
  cbn [fst snd]. rewrite lookup_insert_eq, Hr. cbn [status result error
    created_at updated_at query metadata].
  repeat split. intros k. destruct md as [| kv more]; [reflexivity |].
  exact (dict_get_update k (kv :: more) Hnd (metadata r)).
Qed.

Lemma record_lives_until_cleared_witness :
  exists r', get_job "h2" (run (skipn 2 registry_ops)
                             (run (firstn 2 registry_ops) ∅)) = Some r'
             /\ created_at r' = 2
             /\ (forall k, is_Some (dict_get k [("guest", PBool true)]) ->
                           is_Some (dict_get k (metadata r'))).
Proof.
  apply (record_lives_until_cleared (skipn 2 registry_ops)
           (run (firstn 2 registry_ops) ∅) "h2"
           {| query := "desk lamp"; status := "pending"; created_at := 2;
              updated_at := 2; result := None; error := None;
              metadata := [("guest", PBool true)] |}).
  - vm_compute. reflexivity.
  - vm_compute. reflexivity.
Defined.

Definition resubmitted : JobRecord :=
  snd (mark_pending 9 "h1" ""
         (Some [("guest", PBool true); ("products_k", PInt 3)])
         (run registry_ops ∅)).

Lemma resubmission_merges_witness :
  status resubmitted = "pending"
  /\ result resubmitted = None
  /\ created_at resubmitted = 1
  /\ query resubmitted = "smart speaker"
  /\ dict_get "guest" (metadata resubmitted) = Some (PBool true).
Proof.
  destruct (resubmission_merges 9 "h1" ""
              [("guest", PBool true); ("products_k", PInt 3)]
              (run registry_ops ∅) registry_record)
    as (_ & Hs & Hres & _ & Hc & _ & Hq & Hm).
  - reflexivity.
  - vm_compute. reflexivity.
  - split; [exact Hs |]. split; [exact Hres |]. split; [exact Hc |].
    split; [exact Hq | exact (Hm "guest")].
Defined.

End SearchJobsFacts.

(* ===================================================================== *)
(** ** Reading the in-memory timeline *)
(* ===================================================================== *)

Module TimelineReads.
Import PyVal Json PayloadScrubber Timeline TimelineFacts.

(** The events of one hash, each stamped with the clock reading of its
    publish: readings between [lo] and [hi] that never decrease. *)
Inductive stamped (lo : Z) : Z -> list TimelineEvent -> Prop :=
| stamped_nil hi : lo <= hi -> stamped lo hi []
| stamped_snoc hi hi' m events e :
    stamped lo hi events -> hi <= m -> m <= hi' ->
    stream_id e = Some (format_stream_id m (Z.of_nat (length events) + 1)) ->
    stamped lo hi' (events ++ [e]).

Lemma stamped_bounds lo hi events : stamped lo hi events -> lo <= hi.
Proof. induction 1; lia. Qed.

Lemma stamped_later lo hi hi' events :
  stamped lo hi events -> hi <= hi' -> stamped lo hi' events.
Proof.
  intros H Hle. destruct H as [hi Hlo | hi0 hi1 m events e H0 H1 H2 H3].
  - constructor. lia.
  - apply (stamped_snoc lo hi0 hi' m); auto. lia.
Qed.

(** The key of the event at position [i] is [(m, i + 1)] for a reading
    [m] within the bounds. *)
Lemma stamped_key lo hi events :
  0 <= lo -> stamped lo hi events ->
  forall i e, events !! i = Some e ->
    exists m, lo <= m <= hi /\ event_key e = (m, Z.of_nat i + 1).
Proof.
  intros Hlo. induction 1 as [hi H0 | hi hi' m events e H IH H1 H2 H3];
    intros i e0 Hi.
  - rewrite lookup_nil in Hi. discriminate.
  - pose proof (stamped_bounds _ _ _ H) as Hb.
    destruct (decide (i < length events)%nat) as [Hlt | Hge].
    + rewrite lookup_app_l in Hi by exact Hlt.
      destruct (IH i e0 Hi) as (m0 & Hm0 & Hk). exists m0. split; [lia | exact Hk].
    + rewrite lookup_app_r in Hi by lia.
      destruct (i - length events)%nat eqn:Ei; [| cbn in Hi; discriminate].
      cbn in Hi. injection Hi as Heq. subst e0.
      assert (i = length events) as -> by lia.
      exists m. split; [lia |].
      rewrite (event_key_format e m _ H3) by lia.
      destruct (m <? 0) eqn:E; [lia | reflexivity].
Qed.

(** Later events have strictly greater keys. *)
Lemma stamped_strict lo hi events :
  0 <= lo -> stamped lo hi events ->
  forall i j ei ej,
    (i < j)%nat -> events !! i = Some ei -> events !! j = Some ej ->
    tuple_ltb (event_key ei) (event_key ej) = true.
Proof.
  intros Hlo. induction 1 as [hi H0 | hi hi' m events e H IH H1 H2 H3];
    intros i j ei ej Hij Hi Hj.
  - rewrite lookup_nil in Hi. discriminate.
  - destruct (decide (j < length events)%nat) as [Hlt | Hge].
    + rewrite lookup_app_l in Hi by lia. rewrite lookup_app_l in Hj by lia.
      exact (IH i j ei ej Hij Hi Hj).
    + rewrite lookup_app_r in Hj by lia.
      destruct (j - length events)%nat eqn:Ej; [| cbn in Hj; discriminate].
      cbn in Hj. injection Hj as Heq. subst ej.
      assert (j = length events) as -> by lia.
      rewrite lookup_app_l in Hi by lia.
      destruct (stamped_key lo hi events Hlo H i ei Hi) as (mi & Hmi & ->).
      pose proof (stamped_bounds _ _ _ H) as Hb.
      rewrite (event_key_format e m _ H3) by lia.
      destruct (m <? 0) eqn:E; [lia |].
      unfold tuple_ltb. cbn [fst snd]. lia.
Qed.

Lemma tuple_ltb_irrefl k : tuple_ltb k k = false.
Proof. unfold tuple_ltb. destruct k; cbn. lia. Qed.

Lemma tuple_ltb_asym a b : tuple_ltb a b = true -> tuple_ltb b a = false.
Proof. unfold tuple_ltb. destruct a, b; cbn. lia. Qed.

(** Filtering a strictly ascending list by "greater than the key at
    position [k]" keeps what comes after position [k]. *)
Lemma filter_after (events : list TimelineEvent) :
  (forall i j ei ej,
     (i < j)%nat -> events !! i = Some ei -> events !! j = Some ej ->
     tuple_ltb (event_key ei) (event_key ej) = true) ->
  forall k e, events !! k = Some e ->
    List.filter (fun e' => tuple_ltb (event_key e) (event_key e')) events
    = skipn (S k) events.
Proof.
  induction events as [| x r IH]; intros Hasc k e Hk.
  - rewrite lookup_nil in Hk. discriminate.
  - assert (forall i j ei ej,
              (i < j)%nat -> r !! i = Some ei -> r !! j = Some ej ->
              tuple_ltb (event_key ei) (event_key ej) = true) as Hr.
    { intros i j ei ej Hij Hi Hj. apply (Hasc (S i) (S j)); [lia | exact Hi | exact Hj]. }
    destruct k as [| k]; cbn [List.filter skipn].
    + cbn in Hk. injection Hk as ->. rewrite tuple_ltb_irrefl.
      assert (forall j ej, r !! j = Some ej ->
                tuple_ltb (event_key e) (event_key ej) = true) as Hall.
      { intros j ej Hj. apply (Hasc 0%nat (S j)); [lia | reflexivity | exact Hj]. }
      clear IH Hr Hasc. change (skipn 0 r) with r.
      induction r as [| y r IHr]; [reflexivity |].
      cbn [List.filter]. rewrite (Hall 0%nat y eq_refl). f_equal.
      apply IHr. intros j ej Hj. apply (Hall (S j)). exact Hj.
    + cbn in Hk.
      assert (tuple_ltb (event_key e) (event_key x) = false) as ->.
      { apply tuple_ltb_asym. apply (Hasc 0%nat (S k)); [lia | reflexivity | exact Hk]. }
      apply (IH Hr k e Hk).
Qed.

Lemma format_stream_id_nonempty m s' :
  exists c r, format_stream_id m s' = String c r.
Proof.
  unfold format_stream_id.
  pose proof (JsonFacts.str_of_Z_nonempty m) as H.
  destruct (str_of_Z m) as [| c r]; [congruence |].
  exists c, (r +:+ "-" +:+ str_of_Z s'). reflexivity.
Qed.

(** [items[-n:]] for a positive [n] that covers the list, and for zero,
    is the whole list. *)
Lemma last_items_all {A} (n : Z) (items : list A) :
  n = 0 \/ Z.of_nat (length items) <= n -> last_items n items = items.
Proof.
  intros H. unfold last_items.
  destruct (n =? 0) eqn:E0; [reflexivity |].
  destruct H as [-> | H]; [discriminate |].
  destruct (0 <? n) eqn:E1.
  - replace (length items - Z.to_nat n)%nat with 0%nat by lia. reflexivity.
  - assert (length items = 0%nat) as Hl by lia.
    destruct items; [apply skipn_nil | discriminate].
Qed.

(** For a positive [n] the slice is the newest [n] items at most. *)
Lemma last_items_newest {A} (n : Z) (items : list A) :
  0 < n ->
  exists older, items = older ++ last_items n items
                /\ Z.of_nat (length (last_items n items)) <= n.
Proof.
  intros Hn. unfold last_items.
  destruct (n =? 0) eqn:E0; [lia |].
  destruct (0 <? n) eqn:E1; [| lia].
  exists (firstn (length items - Z.to_nat n) items). split.
  - symmetry. apply firstn_skipn.
  - rewrite length_skipn. lia.
Qed.

Section store.
Context {lib : Library}.

Definition stamped_store (lo hi : Z) (store : timelines) : Prop :=
  lo <= hi /\ forall h events, store !! h = Some events -> stamped lo hi events.

Lemma stamped_store_empty lo : stamped_store lo lo ∅.
Proof. split; [lia |]. intros h ev H. rewrite lookup_empty in H. discriminate. Qed.

Lemma stamped_store_later lo hi hi' store :
  hi <= hi' -> stamped_store lo hi store -> stamped_store lo hi' store.
Proof.
  intros Hle [Hb H]. split; [lia |]. intros h ev Hev.
  apply (stamped_later lo hi); [exact (H h ev Hev) | exact Hle].
Qed.

Lemma stamped_write lo hi now e store :
  hi <= now -> stamped_store lo hi store -> stream_id e = None ->
  stamped_store lo now (fst (_write_in_memory now e store)).
Proof.
  intros Hle [Hb Hok] Hs. split; [lia |]. intros h ev.
  unfold _write_in_memory. cbn [fst].
  destruct (decide (query_hash e = h)) as [<- | Hne].
  - rewrite lookup_insert_eq. intros [= <-].
    apply (stamped_snoc lo hi now now).
    + destruct (store !! query_hash e) as [ev0 |] eqn:E; cbn [default].
      * exact (Hok _ _ E).
      * constructor. exact Hb.
    + exact Hle.
    + lia.
    + cbn. rewrite Hs. reflexivity.
  - rewrite lookup_insert_ne by exact Hne. intros Hev.
    apply (stamped_later lo hi); [exact (Hok _ _ Hev) | exact Hle].
Qed.

Lemma stamped_apply_op lo hi now o store :
  hi <= now -> stamped_store lo hi store ->
  stamped_store lo now (apply_op now o store).
Proof.
  intros Hle Hok. destruct o as [a | [h |]]; cbn [apply_op].
  - unfold publish_timeline_event.
    destruct (a_reply a) as [| entry |].
    + apply (stamped_write lo hi); auto.
    + destruct (_parse_stream_id entry). cbn [fst].
      apply (stamped_store_later lo hi); auto.
    + apply (stamped_write lo hi); auto.
  - destruct Hok as [Hb Hok]. split; [lia |]. intros h' ev.
    unfold clear_in_memory_timelines.
    destruct (decide (h = h')) as [-> | Hne].
    + rewrite lookup_delete_eq. discriminate.
    + rewrite lookup_delete_ne by exact Hne. intros Hev.
      apply (stamped_later lo hi); [exact (Hok _ _ Hev) | exact Hle].
  - destruct Hok as [Hb _]. split; [lia |]. intros h' ev. cbn.
    rewrite lookup_empty. discriminate.
Qed.

Lemma stamped_run ops : forall hi lo store,
  clock_monotone hi ops -> stamped_store lo hi store ->
  exists hi', stamped_store lo hi' (run ops store).
Proof.
  induction ops as [| [now o] rest IH]; intros hi lo store Hmono Hok; cbn.
  - exists hi. exact Hok.
  - destruct Hmono as [Hle Hrest].
    apply (IH now); [exact Hrest |]. apply (stamped_apply_op lo hi); assumption.
Qed.

(** X1. Resuming a read.  After any publishes and clears on the
    in-memory backend, made at clock readings that start at zero or
    later and never decrease, reading with the stream id of a stored
    event as [last_id] gives the events stored after that one, none of
    the earlier ones, cut to the newest [count] by the slice
    [filtered[-count:]]; when [count] is zero or covers what is pending,
    that is every later event. *)
Theorem read_resumes_after_cursor (t0 : Z) (ops : list (Z * op)) (qh : string)
    (events : list TimelineEvent) (k : nat) (e : TimelineEvent)
    (options : option ReadOptions) :
  0 <= t0 ->
  clock_monotone t0 ops ->
  run ops ∅ !! qh = Some events ->
  events !! k = Some e ->
  let limit := count (default default_read_options options) in
  exists sid,
    stream_id e = Some sid
    /\ read_in_memory qh (Some sid) options (run ops ∅)
       = last_items limit (skipn (S k) events)
    /\ (limit = 0 \/ Z.of_nat (length events - S k) <= limit ->
        read_in_memory qh (Some sid) options (run ops ∅)
        = skipn (S k) events).
Proof.
  intros Ht0 Hmono Hev Hk limit.
  destruct (stamped_run ops t0 t0 ∅ Hmono (stamped_store_empty t0))
    as [hi [Hb Hok]].
  pose proof (Hok qh events Hev) as Hst.
  assert (exists sid, stream_id e = Some sid
                      /\ exists c r, sid = String c r) as (sid & Hsid & c & r & Hcr).
  { clear Hok Hev Hb. revert k e Hk.
    induction Hst as [hi H0 | hi hi' m events e0 H IH H1 H2 H3]; intros k e Hk.
    - rewrite lookup_nil in Hk. discriminate.
    - destruct (decide (k < length events)%nat) as [Hlt | Hge].
      + rewrite lookup_app_l in Hk by exact Hlt. exact (IH k e Hk).
      + rewrite lookup_app_r in Hk by lia.
        destruct (k - length events)%nat; [| cbn in Hk; discriminate].
        cbn in Hk. injection Hk as <-.
        eexists. split; [exact H3 | apply format_stream_id_nonempty]. }
  exists sid. split; [exact Hsid |].
  assert (read_in_memory qh (Some sid) options (run ops ∅)
          = last_items limit (skipn (S k) events)) as Hread.
  { unfold read_in_memory. rewrite Hev. cbn [default]. subst sid.
    fold limit. f_equal.
    rewrite <- (filter_after events (stamped_strict t0 hi events Ht0 Hst) k e Hk).
    unfold event_key at 2. rewrite Hsid. reflexivity. }
  split; [exact Hread |].
  intros Hcover. rewrite Hread. apply last_items_all.
  rewrite length_skipn. exact Hcover.
Qed.

(** The operation appends to the in-memory list of [h]. *)
Definition appends_to (h : string) (o : op) : bool :=
  match o with
  | Publish a =>
      match a_reply a with
      | RedisAppended _ => false
      | NotRedis | RedisFailed => String.eqb (a_query_hash a) h
      end
  | Clear _ => false
  end.

(** The operation drops the in-memory list of [h]. *)
Definition clears (h : string) (o : op) : bool :=
  match o with
  | Publish _ => false
  | Clear None => true
  | Clear (Some h') => String.eqb h' h
  end.

Lemma apply_op_events now o store h :
  clears h o = false ->
  exists more,
    default [] (apply_op now o store !! h) = default [] (store !! h) ++ more
    /\ length more = (if appends_to h o then 1 else 0)%nat
    /\ Forall (fun e => query_hash e = h) more.
Proof.
  intros Hc. destruct o as [a | [h' |]]; cbn in Hc; [| | discriminate].
  - cbn [apply_op appends_to]. unfold publish_timeline_event.
    assert (
      exists more,
        default [] (fst (_write_in_memory now
                           (base_event (a_uuid a) (a_now_iso a) (a_query_hash a)
                              (a_step a) (a_payload a) (a_scrubber a)
                              (a_event_id a)) store) !! h)
        = default [] (store !! h) ++ more
        /\ length more = (if String.eqb (a_query_hash a) h then 1 else 0)%nat
        /\ Forall (fun e => query_hash e = h) more) as Hw.
    { unfold _write_in_memory. cbn [fst query_hash base_event].
      destruct (String.eqb_spec (a_query_hash a) h) as [-> | Hne].
      - rewrite lookup_insert_eq. cbn [default]. eexists. split; [reflexivity |].
        split; [reflexivity |]. repeat constructor.
      - rewrite lookup_insert_ne by exact Hne. exists [].
        rewrite app_nil_r. repeat split. constructor. }
    destruct (a_reply a) as [| entry |].
    + exact Hw.
    + destruct (_parse_stream_id entry). cbn [fst]. exists [].
      rewrite app_nil_r. repeat split. constructor.
    + exact Hw.
  - cbn [apply_op appends_to clear_in_memory_timelines].
    apply String.eqb_neq in Hc. rewrite lookup_delete_ne by exact Hc.
    exists []. rewrite app_nil_r. repeat split. constructor.
Qed.

(** X2. Between two clears the in-memory list of a hash only grows at
    its end: after any operations none of which clears the hash, the
    events stored before are still there, in place and unchanged, and
    what follows them is one event of that hash for each publish on it
    that the in-memory store took. *)
Theorem timeline_only_grows (ops : list (Z * op)) (store : timelines)
    (h : string) :
  forallb (fun p => negb (clears h (snd p))) ops = true ->
  exists more,
    default [] (run ops store !! h) = default [] (store !! h) ++ more
    /\ length more = length (List.filter (fun p => appends_to h (snd p)) ops)
    /\ Forall (fun e => query_hash e = h) more.
Proof.
  revert store. induction ops as [| [now o] rest IH]; intros store Hall.
  - exists []. cbn. rewrite app_nil_r. repeat split. constructor.
  - cbn [forallb snd] in Hall. apply andb_true_iff in Hall as [Ho Hrest].
    apply negb_true_iff in Ho.
    destruct (apply_op_events now o store h Ho) as (m1 & E1 & L1 & F1).
    destruct (IH (apply_op now o store) Hrest) as (m2 & E2 & L2 & F2).
    exists (m1 ++ m2). cbn [run]. rewrite E2, E1, <- app_assoc.
    split; [reflexivity |]. split.
    + rewrite length_app, L1, L2. cbn [List.filter snd].
      destruct (appends_to h o); reflexivity.
    + apply Forall_app. split; assumption.
Qed.

(** The reply of a publish that ends in the in-memory store. *)
Definition memory_reply (redis_failed : bool) : stream_reply :=
  if redis_failed then RedisFailed else NotRedis.

(** X3. Clearing one hash: the other hashes keep their events, a read
    of the cleared hash returns nothing whatever the cursor, and the next
    publish on it that the in-memory store takes is numbered 1 again and
    is then the only event of the hash. *)
Theorem clear_restarts_numbering (store : timelines) (h : string)
    (redis_failed : bool) (uuid : string) (now_iso now_millis : Z)
    (stp : string) (pl : option pyval) (scrubber : option ScrubberSettings)
    (eid : option string) :
  let cleared := clear_in_memory_timelines (Some h) store in
  let published :=
    publish_timeline_event (memory_reply redis_failed) uuid now_iso now_millis
      h stp pl scrubber eid cleared in
  (forall h', h' <> h -> cleared !! h' = store !! h')
  /\ (forall last options, read_in_memory h last options cleared = [])
  /\ sequence (snd published) = Some 1
  /\ stream_id (snd published) = Some (format_stream_id now_millis 1)
  /\ fst published !! h = Some [snd published].
Proof.
  intros cleared published. subst cleared published.
  unfold clear_in_memory_timelines. repeat split.
  - intros h' Hne. apply lookup_delete_ne. congruence.
  - intros last options. unfold read_in_memory. rewrite lookup_delete_eq.
    cbn [default]. destruct last as [[| c r] |]; cbn [List.filter];
      unfold last_items; destruct (_ =? 0); try reflexivity;
      destruct (0 <? _); apply skipn_nil.
  - unfold publish_timeline_event, _write_in_memory.
    destruct redis_failed; cbn; rewrite lookup_delete_eq; reflexivity.
  - unfold publish_timeline_event, _write_in_memory.
    destruct redis_failed; cbn; rewrite lookup_delete_eq; reflexivity.
  - unfold publish_timeline_event, _write_in_memory.
    destruct redis_failed; cbn; rewrite lookup_delete_eq, lookup_insert_eq;
      reflexivity.
Qed.

(** X4. A publish that the in-memory store takes (the adapter is no
    Redis adapter, or Redis failed) is read back by a read that comes to
    the in-memory store (the adapter is no Redis adapter, or the Redis
    read raised): [read_timeline_events] of the hash without a cursor
    and with a count that is not negative ends with the event the
    publish returned, stream id and sequence number included.  A read
    that Redis answers returns the events of Redis instead. *)
Theorem published_event_is_read_back (store : timelines) (h : string)
    (redis_failed : bool) (uuid : string) (now_iso now_millis : Z)
    (stp : string) (pl : option pyval) (scrubber : option ScrubberSettings)
    (eid : option string) (options : option ReadOptions)
    (reply : read_reply) :
  0 <= count (default default_read_options options) ->
  reads_memory reply = true ->
  let published :=
    publish_timeline_event (memory_reply redis_failed) uuid now_iso now_millis
      h stp pl scrubber eid store in
  (exists front,
     read_timeline_events reply h None options (fst published)
     = front ++ [snd published])
  /\ sequence (snd published)
     = Some (Z.of_nat (length (default [] (store !! h))) + 1).
Proof.
  intros Hcount Hreply published.
  assert (read_timeline_events reply h None options (fst published)
          = read_in_memory h None options (fst published)) as ->
    by (destruct reply; [reflexivity | discriminate Hreply | reflexivity]).
  assert (exists ev, fst published !! h = Some (default [] (store !! h) ++ [ev])
                     /\ snd published = ev
                     /\ sequence ev
                        = Some (Z.of_nat (length (default [] (store !! h))) + 1))
    as (ev & Hst & Hev & Hseq).
  { subst published. unfold publish_timeline_event, _write_in_memory.
    destruct redis_failed; cbn; rewrite lookup_insert_eq;
      eexists; repeat split; reflexivity. }
  rewrite Hev. unfold read_in_memory. cbv zeta. rewrite Hst.
  change (default [] (Some ?l)) with l.
  set (n := count (default default_read_options options)) in *.
  set (old := default [] (store !! h)) in *.
  assert (exists front, last_items n (old ++ [ev]) = front ++ [ev])
    as [front Hfront].
  { unfold last_items. destruct (n =? 0) eqn:E0; [exists old; reflexivity |].
    destruct (0 <? n) eqn:E1; [| lia].
    rewrite length_app. cbn [length].
    rewrite skipn_app.
    replace (length old + 1 - Z.to_nat n - length old)%nat with 0%nat by lia.
    cbn [skipn]. eexists. reflexivity. }
  split; [exists front; exact Hfront | exact Hseq].
Qed.

End store.



Lemma read_resumes_after_cursor_witness :
  clock_monotone 0 timeline_ops
  /\ List.map stream_id
       (read_in_memory "h1" (Some "1000-1") None
          (run (lib := Sample.sample_library) timeline_ops ∅))
     = [Some "1000-2"; Some "1250-3"].
Proof.
  assert (clock_monotone 0 timeline_ops) as Hclock by (cbn; lia).
  split; [exact Hclock |].
  assert (run (lib := Sample.sample_library) timeline_ops ∅ !! "h1"
          = Some timeline_events) as Hrun by (vm_compute; reflexivity).
  assert (exists e, timeline_events !! 0%nat = Some e
                    /\ stream_id e = Some "1000-1") as (e & He & Hs)
    by (vm_compute; eexists; split; reflexivity).
  destruct (read_resumes_after_cursor (lib := Sample.sample_library)
              0 timeline_ops "h1" timeline_events 0 e None
              ltac:(lia) Hclock Hrun He) as (sid & Hsid & Hread & _).
  assert (sid = "1000-1") as -> by congruence.
  rewrite Hread. vm_compute. reflexivity.
Defined.

Lemma timeline_only_grows_witness :
  exists more,
    default [] (run (lib := Sample.sample_library) timeline_ops ∅ !! "h1")
    = default [] ((∅ : timelines) !! "h1") ++ more
    /\ length more
       = length (List.filter (fun p => appends_to "h1" (snd p)) timeline_ops)
    /\ Forall (fun e => query_hash e = "h1") more.
Proof.
  apply (timeline_only_grows (lib := Sample.sample_library) timeline_ops ∅ "h1").
  vm_compute. reflexivity.
Defined.

Lemma published_event_is_read_back_witness :
  (exists front,
     read_timeline_events RedisReadFailed "h1" None None
       (fst (publish_timeline_event (lib := Sample.sample_library)
               (memory_reply true) "u5" 5 1300 "h1" "response.cached" None
               None None (run (lib := Sample.sample_library) timeline_ops ∅)))
     = front
       ++ [snd (publish_timeline_event (lib := Sample.sample_library)
                  (memory_reply true) "u5" 5 1300 "h1" "response.cached" None
                  None None (run (lib := Sample.sample_library) timeline_ops ∅))])
  /\ sequence
       (snd (publish_timeline_event (lib := Sample.sample_library)
               (memory_reply true) "u5" 5 1300 "h1" "response.cached" None
               None None (run (lib := Sample.sample_library) timeline_ops ∅)))
     = Some (Z.of_nat
               (length (default []
                          (run (lib := Sample.sample_library) timeline_ops ∅
                             !! "h1"))) + 1).
Proof.
  apply (published_event_is_read_back (lib := Sample.sample_library)
           (run (lib := Sample.sample_library) timeline_ops ∅) "h1" true "u5"
           5 1300 "response.cached" None None None None RedisReadFailed).
  - cbn. lia.
  - reflexivity.
Defined.

End TimelineReads.

(* ===================================================================== *)
(** ** What the scrubber guarantees *)
(* ===================================================================== *)

Module ScrubberGuarantees.
Import PyVal PayloadScrubber PayloadScrubberFacts.

(** A value that holds no other value. *)
Definition is_scalar (v : pyval) : bool :=
  match v with
  | PNone | PBool _ | PInt _ | PFloat _ | PStr _ => true
  | _ => false
  end.

Section guarantees.
Context {lib : Library}.
Variable settings : ScrubberSettings.
Variable override : option bool.

Definition allow_truncation : bool :=
  match override with
  | None => debug_truncation_enabled settings
  | Some b => b
  end.

(** The mask that stands for a value: its hash tag, or the fixed mask. *)
Definition mask_of (child : pyval) : pyval :=
  PStr (if hash_mask settings then _hash_value child else mask settings).

(** What stands in the output for the value [child] of a sensitive key. *)
Definition replacement (key : string) (child : pyval) : pyval :=
  if bool_decide (Text.lower key ∈ redact_fields (normalized settings))
  then mask_of child
  else match child with
       | PStr text =>
           if allow_truncation
           then PStr (truncate_text text (max_truncate_length settings))
           else mask_of child
       | _ => mask_of child
       end.

Lemma select_app (p q : list selector) (v : pyval) :
  select (p ++ q) v = select p v ≫= select q.
Proof.
  revert v. induction p as [| [k | i] rest IH]; intros v; cbn [app select].
  - reflexivity.
  - destruct v; try reflexivity. destruct (dict_get k items); [apply IH | reflexivity].
  - destruct v; try reflexivity; destruct (nth_error xs i);
      first [apply IH | reflexivity].
Qed.

Lemma scrub_sensitive_key (k : string) (d : list (string * pyval)) (c : pyval) :
  sensitive settings k = true ->
  dict_get k d = Some c ->
  select [Key k] (scrub_payload (PDict d) settings override)
  = Some (replacement k c).
Proof.
  intros Hk Hget. unfold scrub_payload. cbn [_scrub select].
  rewrite dict_get_map_items by (intros kc; reflexivity).
  rewrite Hget. cbn [fmap option_fmap option_map fst snd].
  f_equal. unfold sensitive in Hk. apply andb_true_iff in Hk as [Hp Hrt].
  apply negb_true_iff in Hp. rewrite Hp.
  unfold replacement, mask_of, masking, allow_truncation.
  cbn [hash_mask mask normalized max_truncate_length debug_truncation_enabled
       redact_fields truncate_fields] in *.
  destruct (bool_decide (Text.lower k ∈ set_map Text.lower (redact_fields settings)));
    [reflexivity |].
  cbn [orb] in Hrt. rewrite Hrt. reflexivity.
Qed.

(** X10. Redaction reaches every depth.  For a key that a redact or a
    truncate field names and no passthrough field names (compared in
    lower case), met below keys that are all scrubbed through, the output
    holds at that place a string in the place of the value: the hash tag
    or the mask for a redact field, and for a truncate field the
    truncated text when truncation is allowed and the value is a string,
    the hash tag or the mask otherwise.  With truncation not allowed it
    is the hash tag or the mask in every case. *)
Theorem sensitive_value_is_replaced (payload : pyval) (prefix : list selector)
    (key : string) (child : pyval) :
  clear_path settings prefix = true ->
  sensitive settings key = true ->
  select (prefix ++ [Key key]) payload = Some child ->
  select (prefix ++ [Key key]) (scrub_payload payload settings override)
  = Some (replacement key child)
  /\ (allow_truncation = false -> replacement key child = mask_of child)
  /\ exists text, replacement key child = PStr text.
Proof.
  intros Hclear Hkey Hsel. rewrite select_app in Hsel |- *.
  destruct (select prefix payload) as [parent |] eqn:Eparent; [| discriminate].
  rewrite (select_scrub settings override prefix payload parent Hclear Eparent).
  cbn [mbind option_bind] in *.
  destruct parent; try discriminate.
  cbn [select] in Hsel.
  destruct (dict_get key items) as [c |] eqn:Eget; [| discriminate].
  injection Hsel as ->.
  split; [exact (scrub_sensitive_key key items child Hkey Eget) |].
  unfold replacement, mask_of. split.
  - intros ->. destruct (bool_decide _); [reflexivity |].
    destruct child; reflexivity.
  - destruct (bool_decide _); [eexists; reflexivity |].
    destruct child; try (eexists; reflexivity).
    destruct allow_truncation; eexists; reflexivity.
Qed.

Lemma scrub_scalar (v : pyval) :
  is_scalar v = true -> scrub_payload v settings override = v.
Proof. destruct v; intros H; try discriminate; reflexivity. Qed.

(** X11. What is not sensitive is not touched.  A number, a boolean, a
    null or a string, of any length, that is reached through keys that
    no redact or truncate field names (or that a passthrough field
    names) is in the output at the same place, unchanged; and every
    mapping on the way keeps its keys, in their order. *)
Theorem clear_values_are_kept (payload : pyval) (path : list selector)
    (value : pyval) :
  clear_path settings path = true ->
  select path payload = Some value ->
  (is_scalar value = true ->
   select path (scrub_payload payload settings override) = Some value)
  /\ (forall items, value = PDict items ->
        exists items',
          select path (scrub_payload payload settings override)
          = Some (PDict items')
          /\ List.map fst items' = List.map fst items).
Proof.
  intros Hclear Hsel.
  pose proof (select_scrub settings override path payload value Hclear Hsel)
    as Hout.
  split.
  - intros Hs. rewrite Hout, (scrub_scalar value Hs). reflexivity.
  - intros items ->. rewrite Hout. unfold scrub_payload. cbn [_scrub].
    eexists. split; [reflexivity |].
    rewrite List.map_map. reflexivity.
Qed.

End guarantees.

Lemma take_length_le (n : nat) (s : string) :
  (String.length s <= n)%nat -> take n s = s.
Proof.
  revert n. induction s as [| c r IH]; intros [| n] H; cbn in *;
    try reflexivity; try lia.
  f_equal. apply IH. lia.
Qed.

Lemma take_append (n : nat) (s t : string) :
  (n <= String.length s)%nat -> take n (s +:+ t) = take n s.
Proof.
  revert n. induction s as [| c r IH]; intros [| n] H.
  - destruct t; reflexivity.
  - cbn in H. lia.
  - reflexivity.
  - change (String c r +:+ t) with (String c (r +:+ t)). cbn [take].
    f_equal. apply IH. cbn in H. lia.
Qed.

Lemma take_take (n : nat) (s : string) : take n (take n s) = take n s.
Proof.
  revert s. induction n as [| n IH]; intros [| c r]; cbn; try reflexivity.
  f_equal. apply IH.
Qed.

Lemma length_take (n : nat) (s : string) :
  (n <= String.length s)%nat -> String.length (take n s) = n.
Proof.
  revert s. induction n as [| n IH]; intros [| c r] H; cbn in *;
    try reflexivity; try lia.
  f_equal. apply IH. lia.
Qed.

Lemma length_append (s t : string) :
  String.length (s +:+ t) = (String.length s + String.length t)%nat.
Proof.
  induction s as [| c r IH]; [reflexivity |].
  change (String c r +:+ t) with (String c (r +:+ t)). cbn. f_equal. exact IH.
Qed.

(** X12. [truncate_text] keeps the head of the text and is stable: the
    first [max_length] characters of the result are those of the text, a
    text of at most [max_length] characters is returned as it is, and
    truncating the result again with the same length changes nothing. *)
Theorem truncate_text_is_stable (text : string) (max_length : Z) :
  truncate_text (truncate_text text max_length) max_length
  = truncate_text text max_length
  /\ take (Z.to_nat max_length) (truncate_text text max_length)
     = take (Z.to_nat max_length) text
  /\ (Z.of_nat (String.length text) <= max_length ->
      truncate_text text max_length = (if max_length <=? 0 then "" else text)).
Proof.
  unfold truncate_text.
  destruct (max_length <=? 0) eqn:E0.
  - replace (Z.to_nat max_length) with 0%nat by lia.
    repeat split.
  - destruct (Z.of_nat (String.length text) <=? max_length) eqn:E1.
    + rewrite ?E1. repeat split.
    + assert (Z.to_nat max_length <= String.length text)%nat as Hle
        by (apply Z.leb_gt in E0, E1; lia).
      rewrite length_append, (length_take _ _ Hle).
      change (String.length ellipsis) with 3%nat.
      apply Z.leb_gt in E0, E1.
      destruct (Z.leb_spec (Z.of_nat (Z.to_nat max_length + 3)) max_length);
        [lia |].
      rewrite take_append by (rewrite length_take; lia).
      rewrite take_take. repeat split. lia.
Qed.

(** A payload with a redact field inside a mapping and a truncate field
    inside a list. *)
Definition nested_payload : pyval :=
  PDict [ ("user", PDict [("Email", PStr "a@b.c"); ("name", PStr "Ann")]);
          ("hits", PList [PDict [("prompt", PStr "tell me")]]) ].

Lemma sensitive_value_is_replaced_witness :
  select ([Key "hits"; Index 0] ++ [Key "prompt"])
    (scrub_payload (lib := Sample.sample_library) nested_payload
       DEFAULT_TIMELINE_SCRUBBER None)
  = Some (replacement (lib := Sample.sample_library) DEFAULT_TIMELINE_SCRUBBER
            None "prompt" (PStr "tell me"))
  /\ (allow_truncation DEFAULT_TIMELINE_SCRUBBER None = false ->
      replacement (lib := Sample.sample_library) DEFAULT_TIMELINE_SCRUBBER None
        "prompt" (PStr "tell me")
      = mask_of (lib := Sample.sample_library) DEFAULT_TIMELINE_SCRUBBER
          (PStr "tell me"))
  /\ exists text,
       replacement (lib := Sample.sample_library) DEFAULT_TIMELINE_SCRUBBER None
         "prompt" (PStr "tell me") = PStr text.
Proof.
  apply (sensitive_value_is_replaced (lib := Sample.sample_library)
           DEFAULT_TIMELINE_SCRUBBER None nested_payload
           [Key "hits"; Index 0] "prompt" (PStr "tell me")).
  - vm_compute. reflexivity.
  - vm_compute. reflexivity.
  - vm_compute. reflexivity.
Defined.

Lemma clear_values_are_kept_witness :
  select [Key "user"; Key "name"]
    (scrub_payload (lib := Sample.sample_library) nested_payload
       DEFAULT_TIMELINE_SCRUBBER None)
  = Some (PStr "Ann").
Proof.
  apply (proj1 (clear_values_are_kept (lib := Sample.sample_library)
                  DEFAULT_TIMELINE_SCRUBBER None nested_payload
                  [Key "user"; Key "name"] (PStr "Ann")
                  ltac:(vm_compute; reflexivity)
                  ltac:(vm_compute; reflexivity))).
  reflexivity.
Defined.

End ScrubberGuarantees.

(* ===================================================================== *)
(** ** The canonical query ignores case and padding *)
(* ===================================================================== *)

Module CanonicalQuery.
Import Text TextFacts PyVal Json CacheUtils.

Lemma append_nil_r (s : string) : s +:+ "" = s.
Proof.
  induction s as [| c r IH]; [reflexivity |].
  change (String c r +:+ "") with (String c (r +:+ "")). rewrite IH. reflexivity.
Qed.

Lemma lstrip_blank_app (pad s : string) :
  blank pad = true -> lstrip (pad +:+ s) = lstrip s.
Proof.
  induction pad as [| c r IH]; [reflexivity |].
  cbn [blank]. intros [Hc Hr]%andb_prop.
  change (String c r +:+ s) with (String c (r +:+ s)). cbn [lstrip].
  rewrite Hc. apply IH, Hr.
Qed.

Lemma blank_app (a b : string) : blank (a +:+ b) = blank a && blank b.
Proof.
  induction a as [| c r IH]; [reflexivity |].
  change (String c r +:+ b) with (String c (r +:+ b)). cbn [blank].
  rewrite IH, andb_assoc. reflexivity.
Qed.

Lemma rstrip_app_blank (s pad : string) :
  blank pad = true -> rstrip (s +:+ pad) = rstrip s.
Proof.
  intros Hpad. induction s as [| c r IH].
  - change ("" +:+ pad) with pad. rewrite (blank_rstrip pad Hpad). reflexivity.
  - change (String c r +:+ pad) with (String c (r +:+ pad)). cbn [rstrip].
    rewrite IH. reflexivity.
Qed.

Lemma lstrip_blank (s : string) : blank s = true -> lstrip s = "".
Proof.
  induction s as [| c r IH]; [reflexivity |].
  cbn [blank lstrip]. intros [Hc Hr]%andb_prop. rewrite Hc. apply IH, Hr.
Qed.

Lemma lstrip_app (s pad : string) :
  lstrip (s +:+ pad) = if blank s then lstrip pad else lstrip s +:+ pad.
Proof.
  induction s as [| c r IH]; [reflexivity |].
  change (String c r +:+ pad) with (String c (r +:+ pad)).
  cbn [lstrip blank]. destruct (is_space c); [exact IH | reflexivity].
Qed.

Lemma strip_padded (pad1 q pad2 : string) :
  blank pad1 = true -> blank pad2 = true ->
  strip (pad1 +:+ q +:+ pad2) = strip q.
Proof.
  intros H1 H2. unfold strip. rewrite (lstrip_blank_app pad1 _ H1), lstrip_app.
  destruct (blank q) eqn:Eq.
  - rewrite (lstrip_blank pad2 H2), (lstrip_blank q Eq). reflexivity.
  - apply rstrip_app_blank, H2.
Qed.

Section hashes.
Context {lib : Library}.

(** X13. The canonical query ignores case and padding: white space
    before and after a query and the case of its letters change neither
    its canonical form nor any key or hash built from it (the query
    hash, the response-cache key, the two catalogue keys). *)
Theorem keys_ignore_case_and_padding (pad1 q pad2 : string)
    (schema_version products_k reviews_per_product : Z)
    (extra : option (list (string * pyval))) :
  blank pad1 = true -> blank pad2 = true ->
  let q' := pad1 +:+ q +:+ pad2 in
  canonicalize_query q' = canonicalize_query q
  /\ canonicalize_query (lower q) = canonicalize_query q
  /\ build_query_hash (lower q') products_k reviews_per_product extra
     = build_query_hash q products_k reviews_per_product extra
  /\ build_response_cache_key schema_version (lower q') products_k
       reviews_per_product extra
     = build_response_cache_key schema_version q products_k
         reviews_per_product extra
  /\ build_precomputed_query_key (lower q') = build_precomputed_query_key q
  /\ build_canonical_query_key (lower q') = build_canonical_query_key q.
Proof.
  intros H1 H2 q'.
  assert (canonicalize_query q' = canonicalize_query q) as Hpad.
  { unfold canonicalize_query. subst q'. rewrite strip_padded by assumption.
    reflexivity. }
  assert (forall s, canonicalize_query (lower s) = canonicalize_query s) as Hlow.
  { intros s. unfold canonicalize_query, collapse_ws.
    rewrite strip_lower, collapse_lower, lower_twice. reflexivity. }
  split; [exact Hpad |]. split; [apply Hlow |].
  unfold build_query_hash, build_response_cache_key, build_query_fingerprint,
    build_precomputed_query_key, build_canonical_query_key.
  rewrite (Hlow q'), Hpad. repeat split.
Qed.

End hashes.

Lemma keys_ignore_case_and_padding_witness :
  canonicalize_query ("  " +:+ "Smart  Speaker" +:+ " ")
  = canonicalize_query "Smart  Speaker"
  /\ build_precomputed_query_key (lower ("  " +:+ "Smart  Speaker" +:+ " "))
     = build_precomputed_query_key "Smart  Speaker".
Proof.
  destruct (keys_ignore_case_and_padding (lib := Sample.sample_library)
              "  " "Smart  Speaker" " " 1 3 3 None eq_refl eq_refl)
    as (Hc & _ & _ & _ & Hp & _).
  split; [exact Hc | exact Hp].
Defined.

End CanonicalQuery.

(* ===================================================================== *)
(** ** The catalogue: what is stored is served *)
(* ===================================================================== *)

Module CatalogueFacts.
Import PyVal Json JsonFacts Runtime RuntimeFacts Schemas Config SearchService
  SearchServiceStore AdminEndpoints.
#[local] Open Scope run_scope.

(** The cache adapter answers every call. *)
Definition answering (w : World) : Prop :=
  forall n, adapter_fault (oracle w) n = false.

(** The same outside, and the same cache but for the keys [keys]. *)
Definition frame (keys : list string) (w w' : World) : Prop :=
  oracle w' = oracle w
  /\ forall k, k ∉ keys -> cache_data w' !! k = cache_data w !! k.

Lemma not_in_singleton (k key : string) : k <> key -> k ∉ [key].
Proof. intros Hne Hin. apply list_elem_of_singleton in Hin. contradiction. Qed.

Lemma frame_refl keys w : frame keys w w.
Proof. split; auto. Qed.

Lemma frame_trans keys w1 w2 w3 :
  frame keys w1 w2 -> frame keys w2 w3 -> frame keys w1 w3.
Proof.
  intros [O1 D1] [O2 D2]. split; [congruence |].
  intros k Hk. rewrite (D2 k Hk). apply D1, Hk.
Qed.

Lemma frame_weaken keys keys' w w' :
  (forall k, k ∈ keys -> k ∈ keys') -> frame keys w w' -> frame keys' w w'.
Proof. intros Hsub [O D]. split; [exact O |]. intros k Hk. apply D. auto. Qed.

Lemma frame_answering keys w w' : frame keys w w' -> answering w -> answering w'.
Proof. intros [O _] Hq n. rewrite O. apply Hq. Qed.

Lemma bind_ret {A B} (a : A) (k : A -> M B) w : bind (ret a) k w = k a w.
Proof. reflexivity. Qed.

Lemma fst_bind_ret {A B} (a : A) (k : A -> M B) w :
  fst (bind (ret a) k w) = fst (k a w).
Proof. reflexivity. Qed.

Section runs.
Context {lib : Library} {val : Validation}.
Variable self : SearchService.
Hypothesis Hcache : has_cache self = true.

Lemma adapter_set_run key value ttl w :
  answering w ->
  exists w', adapter_set key value ttl w = (Return tt, w')
             /\ oracle w' = oracle w
             /\ cache_data w'
                = <[key := (value, Some (Z.max ttl 1))]> (cache_data w).
Proof.
  intros Hq. unfold adapter_set, adapter_call, bind, ask, modify, log, ret.
  cbn. rewrite Hq. cbn. eexists. repeat split.
Qed.

Lemma adapter_set_persistent_run key value w :
  answering w ->
  exists w', adapter_set_persistent key value w = (Return tt, w')
             /\ oracle w' = oracle w
             /\ cache_data w' = <[key := (value, None)]> (cache_data w).
Proof.
  intros Hq. unfold adapter_set_persistent, adapter_call, bind, ask, modify,
    log, ret. cbn. rewrite Hq. cbn. eexists. repeat split.
Qed.

Lemma adapter_delete_run key w :
  answering w ->
  exists w', adapter_delete key w = (Return tt, w')
             /\ oracle w' = oracle w
             /\ cache_data w' = delete key (cache_data w).
Proof.
  intros Hq. unfold adapter_delete, adapter_call, bind, ask, modify, log, ret.
  cbn. rewrite Hq. cbn. eexists. repeat split.
Qed.

Lemma shielded_run (call : M unit) w w' :
  call w = (Return tt, w') -> shielded self call w = (Return tt, w').
Proof. intros E. unfold shielded, catch. rewrite E. reflexivity. Qed.

Lemma cache_get_run key operation w :
  answering w ->
  exists w', _cache_get_bytes self key operation w
             = (Return (fst <$> cache_data w !! key), w')
             /\ oracle w' = oracle w /\ cache_data w' = cache_data w.
Proof.
  intros Hq. rewrite (PrecomputedLookup.cache_get_bytes_run self key operation w
                        Hcache (Hq _)).
  eexists. repeat split.
Qed.

(** Loading an index changes nothing. *)
Lemma load_index_run key operation w :
  answering w ->
  exists r w', _load_index self key operation w = (r, w')
               /\ oracle w' = oracle w /\ cache_data w' = cache_data w.
Proof.
  intros Hq. unfold _load_index.
  destruct (cache_get_run key operation w Hq) as (w1 & E1 & O1 & D1).
  rewrite (bind_return _ _ _ _ _ E1).
  destruct (nonempty_blob _) as [blob |]; [| eexists _, _; repeat split; eauto].
  destruct (CacheUtils.deserialize_payload blob) as [[] |];
    try solve [eexists _, _; repeat split; eauto].
  destruct (negb (fail_open self)); eexists _, _; repeat split; eauto.
Qed.

(** Writing an index changes the index key only. *)
Lemma write_precomputed_index_run config i ttl w :
  answering w ->
  exists r w', _write_precomputed_index config self i ttl w = (r, w')
               /\ frame [CacheUtils.build_precomputed_index_key] w w'.
Proof.
  intros Hq. unfold _write_precomputed_index. rewrite Hcache. cbn [negb].
  destruct (CacheUtils.serialize_payload (index_value i)) as [blob |].
  - unfold bind at 1. cbn [of_option ret].
    destruct (adapter_set_run CacheUtils.build_precomputed_index_key blob
                (if 0 <? ttl then ttl else GUEST_CACHE_TTL config) w Hq)
      as (w1 & E1 & O1 & D1).
    rewrite E1. eexists _, _. split; [reflexivity |]. split; [exact O1 |].
    intros k Hk. rewrite D1. apply lookup_insert_ne. intros <-. apply Hk. left.
  - eexists _, _. split; [reflexivity |]. apply frame_refl.
Qed.

Lemma write_canonical_index_run i w :
  answering w ->
  exists r w', _write_canonical_index self i w = (r, w')
               /\ frame [CacheUtils.build_canonical_index_key] w w'.
Proof.
  intros Hq. unfold _write_canonical_index. rewrite Hcache. cbn [negb].
  destruct (CacheUtils.serialize_payload (index_value i)) as [blob |].
  - unfold bind at 1. cbn [of_option ret].
    destruct (adapter_set_persistent_run CacheUtils.build_canonical_index_key
                blob w Hq) as (w1 & E1 & O1 & D1).
    rewrite (shielded_run _ _ _ E1).
    eexists _, _. split; [reflexivity |]. split; [exact O1 |].
    intros k Hk. rewrite D1. apply lookup_insert_ne. intros <-. apply Hk. left.
  - eexists _, _. split; [reflexivity |]. apply frame_refl.
Qed.

(** *** The lookup on a cache whose entries are known *)

Definition clean_slug (slug : string) : Prop :=
  Text.strip slug = slug /\ slug <> EmptyString.

Lemma slug_of_encode slug :
  clean_slug slug -> slug_of (Text.encode_utf8 slug) = Some (Slug slug).
Proof.
  intros [Hs _]. unfold slug_of.
  rewrite decode_encode_points, strip_points_points, narrow_points, Hs.
  reflexivity.
Qed.

Lemma encode_nonempty slug :
  slug <> EmptyString -> exists x r, Text.encode_utf8 slug = x :: r.
Proof.
  destruct slug as [| c s]; [congruence |]. intros _. cbn.
  destruct (Text.code c <? 128); eauto.
Qed.

Lemma lookup_canonical_hit query slug (blob : Text.bytes) t1 t2 response w :
  answering w -> clean_slug slug ->
  cache_data w !! CacheUtils.build_canonical_query_key query
  = Some (Text.encode_utf8 slug, t1) ->
  cache_data w !! CacheUtils.build_canonical_payload_key slug
  = Some (blob, t2) ->
  blob <> [] ->
  decode_response blob = Some response ->
  fst (get_precomputed_response self query w) = Return (Some response).
Proof.
  intros Hq Hslug Hk Hp Hne Hdec. unfold get_precomputed_response.
  rewrite Hcache. cbn [negb].
  rewrite CacheUtilsFacts.canonical_key_of_canonical.
  change ("guest:canonical:query:"
          +:+ Sha256.sha256_hex (CacheUtils.canonicalize_query query))
    with (CacheUtils.build_canonical_query_key query).
  destruct (cache_get_run (CacheUtils.build_canonical_query_key query)
              "canonical-index" w Hq) as (w1 & E1 & O1 & D1).
  rewrite (fst_bind_return _ _ _ _ _ E1). cbn beta.
  rewrite Hk. cbn [fmap option_fmap option_map fst].
  destruct (encode_nonempty slug (proj2 Hslug)) as (x & r & Ex).
  rewrite Ex. cbn [nonempty_blob]. rewrite <- Ex.
  rewrite (slug_of_encode slug Hslug).
  rewrite fst_bind_assoc, (fst_bind_return _ _ w1 (Slug slug) w1 eq_refl).
  cbn beta.
  destruct slug as [| c s]; [destruct Hslug; congruence |].
  cbn [slug_truthy Text.truthy _cache_get_payload].
  assert (answering w1) as Hq1 by (intros n; rewrite O1; apply Hq).
  destruct (cache_get_run
              (CacheUtils.build_canonical_payload_key (String c s))
              "canonical-fetch" w1 Hq1) as (w2 & E2 & O2 & D2).
  rewrite fst_bind_assoc, (fst_bind_return _ _ _ _ _ E2). cbn beta.
  rewrite D1, Hp. cbn [fmap option_fmap option_map fst].
  destruct blob as [| b bs]; [congruence |]. cbn [nonempty_blob].
  rewrite Hdec. reflexivity.
Qed.

Lemma lookup_precomputed_hit query slug (blob : Text.bytes) t1 t2 response w :
  answering w -> clean_slug slug ->
  cache_data w !! CacheUtils.build_canonical_query_key query = None ->
  cache_data w !! CacheUtils.build_precomputed_query_key query
  = Some (Text.encode_utf8 slug, t1) ->
  cache_data w !! CacheUtils.build_precomputed_payload_key slug
  = Some (blob, t2) ->
  blob <> [] ->
  decode_response blob = Some response ->
  fst (get_precomputed_response self query w) = Return (Some response).
Proof.
  intros Hq Hslug Hnone Hk Hp Hne Hdec. unfold get_precomputed_response.
  rewrite Hcache. cbn [negb].
  rewrite CacheUtilsFacts.canonical_key_of_canonical.
  change ("guest:canonical:query:"
          +:+ Sha256.sha256_hex (CacheUtils.canonicalize_query query))
    with (CacheUtils.build_canonical_query_key query).
  destruct (cache_get_run (CacheUtils.build_canonical_query_key query)
              "canonical-index" w Hq) as (w1 & E1 & O1 & D1).
  rewrite (fst_bind_return _ _ _ _ _ E1). cbn beta.
  rewrite Hnone. cbn [fmap option_fmap option_map nonempty_blob].
  rewrite fst_bind_ret. cbn beta iota.
  assert (answering w1) as Hq1 by (intros n; rewrite O1; apply Hq).
  destruct (cache_get_run (CacheUtils.build_precomputed_query_key query)
              "precomputed-index" w1 Hq1) as (w2 & E2 & O2 & D2).
  rewrite (fst_bind_return _ _ _ _ _ E2). cbn beta.
  rewrite D1, Hk. cbn [fmap option_fmap option_map fst].
  destruct (encode_nonempty slug (proj2 Hslug)) as (x & r & Ex).
  rewrite Ex. cbn [nonempty_blob]. rewrite <- Ex.
  rewrite (slug_of_encode slug Hslug). cbn [of_option].
  rewrite fst_bind_ret. cbn beta.
  destruct slug as [| c s]; [destruct Hslug; congruence |].
  cbn [slug_truthy Text.truthy negb _cache_get_payload].
  assert (answering w2) as Hq2 by (intros n; rewrite O2; apply Hq1).
  destruct (cache_get_run
              (CacheUtils.build_precomputed_payload_key (String c s))
              "precomputed-fetch" w2 Hq2) as (w3 & E3 & O3 & D3).
  rewrite (fst_bind_return _ _ _ _ _ E3). cbn beta.
  rewrite D2, D1, Hp. cbn [fmap option_fmap option_map fst].
  destruct blob as [| b bs]; [congruence |]. cbn [nonempty_blob].
  rewrite Hdec. reflexivity.
Qed.

Lemma lookup_miss query w :
  answering w ->
  cache_data w !! CacheUtils.build_canonical_query_key query = None ->
  cache_data w !! CacheUtils.build_precomputed_query_key query = None ->
  fst (get_precomputed_response self query w) = Return None.
Proof.
  intros Hq Hnone Hnone'. unfold get_precomputed_response.
  rewrite Hcache. cbn [negb].
  rewrite CacheUtilsFacts.canonical_key_of_canonical.
  change ("guest:canonical:query:"
          +:+ Sha256.sha256_hex (CacheUtils.canonicalize_query query))
    with (CacheUtils.build_canonical_query_key query).
  destruct (cache_get_run (CacheUtils.build_canonical_query_key query)
              "canonical-index" w Hq) as (w1 & E1 & O1 & D1).
  rewrite (fst_bind_return _ _ _ _ _ E1). cbn beta.
  rewrite Hnone. cbn [fmap option_fmap option_map nonempty_blob].
  rewrite fst_bind_ret. cbn beta iota.
  assert (answering w1) as Hq1 by (intros n; rewrite O1; apply Hq).
  destruct (cache_get_run (CacheUtils.build_precomputed_query_key query)
              "precomputed-index" w1 Hq1) as (w2 & E2 & O2 & D2).
  rewrite (fst_bind_return _ _ _ _ _ E2). cbn beta.
  rewrite D1, Hnone'. reflexivity.
Qed.

End runs.

(** *** Keys of the two tiers never meet *)

Lemma key_same_canonical q q' :
  CacheUtils.canonicalize_query q' = CacheUtils.canonicalize_query q ->
  CacheUtils.build_canonical_query_key q' = CacheUtils.build_canonical_query_key q
  /\ CacheUtils.build_precomputed_query_key q'
     = CacheUtils.build_precomputed_query_key q.
Proof.
  intros E. unfold CacheUtils.build_canonical_query_key,
    CacheUtils.build_precomputed_query_key. rewrite E. split; reflexivity.
Qed.

Lemma key_of_canonical q :
  CacheUtils.build_canonical_query_key (CacheUtils.canonicalize_query q)
  = CacheUtils.build_canonical_query_key q
  /\ CacheUtils.build_precomputed_query_key (CacheUtils.canonicalize_query q)
     = CacheUtils.build_precomputed_query_key q.
Proof.
  apply key_same_canonical, CacheUtilsFacts.canonicalize_query_idempotent.
Qed.

(** The character at a position tells two keys apart. *)
Ltac keys_differ n :=
  let H := fresh in
  intros H; apply (f_equal (String.get n)) in H; vm_compute in H;
  discriminate H.

Lemma canonical_query_key_not_index q :
  CacheUtils.build_canonical_query_key q <> CacheUtils.build_canonical_index_key.
Proof.
  unfold CacheUtils.build_canonical_query_key.
  generalize (Sha256.sha256_hex (CacheUtils.canonicalize_query q)).
  intros d. keys_differ 16%nat.
Qed.

Lemma precomputed_query_key_not_index q :
  CacheUtils.build_precomputed_query_key q
  <> CacheUtils.build_precomputed_index_key.
Proof.
  unfold CacheUtils.build_precomputed_query_key.
  generalize (Sha256.sha256_hex (CacheUtils.canonicalize_query q)).
  intros d. keys_differ 18%nat.
Qed.

Lemma precomputed_payload_not_canonical_query slug q :
  CacheUtils.build_precomputed_payload_key slug
  <> CacheUtils.build_canonical_query_key q.
Proof.
  unfold CacheUtils.build_canonical_query_key,
    CacheUtils.build_precomputed_payload_key.
  generalize (Sha256.sha256_hex (CacheUtils.canonicalize_query q)).
  intros d. keys_differ 6%nat.
Qed.

Lemma precomputed_query_not_canonical_query q q' :
  CacheUtils.build_precomputed_query_key q
  <> CacheUtils.build_canonical_query_key q'.
Proof.
  unfold CacheUtils.build_canonical_query_key,
    CacheUtils.build_precomputed_query_key.
  generalize (Sha256.sha256_hex (CacheUtils.canonicalize_query q)).
  generalize (Sha256.sha256_hex (CacheUtils.canonicalize_query q')).
  intros d d'. keys_differ 6%nat.
Qed.

Lemma precomputed_index_not_canonical_query q :
  CacheUtils.build_precomputed_index_key
  <> CacheUtils.build_canonical_query_key q.
Proof.
  unfold CacheUtils.build_canonical_query_key.
  generalize (Sha256.sha256_hex (CacheUtils.canonicalize_query q)).
  intros d. keys_differ 6%nat.
Qed.

Lemma canonical_index_not_precomputed_query q :
  CacheUtils.build_canonical_index_key
  <> CacheUtils.build_precomputed_query_key q.
Proof.
  unfold CacheUtils.build_precomputed_query_key.
  generalize (Sha256.sha256_hex (CacheUtils.canonicalize_query q)).
  intros d. keys_differ 6%nat.
Qed.

Lemma payload_key_index slug :
  (CacheUtils.build_canonical_payload_key slug
   = CacheUtils.build_canonical_index_key <-> slug = "index")
  /\ (CacheUtils.build_precomputed_payload_key slug
      = CacheUtils.build_precomputed_index_key <-> slug = "index").
Proof.
  unfold CacheUtils.build_canonical_payload_key,
    CacheUtils.build_precomputed_payload_key. split; split; intros H;
    try (subst slug; reflexivity).
  - repeat (rewrite append_cons in H; injection H as H).
    rewrite append_empty in H. exact H.
  - repeat (rewrite append_cons in H; injection H as H).
    rewrite append_empty in H. exact H.
Qed.

(** *** What the store calls leave in the cache *)

Definition sound_library (lib : Library) : Prop :=
  gzip_inverts lib /\ gzip_framed lib /\ float_round_trip lib.

(** The response prints as JSON and its dump validates to itself. *)
Definition storable {val : Validation} (response : SearchResponse) : Prop :=
  json_value (PDict (model_dump response)) = true
  /\ validate_response (model_dump response) = Some response.

Section stores.
Context {lib : Library} {val : Validation}.
Variable self : SearchService.
Hypothesis Hcache : has_cache self = true.

Lemma response_blob (response : SearchResponse) :
  sound_library lib -> storable response ->
  exists blob : Text.bytes,
    CacheUtils.serialize_payload (PDict (_dump_response response)) = Some blob
    /\ blob <> []
    /\ decode_response blob = Some response.
Proof.
  intros (Hgzip & Hframe & Hfloat) [Hjson Hval]. unfold _dump_response.
  destruct (dumps_total (PDict (model_dump response)) Hjson) as [s Hs].
  exists (gzip_compress (Text.encode_utf8 s)).
  unfold CacheUtils.serialize_payload. rewrite Hs. split; [reflexivity |]. split.
  - pose proof (Hframe (Text.encode_utf8 s)) as Hlen.
    destruct (gzip_compress (Text.encode_utf8 s)); [cbn in Hlen; lia | discriminate].
  - unfold decode_response, CacheUtils.deserialize_payload.
    rewrite Hgzip, decode_encode_utf8.
    rewrite (loads_dumps Hfloat _ s Hjson Hs). exact Hval.
Qed.

Lemma store_canonical_run slug query response (blob : Text.bytes) w :
  answering w ->
  CacheUtils.serialize_payload (PDict (_dump_response response)) = Some blob ->
  exists r w',
    store_canonical_response self slug query response w = (r, w')
    /\ oracle w' = oracle w
    /\ forall k, k <> CacheUtils.build_canonical_index_key ->
         cache_data w' !! k
         = <[CacheUtils.build_canonical_query_key
               (CacheUtils.canonicalize_query query)
             := (Text.encode_utf8 slug, None)]>
             (<[CacheUtils.build_canonical_payload_key slug := (blob, None)]>
                (cache_data w)) !! k.
Proof.
  intros Hq Hser. unfold store_canonical_response. rewrite Hcache. cbn [negb].
  rewrite Hser. unfold bind at 1. cbn [of_option ret].
  destruct (adapter_set_persistent_run
              (CacheUtils.build_canonical_payload_key slug) blob w Hq)
    as (w1 & E1 & O1 & D1).
  rewrite (bind_return _ _ _ _ _ (shielded_run self _ _ _ E1)).
  assert (answering w1) as Hq1 by (intros n; rewrite O1; apply Hq).
  destruct (adapter_set_persistent_run
              (CacheUtils.build_canonical_query_key
                 (CacheUtils.canonicalize_query query))
              (Text.encode_utf8 slug) w1 Hq1) as (w2 & E2 & O2 & D2).
  rewrite (bind_return _ _ _ _ _ (shielded_run self _ _ _ E2)).
  assert (answering w2) as Hq2 by (intros n; rewrite O2; apply Hq1).
  unfold _load_canonical_index.
  destruct (load_index_run self Hcache CacheUtils.build_canonical_index_key
              "canonical-index-load" w2 Hq2) as (r3 & w3 & E3 & O3 & D3).
  assert (cache_data w3
          = <[CacheUtils.build_canonical_query_key
                (CacheUtils.canonicalize_query query)
              := (Text.encode_utf8 slug, None)]>
              (<[CacheUtils.build_canonical_payload_key slug := (blob, None)]>
                 (cache_data w))) as Hdata by congruence.
  destruct r3 as [i | e].
  - rewrite (bind_return _ _ _ _ _ E3).
    assert (answering w3) as Hq3 by (intros n; rewrite O3; apply Hq2).
    destruct (write_canonical_index_run self Hcache
                (dict_set slug
                   {| entry_query := CacheUtils.canonicalize_query query;
                      entry_hash :=
                        CacheUtils.build_canonical_query_key
                          (CacheUtils.canonicalize_query query) |} i) w3 Hq3)
      as (r4 & w4 & E4 & O4 & D4).
    rewrite E4. eexists _, _. split; [reflexivity |].
    split; [congruence |]. intros k Hk. rewrite D4 by (apply not_in_singleton, Hk).
    rewrite Hdata. reflexivity.
  - rewrite (bind_raise _ _ _ _ _ E3). eexists _, _. split; [reflexivity |].
    split; [congruence |]. intros k _. rewrite Hdata. reflexivity.
Qed.

Lemma store_precomputed_run config slug query response ttl_seconds
    (blob : Text.bytes) w :
  answering w ->
  CacheUtils.serialize_payload (PDict (_dump_response response)) = Some blob ->
  exists t r w',
    store_precomputed_response config self slug query response ttl_seconds w
    = (r, w')
    /\ oracle w' = oracle w
    /\ forall k, k <> CacheUtils.build_precomputed_index_key ->
         cache_data w' !! k
         = <[CacheUtils.build_precomputed_query_key
               (CacheUtils.canonicalize_query query)
             := (Text.encode_utf8 slug, t)]>
             (<[CacheUtils.build_precomputed_payload_key slug := (blob, t)]>
                (cache_data w)) !! k.
Proof.
  intros Hq Hser. unfold store_precomputed_response. rewrite Hcache. cbn [negb].
  rewrite Hser. unfold bind at 1. cbn [of_option ret].
  set (ttl := match ttl_seconds with
              | Some t => if 0 <? t then t else GUEST_CACHE_TTL config
              | None => GUEST_CACHE_TTL config
              end).
  destruct (adapter_set_run
              (CacheUtils.build_precomputed_payload_key slug) blob ttl w Hq)
    as (w1 & E1 & O1 & D1).
  rewrite (bind_return _ _ _ _ _ E1).
  assert (answering w1) as Hq1 by (intros n; rewrite O1; apply Hq).
  destruct (adapter_set_run
              (CacheUtils.build_precomputed_query_key
                 (CacheUtils.canonicalize_query query))
              (Text.encode_utf8 slug) ttl w1 Hq1) as (w2 & E2 & O2 & D2).
  rewrite (bind_return _ _ _ _ _ E2).
  assert (answering w2) as Hq2 by (intros n; rewrite O2; apply Hq1).
  unfold _load_precomputed_index.
  destruct (load_index_run self Hcache CacheUtils.build_precomputed_index_key
              "precomputed-index-load" w2 Hq2) as (r3 & w3 & E3 & O3 & D3).
  assert (cache_data w3
          = <[CacheUtils.build_precomputed_query_key
                (CacheUtils.canonicalize_query query)
              := (Text.encode_utf8 slug, Some (Z.max ttl 1))]>
              (<[CacheUtils.build_precomputed_payload_key slug
                 := (blob, Some (Z.max ttl 1))]>
                 (cache_data w))) as Hdata by congruence.
  exists (Some (Z.max ttl 1)).
  destruct r3 as [i | e].
  - rewrite (bind_return _ _ _ _ _ E3).
    assert (answering w3) as Hq3 by (intros n; rewrite O3; apply Hq2).
    destruct (write_precomputed_index_run self Hcache config
                (dict_set slug
                   {| entry_query := CacheUtils.canonicalize_query query;
                      entry_hash :=
                        CacheUtils.build_precomputed_query_key
                          (CacheUtils.canonicalize_query query) |} i) ttl w3 Hq3)
      as (r4 & w4 & E4 & O4 & D4).
    rewrite E4. eexists _, _. split; [reflexivity |].
    split; [congruence |]. intros k Hk. rewrite D4 by (apply not_in_singleton, Hk).
    rewrite Hdata. reflexivity.
  - rewrite (bind_raise _ _ _ _ _ E3). eexists _, _. split; [reflexivity |].
    split; [congruence |]. intros k _. rewrite Hdata. reflexivity.
Qed.

Lemma canonical_store_lookup slug query response w query' :
  answering w -> sound_library lib -> storable response -> clean_slug slug ->
  slug <> "index" ->
  CacheUtils.build_canonical_payload_key slug
  <> CacheUtils.build_canonical_query_key query ->
  CacheUtils.canonicalize_query query' = CacheUtils.canonicalize_query query ->
  fst (get_precomputed_response self query'
         (snd (store_canonical_response self slug query response w)))
  = Return (Some response).
Proof.
  intros Hq Hlib Hresp Hslug Hidx Hkeys Hsame.
  destruct (response_blob response Hlib Hresp) as (blob & Hser & Hne & Hdec).
  destruct (store_canonical_run slug query response blob w Hq Hser)
    as (r & w' & E & O & D).
  rewrite E. cbn [snd].
  destruct (key_of_canonical query) as [Kc _]. rewrite Kc in D.
  destruct (key_same_canonical query query' Hsame) as [Kq _].
  apply (lookup_canonical_hit self Hcache query' slug blob None None).
  - intros n. rewrite O. apply Hq.
  - exact Hslug.
  - rewrite Kq, D by apply canonical_query_key_not_index.
    apply lookup_insert_eq.
  - rewrite D.
    + rewrite lookup_insert_ne by congruence. apply lookup_insert_eq.
    + intros H. apply payload_key_index in H. contradiction.
  - exact Hne.
  - exact Hdec.
Qed.

(** X14. A canonical entry is served.  After
    [store_canonical_response] has run against an adapter that answers,
    [get_precomputed_response] returns the stored response for every
    query with the same canonical form.  The slug has to be non-empty
    and free of surrounding white space (the lookup strips what it
    reads), must not be [index] (its payload key would be the key of
    the index, which is written last) and its payload key must not be
    the key of the query. *)
Theorem canonical_store_then_lookup (slug query : string)
    (response : SearchResponse) (w : World) (query' : string) :
  answering w -> sound_library lib -> storable response -> clean_slug slug ->
  slug <> "index" ->
  CacheUtils.build_canonical_payload_key slug
  <> CacheUtils.build_canonical_query_key query ->
  CacheUtils.canonicalize_query query' = CacheUtils.canonicalize_query query ->
  fst (get_precomputed_response self query'
         (snd (store_canonical_response self slug query response w)))
  = Return (Some response).
Proof. apply canonical_store_lookup. Qed.

(** X15. A precomputed entry is served when no canonical entry stands
    before it.  After [store_precomputed_response] has run against an
    adapter that answers, on a cache that holds no canonical slug for
    the query, [get_precomputed_response] returns the stored response
    for every query with the same canonical form, under the same
    conditions on the slug. *)
Theorem precomputed_store_then_lookup (config : Config) (slug query : string)
    (response : SearchResponse) (ttl_seconds : option Z) (w : World)
    (query' : string) :
  answering w -> sound_library lib -> storable response -> clean_slug slug ->
  slug <> "index" ->
  CacheUtils.build_precomputed_payload_key slug
  <> CacheUtils.build_precomputed_query_key query ->
  cache_data w !! CacheUtils.build_canonical_query_key query = None ->
  CacheUtils.canonicalize_query query' = CacheUtils.canonicalize_query query ->
  fst (get_precomputed_response self query'
         (snd (store_precomputed_response config self slug query response
                 ttl_seconds w)))
  = Return (Some response).
Proof.
  intros Hq Hlib Hresp Hslug Hidx Hkeys Hnone Hsame.
  destruct (response_blob response Hlib Hresp) as (blob & Hser & Hne & Hdec).
  destruct (store_precomputed_run config slug query response ttl_seconds blob
              w Hq Hser) as (t & r & w' & E & O & D).
  rewrite E. cbn [snd].
  destruct (key_of_canonical query) as [_ Kp]. rewrite Kp in D.
  destruct (key_same_canonical query query' Hsame) as [Kq Kq'].
  apply (lookup_precomputed_hit self Hcache query' slug blob t t).
  - intros n. rewrite O. apply Hq.
  - exact Hslug.
  - rewrite Kq, D.
    + rewrite !lookup_insert_ne; [exact Hnone | |].
      * apply precomputed_payload_not_canonical_query.
      * apply precomputed_query_not_canonical_query.
    + intros H. symmetry in H.
      exact (precomputed_index_not_canonical_query _ H).
  - rewrite Kq', D by apply precomputed_query_key_not_index.
    apply lookup_insert_eq.
  - rewrite D.
    + rewrite lookup_insert_ne by congruence. apply lookup_insert_eq.
    + intros H. apply payload_key_index in H. contradiction.
  - exact Hne.
  - exact Hdec.
Qed.

Lemma shielded_delete_run key w :
  answering w ->
  exists w', shielded self (adapter_delete key) w = (Return tt, w')
             /\ oracle w' = oracle w
             /\ cache_data w' = delete key (cache_data w).
Proof.
  intros Hq. destruct (adapter_delete_run key w Hq) as (w' & E & O & D).
  exists w'. split; [apply shielded_run, E | auto].
Qed.

Definition index_keys : list string :=
  [CacheUtils.build_precomputed_index_key; CacheUtils.build_canonical_index_key].

(** A delete that returns has removed the four keys and has written
    nothing but the two indexes. *)
Lemma delete_run config slug c r w :
  answering w ->
  fst (delete_precomputed_response config self slug (Some (String c r)) w)
  = Return true ->
  forall c' r',
    CacheUtils.canonicalize_query (String c r) = String c' r' ->
    exists w',
      snd (delete_precomputed_response config self slug (Some (String c r)) w)
      = w'
      /\ oracle w' = oracle w
      /\ forall k, k ∉ index_keys ->
           cache_data w' !! k
           = delete (CacheUtils.build_canonical_payload_key slug)
               (delete (CacheUtils.build_canonical_query_key (String c r))
                  (delete (CacheUtils.build_precomputed_query_key (String c r))
                     (delete (CacheUtils.build_precomputed_payload_key slug)
                        (cache_data w)))) !! k.
Proof.
  intros Hq Hret c' r' Hcanon. eexists. split; [reflexivity |].
  revert Hret. unfold delete_precomputed_response. rewrite Hcache. cbn [negb].
  unfold _load_precomputed_index, _load_canonical_index.
  destruct (load_index_run self Hcache CacheUtils.build_precomputed_index_key
              "precomputed-index-load" w Hq) as (r1 & w1 & E1 & O1 & D1).
  destruct r1 as [i |]; [rewrite (bind_return _ _ _ _ _ E1)
                        | rewrite (bind_raise _ _ _ _ _ E1); discriminate].
  assert (answering w1) as Hq1 by (intros n; rewrite O1; apply Hq).
  destruct (load_index_run self Hcache CacheUtils.build_canonical_index_key
              "canonical-index-load" w1 Hq1) as (r2 & w2 & E2 & O2 & D2).
  destruct r2 as [ci |]; [rewrite (bind_return _ _ _ _ _ E2)
                         | rewrite (bind_raise _ _ _ _ _ E2); discriminate].
  assert (answering w2) as Hq2 by (intros n; rewrite O2; apply Hq1).
  destruct (shielded_delete_run (CacheUtils.build_precomputed_payload_key slug)
              w2 Hq2) as (w3 & E3 & O3 & D3).
  rewrite (bind_return _ _ _ _ _ E3).
  assert (answering w3) as Hq3 by (intros n; rewrite O3; apply Hq2).
  rewrite Hcanon.
  destruct (shielded_delete_run
              (CacheUtils.build_precomputed_query_key (String c' r')) w3 Hq3)
    as (w4 & E4 & O4 & D4).
  assert (answering w4) as Hq4 by (intros n; rewrite O4; apply Hq3).
  destruct (shielded_delete_run
              (CacheUtils.build_canonical_query_key (String c' r')) w4 Hq4)
    as (w5 & E5 & O5 & D5).
  assert (answering w5) as Hq5 by (intros n; rewrite O5; apply Hq4).
  rewrite (bind_return _ _ w3 tt w5)
    by (rewrite (bind_return _ _ _ _ _ E4); exact E5).
  destruct (shielded_delete_run (CacheUtils.build_canonical_payload_key slug)
              w5 Hq5) as (w6 & E6 & O6 & D6).
  rewrite (bind_return _ _ _ _ _ E6).
  assert (answering w6) as Hq6 by (intros n; rewrite O6; apply Hq5).
  assert (cache_data w6
          = delete (CacheUtils.build_canonical_payload_key slug)
              (delete (CacheUtils.build_canonical_query_key (String c r))
                 (delete (CacheUtils.build_precomputed_query_key (String c r))
                    (delete (CacheUtils.build_precomputed_payload_key slug)
                       (cache_data w))))) as Hdata.
  { rewrite D6, D5, D4, D3, D2, D1. rewrite <- Hcanon.
    destruct (key_of_canonical (String c r)) as [-> ->]. reflexivity. }
  assert (exists r7 w7,
            (if bool_decide (is_Some (dict_get slug i))
             then _write_precomputed_index config self (dict_pop slug i)
                    (GUEST_CACHE_TTL config)
             else ret tt) w6 = (r7, w7)
            /\ frame index_keys w6 w7) as (r7 & w7 & E7 & F7).
  { destruct (bool_decide (is_Some (dict_get slug i))).
    - destruct (write_precomputed_index_run self Hcache config
                  (dict_pop slug i) (GUEST_CACHE_TTL config) w6 Hq6)
        as (r7 & w7 & E7 & F7).
      exists r7, w7. split; [exact E7 |].
      apply (frame_weaken [CacheUtils.build_precomputed_index_key]);
        [| exact F7].
      intros k Hk. apply list_elem_of_singleton in Hk. subst k. left.
    - eexists _, _. split; [reflexivity | apply frame_refl]. }
  destruct r7 as [[] |]; [rewrite (bind_return _ _ _ _ _ E7)
                         | rewrite (bind_raise _ _ _ _ _ E7); discriminate].
  assert (answering w7) as Hq7 by exact (frame_answering _ _ _ F7 Hq6).
  assert (exists r8 w8,
            (if bool_decide (is_Some (dict_get slug ci))
             then _write_canonical_index self (dict_pop slug ci)
             else ret tt) w7 = (r8, w8)
            /\ frame index_keys w7 w8) as (r8 & w8 & E8 & F8).
  { destruct (bool_decide (is_Some (dict_get slug ci))).
    - destruct (write_canonical_index_run self Hcache (dict_pop slug ci) w7 Hq7)
        as (r8 & w8 & E8 & F8).
      exists r8, w8. split; [exact E8 |].
      apply (frame_weaken [CacheUtils.build_canonical_index_key]); [| exact F8].
      intros k Hk. apply list_elem_of_singleton in Hk. subst k. right. left.
    - eexists _, _. split; [reflexivity | apply frame_refl]. }
  destruct r8 as [[] |]; [rewrite (bind_return _ _ _ _ _ E8)
                         | rewrite (bind_raise _ _ _ _ _ E8); discriminate].
  intros _. cbn [ret snd].
  destruct (frame_trans _ _ _ _ F7 F8) as [O78 D78].
  split; [congruence |]. intros k Hk. rewrite (D78 k Hk), Hdata. reflexivity.
Qed.

Lemma delete_lookup config slug c r w query' :
  answering w ->
  CacheUtils.canonicalize_query (String c r) <> EmptyString ->
  fst (delete_precomputed_response config self slug (Some (String c r)) w)
  = Return true ->
  CacheUtils.canonicalize_query query'
  = CacheUtils.canonicalize_query (String c r) ->
  fst (get_precomputed_response self query'
         (snd (delete_precomputed_response config self slug
                 (Some (String c r)) w)))
  = Return None.
Proof.
  intros Hq Hcanon Hret Hsame.
  destruct (CacheUtils.canonicalize_query (String c r)) as [| c' r'] eqn:Ec;
    [congruence |].
  destruct (delete_run config slug c r w Hq Hret c' r' Ec) as (w' & E & O & D).
  rewrite E.
  assert (CacheUtils.canonicalize_query query'
          = CacheUtils.canonicalize_query (String c r)) as Hsame'
    by congruence.
  destruct (key_same_canonical (String c r) query' Hsame') as [Kc Kp].
  apply (lookup_miss self Hcache).
  - intros n. rewrite O. apply Hq.
  - rewrite Kc, D.
    + apply lookup_delete_None. right. apply lookup_delete_None. left.
      reflexivity.
    + intros Hin. apply elem_of_cons in Hin as [Hin | Hin].
      * symmetry in Hin. exact (precomputed_index_not_canonical_query _ Hin).
      * apply list_elem_of_singleton in Hin.
        exact (canonical_query_key_not_index _ Hin).
  - rewrite Kp, D.
    + apply lookup_delete_None. right. apply lookup_delete_None. right.
      apply lookup_delete_None. left. reflexivity.
    + intros Hin. apply elem_of_cons in Hin as [Hin | Hin].
      * exact (precomputed_query_key_not_index _ Hin).
      * apply list_elem_of_singleton in Hin. symmetry in Hin.
        exact (canonical_index_not_precomputed_query _ Hin).
Qed.

(** X16. A deleted entry is gone from both tiers.  When
    [delete_precomputed_response], called with a query whose canonical
    form is not empty, returns against an adapter that answers,
    [get_precomputed_response] returns nothing for every query with
    that canonical form: neither the canonical nor the precomputed slug
    of the query is left. *)
Theorem delete_then_lookup_misses (config : Config) (slug query : string)
    (w : World) (query' : string) :
  answering w ->
  CacheUtils.canonicalize_query query <> EmptyString ->
  fst (delete_precomputed_response config self slug (Some query) w)
  = Return true ->
  CacheUtils.canonicalize_query query' = CacheUtils.canonicalize_query query ->
  fst (get_precomputed_response self query'
         (snd (delete_precomputed_response config self slug (Some query) w)))
  = Return None.
Proof.
  intros Hq Hcanon Hret Hsame.
  destruct query as [| c r]; [contradiction Hcanon; reflexivity |].
  exact (delete_lookup config slug c r w query' Hq Hcanon Hret Hsame).
Qed.

(** X17. What an administrator stores is served.  When
    [PUT /admin/cache/precomputed] returns, on a service with the cache
    enabled and an adapter that answers, [get_precomputed_response]
    returns the response of the request for every query with the
    canonical form of the request's query, under the same conditions on
    the slug. *)
Theorem upsert_then_lookup (config : Config)
    (payload : PrecomputedUpsertRequest) (w : World) (query' : string) :
  cache_enabled self = true ->
  answering w -> sound_library lib -> storable (up_response payload) ->
  clean_slug (up_slug payload) ->
  up_slug payload <> "index" ->
  CacheUtils.build_canonical_payload_key (up_slug payload)
  <> CacheUtils.build_canonical_query_key (up_query payload) ->
  fst (upsert_precomputed_cache config payload self w) = Return tt ->
  CacheUtils.canonicalize_query query'
  = CacheUtils.canonicalize_query (up_query payload) ->
  fst (get_precomputed_response self query'
         (snd (upsert_precomputed_cache config payload self w)))
  = Return (Some (up_response payload)).
Proof.
  intros Hen Hq Hlib Hresp Hslug Hidx Hkeys Hret Hsame.
  revert Hret. unfold upsert_precomputed_cache, _ensure_cache_enabled.
  rewrite Hen. cbn [negb]. rewrite (bind_return _ _ w tt w eq_refl).
  destruct (response_blob (up_response payload) Hlib Hresp)
    as (blob & Hser & _ & _).
  destruct (store_precomputed_run config (up_slug payload) (up_query payload)
              (up_response payload) (up_ttl_seconds payload) blob w Hq Hser)
    as (t & r1 & w1 & E1 & O1 & _).
  destruct r1 as [[] | e]; [rewrite (bind_return _ _ _ _ _ E1)
                           | rewrite (bind_raise _ _ _ _ _ E1); discriminate].
  intros _. apply canonical_store_lookup; try assumption.
  intros n. rewrite O1. apply Hq.
Qed.

End stores.

Import Sample SampleWorld Scenario.

Lemma sample_sound : sound_library sample_library.
Proof.
  split; [exact PayloadRoundTrip.sample_gzip_inverts |].
  split; [exact StoreLimit.sample_gzip_framed
         | exact PayloadRoundTrip.sample_float_round_trip].
Qed.

Lemma speaker_storable : storable speaker_response.
Proof. split; vm_compute; reflexivity. Qed.

Lemma speaker_slug : clean_slug "speaker".
Proof. split; [vm_compute; reflexivity | discriminate]. Qed.

Lemma empty_world_answering : answering empty_world.
Proof. intros n. reflexivity. Qed.

Lemma canonical_store_then_lookup_witness :
  fst (get_precomputed_response service "smart speaker"
         (snd (store_canonical_response service "speaker" "Smart  Speaker"
                 speaker_response empty_world)))
  = Return (Some speaker_response).
Proof.
  apply (canonical_store_then_lookup service eq_refl "speaker"
           "Smart  Speaker" speaker_response empty_world "smart speaker"
           empty_world_answering sample_sound speaker_storable speaker_slug).
  - discriminate.
  - keys_differ 16%nat.
  - vm_compute. reflexivity.
Defined.

Lemma precomputed_store_then_lookup_witness :
  fst (get_precomputed_response service "smart speaker"
         (snd (store_precomputed_response caching service "speaker"
                 "Smart  Speaker" speaker_response (Some 60) empty_world)))
  = Return (Some speaker_response).
Proof.
  apply (precomputed_store_then_lookup service eq_refl caching "speaker"
           "Smart  Speaker" speaker_response (Some 60) empty_world
           "smart speaker" empty_world_answering sample_sound speaker_storable
           speaker_slug).
  - discriminate.
  - keys_differ 18%nat.
  - vm_compute. reflexivity.
  - vm_compute. reflexivity.
Defined.

(** The request that stores the speaker response, and the world after
    the catalogue has taken it. *)
Definition speaker_upsert : PrecomputedUpsertRequest :=
  {| up_slug := "speaker"; up_query := "Smart  Speaker";
     up_response := speaker_response; up_ttl_seconds := None |}.

Definition stocked_world : World :=
  snd (upsert_precomputed_cache caching speaker_upsert service empty_world).

Lemma upsert_then_lookup_witness :
  fst (get_precomputed_response service "SMART SPEAKER" stocked_world)
  = Return (Some speaker_response).
Proof.
  apply (upsert_then_lookup service eq_refl caching speaker_upsert empty_world
           "SMART SPEAKER" eq_refl empty_world_answering sample_sound
           speaker_storable speaker_slug).
  - discriminate.
  - keys_differ 16%nat.
  - vm_compute. reflexivity.
  - vm_compute. reflexivity.
Defined.

Lemma delete_then_lookup_misses_witness :
  fst (get_precomputed_response service "smart speaker"
         (snd (delete_precomputed_response caching service "speaker"
                 (Some "Smart  Speaker") stocked_world)))
  = Return None.
Proof.
  apply (delete_then_lookup_misses service eq_refl caching "speaker"
           "Smart  Speaker" stocked_world "smart speaker").
  - intros n. reflexivity.
  - vm_compute. discriminate.
  - vm_compute. reflexivity.
  - vm_compute. reflexivity.
Defined.

End CatalogueFacts.

(* ===================================================================== *)
(** ** The catalogue indexes *)
(* ===================================================================== *)

Module CatalogueIndex.
Import PyVal Json JsonFacts DictFacts Runtime RuntimeFacts Schemas Config
  SearchService SearchServiceStore AdminEndpoints CatalogueFacts.
#[local] Open Scope run_scope.

(** An index as the loaders build it: distinct slugs, no empty query. *)
Definition well_formed (i : index) : Prop :=
  distinct (List.map fst i) = true
  /\ Forall (fun se => entry_query (snd se) <> EmptyString) i.

Lemma keys_dict_set {A} (k : string) (v : A) (d : list (string * A)) :
  List.map fst (dict_set k v d)
  = if existsb (String.eqb k) (List.map fst d)
    then List.map fst d else List.map fst d ++ [k].
Proof.
  induction d as [| [k2 v2] r IH]; [reflexivity |].
  cbn [dict_set List.map fst existsb].
  destruct (String.eqb k k2) eqn:E; cbn [orb List.map fst].
  - apply String.eqb_eq in E. subst k2. reflexivity.
  - rewrite IH. destruct (existsb (String.eqb k) (List.map fst r)); reflexivity.
Qed.

Lemma existsb_snoc (k k' : string) (l : list string) :
  existsb (String.eqb k) (l ++ [k']) = existsb (String.eqb k) l || String.eqb k k'.
Proof. rewrite existsb_app. cbn. rewrite orb_false_r. reflexivity. Qed.

Lemma distinct_snoc (l : list string) (k : string) :
  distinct l = true -> existsb (String.eqb k) l = false ->
  distinct (l ++ [k]) = true.
Proof.
  induction l as [| x r IH]; [reflexivity |].
  cbn [distinct existsb app]. intros [Hx Hr]%andb_prop [Hkx Hkr]%orb_false_elim.
  rewrite existsb_snoc, (IH Hr Hkr), andb_true_r.
  apply negb_true_iff in Hx. rewrite Hx. cbn [orb].
  rewrite String.eqb_sym, Hkx. reflexivity.
Qed.

Lemma dict_set_well_formed slug e (i : index) :
  well_formed i -> entry_query e <> EmptyString ->
  well_formed (dict_set slug e i).
Proof.
  intros [Hd Hq] He. split.
  - rewrite keys_dict_set.
    destruct (existsb (String.eqb slug) (List.map fst i)) eqn:E; [exact Hd |].
    apply distinct_snoc; assumption.
  - clear Hd. induction i as [| [k2 e2] r IH]; cbn [dict_set].
    + repeat constructor. exact He.
    + apply Forall_cons in Hq as [H2 Hr].
      destruct (String.eqb slug k2); constructor; auto.
Qed.

Lemma dict_pop_well_formed slug (i : index) :
  well_formed i -> well_formed (dict_pop slug i).
Proof.
  intros [Hd Hq]. induction i as [| [k2 e2] r IH]; [split; [reflexivity | constructor] |].
  cbn [List.map fst distinct] in Hd. apply andb_prop in Hd as [Hk Hr].
  apply Forall_cons in Hq as [H2 Hq].
  cbn [dict_pop]. destruct (String.eqb slug k2); [split; assumption |].
  destruct (IH Hr Hq) as [Hd' Hq']. split; [| constructor; assumption].
  cbn [List.map fst distinct]. rewrite Hd', andb_true_r.
  apply negb_true_iff in Hk. apply negb_true_iff.
  clear -Hk. induction r as [| [k3 e3] r IHr]; [reflexivity |].
  cbn [List.map fst existsb dict_pop] in *.
  apply orb_false_elim in Hk as [H3 Hr].
  destruct (String.eqb slug k3); [exact Hr |].
  cbn [List.map fst existsb]. rewrite H3. exact (IHr Hr).
Qed.

Section index.
Context {lib : Library} {val : Validation}.

Definition load_step (result : index) (se : string * pyval) : index :=
  match snd se with
  | PDict entry =>
      let query := py_str (get_or "query" (PStr "") entry) in
      let hash_key := py_str (get_or "hash" (PStr "") entry) in
      if Text.truthy query
      then dict_set (fst se)
             {| entry_query := query; entry_hash := hash_key |} result
      else result
  | _ => result
  end.

Lemma index_of_payload_fold items :
  index_of_payload items = fold_left load_step items [].
Proof. reflexivity. Qed.

(** Whatever the stored mapping holds, the loaded index is well formed. *)
Lemma index_of_payload_well_formed items :
  well_formed (index_of_payload items).
Proof.
  rewrite index_of_payload_fold.
  assert (well_formed ([] : index)) as Hnil by (split; [reflexivity | constructor]).
  revert Hnil. generalize ([] : index).
  induction items as [| [k v] r IH]; intros acc Hacc; [exact Hacc |].
  cbn [fold_left]. apply IH. unfold load_step. cbn [fst snd].
  destruct v; try exact Hacc.
  destruct (py_str (get_or "query" (PStr "") items)) as [| c q] eqn:E;
    [exact Hacc |].
  cbn [Text.truthy]. apply dict_set_well_formed; [exact Hacc | discriminate].
Qed.

(** A well-formed index is read back from its own dump. *)
Lemma index_of_payload_value (i : index) :
  well_formed i ->
  index_of_payload (List.map (fun se => (fst se, entry_value (snd se))) i) = i.
Proof.
  rewrite index_of_payload_fold.
  assert (forall rest acc,
            well_formed (acc ++ rest) ->
            fold_left load_step
              (List.map (fun se => (fst se, entry_value (snd se))) rest) acc
            = acc ++ rest) as Hgen.
  { induction rest as [| [k [q h]] r IH]; intros acc Hwf.
    - rewrite app_nil_r. reflexivity.
    - cbn [List.map fold_left fst snd].
      assert (load_step acc (k, entry_value {| entry_query := q; entry_hash := h |})
              = acc ++ [(k, {| entry_query := q; entry_hash := h |})]) as ->.
      { unfold load_step. cbn [snd fst entry_value entry_query entry_hash].
        change (get_or "query" (PStr "") [("query", PStr q); ("hash", PStr h)])
          with (PStr q).
        change (get_or "hash" (PStr "") [("query", PStr q); ("hash", PStr h)])
          with (PStr h).
        cbn [py_str].
        destruct Hwf as [Hd Hq].
        apply Forall_app in Hq as [_ Hq]. apply Forall_cons in Hq as [Hq _].
        cbn [snd entry_query] in Hq.
        destruct q as [| c q]; [congruence |]. cbn [Text.truthy].
        apply dict_set_fresh.
        rewrite List.map_app in Hd. cbn [List.map fst] in Hd.
        clear -Hd. induction acc as [| [k2 e2] acc IHacc]; [reflexivity |].
        cbn [List.map fst app distinct existsb] in *.
        apply andb_prop in Hd as [Hk Hd]. apply negb_true_iff in Hk.
        rewrite existsb_app in Hk. apply orb_false_elim in Hk as [_ Hk].
        cbn [existsb] in Hk. apply orb_false_elim in Hk as [Hk _].
        rewrite String.eqb_sym, Hk. exact (IHacc Hd). }
      rewrite IH; rewrite <- app_assoc; [reflexivity | exact Hwf]. }
  intros Hwf. exact (Hgen i [] Hwf).
Qed.

Lemma index_value_json (i : index) :
  distinct (List.map fst i) = true -> json_value (index_value i) = true.
Proof.
  intros Hd. unfold index_value. cbn [json_value].
  apply andb_true_iff. split.
  - rewrite List.map_map. rewrite (List.map_ext _ fst); [exact Hd |].
    intros se. reflexivity.
  - clear Hd. induction i as [| [k [q h]] r IH]; [reflexivity |].
    cbn [List.map snd]. rewrite IH. reflexivity.
Qed.

Variable self : SearchService.
Hypothesis Hcache : has_cache self = true.

Lemma load_index_well_formed key operation w i :
  fst (_load_index self key operation w) = Return i -> well_formed i.
Proof.
  assert (well_formed ([] : index)) as Hnil by (split; [reflexivity | constructor]).
  unfold _load_index, bind.
  destruct (_cache_get_bytes self key operation w) as [[raw | e] w1];
    [| discriminate].
  destruct (nonempty_blob raw) as [blob |]; [| intros [= <-]; exact Hnil].
  destruct (CacheUtils.deserialize_payload blob) as [[] |];
    try (intros [= <-]; exact Hnil).
  - intros [= <-]. apply index_of_payload_well_formed.
  - destruct (negb (fail_open self)); [discriminate | intros [= <-]; exact Hnil].
Qed.

Lemma load_written_index key operation (blob : Text.bytes) t (i : index) w :
  answering w -> sound_library lib -> well_formed i ->
  CacheUtils.serialize_payload (index_value i) = Some blob ->
  cache_data w !! key = Some (blob, t) ->
  fst (_load_index self key operation w) = Return i.
Proof.
  intros Hq (Hgzip & Hframe & Hfloat) Hwf Hser Hdata. unfold _load_index.
  destruct (cache_get_run self Hcache key operation w Hq) as (w1 & E1 & _ & _).
  rewrite (fst_bind_return _ _ _ _ _ E1), Hdata.
  cbn [fmap option_fmap option_map fst].
  unfold CacheUtils.serialize_payload in Hser.
  destruct (dumps false false (index_value i)) as [text |] eqn:Etext;
    [| discriminate].
  injection Hser as <-.
  pose proof (Hframe (Text.encode_utf8 text)) as Hlen.
  destruct (gzip_compress (Text.encode_utf8 text)) as [| b bs] eqn:Eblob;
    [cbn in Hlen; lia |].
  cbn [nonempty_blob]. rewrite <- Eblob.
  unfold CacheUtils.deserialize_payload. rewrite Hgzip, decode_encode_utf8.
  rewrite (loads_dumps Hfloat _ text
             (index_value_json i (proj1 Hwf)) Etext).
  unfold index_value. cbn [ret fst]. rewrite (index_of_payload_value i Hwf).
  reflexivity.
Qed.

(** The entry that a store writes for a slug. *)
Definition canonical_entry (query : string) : index_entry :=
  {| entry_query := CacheUtils.canonicalize_query query;
     entry_hash := CacheUtils.build_canonical_query_key
                     (CacheUtils.canonicalize_query query) |}.

(** A canonical store that returns has left, under the index key, the
    dump of a well-formed index that holds the entry of the slug. *)
Lemma store_canonical_index slug query response w :
  answering w ->
  CacheUtils.canonicalize_query query <> EmptyString ->
  fst (store_canonical_response self slug query response w) = Return tt ->
  exists (i : index) (blob : Text.bytes),
    well_formed i
    /\ dict_get slug i = Some (canonical_entry query)
    /\ CacheUtils.serialize_payload (index_value i) = Some blob
    /\ cache_data (snd (store_canonical_response self slug query response w))
         !! CacheUtils.build_canonical_index_key = Some (blob, None)
    /\ oracle (snd (store_canonical_response self slug query response w))
       = oracle w.
Proof.
  intros Hq Hcanon. unfold store_canonical_response. rewrite Hcache. cbn [negb].
  destruct (CacheUtils.serialize_payload (PDict (_dump_response response)))
    as [payload |]; [| discriminate].
  cbn [of_option]. rewrite bind_ret.
  destruct (adapter_set_persistent_run
              (CacheUtils.build_canonical_payload_key slug) payload w Hq)
    as (w1 & E1 & O1 & D1).
  rewrite (bind_return _ _ _ _ _ (shielded_run self _ _ _ E1)).
  assert (answering w1) as Hq1 by (intros n; rewrite O1; apply Hq).
  destruct (adapter_set_persistent_run
              (CacheUtils.build_canonical_query_key
                 (CacheUtils.canonicalize_query query))
              (Text.encode_utf8 slug) w1 Hq1) as (w2 & E2 & O2 & D2).
  rewrite (bind_return _ _ _ _ _ (shielded_run self _ _ _ E2)).
  assert (answering w2) as Hq2 by (intros n; rewrite O2; apply Hq1).
  unfold _load_canonical_index.
  destruct (load_index_run self Hcache CacheUtils.build_canonical_index_key
              "canonical-index-load" w2 Hq2) as (r3 & w3 & E3 & O3 & D3).
  destruct r3 as [i | e]; [| rewrite (bind_raise _ _ _ _ _ E3); discriminate].
  assert (well_formed i) as Hwf.
  { apply (load_index_well_formed CacheUtils.build_canonical_index_key
             "canonical-index-load" w2). rewrite E3. reflexivity. }
  rewrite (bind_return _ _ _ _ _ E3).
  fold (canonical_entry query).
  assert (answering w3) as Hq3 by (intros n; rewrite O3; apply Hq2).
  unfold _write_canonical_index. rewrite Hcache. cbn [negb].
  destruct (CacheUtils.serialize_payload
              (index_value (dict_set slug (canonical_entry query) i)))
    as [blob |] eqn:Eblob; [| discriminate].
  cbn [of_option]. rewrite bind_ret.
  destruct (adapter_set_persistent_run CacheUtils.build_canonical_index_key
              blob w3 Hq3) as (w4 & E4 & O4 & D4).
  rewrite (shielded_run self _ _ _ E4). cbn [fst snd]. intros _.
  exists (dict_set slug (canonical_entry query) i), blob.
  split; [apply dict_set_well_formed; [exact Hwf | exact Hcanon] |].
  split; [rewrite dict_get_set, String.eqb_refl; reflexivity |].
  split; [exact Eblob |].
  split; [rewrite D4; apply lookup_insert_eq | congruence].
Qed.

(** X18. What is stored is listed.  When [store_canonical_response]
    returns, for a query whose canonical form is not empty and against
    an adapter that answers, a [list_precomputed_responses] that
    returns shows the slug with the canonical query and with the key
    under which the slug is kept. *)
Theorem stored_slug_is_listed (slug query : string)
    (response : SearchResponse) (w : World) (listing : index) :
  answering w -> sound_library lib ->
  CacheUtils.canonicalize_query query <> EmptyString ->
  fst (store_canonical_response self slug query response w) = Return tt ->
  fst (list_precomputed_responses self
         (snd (store_canonical_response self slug query response w)))
  = Return listing ->
  dict_get slug listing = Some (canonical_entry query).
Proof.
  intros Hq Hlib Hcanon Hret.
  destruct (store_canonical_index slug query response w Hq Hcanon Hret)
    as (i & blob & Hwf & Hget & Hser & Hdata & O).
  set (w' := snd (store_canonical_response self slug query response w)) in *.
  assert (answering w') as Hq' by (intros n; rewrite O; apply Hq).
  unfold list_precomputed_responses. rewrite Hcache. cbn [negb].
  unfold _load_precomputed_index, _load_canonical_index.
  destruct (load_index_run self Hcache CacheUtils.build_precomputed_index_key
              "precomputed-index-load" w' Hq') as (r1 & w1 & E1 & O1 & D1).
  destruct r1 as [ttl_index | e];
    [| rewrite (bind_raise _ _ _ _ _ E1); discriminate].
  rewrite (bind_return _ _ _ _ _ E1).
  assert (answering w1) as Hq1 by (intros n; rewrite O1; apply Hq').
  pose proof (load_written_index CacheUtils.build_canonical_index_key
                "canonical-index-load" blob None i w1 Hq1 Hlib Hwf Hser)
    as Hload.
  rewrite D1 in Hload. specialize (Hload Hdata).
  destruct (_load_index self CacheUtils.build_canonical_index_key
              "canonical-index-load" w1) as [r2 w2] eqn:E2.
  cbn [fst] in Hload. subst r2.
  rewrite (bind_return _ _ _ _ _ E2). cbn [ret fst]. intros [= <-].
  rewrite (dict_get_update slug i (proj1 Hwf)), Hget. reflexivity.
Qed.

End index.

Import Sample SampleWorld Scenario.

Lemma stored_slug_is_listed_witness :
  exists listing,
    fst (list_precomputed_responses service
           (snd (store_canonical_response service "speaker" "Smart  Speaker"
                   speaker_response empty_world)))
    = Return listing
    /\ dict_get "speaker" listing = Some (canonical_entry "Smart  Speaker").
Proof.
  eexists. split; [vm_compute; reflexivity |].
  apply (stored_slug_is_listed service eq_refl "speaker" "Smart  Speaker"
           speaker_response empty_world _ empty_world_answering sample_sound).
  - vm_compute. discriminate.
  - vm_compute. reflexivity.
  - vm_compute. reflexivity.
Defined.

End CatalogueIndex.

(* ===================================================================== *)
(** ** A background job keeps to its own state *)
(* ===================================================================== *)

Module JobFootprint.
Import PyVal Json Runtime RuntimeFacts Schemas Config SearchService SearchEndpoints.
#[local] Open Scope run_scope.

(** What a job on the hash [h] that caches under [key] may change: the
    record of [h], the events of [h], the cache entry of [key], the
    call counter and the ghost history; nothing else. *)
Definition footprint (h : string) (key : option string) (w w' : World) : Prop :=
  oracle w' = oracle w
  /\ background w' = background w
  /\ (forall h', h' <> h -> jobs w' !! h' = jobs w !! h')
  /\ (forall h', h' <> h -> mem_timelines w' !! h' = mem_timelines w !! h')
  /\ (forall k, Some k <> key -> cache_data w' !! k = cache_data w !! k).

(** Every run of [m] stays within the relation [R]. *)
Definition within (R : World -> World -> Prop) {A} (m : M A) : Prop :=
  forall w, R w (snd (m w)).

Section rules.
Variable h : string.
Variable key : option string.
#[local] Abbreviation R := (footprint h key).

Lemma footprint_refl w : R w w.
Proof. repeat split. Qed.

Lemma footprint_trans w1 w2 w3 : R w1 w2 -> R w2 w3 -> R w1 w3.
Proof.
  intros (O1 & B1 & J1 & T1 & C1) (O2 & B2 & J2 & T2 & C2).
  repeat split; try congruence.
  - intros h' Hne. rewrite (J2 h' Hne). apply J1, Hne.
  - intros h' Hne. rewrite (T2 h' Hne). apply T1, Hne.
  - intros k Hne. rewrite (C2 k Hne). apply C1, Hne.
Qed.

Lemma within_ret {A} (a : A) : within R (ret a).
Proof. intros w. apply footprint_refl. Qed.

Lemma within_raise {A} (e : exn) : within R (@raise A e).
Proof. intros w. apply footprint_refl. Qed.

Lemma within_gets {A} (f : World -> A) : within R (gets f).
Proof. intros w. apply footprint_refl. Qed.

Lemma within_ask {A} (f : Oracle -> nat -> A) : within R (ask f).
Proof. intros w. repeat split. Qed.

Lemma within_log (a : action) : within R (log a).
Proof. intros w. repeat split. Qed.

Lemma within_of_option {A} (o : option A) (e : exn) : within R (of_option o e).
Proof. destruct o; [apply within_ret | apply within_raise]. Qed.

Lemma within_bind {A B} (m : M A) (k : A -> M B) :
  within R m -> (forall a, within R (k a)) -> within R (bind m k).
Proof.
  intros Hm Hk w. unfold bind. pose proof (Hm w) as H1.
  destruct (m w) as [[a | e] w1]; cbn [snd] in *; [| exact H1].
  exact (footprint_trans _ _ _ H1 (Hk a w1)).
Qed.

Lemma within_bind_ret {A B} (a : A) (k : A -> M B) :
  within R (k a) -> within R (bind (ret a) k).
Proof. intros H w. exact (H w). Qed.

Lemma within_catch {A} (m : M A) (handler : exn -> M A) :
  within R m -> (forall e, within R (handler e)) -> within R (catch m handler).
Proof.
  intros Hm Hh w. unfold catch. pose proof (Hm w) as H1.
  destruct (m w) as [[a | e] w1]; cbn [snd] in *; [exact H1 |].
  exact (footprint_trans _ _ _ H1 (Hh e w1)).
Qed.

Lemma within_modify_cache key' f :
  Some key' = key ->
  (forall data k, k <> key' -> f data !! k = data !! k) ->
  within R (modify (with_cache f)).
Proof.
  intros Hk Hf w. repeat split. intros k Hne. cbn. apply Hf. congruence.
Qed.

Lemma within_modify_jobs :
  forall j : World -> gmap string SearchJobs.JobRecord,
  (forall w h', h' <> h -> j w !! h' = jobs w !! h') ->
  within R (modify (fun w => with_jobs (j w) w)).
Proof. intros j Hj w. repeat split. intros h' Hne. cbn. apply Hj, Hne. Qed.

Lemma within_modify_timelines :
  forall t : World -> gmap string (list Timeline.TimelineEvent),
  (forall w h', h' <> h -> t w !! h' = mem_timelines w !! h') ->
  within R (modify (fun w => with_timelines (t w) w)).
Proof. intros t Ht w. repeat split. intros h' Hne. cbn. apply Ht, Hne. Qed.

End rules.

Ltac within_step :=
  lazymatch goal with
  | |- within _ (bind _ _) => apply within_bind; [| intros ?]
  | |- within _ (catch _ _) => apply within_catch; [| intros ?]
  | |- within _ (ret _) => apply within_ret
  | |- within _ (raise _) => apply within_raise
  | |- within _ (gets _) => apply within_gets
  | |- within _ (ask _) => apply within_ask
  | |- within _ (log _) => apply within_log
  | |- within _ (of_option _ _) => apply within_of_option
  | |- within _ (if ?b then _ else _) => destruct b
  | |- within _ (match ?x with _ => _ end) => destruct x
  end.

Section operations.
Context {lib : Library} {val : Validation}.
Variable h : string.
Variable key : option string.
#[local] Abbreviation R := (footprint h key).

Lemma within_adapter_call op : within R (adapter_call op).
Proof. unfold adapter_call. repeat within_step. Qed.

Lemma within_adapter_get k : within R (adapter_get k).
Proof.
  unfold adapter_get. within_step; [apply within_adapter_call |].
  repeat within_step.
Qed.

Lemma within_adapter_set k v ttl :
  Some k = key -> within R (adapter_set k v ttl).
Proof.
  intros Hk. unfold adapter_set. within_step; [apply within_adapter_call |].
  within_step; [| within_step].
  apply (within_modify_cache h key k); [exact Hk |].
  intros data k' Hne. apply lookup_insert_ne. congruence.
Qed.

Lemma within_mark_completed res : within R (Runtime.mark_completed h res).
Proof.
  unfold Runtime.mark_completed. within_step; [within_step |].
  intros w. unfold bind, gets. cbn [fst snd].
  unfold SearchJobs.mark_completed. cbn.
  repeat split. intros h' Hne. cbn. apply lookup_insert_ne. congruence.
Qed.

Lemma within_mark_failed err : within R (Runtime.mark_failed h err).
Proof.
  unfold Runtime.mark_failed. within_step; [within_step |].
  intros w. unfold bind, gets. cbn [fst snd].
  unfold SearchJobs.mark_failed. cbn.
  repeat split. intros h' Hne. cbn. apply lookup_insert_ne. congruence.
Qed.

Lemma timeline_publish_elsewhere reply uuid now_iso now_millis stp pl scrubber
    eid (store : gmap string (list Timeline.TimelineEvent)) h' :
  h' <> h ->
  fst (Timeline.publish_timeline_event reply uuid now_iso now_millis h stp pl
         scrubber eid store) !! h' = store !! h'.
Proof.
  intros Hne. unfold Timeline.publish_timeline_event.
  destruct reply as [| entry |].
  - cbn. apply lookup_insert_ne. congruence.
  - destruct (Timeline._parse_stream_id entry). reflexivity.
  - cbn. apply lookup_insert_ne. congruence.
Qed.

Lemma within_publish is_r step pl :
  within R (Runtime.publish_timeline_event is_r h step pl).
Proof.
  unfold Runtime.publish_timeline_event. within_step; [within_step |].
  destruct (p_fault a); [within_step |].
  intros w. unfold bind, gets. cbn [fst snd].
  destruct (Timeline.publish_timeline_event _ _ _ _ _ _ _ _ _ _)
    as [store' ev] eqn:E.
  cbn. repeat split. intros h' Hne. cbn.
  change store' with (fst (store', ev)). rewrite <- E.
  apply timeline_publish_elsewhere, Hne.
Qed.

Variable self : SearchService.

Lemma within_emit step pl : within R (_emit_timeline_event self (Some h) step pl).
Proof.
  assert (forall q, q = h ->
            within R (_emit_timeline_event self (Some q) step pl)) as Hgen.
  { intros q Hq. unfold _emit_timeline_event.
    destruct q as [| c r]; [within_step |]. rewrite Hq.
    within_step; [| within_step].
    within_step; [apply within_publish | within_step]. }
  exact (Hgen h eq_refl).
Qed.

Lemma within_cache_get_bytes k op : within R (_cache_get_bytes self k op).
Proof.
  unfold _cache_get_bytes. repeat (first [apply within_adapter_get | within_step]).
Qed.

Lemma within_cache_get_payload build build_points s op :
  within R (_cache_get_payload self build build_points s op).
Proof.
  unfold _cache_get_payload, adapter_get_foreign.
  repeat (first [apply within_cache_get_bytes | apply within_adapter_call
                | within_step]).
Qed.

Lemma within_get_cached k scope : within R (_get_cached_response self k scope).
Proof.
  unfold _get_cached_response.
  repeat (first [apply within_adapter_get | within_step]).
Qed.

Lemma within_store_cached k r ttl scope :
  Some k = key -> within R (_store_cached_response self k r ttl scope).
Proof.
  intros Hk. unfold _store_cached_response.
  repeat (first [apply within_adapter_set; exact Hk | within_step]).
Qed.

Lemma within_get_precomputed q : within R (get_precomputed_response self q).
Proof.
  unfold get_precomputed_response.
  repeat (first [apply within_cache_get_bytes | apply within_cache_get_payload
                | within_step]).
Qed.

Lemma within_engine q k r :
  within R (SearchEngine.hybrid_search q k r
              (Some (_emit_timeline_event self (Some h)))).
Proof.
  unfold SearchEngine.hybrid_search, ask_embedding, ask_warehouse.
  repeat (first [apply within_emit | within_step]).
Qed.

Lemma within_for_each {A} (f : A -> M unit) l :
  (forall x, within R (f x)) -> within R (RagPipeline.for_each f l).
Proof.
  intros Hf. induction l as [| x r IH]; cbn [RagPipeline.for_each].
  - within_step.
  - within_step; [apply Hf | exact IH].
Qed.

Lemma within_pipeline q ps :
  within R (RagPipeline.generate_batch_explanations q ps
              (_emit_timeline_event self (Some h))).
Proof.
  unfold RagPipeline.generate_batch_explanations, ask_analysis.
  within_step; [within_step |]. destruct a as [events ending].
  within_step.
  - apply within_for_each. intros x. apply within_emit.
  - repeat within_step.
Qed.

Lemma within_finalize response summary : within R (finalize h response summary).
Proof.
  unfold finalize. within_step; [apply within_mark_completed | within_step].
Qed.

End operations.

Section job.
Context {lib : Library} {val : Validation}.

Ltac job_step h key self :=
  first [ apply (within_emit h key self)
        | apply (within_get_cached h key self)
        | apply (within_get_precomputed h key self)
        | apply (within_engine h key self)
        | apply (within_pipeline h key self)
        | apply (within_finalize h key)
        | apply (within_mark_completed h key)
        | apply (within_mark_failed h key)
        | apply (within_store_cached h key self); reflexivity
        | within_step ].

Lemma search_products_footprint self query h products_k reviews_per_product
    cache_ttl fingerprint_extra cache_scope bypass_cache flag :
  within (footprint h (CacheUtils.build_response_cache_key (schema_version self)
                         query products_k reviews_per_product fingerprint_extra))
    (search_products self query (Some h) products_k reviews_per_product
       cache_ttl fingerprint_extra cache_scope bypass_cache
       (Some (finalize h)) flag).
Proof.
  unfold search_products, _require_pipeline, call_hook.
  within_step; [within_step |].
  destruct (CacheUtils.build_response_cache_key (schema_version self) query
              products_k reviews_per_product fingerprint_extra) as [ck |];
    cbn [of_option]; [| intros w; repeat split].
  apply within_bind_ret.
  repeat job_step h (Some ck) self.
Qed.

(** X19. A background job keeps to its own hash and its own cache
    key.  Whatever the cache, the timeline, the warehouse and the
    analysis do, a run of [_execute_search_job] leaves the records of
    all other hashes, the events of all other hashes and every cache
    entry but the one under the response key of the task as they were,
    and schedules no task. *)
Theorem job_keeps_to_its_hash (self : SearchService) (task : search_task)
    (w : World) :
  footprint (t_query_hash task)
    (CacheUtils.build_response_cache_key (schema_version self) (t_query task)
       (t_products_k task) (t_reviews_per_product task)
       (Some (t_fingerprint_extra task)))
    w (snd (_execute_search_job self task w)).
Proof.
  revert w.
  change (within (footprint (t_query_hash task)
                    (CacheUtils.build_response_cache_key (schema_version self)
                       (t_query task) (t_products_k task)
                       (t_reviews_per_product task)
                       (Some (t_fingerprint_extra task))))
            (_execute_search_job self task)).
  set (h := t_query_hash task).
  set (key := CacheUtils.build_response_cache_key _ _ _ _ _).
  unfold _execute_search_job. fold h.
  within_step.
  - within_step; [apply (within_get_precomputed h key self) |].
    destruct (if negb (t_bypass_cache task) then a else None) as [found |].
    + repeat job_step h key self.
    + within_step; [apply search_products_footprint | within_step].
  - within_step; [apply (within_mark_failed h key) | within_step].
Qed.

End job.

End JobFootprint.

(* ===================================================================== *)
(** ** A background job ends completed or failed *)
(* ===================================================================== *)

Module JobOutcome.
Import PyVal Json Runtime RuntimeFacts Schemas Config SearchService SearchEndpoints.
#[local] Open Scope run_scope.

(** The registry holds [h] as completed, with a result and no error. *)
Definition completed (h : string) (w : World) : Prop :=
  exists r, jobs w !! h = Some r
            /\ SearchJobs.status r = "completed"
            /\ is_Some (SearchJobs.result r)
            /\ SearchJobs.error r = None.

(** The registry holds [h] as failed, with an error. *)
Definition failed (h : string) (w : World) : Prop :=
  exists r, jobs w !! h = Some r
            /\ SearchJobs.status r = "failed"
            /\ is_Some (SearchJobs.error r).

(** Whenever [m] returns, [Q] holds of the world it leaves. *)
Definition ends (Q : World -> Prop) {A} (m : M A) : Prop :=
  forall w a w', m w = (Return a, w') -> Q w'.

Lemma ends_raise Q {A} (e : exn) : ends Q (@raise A e).
Proof. intros w a w' H. discriminate. Qed.

Lemma ends_bind Q {A B} (m : M A) (k : A -> M B) :
  (forall a, ends Q (k a)) -> ends Q (bind m k).
Proof.
  intros Hk w b w'. unfold bind.
  destruct (m w) as [[a | e] w1]; [apply Hk | discriminate].
Qed.

Lemma ends_then_ret Q {A B} (m : M A) (b : B) :
  ends Q m -> ends Q (bind m (fun _ => ret b)).
Proof.
  intros Hm w x w'. unfold bind.
  destruct (m w) as [[a | e] w1] eqn:E; [| discriminate].
  intros [= _ <-]. exact (Hm w a w1 E).
Qed.

Section job.
Context {lib : Library} {val : Validation}.
Variable self : SearchService.
Variable h : string.

Lemma emit_keeps_jobs qh step pl w :
  exists w', _emit_timeline_event self qh step pl w = (Return tt, w')
             /\ jobs w' = jobs w.
Proof.
  unfold _emit_timeline_event.
  destruct qh as [[| c r] |]; try (eexists; split; reflexivity).
  unfold catch, bind, publish_timeline_event, ask, gets, modify, log, ret, raise.
  cbn. destruct (publish_fault (oracle w) (tick w)); cbn.
  - eexists; split; reflexivity.
  - destruct (Timeline.publish_timeline_event _ _ _ _ _ _ _ _ _ _)
      as [store ev]. cbn. eexists; split; reflexivity.
Qed.

Lemma mark_completed_completes res w :
  exists record w',
    Runtime.mark_completed h res w = (Return record, w') /\ completed h w'.
Proof.
  unfold Runtime.mark_completed, bind, ask, gets, modify, log, ret.
  cbn. eexists _, _. split; [reflexivity |].
  eexists. cbn. split; [apply lookup_insert_eq |].
  cbn. repeat split. eexists. reflexivity.
Qed.

Lemma mark_failed_fails err w :
  exists record w',
    Runtime.mark_failed h err w = (Return record, w') /\ failed h w'.
Proof.
  unfold Runtime.mark_failed, bind, ask, gets, modify, log, ret.
  cbn. eexists _, _. split; [reflexivity |].
  eexists. cbn. split; [apply lookup_insert_eq |].
  cbn. repeat split. eexists. reflexivity.
Qed.

Lemma completed_after_emit qh step pl w :
  completed h w ->
  completed h (snd (_emit_timeline_event self qh step pl w)).
Proof.
  intros (r & Hr & Hs). destruct (emit_keeps_jobs qh step pl w) as (w' & E & J).
  rewrite E. cbn [snd]. exists r. rewrite J. auto.
Qed.

(** The end of a search: the hook marks the job, the completion event
    follows. *)
Lemma hook_ends_completed {A} (response : SearchResponse) (summary : pyval)
    (pl : option pyval) (x : A) :
  ends (completed h)
    (call_hook (Some (finalize h)) response summary ;;
     _emit_timeline_event self (Some h) "response.completed" pl ;;
     ret x).
Proof.
  intros w a w'. cbn [call_hook]. unfold finalize.
  destruct (mark_completed_completes (_dump_response response) w)
    as (record & w1 & E1 & Hc).
  rewrite (bind_return _ _ w tt w1)
    by (rewrite (bind_return _ _ _ _ _ E1); reflexivity).
  pose proof (completed_after_emit (Some h) "response.completed" pl w1 Hc) as H2.
  destruct (emit_keeps_jobs (Some h) "response.completed" pl w1)
    as (w2 & E2 & _).
  rewrite E2 in H2. rewrite (bind_return _ _ _ _ _ E2).
  intros [= _ <-]. exact H2.
Qed.

(** The end of a precomputed hit. *)
Lemma marked_ends_completed (res : list (string * pyval)) (key : option string)
    (pl : string -> option pyval) :
  ends (completed h)
    (Runtime.mark_completed h res ;;
     cache_key <- of_option key EncodeError ;;
     _emit_timeline_event self (Some h) "response.completed" (pl cache_key) ;;
     ret tt).
Proof.
  intros w a w'.
  destruct (mark_completed_completes res w) as (record & w1 & E1 & Hc).
  rewrite (bind_return _ _ _ _ _ E1).
  destruct key as [k |]; cbn [of_option].
  - rewrite (bind_return _ _ w1 k w1) by reflexivity.
    pose proof (completed_after_emit (Some h) "response.completed" (pl k) w1 Hc)
      as H2.
    destruct (emit_keeps_jobs (Some h) "response.completed" (pl k) w1)
      as (w2 & E2 & _).
    rewrite E2 in H2. rewrite (bind_return _ _ _ _ _ E2).
    intros [= _ <-]. exact H2.
  - rewrite (bind_raise _ _ w1 EncodeError w1) by reflexivity. discriminate.
Qed.

Lemma search_products_ends_completed query products_k reviews_per_product
    cache_ttl fingerprint_extra cache_scope bypass_cache :
  ends (completed h)
    (search_products self query (Some h) products_k reviews_per_product
       cache_ttl fingerprint_extra cache_scope bypass_cache
       (Some (finalize h)) true).
Proof.
  unfold search_products. cbv zeta.
  repeat lazymatch goal with
         | |- ends _ (bind (call_hook _ _ _) _) => apply hook_ends_completed
         | |- ends _ (bind _ _) => apply ends_bind; intros ?
         | |- ends _ (match ?x with _ => _ end) => destruct x
         end.
Qed.

End job.

Section outcome.
Context {lib : Library} {val : Validation}.

(** X20. A background job never leaves its hash pending.  Every run
    of [_execute_search_job] returns, whatever fails on the way, and the
    registry then holds the hash of the task either as completed, with a
    result and no error, or as failed, with an error. *)
Theorem job_ends_completed_or_failed (self : SearchService)
    (task : search_task) (w : World) :
  fst (_execute_search_job self task w) = Return tt
  /\ (completed (t_query_hash task) (snd (_execute_search_job self task w))
      \/ failed (t_query_hash task) (snd (_execute_search_job self task w))).
Proof.
  set (h := t_query_hash task).
  unfold _execute_search_job. fold h. unfold catch.
  match goal with
  | |- context [match ?body w with _ => _ end] =>
      assert (ends (completed h) body) as Hbody; [| destruct (body w) as [[[] | e] w1] eqn:E]
  end.
  - apply ends_bind. intros precomputed.
    destruct (if negb (t_bypass_cache task) then precomputed else None)
      as [found |].
    + apply ends_bind. intros _.
      apply (marked_ends_completed self h _ _
               (fun cache_key =>
                  Some (_summarize_response found "precomputed"
                          (t_cache_scope task) cache_key))).
    + apply ends_then_ret. apply search_products_ends_completed.
  - split; [reflexivity |]. left. exact (Hbody w tt w1 E).
  - destruct (mark_failed_fails h (exn_text e) w1) as (record & w2 & E2 & Hf).
    rewrite (bind_return _ _ _ _ _ E2). split; [reflexivity |].
    right. exact Hf.
Qed.

End outcome.

End JobOutcome.

(* ===================================================================== *)
(** ** An accepted search *)
(* ===================================================================== *)

Module SubmitAccepted.
Import PyVal Json Runtime RuntimeFacts Schemas Config SearchService SearchEndpoints.
#[local] Open Scope run_scope.

(** The request with its [query_hash] field set. *)
Definition with_hash (payload : SearchRequest) (given : option string)
  : SearchRequest :=
  {| req_query := req_query payload; req_query_hash := given;
     req_products_k := req_products_k payload;
     req_reviews_per_product := req_reviews_per_product payload;
     req_bypass_cache := req_bypass_cache payload |}.

Definition accepted (base_url h : string) : body :=
  AcceptedBody {| acc_query_hash := h;
                  acc_result_url := base_url +:+ "/search/result/" +:+ h;
                  acc_timeline_url := base_url +:+ "/timeline/" +:+ h;
                  acc_status := "pending" |}.

Section submit.
Context {lib : Library} {val : Validation}.
Variable config : Config.

(** What [submit_search] does once the request is let through. *)
Definition accept (base_url : string) (payload : SearchRequest)
    (auth_context : AuthContext) (query_hash : string) : M response :=
  let is_guest := String.eqb (Text.lower (role auth_context)) "guest" in
  mark_pending query_hash (req_query payload)
    (Some [ ("products_k", PInt (req_products_k payload));
            ("reviews_per_product", PInt (req_reviews_per_product payload));
            ("guest", PBool is_guest);
            ("subject", opt PStr (subject auth_context)) ]) ;;
  clear_timeline query_hash ;;
  add_task {| t_query := req_query payload;
              t_query_hash := query_hash;
              t_products_k := req_products_k payload;
              t_reviews_per_product := req_reviews_per_product payload;
              t_cache_ttl := if is_guest then GUEST_CACHE_TTL config
                             else CACHE_TTL_DEFAULT config;
              t_cache_scope := if is_guest then "guest" else "response";
              t_fingerprint_extra :=
                identity_extra is_guest (subject auth_context);
              t_bypass_cache := req_bypass_cache payload |} ;;
  ret (202, accepted base_url query_hash).

(** The ways a submission ends. *)
Lemma submit_cases base_url payload service adapter auth_context w :
  let is_guest := String.eqb (Text.lower (role auth_context)) "guest" in
  let computed :=
    CacheUtils.build_query_hash (req_query payload) (req_products_k payload)
      (req_reviews_per_product payload)
      (Some (identity_extra is_guest (subject auth_context))) in
  ((is_guest && negb (ENABLE_GUEST_HASHED_QUERIES config) = true
    \/ exists given h, req_query_hash payload = Some given
                       /\ computed = Some h /\ given <> h)
   /\ exists code detail,
        serve (submit_search config base_url payload service adapter
                 auth_context) w = (Return (code, DetailBody detail), w))
  \/ (computed = None
      /\ exists e,
           serve (submit_search config base_url payload service adapter
                    auth_context) w = (Raise e, w))
  \/ (exists h,
        computed = Some h
        /\ serve (submit_search config base_url payload service adapter
                    auth_context) w
           = accept base_url payload auth_context h w).
Proof.
  intros is_guest computed. subst is_guest computed.
  unfold serve, submit_search.
  destruct (String.eqb (Text.lower (role auth_context)) "guest"
            && negb (ENABLE_GUEST_HASHED_QUERIES config)) eqn:Eblock.
  { left. split; [left; reflexivity |]. eexists _, _. reflexivity. }
  destruct (CacheUtils.build_query_hash _ _ _ _) as [computed |] eqn:Ehash.
  2: { right. left. split; [reflexivity |]. eexists. reflexivity. }
  cbn [of_option].
  assert (forall query_hash,
            catch (accept base_url payload auth_context query_hash)
              (fun exc => match exc with
                          | HTTPException code detail =>
                              ret (code, DetailBody detail)
                          | _ => raise exc
                          end) w
            = accept base_url payload auth_context query_hash w) as Hserve.
  { intros query_hash. unfold catch.
    destruct (accept base_url payload auth_context query_hash w)
      as [[a | e] w1] eqn:E; [reflexivity |].
    exfalso. revert E. unfold accept, bind, mark_pending, clear_timeline,
      add_task, ask, gets, modify, log, ret. cbn. discriminate. }
  destruct (req_query_hash payload) as [[| c r] |] eqn:Egiven.
  - right. right. exists computed. split; [reflexivity |].
    rewrite <- Hserve. reflexivity.
  - destruct (String.eqb (String c r) computed) eqn:Eeq.
    + right. right. exists computed. split; [reflexivity |].
      rewrite <- Hserve. apply String.eqb_eq in Eeq.
      unfold catch, bind at 1 2. cbn [ret]. rewrite Eeq, String.eqb_refl.
      reflexivity.
    + left. split.
      * right. exists (String c r), computed. repeat split.
        apply String.eqb_neq, Eeq.
      * eexists _, _. unfold catch, bind at 1 2. cbn [ret].
        rewrite Eeq. reflexivity.
  - right. right. exists computed. split; [reflexivity |].
    rewrite <- Hserve. reflexivity.
Qed.

Lemma accept_run base_url payload auth_context h w :
  exists w' record task,
    accept base_url payload auth_context h w
    = (Return (202, accepted base_url h), w')
    /\ jobs w' !! h = Some record
    /\ SearchJobs.status record = "pending"
    /\ SearchJobs.result record = None
    /\ SearchJobs.error record = None
    /\ mem_timelines w' !! h = None
    /\ background w' = background w ++ [task]
    /\ t_query_hash task = h
    /\ t_query task = req_query payload
    /\ cache_data w' = cache_data w.
Proof.
  unfold accept, bind, mark_pending, clear_timeline, add_task, ask, gets,
    modify, log, ret. cbn.
  eexists _, _, _. split; [reflexivity |]. cbn.
  split; [apply lookup_insert_eq |].
  unfold SearchJobs.mark_pending. cbn.
  split; [destruct (jobs w !! h); reflexivity |].
  split; [destruct (jobs w !! h); reflexivity |].
  split; [destruct (jobs w !! h); reflexivity |].
  split; [apply lookup_delete_eq |].
  repeat split.
Qed.

(** X21. An accepted search is pending.  When [POST /search] answers
    202, the registry holds the returned hash as pending without result
    or error, the in-memory timeline of the hash is empty, exactly one
    task has been scheduled, for that hash and the query of the request,
    the cache is as it was, and [GET /search/result/{hash}] answers 202
    with status pending and changes nothing. *)
Theorem accepted_search_is_pending (base_url : string)
    (payload : SearchRequest) (service : SearchService)
    (adapter : option adapter_kind) (auth_context : AuthContext)
    (cache_adapter : bool) (acc : SearchAcceptedResponse) (w w' : World) :
  serve (submit_search config base_url payload service adapter auth_context) w
  = (Return (202, AcceptedBody acc), w') ->
  (exists record,
     jobs w' !! acc_query_hash acc = Some record
     /\ SearchJobs.status record = "pending"
     /\ SearchJobs.result record = None
     /\ SearchJobs.error record = None
     /\ get_search_result config (acc_query_hash acc) cache_adapter w'
        = (Return (202, envelope (acc_query_hash acc) "pending" None None
                          (SearchJobs.updated_at record)), w'))
  /\ mem_timelines w' !! acc_query_hash acc = None
  /\ (exists task,
        background w' = background w ++ [task]
        /\ t_query_hash task = acc_query_hash acc
        /\ t_query task = req_query payload)
  /\ cache_data w' = cache_data w.
Proof.
  intros Hrun.
  destruct (submit_cases base_url payload service adapter auth_context w)
    as [(_ & code & detail & E) | [(_ & e & E) | (h & _ & E)]];
    rewrite E in Hrun; try discriminate.
  destruct (accept_run base_url payload auth_context h w)
    as (w1 & record & task & Ea & Hj & Hs & Hr & He & Ht & Hb & Hh & Hq & Hc).
  rewrite Ea in Hrun. injection Hrun as <- <-. cbn [acc_query_hash].
  split.
  - exists record. repeat (split; [assumption |]).
    unfold get_search_result, get_job, SearchJobs.get_job, bind, gets, ret.
    cbn. rewrite Hj, Hs. reflexivity.
  - split; [exact Ht |]. split; [exists task; auto | exact Hc].
Qed.

(** X22. The hash that [POST /search/init] returns is the one that
    [POST /search] accepts.  When the init endpoint answers 200 with a
    hash, it has changed nothing, the canonical query it shows is that
    of [canonicalize_query], and a submission of the same query and
    parameters by the same caller is answered 202 with that hash, both
    when the body carries the hash and when it carries none. *)
Theorem init_hash_is_accepted (base_url : string) (payload : SearchRequest)
    (service : SearchService) (adapter : option adapter_kind)
    (auth_context : AuthContext) (h cq : string) (k r : Z) (w0 w : World) :
  fst (initialize_search config payload auth_context w0)
  = Return (200, InitBody h cq k r) ->
  snd (initialize_search config payload auth_context w0) = w0
  /\ cq = CacheUtils.canonicalize_query (req_query payload)
  /\ fst (serve (submit_search config base_url (with_hash payload (Some h))
                   service adapter auth_context) w)
     = Return (202, accepted base_url h)
  /\ fst (serve (submit_search config base_url (with_hash payload None)
                   service adapter auth_context) w)
     = Return (202, accepted base_url h).
Proof.
  unfold initialize_search.
  destruct (String.eqb (Text.lower (role auth_context)) "guest"
            && negb (ENABLE_GUEST_HASHED_QUERIES config)) eqn:Eblock;
    [discriminate |].
  destruct (CacheUtils.build_query_hash (req_query payload)
              (req_products_k payload) (req_reviews_per_product payload)
              (Some (identity_extra
                       (String.eqb (Text.lower (role auth_context)) "guest")
                       (subject auth_context)))) as [computed |] eqn:Ehash;
    [| discriminate].
  unfold bind. cbn [of_option ret fst snd]. intros [= <- <- <- <-].
  split; [reflexivity |]. split; [reflexivity |].
  assert (forall given,
            (given = None \/ given = Some computed) ->
            fst (serve (submit_search config base_url (with_hash payload given)
                          service adapter auth_context) w)
            = Return (202, accepted base_url computed)) as Hsubmit.
  { intros given Hgiven.
    destruct (submit_cases base_url (with_hash payload given) service
                adapter auth_context w)
      as [([Hb | (g & h' & Hg & Hh & Hne)] & _) | [(Hnone & _) | (h' & Eh & E)]];
      cbn [with_hash req_query req_products_k req_reviews_per_product
           req_query_hash] in *.
    - congruence.
    - rewrite Ehash in Hh. destruct Hgiven; congruence.
    - congruence.
    - rewrite Ehash in Eh. injection Eh as <-. rewrite E.
      destruct (accept_run base_url (with_hash payload given) auth_context
                  computed w) as (w1 & record & task & Ea & _).
      rewrite Ea. reflexivity. }
  split; apply Hsubmit; auto.
Qed.

End submit.

Import Sample SampleWorld Scenario.

(** The hash of the sample request made by the sample user, what
    [POST /search] answers it with, and the world it leaves. *)
Definition speaker_hash : string :=
  default EmptyString
    (CacheUtils.build_query_hash "Smart  Speaker" 3 3
       (Some (identity_extra false (Some "user-200")))).

Definition speaker_accepted : SearchAcceptedResponse :=
  {| acc_query_hash := speaker_hash;
     acc_result_url := "http://host" +:+ "/search/result/" +:+ speaker_hash;
     acc_timeline_url := "http://host" +:+ "/timeline/" +:+ speaker_hash;
     acc_status := "pending" |}.

Definition accepted_world : World :=
  snd (serve (submit_search caching "http://host" (request None) service
                (Some InMemoryAdapter) user) empty_world).

Lemma accepted_search_is_pending_witness :
  mem_timelines accepted_world !! speaker_hash = None
  /\ length (background accepted_world) = 1%nat
  /\ cache_data accepted_world = cache_data empty_world.
Proof.
  destruct (accepted_search_is_pending caching "http://host" (request None)
              service (Some InMemoryAdapter) user true speaker_accepted
              empty_world accepted_world)
    as (_ & Ht & (task & Hb & _) & Hc).
  - vm_compute. reflexivity.
  - split; [exact Ht |]. split; [rewrite Hb; reflexivity | exact Hc].
Defined.

Lemma init_hash_is_accepted_witness :
  fst (initialize_search caching (request None) user empty_world)
  = Return (200, InitBody speaker_hash "smart speaker" 3 3)
  /\ fst (serve (submit_search caching "http://host"
                   (with_hash (request None) (Some speaker_hash)) service
                   (Some InMemoryAdapter) user) empty_world)
     = Return (202, accepted "http://host" speaker_hash).
Proof.
  assert (fst (initialize_search caching (request None) user empty_world)
          = Return (200, InitBody speaker_hash "smart speaker" 3 3)) as Hinit
    by (vm_compute; reflexivity).
  split; [exact Hinit |].
  destruct (init_hash_is_accepted caching "http://host" (request None)
              service (Some InMemoryAdapter) user speaker_hash "smart speaker"
              3 3 empty_world empty_world Hinit) as (_ & _ & H & _).
  exact H.
Defined.

End SubmitAccepted.

(* ===================================================================== *)
(** ** The response cache *)
(* ===================================================================== *)

Module ResponseCache.
Import PyVal Json JsonFacts Runtime RuntimeFacts Schemas Config SearchService
  CatalogueFacts.
#[local] Open Scope run_scope.

Section cache.
Context {lib : Library} {val : Validation}.
Variable self : SearchService.

Lemma adapter_get_run key w :
  adapter_fault (oracle w) (tick w) = false ->
  adapter_get key w
  = (Return (fst <$> cache_data w !! key), with_tick (S (tick w)) w).
Proof.
  intros Hf. unfold adapter_get, adapter_call, bind, ask, gets, ret. cbn.
  rewrite Hf. reflexivity.
Qed.

Lemma get_cached_hit key scope (blob : Text.bytes) t response w :
  has_cache self = true ->
  adapter_fault (oracle w) (tick w) = false ->
  cache_data w !! key = Some (blob, t) ->
  decode_response blob = Some response ->
  _get_cached_response self key scope w
  = (Return (Some response), with_tick (S (tick w)) w).
Proof.
  intros Hc Hf Hdata Hdec. unfold _get_cached_response. rewrite Hc. cbn [negb].
  unfold catch, bind. rewrite (adapter_get_run key w Hf). cbn [ret].
  rewrite Hdata. cbn. rewrite Hdec. reflexivity.
Qed.

(** X23. The response cache gives back what it took.  When
    [_store_cached_response] returns true, the cache holds the blob of
    the response under the key, with the time to live raised to one
    second at least, and a [_get_cached_response] on that key that the
    adapter answers returns the response. *)
Theorem stored_response_is_read_back (key : string) (response : SearchResponse)
    (ttl : Z) (scope scope' : string) (w w' : World) :
  sound_library lib -> storable response ->
  _store_cached_response self key response ttl scope w = (Return true, w') ->
  adapter_fault (oracle w') (tick w') = false ->
  (exists blob : Text.bytes,
     CacheUtils.serialize_payload (PDict (_dump_response response)) = Some blob
     /\ cache_data w' !! key = Some (blob, Some (Z.max ttl 1))
     /\ Z.of_nat (length blob) <= max_payload_bytes self)
  /\ fst (_get_cached_response self key scope' w') = Return (Some response).
Proof.
  intros Hlib Hresp Hstore Hf.
  unfold _store_cached_response in Hstore.
  destruct (has_cache self) eqn:Hc; cbn [negb] in Hstore; [| discriminate].
  destruct (response_blob response Hlib Hresp) as (blob & Hser & _ & Hdec).
  rewrite Hser in Hstore. cbn [of_option] in Hstore.
  rewrite bind_ret in Hstore.
  destruct (max_payload_bytes self <? Z.of_nat (length blob)) eqn:Esize;
    [discriminate |].
  unfold catch, adapter_set, adapter_call, bind, ask, modify, log, ret, raise
    in Hstore. cbn in Hstore.
  destruct (adapter_fault (oracle w) (tick w)); cbn in Hstore.
  - destruct (negb (fail_open self)); discriminate.
  - injection Hstore as <-.
    assert (cache_data
              (with_history (CacheStored key :: history w)
                 (with_cache (insert key (blob, Some (Z.max ttl 1)))
                    (with_tick (S (tick w)) w))) !! key
            = Some (blob, Some (Z.max ttl 1))) as Hdata
      by (cbn; apply lookup_insert_eq).
    split.
    + exists blob. split; [exact Hser |]. split; [exact Hdata | lia].
    + rewrite (get_cached_hit key scope' blob _ response _ Hc Hf Hdata Hdec).
      reflexivity.
Qed.

Lemma emit_run_cache qh step pl w :
  exists w', _emit_timeline_event self qh step pl w = (Return tt, w')
             /\ cache_data w' = cache_data w /\ jobs w' = jobs w
             /\ background w' = background w.
Proof.
  unfold _emit_timeline_event.
  destruct qh as [[| c r] |]; try (eexists; repeat split; reflexivity).
  unfold catch, bind, publish_timeline_event, ask, gets, modify, log, ret, raise.
  cbn. destruct (publish_fault (oracle w) (tick w)); cbn.
  - eexists; repeat split; reflexivity.
  - destruct (Timeline.publish_timeline_event _ _ _ _ _ _ _ _ _ _)
      as [store ev]. cbn. eexists; repeat split; reflexivity.
Qed.

(** X24. A cache hit is the answer.  With the cache enabled and not
    bypassed, an entry under the response key that decodes to a response
    and an adapter that answers the read, [search_products] returns that
    response, whatever the embedding service, the warehouse and the
    analysis would have answered, and leaves the cache, the registry and
    the scheduled tasks as they were. *)
Theorem cache_hit_is_the_answer (pipeline : RagPipeline.RAGPipeline)
    (query : string) (query_hash : option string)
    (products_k reviews_per_product : Z) (cache_ttl : option Z)
    (fingerprint_extra : option (list (string * pyval))) (cache_scope : string)
    (flag : bool) (cache_key : string) (blob : Text.bytes) (t : option Z)
    (hit : SearchResponse) (w : World) :
  rag_pipeline self = Some pipeline ->
  cache_enabled self = true ->
  has_cache self = true ->
  CacheUtils.build_response_cache_key (schema_version self) query products_k
    reviews_per_product fingerprint_extra = Some cache_key ->
  cache_data w !! cache_key = Some (blob, t) ->
  decode_response blob = Some hit ->
  adapter_fault (oracle w) (tick w) = false ->
  exists w',
    search_products self query query_hash products_k reviews_per_product
      cache_ttl fingerprint_extra cache_scope false None flag w
    = (Return hit, w')
    /\ cache_data w' = cache_data w
    /\ jobs w' = jobs w
    /\ background w' = background w.
Proof.
  intros Hp Hen Hc Hkey Hdata Hdec Hf.
  unfold search_products, _require_pipeline. rewrite Hp, Hkey, Hen.
  cbn [of_option negb andb]. rewrite !bind_ret.
  rewrite (bind_return _ _ _ _ _
             (get_cached_hit cache_key cache_scope blob t hit w Hc Hf Hdata Hdec)).
  cbv zeta. cbn iota.
  match goal with
  | |- context [bind (_emit_timeline_event self query_hash ?step ?pl) _ ?w0] =>
      destruct (emit_run_cache query_hash step pl w0)
        as (w1 & E1 & C1 & J1 & B1)
  end.
  rewrite (bind_return _ _ _ _ _ E1). cbn [call_hook]. rewrite bind_ret.
  destruct flag.
  - match goal with
    | |- context [bind (_emit_timeline_event self query_hash ?step ?pl) _ ?w0] =>
        destruct (emit_run_cache query_hash step pl w0)
          as (w2 & E2 & C2 & J2 & B2)
    end.
    rewrite (bind_return _ _ _ _ _ E2). eexists. split; [reflexivity |].
    cbn [cache_data jobs background with_tick] in *.
    repeat split; congruence.
  - rewrite bind_ret. eexists. split; [reflexivity |].
    cbn [cache_data jobs background with_tick] in *.
    repeat split; congruence.
Qed.

End cache.

Import SearchEndpoints Sample SampleWorld Scenario.

Lemma stored_response_is_read_back_witness :
  fst (_get_cached_response service "cache:response:v1:k" "response"
         (snd (_store_cached_response service "cache:response:v1:k"
                 speaker_response 3600 "response" empty_world)))
  = Return (Some speaker_response).
Proof.
  apply (stored_response_is_read_back service "cache:response:v1:k"
           speaker_response 3600 "response" "response" empty_world _
           sample_sound speaker_storable).
  - vm_compute. reflexivity.
  - reflexivity.
Defined.

(** A cache that holds the speaker response under the key of the
    speaker search, in a world whose embedding service is down. *)
Definition speaker_key : string :=
  default EmptyString
    (CacheUtils.build_response_cache_key (schema_version service)
       "Smart  Speaker" 3 3
       (Some [("guest", PBool false); ("subject", PStr "user-200")])).

Definition engine_down : Oracle :=
  {| adapter_fault := adapter_fault calm;
     publish_fault := publish_fault calm;
     stream := stream calm;
     clock_iso := clock_iso calm;
     clock_millis := clock_millis calm;
     uuid4 := uuid4 calm;
     embedding_fault := fun _ => true;
     warehouse := fun _ => None;
     pipeline_run := pipeline_run calm |}.

Definition warm_world : World :=
  world_of engine_down [(speaker_key, (speaker_blob, Some 3600))].

Lemma cache_hit_is_the_answer_witness :
  exists w',
    search_products service "Smart  Speaker" (Some "h1") 3 3 (Some 3600)
      (Some [("guest", PBool false); ("subject", PStr "user-200")])
      "response" false None true warm_world
    = (Return speaker_response, w')
    /\ cache_data w' = cache_data warm_world
    /\ jobs w' = jobs warm_world
    /\ background w' = background warm_world.
Proof.
  apply (cache_hit_is_the_answer service pipeline "Smart  Speaker" (Some "h1")
           3 3 (Some 3600)
           (Some [("guest", PBool false); ("subject", PStr "user-200")])
           "response" true speaker_key speaker_blob (Some 3600)
           speaker_response warm_world eq_refl eq_refl eq_refl).
  - vm_compute. reflexivity.
  - vm_compute. reflexivity.
  - vm_compute. reflexivity.
  - reflexivity.
Defined.

End ResponseCache.

(* ===================================================================== *)
(** ** The in-memory cache adapter *)
(* ===================================================================== *)

Module CacheAdaptersFacts.
Import QArith_base CacheAdapters.

Lemma not_expired_before (now now' : time) (m : Z) :
  Qlt now' (Qplus now (inject_Z m)) ->
  Qle_bool (Qplus now (inject_Z m)) now' = false.
Proof.
  intros Hlt. destruct (Qle_bool _ _) eqn:E; [| reflexivity].
  apply Qle_bool_iff in E. exfalso. exact (Qlt_not_le _ _ Hlt E).
Qed.

Lemma expired_from (now now' : time) (m : Z) :
  Qle (Qplus now (inject_Z m)) now' ->
  Qle_bool (Qplus now (inject_Z m)) now' = true.
Proof. intros H. apply Qle_bool_iff, H. Qed.

(** X25. An entry lives for its time to live, and for one second at
    least.  After [set] at the time [now], a [get] of the key at a time
    before [now + max(ttl_seconds, 1)] returns the value and leaves the
    data as it is; a [get] at that time or later returns nothing and
    removes the entry, and no other key is touched by either. *)
Theorem entry_lives_for_its_ttl (now now' : time) (key : string)
    (value : Text.bytes) (ttl_seconds : Z) (d : data) :
  let stored := set now key value ttl_seconds d in
  let deadline := Qplus now (inject_Z (Z.max ttl_seconds 1)) in
  (Qlt now' deadline -> get now' key stored = (Some value, stored))
  /\ (Qle deadline now' ->
      get now' key stored = (None, base.delete key d))
  /\ (forall other, other <> key ->
        fst (get now' other stored) = fst (get now' other d)
        /\ snd (get now' key stored) !! other = d !! other).
Proof.
  intros stored deadline. subst stored deadline. unfold get, set.
  rewrite lookup_insert_eq. unfold expired. cbn [expires_at payload].
  split; [| split].
  - intros Hlt. rewrite (not_expired_before _ _ _ Hlt). reflexivity.
  - intros Hle. rewrite (expired_from _ _ _ Hle).
    rewrite delete_insert_eq. reflexivity.
  - intros other Hne. split.
    + rewrite lookup_insert_ne by congruence.
      destruct (d !! other) as [entry |]; [| reflexivity].
      destruct (match expires_at entry with
                | Some t => Qle_bool t now'
                | None => false
                end); reflexivity.
    + destruct (Qle_bool _ _); cbn [snd].
      * rewrite lookup_delete_ne by congruence.
        apply lookup_insert_ne. congruence.
      * apply lookup_insert_ne. congruence.
Qed.

(** X26. Persistent entries do not expire, deleted ones are gone, and
    [exists] is [get] without the value.  After [set_persistent] a
    [get] returns the value at every time; after [delete] a [get]
    returns nothing; and at every time and on every data [exists]
    answers true exactly when [get] returns a value, and both leave the
    same data. *)
Theorem persistent_delete_exists (now : time) (key : string)
    (value : Text.bytes) (d : data) :
  get now key (set_persistent key value d)
  = (Some value, set_persistent key value d)
  /\ get now key (delete key d) = (None, delete key d)
  /\ delete key (delete key d) = delete key d
  /\ fst (exists_ now key d) = bool_decide (is_Some (fst (get now key d)))
  /\ snd (exists_ now key d) = snd (get now key d).
Proof.
  unfold get, set_persistent, delete, exists_.
  rewrite lookup_insert_eq, lookup_delete_eq. cbn.
  split; [reflexivity |]. split; [reflexivity |].
  split; [apply delete_delete_eq |].
  destruct (d !! key) as [entry |]; [| split; reflexivity].
  destruct (expired now entry); split; reflexivity.
Qed.

(** A value stored for no time at all is still read half a second
    later, and is gone after a second. *)
Lemma entry_lives_for_its_ttl_witness :
  get (Qmake 1001 2) "k" (set (inject_Z 500) "k" [] 0 ∅)
  = (Some [], set (inject_Z 500) "k" [] 0 ∅)
  /\ get (inject_Z 501) "k" (set (inject_Z 500) "k" [] 0 ∅)
     = (None, base.delete "k" ∅).
Proof.
  destruct (entry_lives_for_its_ttl (inject_Z 500) (Qmake 1001 2) "k" [] 0 ∅)
    as (Hlive & _ & _).
  destruct (entry_lives_for_its_ttl (inject_Z 500) (inject_Z 501) "k" [] 0 ∅)
    as (_ & Hdead & _).
  split; [apply Hlive; reflexivity | apply Hdead; discriminate].
Defined.

End CacheAdaptersFacts.
